(* ===== verification/_CoqProject ===== *)
-Q . S2P
Prelude.v
GoStrings.v
Bcl.v
NetIP.v
HttpHeader.v
HttpPath.v
HttpMedia.v
NetAddresses.v
RateLimiter.v
FormatString.v
HttpContext.v
HttpAuth.v
HttpHandler.v
HttpServer.v
HttpActions.v
FcgiProtocol.v
FcgiHeader.v
FcgiConnection.v
FcgiInterrupt.v
FcgiClient.v
SpillBuffer.v
LoadBalancer.v
HttpClient.v
HttpProxy.v
TcpRelay.v
FcgiAction.v
Lifecycle.v
AccessLog.v
Service.v
HttpViews.v
ControlAPI.v
Validation.v
ConfigNet.v
ConfigHttp.v
ConfigService.v
Commands.v
