(* ===== verification/Prelude.v ===== *)
(** * Boulevard: a verification development

    Boulevard is a web server and proxy written in Go (packages under src/pkg/).
    A service has servers; a server has listeners, a protocol (HTTP or TCP) and load
    balancers.  For HTTP, a request goes through [Server.ServeHTTP]: its client and
    its host are identified, the TLS policy is applied, a tree of handlers is searched
    for one that accepts it, the rate limiter and the authentication found on the way
    are passed, and the action of the handler answers: a fixed reply, a redirection,
    files, an upstream HTTP server or a FastCGI application.  This library models
    those parts as functions on explicit states and proves what they promise.

    ** Files and the code they model

    - [Prelude] (this file): bytes, Go's integers, errors as values, the outcomes of a
      call (it returns, returns an error, panics), state passing, tactics.
    - [GoStrings], [NetIP], [HttpHeader]: what is used of Go's [strings], [bytes],
      [strconv], [net] and [net/http.Header], as executable functions with their
      lemmas.
    - [NetAddresses]: pkg/netutils addresses.go, host_address.go, ip_addresses.go,
      domain_names.go, domain_name_pattern.go, errors.go; pkg/httputils host.go and
      syntax.go.
    - [RateLimiter]: pkg/netutils/rate_limiter.go.  The state is the [RateLimiter]
      record with its maps of counter tables.
    - [FormatString]: pkg/boulevard/format_string.go.
    - [HttpPath]: pkg/protocols/http/path_pattern.go.
    - [HttpMedia]: pkg/protocols/http/media_types.go and the negotiation of
      request_context.go.
    - [HttpContext]: request_context.go, header_ops.go, http_version.go,
      access_logger.go and pkg/httputils/response_writer.go.  The state of a request
      is the record [RequestContext]; the connection is an instance of the class
      [HttpWriter], and [Wire] is the one that does what net/http does.
    - [HttpAuth]: auth.go, auth_basic.go and auth_bearer.go.
    - [HttpHandler]: handler.go and [Protocol.findHandler]; handlers are a tree.
    - [HttpServer]: server.go, pkg/netutils/tls.go.  Its [State] adds to the context
      the rate limiters and log files that requests share; actions are a parameter.
    - [HttpActions]: action_reply.go, action_redirect.go, redirections.go,
      action_serve.go, the header part of action_reverse_proxy.go and the parameters
      of action_fastcgi.go.
    - [HttpViews]: pkg/boulevard/templates.go, view.go, action_status.go, ReplyJSON: the
      rendering of pages.
    - [FcgiProtocol], [FcgiHeader], [FcgiConnection], [FcgiClient]: pkg/fastcgi: records,
      the header of responses, requests and responses on a connection, and the pool of
      connections with its critical sections as steps of threads.
    - [FcgiInterrupt]: the end of the context of a FastCGI request, which closes the
      connection under its goroutine, after any number of its calls.
    - [SpillBuffer], [LoadBalancer]: pkg/boulevard spill_buffer.go, load_balancer.go and
      health_probe.go.
    - [HttpClient]: pkg/httputils/client.go: the pool of connections to an upstream server,
      with its critical sections as steps of goroutines ([pool_step]).
    - [HttpProxy]: the rest of action_reverse_proxy.go: the clients of the action and its
      [HandleRequest], over the pool and [LoadBalancer], and the hijacking of connections.
    - [TcpRelay]: pkg/protocols/tcp and pkg/protocols/http/tcp_connection.go: the two
      goroutines of a relayed connection ([internal], [external]) and the listener of the
      protocol ([proto_step]).
    - [FcgiAction]: the rest of action_fastcgi.go: [HandleRequest] over [SpillBuffer] and
      [FcgiClient], start and stop.
    - [Lifecycle]: what handlers and the HTTP protocol take when they start and give back
      when they stop (handler.go, protocol.go, access_logger.go, server.go, action.go).
      The files, sockets, directories and goroutines of the process are the multiset
      [held] of a [World], which also has the failures of the calls to come.  What an
      action owes to its handler is the class [ActionLaws]; the built-in actions have an
      instance.
    - [AccessLog]: access_logger.go under concurrency: [Log], [Reopen] and [Close] as steps
      between the operations of the lock and the system calls, and their schedules.
    - [Service]: listeners, servers and the service (pkg/boulevard listener.go, server.go,
      protocol.go, version.go; pkg/service service.go, servers.go, load_balancers.go,
      acme.go, and the start and stop of control_api.go).  What a protocol owes to its
      server is the class [ProtocolLaws], with instances for HTTP and TCP; the goroutines
      that handle the errors of servers are the steps [error_step].
    - [ControlAPI]: the requests of the control API and its client (pkg/service).
    - [Validation]: the functions that validate the values of the configuration
      (pkg/httputils bcl.go, uris.go; pkg/netutils/email_addresses.go) and what they ensure.
    - [Bcl]: the configuration library as an interface: the class [Bcl] has the operations
      the program calls, [BclLaws] what they promise, and plain trees are an instance.
      [reading] is the monad of a call with the validation errors it adds.
    - [ConfigNet], [ConfigHttp], [ConfigService]: the methods that read the elements and the
      values of the configuration (ReadBCLElement, ReadBCLValue, ReadBCLEntry) in
      pkg/netutils, pkg/boulevard, pkg/protocols and pkg/service, [ServiceCfg.Load]
      (cfg.go), and what a configuration that was loaded gives to [Service], [Lifecycle]
      and [HttpServer].
    - [Commands]: the programs of src/cmd: the server, the client of the control API and
      the FastCGI client.

    ** What the theorems show

    - Safety of serving: no action runs without the authentication configured on the
      way to its handler ([HttpServer.ServeHTTP_protected], for the whole service of a
      request, and [HttpHandler.findHandler_keeps_authentication]); the TLS policy
      comes first ([TLS_policy_enforced]); which files a serve action reaches, also
      outside of its directory.
    - From the configuration file on: what a configuration that loads guarantees
      ([Load_sound]), that the program, whatever it is asked and whatever servers fail and
      are started again, starts or fails without a panic and gives back what it took when
      it stops, except for a panic of HTTP servers that were started again
      ([run_gives_back], with [loaded_service_gives_back]), and that every request to a
      server whose handlers reply, redirect or serve files is answered, panics included
      ([loaded_requests_answered]).
    - Selection: the handler search ([findHandler_spec]: a unique descent of the tree
      through the first handler accepted at each level), its constraints, path patterns, domain patterns, media types
      (the best one, whatever an unstable sort does), and the rotation of load balancers,
      which is fair among the healthy servers ([LoadBalancer_round_robin]; requests that
      overlap are [overlapping_requests_safe] and [overlapping_requests_refused]).
    - FastCGI: a request written is read back as its records; a response is given
      exactly the header, the body and the errors the application sent; records, name
      and value pairs and headers round trip; reading is total; a connection is owned
      by one goroutine in every interleaving; the end of the context of a request stops it
      or, between two calls, the process ([SendRequest_context]); a request to the action comes back as the
      answer of the application ([fastcgi_relays]), its errors have their statuses
      ([fastcgi_errors]), and its temporary files are always deleted; the command
      send-request prints what the application answers ([send_request_prints]).
    - Proxying: the header a request is sent upstream with, field by field and under the
      operations of the configuration ([upstream_request_header]); what a request of the
      reverse proxy gets ([reverse_proxy_relays],
      [reverse_proxy_errors], [reverse_proxy_upgrade]); in every interleaving of the
      goroutines of a pool a connection has one owner ([http_pool_exclusive]), their number
      is bounded ([http_pool_bound]) and a request gives back what it took
      ([connections_given_back]); a relay is a pair of pipes ([relay_in_order]) that
      terminates ([relay_terminates]) in a settled state, where a goroutine may be blocked
      writing to a peer that does not read ([relay_settles]).
    - Start and stop: a protocol and a service give back all they took, and their stops
      return, since what they wait for was told to end ([protocol_gives_back],
      [Service.service_gives_back]), servers start all or none
      ([startServers_all_or_none]), and a server that fails is handled by one goroutine
      until the service stops ([failing_servers_handled]).  Access logs lose no line to a
      rotation ([access_log_kept]).
    - The control API: its client gets what the server holds ([control_api_roundtrip]);
      the pages: the status page ([status_page]) and redirections ([redirect_page]).
    - Limits: requests admitted in a window never exceed the limit; the limiter does
      not depend on the iteration order of maps, if the networks it is configured for are
      distinct ([RateLimiter_Update_order]); spill buffers refine bounded buffers.
    - Round trips of the textual forms, and authentication as an equivalence with a
      description of the accepted requests.
    - Some theorems and examples state what the code does where it does not do what it
      means to; they are listed with the findings of the manifest.

    ** Conventions

    A panic is the outcome [Panic], an error [Throw]; an error keeps the message
    without the values formatted into it.  Integers are [Z] with their width written
    where the code converts or may overflow.  A loop that is not structural takes fuel
    and has a theorem that the fuel its caller gives is enough (a unit per byte of the
    input for the parsers, a record per eight bytes for the readers, one turn per
    server for the rotation).  The order in which a range loop visits a map, clocks,
    files, hash functions, compiled regular expressions, templates and Unicode case
    mapping beyond ASCII are parameters; where a theorem needs a law of one of them
    (a sort, a writer) it is a class with an instance used by the witness.  Logging to
    the server's log is not modelled: it has no effect on the state.

    ** What is left out

    What the BCL library does inside (its parser and its messages), the library of command
    lines, the ACME library, test helpers, and what the libraries of Go do with sockets and
    templates.  Requests that still run when their protocol stops are not followed: the stop
    does not wait for them (see the findings).  The failures of servers that [run_gives_back]
    covers happen before the stop begins; one handled while the stop runs is the subject of
    [handler_after_stop] and [restart_after_stop].  The pools of connections are followed
    until their client is stopped. *)

From Stdlib Require Export Ascii NArith ZArith Lia Bool.
From stdpp Require Export base tactics option list gmap strings sorting.

#[global] Set Default Proof Using "Type".
#[global] Set Default Goal Selector "!".

(** ** Byte strings

    A Go [string] and a Go [[]byte] are both finite sequences of bytes, so both
    are [list ascii]; the conversions between them are the identity. *)

Abbreviation byte := ascii (only parsing).
Abbreviation gostring := (list ascii) (only parsing).

Declare Scope go_scope.
Delimit Scope go_scope with go.

Module GoLiteral.
Inductive literal := lit_nil | lit_cons (a : ascii) (l : literal).
Fixpoint parse (l : list Byte.byte) : literal :=
  match l with
  | nil => lit_nil
  | cons b l => lit_cons (ascii_of_byte b) (parse l)
  end.
Fixpoint unparse (l : literal) : list Byte.byte :=
  match l with
  | lit_nil => nil
  | lit_cons a l => cons (byte_of_ascii a) (unparse l)
  end.
End GoLiteral.

#[warnings="-via-type-mismatch"]
String Notation list GoLiteral.parse GoLiteral.unparse
  (via GoLiteral.literal mapping
     [ [nil] => GoLiteral.lit_nil, [cons] => GoLiteral.lit_cons ]) : go_scope.

Open Scope Z_scope.

(** The length of a string or slice as a Go [int]. *)
Definition len {A} (l : list A) : Z := Z.of_nat (length l).

(** The value of a byte and Go's truncating conversion [byte(z)]. *)
Definition bval (c : byte) : Z := Z.of_N (N_of_ascii c).
Definition byte_of (z : Z) : byte := ascii_of_N (Z.to_N (z mod 256)).

(** Go's fixed-width integers: conversions to [uint8], [uint16], [uint32] and
    the wrap-around of [int64] (also [int] on the 64-bit targets). *)
Definition u8 (z : Z) : Z := z mod 2 ^ 8.
Definition u16 (z : Z) : Z := z mod 2 ^ 16.
Definition u32 (z : Z) : Z := z mod 2 ^ 32.
Definition i64 (z : Z) : Z := (z + 2 ^ 63) mod 2 ^ 64 - 2 ^ 63.

Lemma bval_range c : 0 <= bval c < 256.
Proof.
  unfold bval. pose proof (N_ascii_bounded c). lia.
Qed.

Lemma byte_of_bval c : byte_of (bval c) = c.
Proof.
  unfold byte_of. rewrite Z.mod_small by apply bval_range.
  unfold bval. rewrite N2Z.id. apply ascii_N_embedding.
Qed.

Lemma bval_byte_of z : bval (byte_of z) = z mod 256.
Proof.
  unfold bval, byte_of.
  pose proof (Z.mod_pos_bound z 256 ltac:(lia)).
  rewrite N_ascii_embedding by lia. lia.
Qed.

Lemma bval_inj c d : bval c = bval d -> c = d.
Proof. intros H. rewrite <- (byte_of_bval c), <- (byte_of_bval d). by rewrite H. Qed.

(** Properties of all 256 bytes, by evaluation. *)
Definition all_bytes : list ascii := map (fun n => ascii_of_nat n) (seq 0 256).

Lemma all_bytes_complete c : c ∈ all_bytes.
Proof.
  unfold all_bytes. apply list_elem_of_In, in_map_iff.
  exists (nat_of_ascii c). split; [apply ascii_nat_embedding|].
  apply in_seq. pose proof (nat_ascii_bounded c). lia.
Qed.

(** A property of bytes that holds of all 256 of them. *)
Lemma byte_forall (P : ascii -> bool) : forallb P all_bytes = true -> forall c, P c = true.
Proof.
  intros H c. rewrite forallb_forall in H. apply H, list_elem_of_In, all_bytes_complete.
Qed.

Ltac all_bytes_fact P c H :=
  assert (P c = true) as H by (apply (byte_forall P); vm_compute; reflexivity);
  simpl in H.

Lemma i64_small z : - 2 ^ 63 <= z < 2 ^ 63 -> i64 z = z.
Proof. intros H. unfold i64. rewrite Z.mod_small; lia. Qed.

Lemma i64_range z : - 2 ^ 63 <= i64 z < 2 ^ 63.
Proof. unfold i64. pose proof (Z.mod_pos_bound (z + 2 ^ 63) (2 ^ 64)). lia. Qed.

Lemma len_nil A : len (@nil A) = 0.
Proof. reflexivity. Qed.

Lemma len_cons A (x : A) l : len (x :: l) = len l + 1.
Proof. unfold len. simpl. lia. Qed.

Lemma len_app A (l k : list A) : len (l ++ k) = len l + len k.
Proof. unfold len. rewrite length_app. lia. Qed.

Lemma len_nonneg A (l : list A) : 0 <= len l.
Proof. unfold len. lia. Qed.

Lemma take_len_app {A} (l k : list A) : take (Z.to_nat (len l)) (l ++ k) = l.
Proof. unfold len. rewrite Nat2Z.id. apply take_app_length. Qed.

Lemma drop_len_app {A} (l k : list A) : drop (Z.to_nat (len l)) (l ++ k) = k.
Proof. unfold len. rewrite Nat2Z.id. apply drop_app_length. Qed.

(** ** Errors

    A Go [error] as the chain [errors.Is] and [errors.As] walk.  The text of a
    message is kept without the values formatted into it. *)

Inductive error :=
  | ErrVar (name : gostring)               (** a package variable, [errors.New] *)
  | Errorf (msg : gostring)                (** [fmt.Errorf] without [%w] *)
  | Wrapf (msg : gostring) (err : error)   (** [fmt.Errorf("...: %w", err)] *)
  | OpError (op : gostring) (err : error)  (** [*net.OpError] *)
  | URLError (err : error)                 (** [*url.Error] *)
  | SyscallError (errno : Z)               (** [*os.SyscallError] around an [Errno] *)
  | TLSRecordHeaderError                   (** [tls.RecordHeaderError] *)
  | AppError (status : Z) (stderr : gostring). (** [*fastcgi.AppError] *)

#[export] Instance error_eq_dec : EqDecision error.
Proof. solve_decision. Defined.

(** One step of [errors.Unwrap]. *)
Definition Unwrap (e : error) : option error :=
  match e with
  | Wrapf _ e' | OpError _ e' | URLError e' => Some e'
  | _ => None
  end.

(** [errors.Is(err, target)] for a target that is a package variable. *)
Fixpoint errors_Is (e target : error) : bool :=
  bool_decide (e = target) ||
  match e with
  | Wrapf _ e' | OpError _ e' | URLError e' => errors_Is e' target
  | _ => false
  end.

Definition io_EOF := ErrVar "io.EOF"%go.
Definition io_ErrUnexpectedEOF := ErrVar "io.ErrUnexpectedEOF"%go.
Definition net_ErrClosed := ErrVar "net.ErrClosed"%go.
Definition fs_ErrNotExist := ErrVar "fs.ErrNotExist"%go.
Definition context_Canceled := ErrVar "context.Canceled"%go.
Definition context_DeadlineExceeded := ErrVar "context.DeadlineExceeded"%go.

(** ** Outcomes

    What a Go call does: it returns, returns a non-nil error, panics, or (for a
    definition that takes fuel) is still running when the fuel is used up. *)

Inductive outcome (A : Type) :=
  | Ret (a : A)
  | Throw (e : error)
  | Panic
  | OutOfFuel.
Arguments Ret {A} a.
Arguments Throw {A} e.
Arguments Panic {A}.
Arguments OutOfFuel {A}.

#[export] Instance outcome_ret : MRet outcome := @Ret.
#[export] Instance outcome_bind : MBind outcome := λ A B f m,
  match m with
  | Ret a => f a
  | Throw e => Throw e
  | Panic => Panic
  | OutOfFuel => OutOfFuel
  end.
#[export] Instance outcome_fmap : FMap outcome := λ A B f m,
  match m with
  | Ret a => Ret (f a)
  | Throw e => Throw e
  | Panic => Panic
  | OutOfFuel => OutOfFuel
  end.

(** [if err != nil { return fmt.Errorf("msg: %w", err) }] *)
Definition wrap_error {A} (msg : gostring) (m : outcome A) : outcome A :=
  match m with
  | Throw e => Throw (Wrapf msg e)
  | m => m
  end.

(** [if err != nil { return fmt.Errorf("msg") }]: the cause is dropped. *)
Definition replace_error {A} (msg : gostring) (m : outcome A) : outcome A :=
  match m with
  | Throw _ => Throw (Errorf msg)
  | m => m
  end.

(** A call completed when it neither panicked nor ran out of fuel. *)
Definition completed {A} (m : outcome A) : Prop :=
  match m with
  | Ret _ | Throw _ => True
  | Panic | OutOfFuel => False
  end.

Definition is_ret {A} (m : outcome A) : bool :=
  match m with Ret _ => true | _ => false end.

Lemma completed_bind {A B} (m : outcome A) (f : A -> outcome B) :
  completed m -> (forall a, m = Ret a -> completed (f a)) -> completed (m ≫= f).
Proof. destruct m; simpl; auto. Qed.

Lemma completed_wrap {A} msg (m : outcome A) : completed m -> completed (wrap_error msg m).
Proof. by destruct m. Qed.

Lemma completed_replace {A} msg (m : outcome A) :
  completed m -> completed (replace_error msg m).
Proof. by destruct m. Qed.

Lemma bind_Ret {A B} (m : outcome A) (f : A -> outcome B) b :
  m ≫= f = Ret b <-> exists a, m = Ret a /\ f a = Ret b.
Proof.
  destruct m; simpl; split; try (by intros (? & ? & ?)); try done.
  - eauto.
  - intros (? & [= <-] & ?). done.
Qed.

Lemma wrap_Ret {A} msg (m : outcome A) a : wrap_error msg m = Ret a <-> m = Ret a.
Proof. destruct m; simpl; split; congruence. Qed.

Lemma replace_Ret {A} msg (m : outcome A) a : replace_error msg m = Ret a <-> m = Ret a.
Proof. destruct m; simpl; split; congruence. Qed.

Create HintDb outcome.
Create Rewrite HintDb outcome.
#[export] Hint Resolve completed_bind completed_wrap completed_replace : outcome.
#[export] Hint Rewrite @bind_Ret @wrap_Ret @replace_Ret : outcome.

(** ** State

    A method that updates the objects it reaches: the state is kept when the
    call fails or panics, as Go keeps what was written before. *)

Definition ST (S A : Type) : Type := S -> outcome A * S.

#[export] Instance st_ret {S} : MRet (ST S) := λ A a s, (Ret a, s).
#[export] Instance st_bind {S} : MBind (ST S) := λ A B f m s,
  match m s with
  | (Ret a, s') => f a s'
  | (Throw e, s') => (Throw e, s')
  | (Panic, s') => (Panic, s')
  | (OutOfFuel, s') => (OutOfFuel, s')
  end.

Definition throw {S A} (e : error) : ST S A := fun s => (Throw e, s).
Definition lift {S A} (m : outcome A) : ST S A := fun s => (m, s).
Definition gets {S A} (f : S -> A) : ST S A := fun s => (Ret (f s), s).
Definition modify {S} (f : S -> S) : ST S unit := fun s => (Ret tt, f s).

(** Run a method of a part of the state. *)
Definition zoom {S T A} (get : S -> T) (set : T -> S -> S) (m : ST T A) : ST S A := fun s =>
  let '(r, t) := m (get s) in (r, set t s).

(** [if err := m; err != nil { return fmt.Errorf("msg: %w", err) }] *)
Definition wrapST {S A} (msg : gostring) (m : ST S A) : ST S A := fun s =>
  let '(r, s') := m s in (wrap_error msg r, s').

(** [v, err := m], for a caller that looks at the error. *)
Definition attempt {S A} (m : ST S A) : ST S (error + A) := fun s =>
  match m s with
  | (Ret a, s') => (Ret (inr a), s')
  | (Throw e, s') => (Ret (inl e), s')
  | (Panic, s') => (Panic, s')
  | (OutOfFuel, s') => (OutOfFuel, s')
  end.

(** [defer f()]: [f] runs whatever the outcome of the rest; a panic of [f] replaces it. *)
Definition deferred {S A} (f : ST S unit) (m : ST S A) : ST S A := fun s =>
  match m s with
  | (OutOfFuel, s) => (OutOfFuel, s)
  | (r, s) =>
      match f s with
      | (Ret _, s) => (r, s)
      | (Throw e, s) => (Throw e, s)
      | (Panic, s) => (Panic, s)
      | (OutOfFuel, s) => (OutOfFuel, s)
      end
  end.

Lemma st_bind_ret {S A B} (m : ST S A) (f : A -> ST S B) s a s' :
  m s = (Ret a, s') -> (m ≫= f) s = f a s'.
Proof. intros H. unfold mbind, st_bind. by rewrite H. Qed.

Lemma st_bind_throw {S A B} (m : ST S A) (f : A -> ST S B) s e s' :
  m s = (Throw e, s') -> (m ≫= f) s = (Throw e, s').
Proof. intros H. unfold mbind, st_bind. by rewrite H. Qed.

Lemma wrapST_ret {S A} msg (m : ST S A) s a s' :
  m s = (Ret a, s') -> wrapST msg m s = (Ret a, s').
Proof. intros H. unfold wrapST. by rewrite H. Qed.

Lemma st_completed_bind {S A B} (m : ST S A) (f : A -> ST S B) s :
  completed (fst (m s)) ->
  (forall a s', m s = (Ret a, s') -> completed (fst (f a s'))) ->
  completed (fst ((m ≫= f) s)).
Proof.
  intros Hm Hf. unfold mbind, st_bind. destruct (m s) as [[a|e| |] s']; simpl in *; try done.
  by apply Hf.
Qed.

Lemma wrapST_completed {S A} msg (m : ST S A) s :
  completed (fst (m s)) -> completed (fst (wrapST msg m s)).
Proof. unfold wrapST. destruct (m s) as [r s']. apply completed_wrap. Qed.

(** ** Tactics *)

(** Split on the scrutinee of a match or a conditional of the goal or of a
    hypothesis, keeping its equation. *)
Ltac case_goal :=
  match goal with
  | |- context [match ?x with _ => _ end] => let E := fresh "E" in destruct x eqn:E
  end.
Ltac case_hyp H :=
  match type of H with
  | context [match ?x with _ => _ end] => let E := fresh "E" in destruct x eqn:E
  end.

(** Turn the boolean tests of the context into propositions. *)
Ltac bool_facts :=
  repeat match goal with
  | H : (_ && _) = true |- _ => apply andb_true_iff in H as [? ?]
  | H : (_ || _) = false |- _ => apply orb_false_iff in H as [? ?]
  | H : negb _ = true |- _ => apply negb_true_iff in H
  | H : negb _ = false |- _ => apply negb_false_iff in H
  | H : (_ <? _) = true |- _ => apply Z.ltb_lt in H
  | H : (_ <? _) = false |- _ => apply Z.ltb_ge in H
  | H : (_ <=? _) = true |- _ => apply Z.leb_le in H
  | H : (_ <=? _) = false |- _ => apply Z.leb_gt in H
  | H : (_ =? _) = true |- _ => apply Z.eqb_eq in H
  | H : (_ =? _) = false |- _ => apply Z.eqb_neq in H
  | H : (_ <? _)%nat = true |- _ => apply Nat.ltb_lt in H
  | H : (_ <? _)%nat = false |- _ => apply Nat.ltb_ge in H
  | H : (_ <=? _)%nat = true |- _ => apply Nat.leb_le in H
  | H : (_ <=? _)%nat = false |- _ => apply Nat.leb_gt in H
  | H : (_ =? _)%nat = true |- _ => apply Nat.eqb_eq in H
  | H : (_ =? _)%nat = false |- _ => apply Nat.eqb_neq in H
  | H : bool_decide _ = true |- _ => apply bool_decide_eq_true in H
  | H : bool_decide _ = false |- _ => apply bool_decide_eq_false in H
  end.

(** Decompose the successful run of a chain of calls. *)
Ltac inv_ret :=
  repeat first
    [ progress autorewrite with outcome in *
    | match goal with
      | H : exists _, _ |- _ => destruct H as [? H]
      | H : _ /\ _ |- _ => destruct H as [? H]
      | H : Ret _ = Ret _ |- _ => injection H as H; subst
      | H : Throw _ = Ret _ |- _ => discriminate H
      | H : Panic = Ret _ |- _ => discriminate H
      | H : OutOfFuel = Ret _ |- _ => discriminate H
      end ].

(** Prove a closed decidable proposition by evaluating its decision. *)
Ltac by_decision := refine (bool_decide_unpack _ _); vm_compute; exact I.
