(* ===== verification/GoStrings.v ===== *)
(** * Go's byte-string functions

    The functions of the Go standard packages [strings], [bytes] and [strconv]
    the program calls, on [list ascii], with the lemmas the components share.
    Case mapping of strings that hold bytes outside ASCII goes through Go's
    Unicode tables, which are a parameter ([GoUnicode]). *)

From S2P Require Import Prelude.

(** ** Searching and cutting *)

(** [bytes.IndexByte], [strings.IndexByte]; [None] is Go's [-1]. *)
Fixpoint IndexByte (s : gostring) (c : byte) : option nat :=
  match s with
  | [] => None
  | d :: s' => if bool_decide (d = c) then Some O else S <$> IndexByte s' c
  end.

(** [strings.LastIndexByte]. *)
Fixpoint LastIndexByte (s : gostring) (c : byte) : option nat :=
  match s with
  | [] => None
  | d :: s' =>
      match LastIndexByte s' c with
      | Some i => Some (S i)
      | None => if bool_decide (d = c) then Some O else None
      end
  end.

(** [bytes.IndexAny] for a set of ASCII characters. *)
Fixpoint IndexAny (s : gostring) (chars : gostring) : option nat :=
  match s with
  | [] => None
  | d :: s' => if bool_decide (d ∈ chars) then Some O else S <$> IndexAny s' chars
  end.

(** [strings.Cut] on a separator of one byte: before, after, found. *)
Definition Cut (s : gostring) (sep : byte) : gostring * gostring * bool :=
  match IndexByte s sep with
  | Some i => (take i s, drop (S i) s, true)
  | None => (s, [], false)
  end.

(** [strings.Split] on a separator of one byte. *)
Fixpoint Split (s : gostring) (sep : byte) : list gostring :=
  match s with
  | [] => [[]]
  | c :: s' =>
      if bool_decide (c = sep) then [] :: Split s' sep
      else match Split s' sep with
           | p :: ps => (c :: p) :: ps
           | [] => [[c]]
           end
  end.

(** [strings.Join]. *)
Fixpoint Join (elems : list gostring) (sep : gostring) : gostring :=
  match elems with
  | [] => []
  | [e] => e
  | e :: es => e ++ sep ++ Join es sep
  end.

(** [strings.TrimLeft], [TrimRight] and [Trim] for a set of ASCII characters. *)
Fixpoint TrimLeft (s : gostring) (cutset : gostring) : gostring :=
  match s with
  | [] => []
  | c :: s' => if bool_decide (c ∈ cutset) then TrimLeft s' cutset else s
  end.
Definition TrimRight (s : gostring) (cutset : gostring) : gostring :=
  rev (TrimLeft (rev s) cutset).
Definition Trim (s : gostring) (cutset : gostring) : gostring :=
  TrimRight (TrimLeft s cutset) cutset.

Fixpoint has_prefix (s prefix : gostring) : bool :=
  match prefix, s with
  | [], _ => true
  | p :: prefix', c :: s' => bool_decide (c = p) && has_prefix s' prefix'
  | _ :: _, [] => false
  end.

(** [strings.TrimPrefix]. *)
Definition TrimPrefix (s prefix : gostring) : gostring :=
  if has_prefix s prefix then drop (length prefix) s else s.

(** [bytes.Compare] as a three-way comparison of byte strings. *)
Fixpoint bytes_Compare (a b : gostring) : comparison :=
  match a, b with
  | [], [] => Eq
  | [], _ :: _ => Lt
  | _ :: _, [] => Gt
  | c :: a', d :: b' =>
      match Z.compare (bval c) (bval d) with
      | Eq => bytes_Compare a' b'
      | r => r
      end
  end.

(** The order of Go on strings. *)
Definition string_le (a b : gostring) : Prop := bytes_Compare a b <> Gt.

#[export] Instance string_le_dec : RelDecision string_le.
Proof. intros a b. unfold string_le. destruct (bytes_Compare a b); [left|left|right]; congruence. Defined.

Lemma bytes_Compare_refl a : bytes_Compare a a = Eq.
Proof. induction a as [|c a IH]; [done|]. cbn. by rewrite Z.compare_refl. Qed.

Lemma bytes_Compare_eq a b : bytes_Compare a b = Eq -> a = b.
Proof.
  revert b. induction a as [|c a IH]; intros [|d b]; cbn; try done.
  destruct (bval c ?= bval d) eqn:E; try done. apply Z.compare_eq in E. apply bval_inj in E as ->.
  intros H. by rewrite (IH b H).
Qed.

Lemma bytes_Compare_antisym a b : bytes_Compare b a = CompOpp (bytes_Compare a b).
Proof.
  revert b. induction a as [|c a IH]; intros [|d b]; cbn; try done.
  rewrite (Z.compare_antisym (bval c) (bval d)). destruct (bval c ?= bval d); cbn; [apply IH|done..].
Qed.

#[export] Instance string_le_total : Total string_le.
Proof.
  intros a b. unfold string_le. rewrite (bytes_Compare_antisym a b).
  destruct (bytes_Compare a b); [left|left|right]; cbn; congruence.
Qed.

#[export] Instance string_le_trans : Transitive string_le.
Proof.
  intros a. unfold string_le. induction a as [|c a IH]; intros [|d b] [|e x]; cbn; try done.
  destruct (Z.compare_spec (bval c) (bval d)) as [E1|E1|E1]; [|intros _|done];
    destruct (Z.compare_spec (bval d) (bval e)) as [E2|E2|E2]; try done.
  - assert ((bval c ?= bval e) = Eq) as -> by (apply Z.compare_eq_iff; lia). apply IH.
  - intros _ _. assert ((bval c ?= bval e) = Lt) as -> by (apply Z.compare_lt_iff; lia). done.
  - intros _. assert ((bval c ?= bval e) = Lt) as -> by (apply Z.compare_lt_iff; lia). done.
  - intros _. assert ((bval c ?= bval e) = Lt) as -> by (apply Z.compare_lt_iff; lia). done.
Qed.

(** ** Characters and case mapping *)

Definition is_digit (c : byte) : bool := (48 <=? bval c) && (bval c <=? 57).
Definition is_upper (c : byte) : bool := (65 <=? bval c) && (bval c <=? 90).
Definition is_lower (c : byte) : bool := (97 <=? bval c) && (bval c <=? 122).
Definition is_ascii (c : byte) : bool := bval c <? 128.

Definition lower_byte (c : byte) : byte := if is_upper c then byte_of (bval c + 32) else c.
Definition upper_byte (c : byte) : byte := if is_lower c then byte_of (bval c - 32) else c.

(** Go's case mapping of a string that is not ASCII. *)
Class GoUnicode := {
  unicode_ToLower : gostring -> gostring;
  unicode_ToUpper : gostring -> gostring;
  unicode_EqualFold : gostring -> gostring -> bool
}.

Section case.
Context `{GoUnicode}.

Definition ToLower (s : gostring) : gostring :=
  if forallb is_ascii s then map lower_byte s else unicode_ToLower s.
Definition ToUpper (s : gostring) : gostring :=
  if forallb is_ascii s then map upper_byte s else unicode_ToUpper s.
Definition EqualFold (s t : gostring) : bool :=
  if forallb is_ascii s && forallb is_ascii t
  then bool_decide (map lower_byte s = map lower_byte t)
  else unicode_EqualFold s t.
End case.

(** The instance that leaves such strings alone, to evaluate examples. *)
Definition ascii_only : GoUnicode :=
  {| unicode_ToLower := fun s => s; unicode_ToUpper := fun s => s;
     unicode_EqualFold := fun s t => bool_decide (s = t) |}.

(** ** Numbers *)

Fixpoint digits_value (acc : Z) (s : gostring) : option Z :=
  match s with
  | [] => Some acc
  | c :: s' => if is_digit c then digits_value (acc * 10 + (bval c - 48)) s' else None
  end.

(** [strconv.ParseInt(s, 10, 64)]; [None] for any of its errors. *)
Definition ParseInt (s : gostring) : option Z :=
  let '(neg, digits) :=
    match s with
    | c :: s' =>
        if bool_decide (c = "-"%char) then (true, s')
        else if bool_decide (c = "+"%char) then (false, s')
        else (false, s)
    | [] => (false, s)
    end in
  match digits with
  | [] => None
  | _ =>
      match digits_value 0 digits with
      | Some n =>
          let z := if (neg : bool) then - n else n in
          if (- 2 ^ 63 <=? z) && (z <? 2 ^ 63) then Some z else None
      | None => None
      end
  end.

(** [strconv.Itoa], [FormatInt(z, 10)]: the digits, least significant first,
    of a natural number, with fuel for the 20 digits of a 64-bit integer. *)
Fixpoint rev_digits (fuel : nat) (n : Z) : gostring :=
  match fuel with
  | O => []
  | S fuel' =>
      byte_of (48 + n mod 10) :: (if n <? 10 then [] else rev_digits fuel' (n / 10))
  end.
Definition Itoa (z : Z) : gostring :=
  if z <? 0 then "-"%char :: rev (rev_digits 20 (- z)) else rev (rev_digits 20 z).

(** ** Lemmas: searching and cutting *)

Create HintDb gostrings.
Create Rewrite HintDb gostrings.

Lemma IndexByte_app s1 c s2 : c ∉ s1 -> IndexByte (s1 ++ c :: s2) c = Some (length s1).
Proof.
  induction s1 as [|d s1 IH]; simpl; intros Hn.
  - by rewrite bool_decide_true.
  - apply not_elem_of_cons in Hn as [? ?].
    rewrite bool_decide_false by congruence. by rewrite IH.
Qed.

Lemma IndexByte_Some s c i :
  IndexByte s c = Some i ->
  exists s1 s2, s = s1 ++ c :: s2 /\ length s1 = i /\ c ∉ s1.
Proof.
  revert i. induction s as [|d s IH]; simpl; intros i H; [done|].
  case_bool_decide as Hd.
  - injection H as <-. subst. exists [], s. split; [done|]. split; [done|apply not_elem_of_nil].
  - destruct (IndexByte s c) as [j|] eqn:E; [|done]. injection H as <-.
    destruct (IH j eq_refl) as (s1 & s2 & -> & <- & Hn).
    exists (d :: s1), s2. split; [done|]. split; [done|].
    apply not_elem_of_cons. split; congruence.
Qed.

Lemma IndexByte_None s c : IndexByte s c = None <-> c ∉ s.
Proof.
  induction s as [|d s IH]; simpl.
  { split; [intros _; apply not_elem_of_nil | done]. }
  rewrite not_elem_of_cons. case_bool_decide as Hd.
  - split; [done|]. intros [? _]. congruence.
  - destruct (IndexByte s c); simpl.
    + split; [done|]. intros [_ Hn]. by apply IH in Hn.
    + split; [|done]. intros _. split; [congruence|]. by apply IH.
Qed.

Lemma drop_past {A} (s1 : list A) c s2 : drop (S (length s1)) (s1 ++ c :: s2) = s2.
Proof.
  replace (S (length s1)) with (length (s1 ++ [c])) by (rewrite length_app; simpl; lia).
  rewrite (cons_middle c s1 s2), (app_assoc s1). apply drop_app_length.
Qed.

Lemma Cut_found s1 c s2 : c ∉ s1 -> Cut (s1 ++ c :: s2) c = (s1, s2, true).
Proof.
  intros Hn. unfold Cut. rewrite IndexByte_app by done.
  by rewrite take_app_length, drop_past.
Qed.

Lemma Cut_not_found s c : c ∉ s -> Cut s c = (s, [], false).
Proof. intros Hn. unfold Cut. by rewrite (proj2 (IndexByte_None s c) Hn). Qed.

Lemma Split_not_nil s c : Split s c <> [].
Proof. destruct s as [|d s]; simpl; [done|]. case_bool_decide; [done|]. by destruct (Split s c). Qed.

Lemma Split_no_sep s c : c ∉ s -> Split s c = [s].
Proof.
  induction s as [|d s IH]; simpl; intros Hn; [done|].
  apply not_elem_of_cons in Hn as [? ?]. rewrite bool_decide_false by congruence.
  by rewrite IH.
Qed.

Lemma Split_app s1 c s2 : c ∉ s1 -> Split (s1 ++ c :: s2) c = s1 :: Split s2 c.
Proof.
  induction s1 as [|d s1 IH]; simpl; intros Hn.
  - by rewrite bool_decide_true.
  - apply not_elem_of_cons in Hn as [? ?]. rewrite bool_decide_false by congruence.
    by rewrite IH.
Qed.

(** No part of a split holds the separator. *)
Lemma Split_parts s c : Forall (fun p => c ∉ p) (Split s c).
Proof.
  induction s as [|d s IH]; simpl; [repeat constructor; apply not_elem_of_nil|].
  case_bool_decide as Hd; [constructor; [apply not_elem_of_nil|done]|].
  destruct (Split s c) as [|p ps] eqn:E; [by apply Split_not_nil in E|].
  inversion_clear IH. constructor; [|done].
  apply not_elem_of_cons. split; congruence.
Qed.

Lemma Join_cons e es sep : es <> [] -> Join (e :: es) sep = e ++ sep ++ Join es sep.
Proof. by destruct es. Qed.

(** Joining what was split gives the string back, ... *)
Lemma Join_Split s c : Join (Split s c) [c] = s.
Proof.
  induction s as [|d s IH]; simpl; [done|].
  case_bool_decide as Hd.
  - rewrite Join_cons by apply Split_not_nil. simpl. by rewrite IH, Hd.
  - destruct (Split s c) as [|p ps] eqn:E; [by apply Split_not_nil in E|].
    rewrite <- IH. destruct ps as [|p' ps]; [done|].
    by rewrite !Join_cons by done.
Qed.

(** ... and splitting a join of separator-free parts gives the parts back. *)
Lemma Split_Join parts c :
  parts <> [] -> Forall (fun p => c ∉ p) parts -> Split (Join parts [c]) c = parts.
Proof.
  intros Hne Hf. induction Hf as [|p ps Hp Hf IH]; [done|].
  destruct ps as [|p' ps]; [by apply Split_no_sep|].
  rewrite Join_cons by done. cbn [app]. rewrite Split_app by done.
  by rewrite IH.
Qed.

(** ** Lemmas: trimming *)

(** A string that neither starts nor ends with a byte of the cutset. *)
Definition trimmed (s cutset : gostring) : Prop :=
  match head s with Some c => c ∉ cutset | None => True end /\
  match last s with Some c => c ∉ cutset | None => True end.

#[export] Instance trimmed_dec s cutset : Decision (trimmed s cutset).
Proof. unfold trimmed. destruct (head s), (last s); apply _. Defined.

Lemma TrimLeft_suffix s cs : exists p, s = p ++ TrimLeft s cs /\ Forall (fun c => c ∈ cs) p.
Proof.
  induction s as [|c s (p & Hp & Hf)]; simpl; [by exists []|].
  case_bool_decide; [|by exists []].
  exists (c :: p). simpl. split; [congruence | by constructor].
Qed.

Lemma TrimLeft_head s cs :
  match head (TrimLeft s cs) with Some c => c ∉ cs | None => True end.
Proof. induction s as [|c s IH]; simpl; [done|]. by case_bool_decide. Qed.

Lemma TrimLeft_id s cs :
  match head s with Some c => c ∉ cs | None => True end -> TrimLeft s cs = s.
Proof. destruct s as [|c s]; simpl; [done|]. intros ?. by rewrite bool_decide_false. Qed.

Lemma head_rev {A} (l : list A) : head (rev l) = last l.
Proof.
  rewrite rev_alt. destruct l as [|x l] using rev_ind; [done|].
  rewrite rev_append_rev, rev_app_distr, last_snoc. done.
Qed.

Lemma last_rev {A} (l : list A) : last (rev l) = head l.
Proof. by rewrite <- head_rev, rev_involutive. Qed.

Lemma TrimRight_id s cs :
  match last s with Some c => c ∉ cs | None => True end -> TrimRight s cs = s.
Proof.
  intros H. unfold TrimRight. rewrite TrimLeft_id; [apply rev_involutive|].
  by rewrite head_rev.
Qed.

Lemma TrimRight_prefix s cs :
  exists p, s = TrimRight s cs ++ p /\ Forall (fun c => c ∈ cs) p.
Proof.
  unfold TrimRight. destruct (TrimLeft_suffix (rev s) cs) as (p & Hp & Hf).
  exists (rev p). split; [|by apply Forall_rev].
  rewrite <- rev_app_distr, <- Hp. by rewrite rev_involutive.
Qed.

Lemma TrimRight_last s cs :
  match last (TrimRight s cs) with Some c => c ∉ cs | None => True end.
Proof. unfold TrimRight. rewrite last_rev. apply TrimLeft_head. Qed.

Lemma Trim_trimmed s cs : trimmed (Trim s cs) cs.
Proof.
  unfold Trim, trimmed. split; [|apply TrimRight_last].
  destruct (TrimRight_prefix (TrimLeft s cs) cs) as (p & Hp & _).
  pose proof (TrimLeft_head s cs) as Hh.
  destruct (TrimRight (TrimLeft s cs) cs) as [|c t]; [done|].
  rewrite Hp in Hh. done.
Qed.

Lemma Trim_id s cs : trimmed s cs -> Trim s cs = s.
Proof.
  intros [Hh Hl]. unfold Trim. by rewrite TrimLeft_id, TrimRight_id.
Qed.

(** A trim is the middle of the string, what is cut off being in the cutset. *)
Lemma Trim_decompose s cs :
  exists p q, s = p ++ Trim s cs ++ q /\ Forall (fun c => c ∈ cs) p /\ Forall (fun c => c ∈ cs) q.
Proof.
  destruct (TrimLeft_suffix s cs) as (p & Hp & Hfp).
  destruct (TrimRight_prefix (TrimLeft s cs) cs) as (q & Hq & Hfq).
  exists p, q. split; [|done]. unfold Trim. by rewrite <- Hq.
Qed.

Lemma TrimLeft_app p s cs : Forall (fun c => c ∈ cs) p -> TrimLeft (p ++ s) cs = TrimLeft s cs.
Proof. induction 1 as [|c p Hc _ IH]; simpl; [done|]. by rewrite bool_decide_true. Qed.

(** Padding a trimmed string changes nothing to its trim. *)
Lemma Trim_pad p s q cs :
  Forall (fun c => c ∈ cs) p -> Forall (fun c => c ∈ cs) q -> trimmed s cs ->
  Trim (p ++ s ++ q) cs = s.
Proof.
  intros Hp Hq [Hh Hl]. unfold Trim. rewrite TrimLeft_app by done.
  destruct s as [|c s].
  - simpl. rewrite <- (app_nil_r q), TrimLeft_app by done. done.
  - rewrite TrimLeft_id by done. unfold TrimRight. rewrite rev_app_distr, TrimLeft_app by (by apply Forall_rev).
    rewrite TrimLeft_id, rev_involutive; [done|]. by rewrite head_rev.
Qed.

(** The ends of a join of parts are those of its first and last part. *)
Lemma Join_head part parts sep : part <> [] -> head (Join (part :: parts) sep) = head part.
Proof. intros H. destruct parts; [done|]. rewrite Join_cons by done. by destruct part. Qed.

Lemma Join_last_part parts sep part :
  last parts = Some part -> part <> [] -> last (Join parts sep) = last part.
Proof.
  intros Hl Hp. induction parts as [|p ps IH]; [done|].
  destruct ps as [|p' ps]; [by injection Hl as ->|].
  rewrite Join_cons by done. rewrite !last_app, IH by done.
  destruct (last part) eqn:E; [done|]. by apply last_None in E.
Qed.

(** ** Lemmas: numbers *)

Lemma digits_value_app a s t :
  digits_value a (s ++ t) =
  match digits_value a s with Some v => digits_value v t | None => None end.
Proof.
  revert a. induction s as [|c s IH]; intros a; simpl; [done|].
  destruct (is_digit c); [apply IH | done].
Qed.

Lemma digit_byte n : 0 <= n < 10 -> is_digit (byte_of (48 + n)) = true /\ bval (byte_of (48 + n)) = 48 + n.
Proof.
  intros H. unfold is_digit. rewrite bval_byte_of, Z.mod_small by lia. split; lia.
Qed.

Lemma rev_digits_value fuel n :
  0 <= n < 10 ^ Z.of_nat fuel ->
  digits_value 0 (rev (rev_digits fuel n)) = Some n.
Proof.
  revert n. induction fuel as [|fuel IH]; intros n Hn.
  { simpl in *. f_equal. lia. }
  cbn [rev_digits]. cbn [rev]. rewrite digits_value_app.
  pose proof (Z.mod_pos_bound n 10 ltac:(lia)) as Hm.
  destruct (digit_byte (n mod 10)) as [Hd Hv]; [lia|].
  destruct (Z.ltb_spec n 10) as [Hlt|Hge].
  - cbn [rev digits_value]. rewrite Hd, Hv. rewrite Z.mod_small by lia. f_equal. lia.
  - rewrite IH.
    + cbn [digits_value]. rewrite Hd, Hv. f_equal.
      pose proof (Z.div_mod n 10). lia.
    + rewrite Nat2Z.inj_succ, Z.pow_succ_r in Hn by lia.
      split; [apply Z.div_pos; lia|]. apply Z.div_lt_upper_bound; lia.
Qed.

Lemma rev_digits_first fuel n d ds :
  0 <= n -> rev (rev_digits fuel n) = d :: ds -> is_digit d = true.
Proof.
  revert n d ds. induction fuel as [|fuel IH]; intros n d ds Hn H; [done|].
  cbn [rev_digits rev] in H.
  pose proof (Z.mod_pos_bound n 10 ltac:(lia)) as Hm.
  destruct (Z.ltb_spec n 10) as [Hlt|Hge].
  - simpl in H. injection H as <- <-. by apply digit_byte.
  - destruct (rev (rev_digits fuel (n / 10))) as [|e es] eqn:E.
    + simpl in H. injection H as <- <-. by apply digit_byte.
    + simpl in H. injection H as -> _. eapply (IH (n / 10)); [|done].
      apply Z.div_pos; lia.
Qed.

(** A formatted non-negative [int64] parses back to itself. *)
Lemma ParseInt_Itoa z : 0 <= z < 2 ^ 63 -> ParseInt (Itoa z) = Some z.
Proof.
  intros Hz. unfold Itoa. rewrite (proj2 (Z.ltb_ge z 0)) by lia.
  pose proof (rev_digits_value 20 z ltac:(lia)) as Hv.
  unfold ParseInt. destruct (rev (rev_digits 20 z)) as [|c s] eqn:E.
  { exfalso. cbn [rev_digits rev] in E. by apply app_eq_nil in E as [_ ?]. }
  assert (is_digit c = true) as Hd by (eapply rev_digits_first; [|done]; lia).
  rewrite !bool_decide_false by (intros ->; vm_compute in Hd; done).
  rewrite Hv. rewrite (proj2 (Z.leb_le _ _)), (proj2 (Z.ltb_lt _ _)) by lia. done.
Qed.

(** The digits of a natural number are digits, hence not separators. *)
Lemma rev_digits_all fuel n : 0 <= n -> Forall (fun c => is_digit c = true) (rev_digits fuel n).
Proof.
  revert n. induction fuel as [|fuel IH]; intros n Hn; [constructor|]. cbn [rev_digits].
  pose proof (Z.mod_pos_bound n 10 ltac:(lia)). constructor; [apply digit_byte; lia|].
  destruct (n <? 10); [constructor|]. apply IH, Z.div_pos; lia.
Qed.

Lemma Itoa_digits n : 0 <= n -> Forall (fun c => is_digit c = true) (Itoa n).
Proof.
  intros Hn. unfold Itoa. rewrite (proj2 (Z.ltb_ge n 0)) by lia.
  apply Forall_forall. intros c Hc. apply list_elem_of_In, in_rev, list_elem_of_In in Hc.
  revert c Hc. apply Forall_forall, rev_digits_all; lia.
Qed.

Lemma Itoa_not_nil n : Itoa n <> [].
Proof.
  unfold Itoa. destruct (n <? 0); [done|]. cbn [rev_digits rev]. intros H.
  by apply app_eq_nil in H as [_ ?].
Qed.

Lemma not_in_digits c s :
  Forall (fun c => is_digit c = true) s -> is_digit c = false -> c ∉ s.
Proof. intros Hs Hc Hin. rewrite Forall_forall in Hs. rewrite (Hs _ Hin) in Hc. done. Qed.

Lemma LastIndexByte_app s1 c s2 : c ∉ s2 -> LastIndexByte (s1 ++ c :: s2) c = Some (length s1).
Proof.
  intros Hn. assert (LastIndexByte s2 c = None) as H2.
  { induction s2 as [|d s2 IH]; [done|]. rewrite not_elem_of_cons in Hn. simpl.
    rewrite IH by tauto. rewrite bool_decide_false; [done|]. intros ->. tauto. }
  induction s1 as [|d s1 IH]; simpl.
  - by rewrite H2, bool_decide_true.
  - by rewrite IH.
Qed.

#[export] Hint Resolve Split_not_nil Split_parts Trim_trimmed TrimLeft_head TrimRight_last : gostrings.
#[export] Hint Rewrite Join_Split : gostrings.
