(* ===== verification/Bcl.v ===== *)
(** * The configuration library

    The configuration of Boulevard is a document of the library go.n16f.net/bcl: elements
    that are blocks or entries with values.  The library is an interface here: the class
    [Bcl] has the operations the program calls, [BclLaws] what their documentation
    promises of a document without validation errors, and [tree_bcl] is an instance on
    plain trees, used by the witnesses.

    Most operations do not return their errors: they add them to the validation errors of
    the document, which are looked at once everything has been read.  The monad [reading]
    has the outcome of a call with the errors it added; an error that is returned is the
    one a method [ReadBCLElement] returns. *)

From S2P Require Import Prelude GoStrings.

(** ** Reading *)

Definition reading (A : Type) : Type := (outcome A * list error)%type.

#[export] Instance reading_ret : MRet reading := λ A a, (Ret a, []).
#[export] Instance reading_bind : MBind reading := λ A B f m,
  match m with
  | (Ret a, es) => let '(r, es') := f a in (r, es ++ es')
  | (Throw e, es) => (Throw e, es)
  | (Panic, es) => (Panic, es)
  | (OutOfFuel, es) => (OutOfFuel, es)
  end.

(** [return err] in a method [ReadBCLElement]. *)
Definition fail {A} (e : error) : reading A := (Throw e, []).

(** [for _, elt := range elts { l = append(l, f(elt)) }] *)
Fixpoint read_each {T A} (f : T -> reading A) (l : list T) : reading (list A) :=
  match l with
  | [] => mret []
  | x :: l' => a ← f x; l' ← read_each f l'; mret (a :: l')
  end.

(** A loop that changes [s]. *)
Fixpoint read_loop {T S} (f : T -> S -> reading S) (l : list T) (s : S) : reading S :=
  match l with
  | [] => mret s
  | x :: l' => s ← f x s; read_loop f l' s
  end.

(** A call that returned without a validation error. *)
Definition reads_to {A} (m : reading A) (a : A) : Prop := m = (Ret a, []).

Lemma Ret_inj {A} (a b : A) : Ret a = Ret b -> a = b.
Proof. by intros [= ->]. Qed.

Lemma reads_ret {A} (a b : A) : reads_to (mret a) b <-> a = b.
Proof. unfold reads_to. cbn. split; [by intros [= ->]|by intros ->]. Qed.

Lemma reads_fail {A} e (a : A) : reads_to (fail e) a <-> False.
Proof. done. Qed.

Lemma reads_bind {A B} (m : reading A) (f : A -> reading B) b :
  reads_to (m ≫= f) b <-> exists a, reads_to m a /\ reads_to (f a) b.
Proof.
  unfold reads_to. destruct m as [[a|e| |] es]; cbn [mbind reading_bind].
  2-4: split; [discriminate|intros (a & [=] & _)].
  destruct (f a) as [r es'] eqn:E. split.
  - intros [= -> [-> ->]%app_eq_nil]. by exists a.
  - intros (a' & [= <- ->] & Hf). rewrite E in Hf. by injection Hf as -> ->.
Qed.

Lemma reads_inj {A} (m : reading A) a b : reads_to m a -> reads_to m b -> a = b.
Proof. unfold reads_to. by intros -> [= ->]. Qed.

Lemma reads_each {T A} (f : T -> reading A) l k :
  reads_to (read_each f l) k <-> Forall2 (fun x a => reads_to (f x) a) l k.
Proof.
  revert k. induction l as [|x l IH]; intros k; cbn [read_each].
  - rewrite reads_ret. split; [by intros <-|by intros ->%Forall2_nil_inv_l].
  - rewrite reads_bind. setoid_rewrite reads_bind. setoid_rewrite reads_ret. split.
    + intros (a & Ha & k' & Hk & <-). constructor; [done|]. by apply IH.
    + intros (a & k' & Ha & Hk & ->)%Forall2_cons_inv_l. exists a. split; [done|].
      exists k'. split; [by apply IH|done].
Qed.

(** What a loop keeps. *)
Lemma reads_loop {T S} (f : T -> S -> reading S) (P : S -> Prop) l s s' :
  (forall x s1 s2, reads_to (f x s1) s2 -> P s1 -> P s2) ->
  reads_to (read_loop f l s) s' -> P s -> P s'.
Proof.
  intros Hf. revert s. induction l as [|x l IH]; intros s; cbn [read_loop].
  - by intros ->%reads_ret.
  - intros (s1 & H1 & H2)%reads_bind Hs. eapply IH; [exact H2|]. by eapply Hf.
Qed.

Lemma Forall2_Forall_r_reads {T A} (f : T -> reading A) (P : A -> Prop) l k :
  Forall2 (fun x a => reads_to (f x) a) l k -> (forall x a, reads_to (f x) a -> P a) -> Forall P k.
Proof. intros H HP. induction H; constructor; [by eapply HP|done]. Qed.

(** ** The library *)

(** The contents of values the program looks at. *)
Inductive BclContent :=
  | BclString (String Sigil : gostring)
  | BclSymbol (name : gostring)
  | BclOther.

Class Bcl := {
  Element : Type;
  BclValue : Type;
  Content : BclValue -> BclContent;

  (** Values read into variables of Go's types (both [int] and [int64] are 64-bit
      integers), of type [bcl.String], and into something that is not a pointer. *)
  read_string : BclValue -> outcome gostring;
  read_int : BclValue -> outcome Z;
  read_bool : BclValue -> outcome bool;
  read_bytes : BclValue -> outcome gostring;
  read_regexp : BclValue -> outcome (list ascii -> bool);
  read_duration : BclValue -> outcome Z;
  read_bcl_string : BclValue -> outcome (gostring * gostring);
  read_not_pointer : gostring -> BclValue -> outcome unit;

  WithValueValidation : forall {A}, (BclValue -> outcome A) -> (A -> outcome unit) -> BclValue -> outcome A;
  ValidatePositiveInteger : Z -> outcome unit;

  (** What an element is made of; the program never asks for [entry_values] and [depth]. *)
  IsBlock : Element -> bool;
  BlockName : Element -> gostring;
  NbValues : Element -> Z;
  depth : Element -> nat;             (** how deep its blocks are nested *)
  entry_values : Element -> list BclValue;
  FindBlock : Element -> gostring -> option Element;
  FindBlocks : Element -> gostring -> list Element;
  FindEntry : Element -> gostring -> option Element;
  FindEntries : Element -> gostring -> list Element;

  (** Reading of values: a target is a reader with the present content of the variable.
      The boolean tells whether there was no error. *)
  Value_at : forall {A}, Element -> Z -> (BclValue -> outcome A) -> A -> reading (bool * A);
  Values : forall {A}, Element -> (BclValue -> outcome A) -> A -> reading (bool * A);
  Values2 : forall {A B}, Element -> (BclValue -> outcome A) -> A -> (BclValue -> outcome B) -> B ->
    reading (bool * (A * B));
  Values3 : forall {A B C}, Element -> (BclValue -> outcome A) -> A -> (BclValue -> outcome B) -> B ->
    (BclValue -> outcome C) -> C -> reading (bool * (A * B * C));
  EntryValues : forall {A}, Element -> gostring -> (BclValue -> outcome A) -> A -> reading A;
  MaybeEntryValues : forall {A}, Element -> gostring -> (BclValue -> outcome A) -> A -> reading A;

  (** Reading of elements with a method [ReadBCLElement]. *)
  MaybeBlock : forall {A}, Element -> gostring -> (Element -> reading A) -> A -> reading A;
  MaybeElement : forall {A}, Element -> gostring -> (Element -> reading A) -> A -> reading A;
  Element_of : forall {A}, Element -> gostring -> (Element -> reading A) -> A -> reading A;
  Blocks : forall {A}, Element -> gostring -> (Element -> reading A) -> reading (list A);
  Extract : forall {A}, Element -> (Element -> reading A) -> A -> reading A;

  (** Validation. *)
  CheckValueOneOf : Element -> Z -> list gostring -> reading bool;
  CheckNbValues : Element -> Z -> reading bool;
  CheckMinMaxNbValues : Element -> Z -> Z -> reading bool;
  CheckElementsOneOf : Element -> list gostring -> reading bool;
  CheckElementsMaybeOneOf : Element -> list gostring -> reading bool;
  CheckEntriesOneOf : Element -> list gostring -> reading bool;
  CheckEntriesMaybeOneOf : Element -> list gostring -> reading bool;
  CheckBlocksOneOf : Element -> list gostring -> reading bool;
  CheckBlocksMaybeOneOf : Element -> list gostring -> reading bool;
  AddSimpleValidationError : Element -> gostring -> reading unit;

  bcl_Parse : gostring -> gostring -> outcome Element
}.

(** The text of a string or a symbol. *)
Definition value_text `{Bcl} (v : BclValue) : option gostring :=
  match Content v with BclString s _ => Some s | BclSymbol s => Some s | BclOther => None end.

(** The value [i] of an entry. *)
Definition value_at `{Bcl} (e : Element) (i : Z) (v : BclValue) : Prop :=
  0 <= i /\ entry_values e !! Z.to_nat i = Some v.

Definition has_block `{Bcl} (e : Element) (n : gostring) : Prop := is_Some (FindBlock e n).
Definition has_entry `{Bcl} (e : Element) (n : gostring) : Prop := is_Some (FindEntry e n).
Definition has_element `{Bcl} (e : Element) (n : gostring) : Prop := has_block e n \/ has_entry e n.

(** At most one of the names, exactly one of the names. *)
Definition at_most_one (has : gostring -> Prop) (names : list gostring) : Prop :=
  forall n n', n ∈ names -> n' ∈ names -> has n -> has n' -> n = n'.
Definition exactly_one (has : gostring -> Prop) (names : list gostring) : Prop :=
  (exists n, n ∈ names /\ has n) /\ at_most_one has names.

(** What the operations promise when they add no error. *)
Class BclLaws `{Bcl} : Prop := {
  read_string_ok v s : read_string v = Ret s -> value_text v = Some s;
  read_bcl_string_ok v s g : read_bcl_string v = Ret (s, g) -> Content v = BclString s g;
  WithValueValidation_ok {A} (r : BclValue -> outcome A) f v a :
    WithValueValidation r f v = Ret a -> r v = Ret a /\ f a = Ret tt;
  ValidatePositiveInteger_ok n : ValidatePositiveInteger n = Ret tt -> 0 < n;

  NbValues_ok e : NbValues e = len (entry_values e);
  FindBlock_ok e n b : FindBlock e n = Some b -> b ∈ FindBlocks e n;
  FindEntry_ok e n b : FindEntry e n = Some b -> b ∈ FindEntries e n;
  FindBlocks_depth e n b : b ∈ FindBlocks e n -> (depth b < depth e)%nat;

  Value_at_ok {A} e i (r : BclValue -> outcome A) old b a : reads_to (Value_at e i r old) (b, a) ->
    b = true /\ exists v, value_at e i v /\ r v = Ret a;
  Values_ok {A} e (r : BclValue -> outcome A) old b a : reads_to (Values e r old) (b, a) ->
    b = true /\ exists v, entry_values e = [v] /\ r v = Ret a;
  Values2_ok {A1 A2} e (r1 : BclValue -> outcome A1) old1 (r2 : BclValue -> outcome A2) old2 b a1 a2 :
    reads_to (Values2 e r1 old1 r2 old2) (b, (a1, a2)) ->
    b = true /\ exists v1 v2, entry_values e = [v1; v2] /\ r1 v1 = Ret a1 /\ r2 v2 = Ret a2;
  Values3_ok {A1 A2 A3} e (r1 : BclValue -> outcome A1) old1 (r2 : BclValue -> outcome A2) old2
    (r3 : BclValue -> outcome A3) old3 b a1 a2 a3 :
    reads_to (Values3 e r1 old1 r2 old2 r3 old3) (b, (a1, a2, a3)) ->
    b = true /\ exists v1 v2 v3, entry_values e = [v1; v2; v3]
      /\ r1 v1 = Ret a1 /\ r2 v2 = Ret a2 /\ r3 v3 = Ret a3;
  EntryValues_ok {A} e n (r : BclValue -> outcome A) old a : reads_to (EntryValues e n r old) a ->
    exists entry v, FindEntry e n = Some entry /\ entry_values entry = [v] /\ r v = Ret a;
  MaybeEntryValues_ok {A} e n (r : BclValue -> outcome A) old a : reads_to (MaybeEntryValues e n r old) a ->
    (FindEntry e n = None /\ a = old)
    \/ exists entry v, FindEntry e n = Some entry /\ entry_values entry = [v] /\ r v = Ret a;

  MaybeBlock_ok {A} e n (rd : Element -> reading A) old a : reads_to (MaybeBlock e n rd old) a ->
    (FindBlock e n = None /\ a = old) \/ exists b, FindBlock e n = Some b /\ reads_to (rd b) a;
  MaybeElement_ok {A} e n (rd : Element -> reading A) old a : reads_to (MaybeElement e n rd old) a ->
    (~ has_element e n /\ a = old)
    \/ exists b, (FindBlock e n = Some b \/ FindEntry e n = Some b) /\ reads_to (rd b) a;
  Element_of_ok {A} e n (rd : Element -> reading A) old a : reads_to (Element_of e n rd old) a ->
    exists b, (FindBlock e n = Some b \/ FindEntry e n = Some b) /\ reads_to (rd b) a;
  Blocks_ok {A} e n (rd : Element -> reading A) l : reads_to (Blocks e n rd) l ->
    Forall2 (fun b a => reads_to (rd b) a) (FindBlocks e n) l;
  Blocks_ext {A} e n (rd1 rd2 : Element -> reading A) :
    (forall b, b ∈ FindBlocks e n -> rd1 b = rd2 b) -> Blocks e n rd1 = Blocks e n rd2;
  Extract_ok {A} e (rd : Element -> reading A) old a : reads_to (Extract e rd old) a -> reads_to (rd e) a;

  CheckValueOneOf_ok e i names b : reads_to (CheckValueOneOf e i names) b ->
    b = true /\ exists v s, value_at e i v /\ value_text v = Some s /\ s ∈ names;
  CheckNbValues_ok e n b : reads_to (CheckNbValues e n) b -> b = true /\ NbValues e = n;
  CheckMinMaxNbValues_ok e lo hi b : reads_to (CheckMinMaxNbValues e lo hi) b ->
    b = true /\ lo <= NbValues e <= hi;
  CheckElementsOneOf_ok e names b : reads_to (CheckElementsOneOf e names) b -> exactly_one (has_element e) names;
  CheckElementsMaybeOneOf_ok e names b :
    reads_to (CheckElementsMaybeOneOf e names) b -> at_most_one (has_element e) names;
  CheckEntriesOneOf_ok e names b : reads_to (CheckEntriesOneOf e names) b -> exactly_one (has_entry e) names;
  CheckEntriesMaybeOneOf_ok e names b :
    reads_to (CheckEntriesMaybeOneOf e names) b -> at_most_one (has_entry e) names;
  CheckBlocksOneOf_ok e names b : reads_to (CheckBlocksOneOf e names) b -> exactly_one (has_block e) names;
  CheckBlocksMaybeOneOf_ok e names b :
    reads_to (CheckBlocksMaybeOneOf e names) b -> at_most_one (has_block e) names;
  AddSimpleValidationError_ok e msg u : ~ reads_to (AddSimpleValidationError e msg) u
}.

Lemma value_at_inj `{Bcl} e i v v' : value_at e i v -> value_at e i v' -> v = v'.
Proof. intros [_ H1] [_ H2]. congruence. Qed.

(** What a call that added no error did: the steps of a chain of calls, then what each
    operation of the library promises. *)
Ltac inv_reads :=
  repeat match goal with
  | H : reads_to (mbind _ _) _ |- _ => apply (proj1 (reads_bind _ _ _)) in H as (? & ? & H)
  | H : reads_to (mret _) _ |- _ => apply (proj1 (reads_ret _ _)) in H; try subst
  | H : reads_to (fail _) _ |- _ => discriminate H
  | H : reads_to (match ?x with (_, _) => _ end) _ |- _ => destruct x
  | H : reads_to (Values _ _ _) _ |- _ => apply Values_ok in H as (-> & ? & ? & ?)
  | H : reads_to (Values2 _ _ _ _ _) _ |- _ => apply Values2_ok in H as (-> & ? & ? & ? & ? & ?)
  | H : reads_to (Values3 _ _ _ _ _ _ _) _ |- _ => apply Values3_ok in H as (-> & ? & ? & ? & ? & ? & ? & ?)
  | H : reads_to (Value_at _ _ _ _) _ |- _ => apply Value_at_ok in H as (-> & ? & ? & ?)
  | H : reads_to (EntryValues _ _ _ _) _ |- _ => apply EntryValues_ok in H as (? & ? & ? & ? & ?)
  | H : reads_to (MaybeEntryValues _ _ _ _) _ |- _ =>
      apply MaybeEntryValues_ok in H as [[? ?]|(? & ? & ? & ? & ?)]; try subst
  | H : reads_to (MaybeBlock _ _ _ _) _ |- _ => apply MaybeBlock_ok in H as [[? ?]|(? & ? & H)]; try subst
  | H : reads_to (MaybeElement _ _ _ _) _ |- _ => apply MaybeElement_ok in H as [[? ?]|(? & ? & H)]; try subst
  | H : reads_to (Blocks _ _ _) _ |- _ => apply Blocks_ok in H
  | H : reads_to (read_each _ _) _ |- _ => apply (proj1 (reads_each _ _ _)) in H
  | H : WithValueValidation _ _ _ = Ret _ |- _ => apply WithValueValidation_ok in H as [? ?]
  | H : context [negb true] |- _ => cbn [negb] in H
  end.

(** One call of a chain, the last one, and all of them without what they promise. *)
Tactic Notation "read_step" hyp(H) "as" ident(x) ident(Hx) :=
  apply (proj1 (reads_bind _ _ _)) in H as (x & Hx & H).
Tactic Notation "read_end" hyp(H) := apply (proj1 (reads_ret _ _)) in H as <-.
Ltac read_steps H := repeat (apply (proj1 (reads_bind _ _ _)) in H as (? & ? & H)).

(** ** Documents as trees *)

Inductive TreeValue :=
  | VString (s sigil : gostring)
  | VSymbol (s : gostring)
  | VInt (n : Z)
  | VBool (b : bool).

#[warnings="-register-all"]
Inductive Tree :=
  | TEntry (name : gostring) (values : list TreeValue)
  | TBlock (type name : gostring) (elements : list Tree).

Definition tree_Content (v : TreeValue) : BclContent :=
  match v with VString s g => BclString s g | VSymbol s => BclSymbol s | _ => BclOther end.

Definition type_error {A} : outcome A := Throw (Errorf "invalid value type"%go).

Definition tree_string (v : TreeValue) : outcome gostring :=
  match v with VString s _ => Ret s | VSymbol s => Ret s | _ => type_error end.
Definition tree_int (v : TreeValue) : outcome Z := match v with VInt n => Ret n | _ => type_error end.
Definition tree_bool (v : TreeValue) : outcome bool := match v with VBool b => Ret b | _ => type_error end.
Definition tree_bcl_string (v : TreeValue) : outcome (gostring * gostring) :=
  match v with VString s g => Ret (s, g) | _ => type_error end.

Definition tree_children (e : Tree) : list Tree := match e with TEntry _ _ => [] | TBlock _ _ es => es end.
Definition tree_values (e : Tree) : list TreeValue := match e with TEntry _ vs => vs | TBlock _ _ _ => [] end.
Definition is_tree_block (n : gostring) (e : Tree) : bool :=
  match e with TEntry _ _ => false | TBlock t _ _ => bool_decide (t = n) end.
Definition is_tree_entry (n : gostring) (e : Tree) : bool :=
  match e with TEntry t _ => bool_decide (t = n) | TBlock _ _ _ => false end.
Definition tree_blocks (e : Tree) (n : gostring) : list Tree := List.filter (is_tree_block n) (tree_children e).
Definition tree_entries (e : Tree) (n : gostring) : list Tree := List.filter (is_tree_entry n) (tree_children e).

Fixpoint tree_depth (e : Tree) : nat :=
  match e with TEntry _ _ => 0%nat | TBlock _ _ es => S (list_max (map tree_depth es)) end.

(** An error is added and the variable keeps its content. *)
Definition record {A} (r : outcome A) (old : A) : reading A :=
  match r with
  | Ret a => (Ret a, [])
  | Throw e => (Ret old, [e])
  | Panic => (Panic, [])
  | OutOfFuel => (OutOfFuel, [])
  end.

Definition record_reading {A} (m : reading A) (old : A) : reading A :=
  match m with (Throw e, es) => (Ret old, es ++ [e]) | _ => m end.

Definition record_if (b : bool) : reading bool := (Ret b, if b then [] else [Errorf "invalid"%go]).

(** A reader of several values, in the order of the targets. *)
Definition tree_targets {A} (e : Tree) (r : list TreeValue -> outcome A) (old : A) : reading (bool * A) :=
  '(b, a) ← record ((fun a => (true, a)) <$> r (tree_values e)) (false, old); mret (b, a).

Definition tree_one {A} (r : TreeValue -> outcome A) (vs : list TreeValue) : outcome A :=
  match vs with [v] => r v | _ => Throw (Errorf "invalid number of values"%go) end.

Definition tree_FindElement (e : Tree) (n : gostring) : option Tree :=
  match head (tree_blocks e n) with Some b => Some b | None => head (tree_entries e n) end.

Definition tree_read {A} (b : option Tree) (missing : reading A) (rd : Tree -> reading A) (old : A) : reading A :=
  match b with Some b => record_reading (rd b) old | None => missing end.

Definition tree_Blocks {A} (e : Tree) (n : gostring) (rd : Tree -> reading A) : reading (list A) :=
  l ← read_each (fun b => record_reading (a ← rd b; mret (Some a)) None) (tree_blocks e n);
  mret (omap id l).

(** The names that are present. *)
Definition present {B} (find : gostring -> option B) (names : list gostring) : list gostring :=
  List.filter (fun n => bool_decide (is_Some (find n))) (remove_dups names).

Definition check_one {B} (find : gostring -> option B) (names : list gostring) : reading bool :=
  record_if (length (present find names) =? 1)%nat.
Definition check_maybe_one {B} (find : gostring -> option B) (names : list gostring) : reading bool :=
  record_if (length (present find names) <=? 1)%nat.

(** The library on trees, for a document [doc]. *)
Definition tree_bcl (doc : Tree) : Bcl := {|
  Element := Tree;
  BclValue := TreeValue;
  Content := tree_Content;
  read_string := tree_string;
  read_int := tree_int;
  read_bool := tree_bool;
  read_bytes := tree_string;
  read_regexp v := (fun re s => bool_decide (s = re)) <$> tree_string v;
  read_duration := tree_int;
  read_bcl_string := tree_bcl_string;
  read_not_pointer _ _ := Panic;
  WithValueValidation A r f v := a ← r v; _ ← f a; Ret a;
  ValidatePositiveInteger n := if n <? 1 then Throw (Errorf "integer must be positive"%go) else Ret tt;
  IsBlock e := match e with TBlock _ _ _ => true | TEntry _ _ => false end;
  BlockName e := match e with TBlock _ n _ => n | TEntry _ _ => [] end;
  NbValues e := len (tree_values e);
  depth := tree_depth;
  entry_values := tree_values;
  FindBlock e n := head (tree_blocks e n);
  FindBlocks := tree_blocks;
  FindEntry e n := head (tree_entries e n);
  FindEntries := tree_entries;
  Value_at A e i r old :=
    tree_targets e (fun vs => match vs !! Z.to_nat i with
                              | Some v => if i <? 0 then type_error else r v
                              | None => type_error
                              end) old;
  Values A e r old := tree_targets e (tree_one r) old;
  Values2 A B e r1 old1 r2 old2 :=
    tree_targets e (fun vs => match vs with
                              | [v1; v2] => a ← r1 v1; b ← r2 v2; Ret (a, b)
                              | _ => type_error
                              end) (old1, old2);
  Values3 A B C e r1 old1 r2 old2 r3 old3 :=
    tree_targets e (fun vs => match vs with
                              | [v1; v2; v3] => a ← r1 v1; b ← r2 v2; c ← r3 v3; Ret (a, b, c)
                              | _ => type_error
                              end) (old1, old2, old3);
  EntryValues A e n r old :=
    record (match head (tree_entries e n) with
            | Some entry => tree_one r (tree_values entry)
            | None => Throw (Errorf "missing entry"%go)
            end) old;
  MaybeEntryValues A e n r old :=
    match head (tree_entries e n) with
    | Some entry => record (tree_one r (tree_values entry)) old
    | None => mret old
    end;
  MaybeBlock A e n rd old := tree_read (head (tree_blocks e n)) (mret old) rd old;
  MaybeElement A e n rd old := tree_read (tree_FindElement e n) (mret old) rd old;
  Element_of A e n rd old :=
    tree_read (tree_FindElement e n) (record (Throw (Errorf "missing element"%go)) old) rd old;
  Blocks A := tree_Blocks;
  Extract A e rd old := record_reading (rd e) old;
  CheckValueOneOf e i names :=
    record_if (match tree_values e !! Z.to_nat i with
               | Some (VString s _) | Some (VSymbol s) => bool_decide (s ∈ names) && (0 <=? i)
               | _ => false
               end);
  CheckNbValues e n := record_if (len (tree_values e) =? n);
  CheckMinMaxNbValues e lo hi := record_if ((lo <=? len (tree_values e)) && (len (tree_values e) <=? hi));
  CheckElementsOneOf e := check_one (tree_FindElement e);
  CheckElementsMaybeOneOf e := check_maybe_one (tree_FindElement e);
  CheckEntriesOneOf e := check_one (fun n => head (tree_entries e n));
  CheckEntriesMaybeOneOf e := check_maybe_one (fun n => head (tree_entries e n));
  CheckBlocksOneOf e := check_one (fun n => head (tree_blocks e n));
  CheckBlocksMaybeOneOf e := check_maybe_one (fun n => head (tree_blocks e n));
  AddSimpleValidationError e msg := (Ret tt, [Errorf msg]);
  bcl_Parse _ _ := Ret doc
|}.

Lemma record_reads {A} (r : outcome A) old a : reads_to (record r old) a <-> r = Ret a.
Proof. unfold reads_to. destruct r; cbn; split; try done; congruence. Qed.

Lemma record_reading_reads {A} (m : reading A) old a : reads_to (record_reading m old) a <-> reads_to m a.
Proof.
  unfold reads_to. destruct m as [[b|e| |] es]; cbn; split; try done.
  intros [= _ H]. by destruct es.
Qed.

Lemma record_if_reads b b' : reads_to (record_if b) b' <-> b = true /\ b' = true.
Proof. unfold reads_to, record_if. destruct b; split; try naive_solver. Qed.

Lemma tree_targets_reads {A} e (r : list TreeValue -> outcome A) old b a :
  reads_to (tree_targets e r old) (b, a) <-> b = true /\ r (tree_values e) = Ret a.
Proof.
  unfold tree_targets. rewrite reads_bind. split.
  - intros ([b' a'] & H1 & H2). apply record_reads in H1. apply reads_ret in H2 as [= -> ->].
    destruct (r (tree_values e)); cbn in H1; try done. by injection H1 as <- <-.
  - intros [-> Hr]. exists (true, a). by rewrite record_reads, reads_ret, Hr.
Qed.

Lemma tree_one_reads {A} (r : TreeValue -> outcome A) vs a :
  tree_one r vs = Ret a -> exists v, vs = [v] /\ r v = Ret a.
Proof. destruct vs as [|v [|]]; cbn; try done. intros Hr. by exists v. Qed.

Lemma present_elem {B} (find : gostring -> option B) names n :
  n ∈ present find names <-> n ∈ names /\ is_Some (find n).
Proof.
  unfold present. rewrite !list_elem_of_In, filter_In, <- !list_elem_of_In, elem_of_remove_dups.
  by rewrite bool_decide_eq_true.
Qed.

Lemma length_le_1 {A} (l : list A) x y : (length l <= 1)%nat -> x ∈ l -> y ∈ l -> x = y.
Proof. destruct l as [|z [|]]; cbn; intros; set_solver by lia. Qed.

Lemma present_at_most_one {B} (find : gostring -> option B) names :
  (length (present find names) <= 1)%nat -> at_most_one (fun n => is_Some (find n)) names.
Proof.
  intros Hl n n' Hn Hn' H1 H2. eapply length_le_1; [exact Hl| |]; by apply present_elem.
Qed.

Lemma check_maybe_one_reads {B} (find : gostring -> option B) names b :
  reads_to (check_maybe_one find names) b -> at_most_one (fun n => is_Some (find n)) names.
Proof. unfold check_maybe_one. intros [H _]%record_if_reads. bool_facts. by apply present_at_most_one. Qed.

Lemma check_one_reads {B} (find : gostring -> option B) names b :
  reads_to (check_one find names) b -> exactly_one (fun n => is_Some (find n)) names.
Proof.
  unfold check_one. intros [H _]%record_if_reads. bool_facts. split; [|apply present_at_most_one; lia].
  destruct (present find names) as [|n l] eqn:E; [done|]. exists n. apply present_elem. rewrite E. by left.
Qed.

Lemma tree_read_reads {A} (b : option Tree) missing (rd : Tree -> reading A) old a :
  reads_to (tree_read b missing rd old) a ->
  (b = None /\ reads_to missing a) \/ exists e, b = Some e /\ reads_to (rd e) a.
Proof.
  destruct b as [e|]; cbn; [rewrite record_reading_reads|]; intros H; [right; by exists e|by left].
Qed.

Lemma tree_FindElement_spec e n :
  match tree_FindElement e n with
  | Some b => head (tree_blocks e n) = Some b \/ head (tree_entries e n) = Some b
  | None => head (tree_blocks e n) = None /\ head (tree_entries e n) = None
  end.
Proof. unfold tree_FindElement. destruct (head (tree_blocks e n)); [by left|]. destruct (head _); [by right|done]. Qed.

Lemma tree_FindElement_has doc e n :
  is_Some (tree_FindElement e n) <-> @has_element (tree_bcl doc) e n.
Proof.
  pose proof (tree_FindElement_spec e n) as Hs. unfold has_element, has_block, has_entry. cbn.
  destruct (tree_FindElement e n) as [b|].
  - split; [intros _|by eexists]. destruct Hs as [-> | ->]; [left|right]; by eexists.
  - destruct Hs as [-> ->]. split; [by intros [? [=]]|intros [[? [=]]|[? [=]]]].
Qed.

Lemma at_most_one_iff (P Q : gostring -> Prop) names :
  (forall n, P n <-> Q n) -> at_most_one P names -> at_most_one Q names.
Proof. unfold at_most_one. naive_solver. Qed.

Lemma exactly_one_iff (P Q : gostring -> Prop) names :
  (forall n, P n <-> Q n) -> exactly_one P names -> exactly_one Q names.
Proof. intros HPQ [(n & Hn & HP) Hm]. split; [exists n; naive_solver|by eapply at_most_one_iff]. Qed.

Lemma tree_blocks_depth e n b : b ∈ tree_blocks e n -> (tree_depth b < tree_depth e)%nat.
Proof.
  unfold tree_blocks. rewrite list_elem_of_In, filter_In. intros [Hin _].
  destruct e as [|t m es]; [done|]. cbn in *.
  assert (tree_depth b <= list_max (map tree_depth es))%nat; [|lia].
  apply (in_map tree_depth) in Hin. revert Hin. generalize (map tree_depth es) (tree_depth b). clear.
  intros l d Hd. pose proof (proj1 (list_max_le l (list_max l)) ltac:(lia)) as Hall.
  rewrite List.Forall_forall in Hall. by apply Hall.
Qed.

Lemma tree_Blocks_reads {A} e n (rd : Tree -> reading A) l :
  reads_to (tree_Blocks e n rd) l -> Forall2 (fun b a => reads_to (rd b) a) (tree_blocks e n) l.
Proof.
  unfold tree_Blocks. intros (k & Hk & <-%reads_ret)%reads_bind. apply reads_each in Hk.
  induction Hk as [|b o bs k Hb _ IH]; [constructor|].
  apply record_reading_reads, reads_bind in Hb as (a & Ha & <-%reads_ret). by constructor.
Qed.

Lemma read_each_ext {T A} (f g : T -> reading A) l :
  (forall x, x ∈ l -> f x = g x) -> read_each f l = read_each g l.
Proof.
  induction l as [|x l IH]; intros Hfg; [done|]. cbn [read_each].
  rewrite Hfg by by left. rewrite IH; [done|]. intros y Hy. apply Hfg. by right.
Qed.

Lemma head_elem {A} (l : list A) x : head l = Some x -> x ∈ l.
Proof. destruct l; [done|]. intros [= ->]. by left. Qed.

#[export] Instance tree_laws (doc : Tree) : @BclLaws (tree_bcl doc).
Proof.
  constructor; cbn.
  - intros [] s'; cbn; try done; by intros [= ->].
  - intros [] s' g'; cbn; try done; by intros [= -> ->].
  - intros A r f v a. intros (b & Hr & H)%bind_Ret. apply bind_Ret in H as ([] & Hf & [= ->]). done.
  - intros n. destruct (Z.ltb_spec n 1); [done|lia].
  - done.
  - intros e n b. apply head_elem.
  - intros e n b. apply head_elem.
  - intros e n b. apply tree_blocks_depth.
  - intros A e i r old b a [-> Hr]%tree_targets_reads. split; [done|].
    destruct (tree_values e !! Z.to_nat i) as [v|] eqn:E; [|done].
    destruct (Z.ltb_spec i 0); [done|]. by exists v.
  - intros A e r old b a [-> Hr]%tree_targets_reads. by apply tree_one_reads in Hr.
  - intros A1 A2 e r1 old1 r2 old2 b a1 a2 [-> Hr]%tree_targets_reads. split; [done|].
    destruct (tree_values e) as [|v1 [|v2 [|]]]; try done.
    apply bind_Ret in Hr as (x1 & H1 & Hr). apply bind_Ret in Hr as (x2 & H2 & [= -> ->]). by exists v1, v2.
  - intros A1 A2 A3 e r1 old1 r2 old2 r3 old3 b a1 a2 a3 [-> Hr]%tree_targets_reads. split; [done|].
    destruct (tree_values e) as [|v1 [|v2 [|v3 [|]]]]; try done.
    apply bind_Ret in Hr as (x1 & H1 & Hr). apply bind_Ret in Hr as (x2 & H2 & Hr).
    apply bind_Ret in Hr as (x3 & H3 & [= -> -> ->]). by exists v1, v2, v3.
  - intros A e n r old a Hr%record_reads. destruct (head _) as [entry|]; [|done].
    apply tree_one_reads in Hr as (v & Hv & Hr). by exists entry, v.
  - intros A e n r old a. destruct (head _) as [entry|].
    + intros Hr%record_reads. apply tree_one_reads in Hr as (v & Hv & Hr). right. by exists entry, v.
    + intros <-%reads_ret. by left.
  - intros A e n rd old a [[Hb <-%reads_ret]|H]%tree_read_reads; [by left|by right].
  - intros A e n rd old a H. pose proof (tree_FindElement_spec e n) as Hs. pose proof (tree_FindElement_has doc e n) as Hh.
    apply tree_read_reads in H as [[Hb <-%reads_ret]|(b & Hb & Hr)]; rewrite Hb in *.
    + left. split; [|done]. rewrite <- Hh. by intros [? [=]].
    + right. by exists b.
  - intros A e n rd old a H. pose proof (tree_FindElement_spec e n) as Hs.
    apply tree_read_reads in H as [[Hb [=]]|(b & Hb & Hr)]. rewrite Hb in Hs. by exists b.
  - intros A e n rd l. apply tree_Blocks_reads.
  - intros A e n rd1 rd2 Hrd. unfold tree_Blocks. f_equal. apply read_each_ext. intros b Hb. by rewrite Hrd.
  - intros A e rd old a. by rewrite record_reading_reads.
  - intros e i names b [H ->]%record_if_reads. split; [done|]. unfold value_at, value_text. cbn.
    destruct (tree_values e !! Z.to_nat i) as [[s g|s|n|b']|] eqn:E; try done; bool_facts; eexists _, s; naive_solver.
  - intros e n b [H ->]%record_if_reads. by bool_facts.
  - intros e lo hi b [H ->]%record_if_reads. by bool_facts.
  - intros e names b H%check_one_reads. eapply exactly_one_iff, H. intros n. apply tree_FindElement_has.
  - intros e names b H%check_maybe_one_reads. eapply at_most_one_iff, H. intros n. apply tree_FindElement_has.
  - intros e names b H%check_one_reads. exact H.
  - intros e names b H%check_maybe_one_reads. exact H.
  - intros e names b H%check_one_reads. exact H.
  - intros e names b H%check_maybe_one_reads. exact H.
  - intros e msg u H. done.
Qed.
