(* ===== verification/NetIP.v ===== *)
(** * Go's [net] addresses

    What the program uses of Go's [net] and [net/netip]: IP addresses and masks
    as byte slices, parsing and formatting of addresses, CIDR networks, and the
    splitting of "host:port" strings. *)

From S2P Require Import Prelude GoStrings.

(** [net.IP] and [net.IPMask] are byte slices of length 4 or 16 ([nil]: 0). *)
Abbreviation IP := (list ascii) (only parsing).
Abbreviation IPMask := (list ascii) (only parsing).

Definition IPv4len : nat := 4.
Definition IPv6len : nat := 16.

Record IPNet := mkIPNet { net_IP : IP; net_Mask : IPMask }.

#[export] Instance IPNet_eq_dec : EqDecision IPNet.
Proof. solve_decision. Defined.

Definition zero_byte : byte := byte_of 0.
Definition ff_byte : byte := byte_of 255.

Definition v4InV6Prefix : list ascii := replicate 10 zero_byte ++ [ff_byte; ff_byte].

(** [IP.To4] *)
Definition To4 (ip : IP) : option IP :=
  if bool_decide (length ip = IPv4len) then Some ip
  else if bool_decide (length ip = IPv6len) && bool_decide (take 12 ip = v4InV6Prefix)
  then Some (drop 12 ip)
  else None.

(** [IP.To16] *)
Definition To16 (ip : IP) : option IP :=
  if bool_decide (length ip = IPv4len) then Some (v4InV6Prefix ++ ip)
  else if bool_decide (length ip = IPv6len) then Some ip
  else None.

(** ** Masks *)

Definition byte_and (a b : byte) : byte := byte_of (Z.land (bval a) (bval b)).

Fixpoint CIDRMask_bytes (count : nat) (n : Z) : IPMask :=
  match count with
  | O => []
  | S count' =>
      if 8 <=? n then ff_byte :: CIDRMask_bytes count' (n - 8)
      else byte_of (Z.lxor 255 (Z.shiftr 255 n)) :: CIDRMask_bytes count' 0
  end.

(** [net.CIDRMask] *)
Definition CIDRMask (ones bits : Z) : option IPMask :=
  if negb ((bits =? 32) || (bits =? 128)) then None
  else if (ones <? 0) || (bits <? ones) then None
  else Some (CIDRMask_bytes (Z.to_nat (bits / 8)) ones).

(** [IP.Mask]; [None] is Go's nil. *)
Definition Mask (ip : IP) (mask : IPMask) : option IP :=
  let mask :=
    if bool_decide (length mask = IPv6len) && bool_decide (length ip = IPv4len)
       && forallb (fun c => bool_decide (c = ff_byte)) (take 12 mask)
    then drop 12 mask else mask in
  let ip :=
    if bool_decide (length mask = IPv4len) && bool_decide (length ip = IPv6len)
       && bool_decide (take 12 ip = v4InV6Prefix)
    then drop 12 ip else ip in
  if bool_decide (length ip = length mask) then Some (zip_with byte_and ip mask) else None.

(** The number of leading one bits of a byte when the other bits are zero. *)
Definition byte_prefix_length (c : byte) : option Z :=
  find (fun n => bval c =? Z.lxor 255 (Z.shiftr 255 n)) [0; 1; 2; 3; 4; 5; 6; 7; 8].

(** [simpleMaskLength]; [None] is Go's -1. *)
Fixpoint simpleMaskLength (mask : IPMask) : option Z :=
  match mask with
  | [] => Some 0
  | v :: mask' =>
      if bool_decide (v = ff_byte) then (fun n => n + 8) <$> simpleMaskLength mask'
      else match byte_prefix_length v with
           | Some n => if forallb (fun c => bool_decide (c = zero_byte)) mask' then Some n else None
           | None => None
           end
  end.

(** [IPMask.Size]: the number of leading ones. *)
Definition Mask_Size (mask : IPMask) : Z := default 0 (simpleMaskLength mask).

(** [networkNumberAndMask] *)
Definition networkNumberAndMask (n : IPNet) : option (IP * IPMask) :=
  match
    match To4 (net_IP n) with
    | Some ip => Some ip
    | None => if bool_decide (length (net_IP n) = IPv6len) then Some (net_IP n) else None
    end
  with
  | None => None
  | Some ip =>
      let m := net_Mask n in
      if bool_decide (length m = IPv4len) then
        (if bool_decide (length ip = IPv4len) then Some (ip, m) else None)
      else if bool_decide (length m = IPv6len) then
        (if bool_decide (length ip = IPv4len) then Some (ip, drop 12 m) else Some (ip, m))
      else None
  end.

(** [IPNet.Contains] *)
Definition Contains (n : IPNet) (ip : IP) : bool :=
  match networkNumberAndMask n with
  | None => bool_decide (length (default ip (To4 ip)) = 0%nat)
  | Some (nn, m) =>
      let ip := default ip (To4 ip) in
      bool_decide (length ip = length nn) &&
      bool_decide (zip_with byte_and nn m = zip_with byte_and ip m)
  end.

(** ** Formatting *)

Definition hex_digit (n : Z) : byte := if n <? 10 then byte_of (48 + n) else byte_of (87 + n).

(** [hex.EncodeToString] *)
Definition hex_string (b : list ascii) : gostring :=
  b ≫= (fun c => [hex_digit (bval c / 16); hex_digit (bval c mod 16)]).

(** [appendHex] of a 16-bit group: no leading zeros. *)
Definition hex_group (v : Z) : gostring :=
  let ds := [v / 4096; v / 256 mod 16; v / 16 mod 16] in
  map hex_digit ((fix strip l := match l with
                  | [] => []
                  | d :: l' => if d =? 0 then strip l' else l
                  end) ds ++ [v mod 16]).

Fixpoint groups16 (ip : IP) : list Z :=
  match ip with
  | a :: b :: ip' => bval a * 256 + bval b :: groups16 ip'
  | _ => []
  end.

Fixpoint leading_zeros (gs : list Z) : nat :=
  match gs with
  | g :: gs' => if g =? 0 then S (leading_zeros gs') else O
  | [] => O
  end.

(** The first longest run of at least two zero groups: its start and length. *)
Fixpoint zero_run (i : nat) (gs : list Z) (best : nat * nat) : nat * nat :=
  match gs with
  | [] => best
  | _ :: gs' =>
      let l := leading_zeros gs in
      zero_run (S i) gs'
        (if (2 <=? l)%nat && (snd best <? l)%nat then (i, l) else best)
  end.

Definition string6 (ip : IP) : gostring :=
  let gs := groups16 ip in
  let '(start, n) := zero_run 0 gs (O, O) in
  let part l := Join (map hex_group l) ":"%go in
  if (n =? 0)%nat then part gs
  else part (take start gs) ++ "::"%go ++ part (drop (start + n) gs).

(** [IP.String] *)
Definition IP_String (ip : IP) : gostring :=
  match ip with
  | [] => "<nil>"%go
  | _ =>
      if negb (bool_decide (length ip = IPv4len) || bool_decide (length ip = IPv6len))
      then "?"%go ++ hex_string ip
      else match To4 ip with
           | Some ip4 => Join (map (fun c => Itoa (bval c)) ip4) "."%go
           | None => string6 ip
           end
  end.

(** [IPNet.String] *)
Definition IPNet_String (n : IPNet) : gostring :=
  match networkNumberAndMask n with
  | None => "<nil>"%go
  | Some (nn, m) =>
      match simpleMaskLength m with
      | None => IP_String nn ++ "/"%go ++ hex_string m
      | Some l => IP_String nn ++ "/"%go ++ Itoa l
      end
  end.

(** ** Parsing *)

Definition parse_octet (s : gostring) : option Z :=
  match s with
  | [] => None
  | c :: s' =>
      if bool_decide (c = "0"%char) && negb (bool_decide (s' = [])) then None
      else match digits_value 0 s with
           | Some v => if v <=? 255 then Some v else None
           | None => None
           end
  end.

(** [parseIPv4Fields]: four decimal fields without leading zeros. *)
Definition parseIPv4Fields (s : gostring) : option (list ascii) :=
  match map parse_octet (Split s "."%char) with
  | [Some a; Some b; Some c; Some d] => Some [byte_of a; byte_of b; byte_of c; byte_of d]
  | _ => None
  end.

Definition hex_value (c : byte) : option Z :=
  if is_digit c then Some (bval c - 48)
  else if (97 <=? bval c) && (bval c <=? 102) then Some (bval c - 87)
  else if (65 <=? bval c) && (bval c <=? 70) then Some (bval c - 55)
  else None.

Fixpoint take_hex (s : gostring) : gostring :=
  match s with
  | c :: s' => match hex_value c with Some _ => c :: take_hex s' | None => [] end
  | [] => []
  end.

Definition hex_number (s : gostring) : Z :=
  fold_left (fun acc c => acc * 16 + default 0 (hex_value c)) s 0.

(** The end of [parseIPv6]: expand the ellipsis. *)
Definition expand_ellipsis (ip : list ascii) (ellipsis : option nat) : option (list ascii) :=
  if (length ip <? 16)%nat then
    match ellipsis with
    | None => None
    | Some e => Some (take e ip ++ replicate (16 - length ip) zero_byte ++ drop e ip)
    end
  else match ellipsis with
       | None => Some ip
       | Some _ => None
       end.

(** The group loop of [parseIPv6]; each turn adds two bytes to [ip], so eight
    units of fuel reach the end of the sixteen-byte address. *)
Fixpoint parse_groups (fuel : nat) (s : gostring) (ip : list ascii) (ellipsis : option nat)
  : option (list ascii) :=
  match fuel with
  | O => match s with [] => expand_ellipsis ip ellipsis | _ => None end
  | S fuel' =>
      let digits := take_hex s in
      let rest := drop (length digits) s in
      if bool_decide (digits = []) || (4 <? length digits)%nat then None
      else
        let acc := hex_number digits in
        let add := ip ++ [byte_of (acc / 256); byte_of acc] in
        match rest with
        | [] => expand_ellipsis add ellipsis
        | c :: rest' =>
            if bool_decide (c = "."%char) then
              if (bool_decide (ellipsis = None) && negb (length ip =? 12)%nat)
                 || (16 <? length ip + 4)%nat then None
              else match parseIPv4Fields s with
                   | Some v4 => expand_ellipsis (ip ++ v4) ellipsis
                   | None => None
                   end
            else if negb (bool_decide (c = ":"%char)) then None
            else match rest' with
                 | [] => None
                 | c2 :: rest2 =>
                     if bool_decide (c2 = ":"%char) then
                       match ellipsis with
                       | Some _ => None
                       | None =>
                           match rest2 with
                           | [] => expand_ellipsis add (Some (length add))
                           | _ => parse_groups fuel' rest2 add (Some (length add))
                           end
                       end
                     else parse_groups fuel' rest' add ellipsis
                 end
        end
  end.

Definition parseIPv6 (s : gostring) : option (list ascii) :=
  if has_prefix s "::"%go then
    match drop 2 s with
    | [] => Some (replicate 16 zero_byte)
    | s' => parse_groups 8 s' [] (Some O)
    end
  else parse_groups 8 s [] None.

(** [net.ParseIP]: always a 16-byte address; [None] is Go's nil.  A zone makes
    it fail, whatever precedes the '%'. *)
Definition ParseIP (s : gostring) : option IP :=
  match IndexAny s ".:%"%go with
  | None => None
  | Some i =>
      match s !! i with
      | Some c =>
          if bool_decide (c = "."%char) then (fun v4 => v4InV6Prefix ++ v4) <$> parseIPv4Fields s
          else if bool_decide (c = ":"%char) then
            (if bool_decide ("%"%char ∈ s) then None else parseIPv6 s)
          else None
      | None => None
      end
  end.

(** [dtoi] of package net, on a string it consumes whole. *)
Definition dtoi (s : gostring) : option Z :=
  match s with
  | [] => None
  | _ => n ← digits_value 0 s; if n <? 0xFFFFFF then Some n else None
  end.

(** The length of the address [netip.ParseAddr] reads, for a string it accepts: 32 when a
    period comes before any colon. *)
Definition addr_BitLen (s : gostring) : Z :=
  match i ← IndexAny s ".:%"%go; s !! i with
  | Some c => if bool_decide (c = "."%char) then 32 else 128
  | None => 128
  end.

(** [net.ParseCIDR] *)
Definition ParseCIDR (s : gostring) : option (IP * IPNet) :=
  let '(addr, mask, found) := Cut s "/"%char in
  if negb found then None
  else
    ip ← ParseIP addr;
    n ← dtoi mask;
    if addr_BitLen addr <? n then None
    else
      let m := default [] (CIDRMask n (addr_BitLen addr)) in
      Some (ip, mkIPNet (default [] (Mask ip m)) m).

(** Every parsed address has sixteen bytes, IPv4 addresses included. *)
Lemma parseIPv4Fields_length s v4 : parseIPv4Fields s = Some v4 -> length v4 = 4%nat.
Proof. unfold parseIPv4Fields. intros H. repeat case_hyp H; try done. by injection H as <-. Qed.

Lemma expand_ellipsis_length ip e r :
  (length ip <= 16)%nat -> expand_ellipsis ip e = Some r -> length r = 16%nat.
Proof.
  unfold expand_ellipsis. intros Hl H. destruct (Nat.ltb_spec (length ip) 16).
  - destruct e as [e|]; [|done]. injection H as <-.
    rewrite !length_app, length_take, length_replicate, length_drop. lia.
  - destruct e; [done|]. injection H as <-. lia.
Qed.

Lemma parse_groups_length fuel s ip e r :
  (length ip + 2 * fuel = 16)%nat -> parse_groups fuel s ip e = Some r -> length r = 16%nat.
Proof.
  revert s ip e. induction fuel as [|fuel IH]; intros s ip e Hf H; simpl in H.
  { destruct s; [|done]. eapply expand_ellipsis_length; [|done]. lia. }
  repeat case_hyp H; try done.
  all: try (eapply expand_ellipsis_length; [|done]; rewrite length_app; simpl; lia).
  - eapply expand_ellipsis_length; [|done].
    match goal with Hv : parseIPv4Fields _ = Some _ |- _ => apply parseIPv4Fields_length in Hv end.
    rewrite length_app. bool_facts. lia.
  - eapply IH; [|done]. rewrite length_app. simpl. lia.
  - eapply IH; [|done]. rewrite length_app. simpl. lia.
Qed.

Lemma ParseIP_length s ip : ParseIP s = Some ip -> length ip = IPv6len.
Proof.
  unfold ParseIP. intros H. repeat case_hyp H; try done.
  - destruct (parseIPv4Fields s) as [v4|] eqn:Hv; [|done].
    apply parseIPv4Fields_length in Hv. simpl in H. injection H as <-. simpl. by rewrite Hv.
  - unfold parseIPv6 in H.
    destruct (has_prefix _ _); [|by eapply parse_groups_length in H].
    destruct (drop 2 _); [by injection H as <-|by eapply parse_groups_length in H].
Qed.

(** [net.SplitHostPort] *)
Definition SplitHostPort (hostport : gostring) : outcome (gostring * gostring) :=
  match LastIndexByte hostport ":"%char with
  | None => Throw (Errorf "missing port in address"%go)
  | Some i =>
      let finish host j k :=
        if bool_decide ("["%char ∈ drop j hostport) then
          Throw (Errorf "unexpected '[' in address"%go)
        else if bool_decide ("]"%char ∈ drop k hostport) then
          Throw (Errorf "unexpected ']' in address"%go)
        else Ret (host, drop (S i) hostport) in
      if bool_decide (head hostport = Some "["%char) then
        match IndexByte hostport "]"%char with
        | None => Throw (Errorf "missing ']' in address"%go)
        | Some e =>
            if (S e =? length hostport)%nat then Throw (Errorf "missing port in address"%go)
            else if (S e =? i)%nat then finish (take (e - 1) (drop 1 hostport)) 1%nat (S e)
            else if bool_decide (hostport !! S e = Some ":"%char)
            then Throw (Errorf "too many colons in address"%go)
            else Throw (Errorf "missing port in address"%go)
        end
      else
        let host := take i hostport in
        if bool_decide (":"%char ∈ host) then Throw (Errorf "too many colons in address"%go)
        else finish host O O
  end.

(** [net.JoinHostPort] *)
Definition JoinHostPort (host port : gostring) : gostring :=
  if bool_decide (":"%char ∈ host) then "["%go ++ host ++ "]:"%go ++ port
  else host ++ ":"%go ++ port.

(** [SplitHostPort] of what [JoinHostPort] builds. *)
Lemma SplitHostPort_completed hostport : completed (SplitHostPort hostport).
Proof. unfold SplitHostPort. repeat case_match; done. Qed.

Lemma SplitHostPort_plain host port :
  Forall (fun c => c ∉ host) ":[]"%go -> Forall (fun c => c ∉ port) ":[]"%go ->
  SplitHostPort (host ++ ":"%char :: port) = Ret (host, port).
Proof.
  rewrite !Forall_cons. intros (Hh1 & Hh2 & Hh3 & _) (Hp1 & Hp2 & Hp3 & _).
  unfold SplitHostPort. rewrite LastIndexByte_app by done.
  rewrite (bool_decide_false (head _ = _)).
  2:{ destruct host as [|c host]; [done|]. intros [= ->]. apply Hh2. by left. }
  rewrite take_app_length. rewrite (bool_decide_false (_ ∈ host)) by done.
  rewrite !drop_0. rewrite (bool_decide_false ("["%char ∈ _)).
  2:{ rewrite elem_of_app, elem_of_cons. intros [?|[?|?]]; done. }
  rewrite (bool_decide_false ("]"%char ∈ _)).
  2:{ rewrite elem_of_app, elem_of_cons. intros [?|[?|?]]; done. }
  by rewrite drop_past.
Qed.

Lemma SplitHostPort_bracketed host port :
  ("["%char ∉ host) -> ("]"%char ∉ host) -> Forall (fun c => c ∉ port) ":[]"%go ->
  SplitHostPort ("["%char :: host ++ "]"%char :: ":"%char :: port) = Ret (host, port).
Proof.
  rewrite !Forall_cons. intros Hh1 Hh2 (Hp1 & Hp2 & Hp3 & _). unfold SplitHostPort.
  replace ("["%char :: host ++ "]"%char :: ":"%char :: port)
    with (("["%char :: host ++ ["]"%char]) ++ ":"%char :: port)
    by (cbn [app]; by rewrite <- app_assoc).
  rewrite LastIndexByte_app by done. cbn [app head]. rewrite bool_decide_true by done.
  replace ("["%char :: (host ++ ["]"%char]) ++ ":"%char :: port)
    with (("["%char :: host) ++ "]"%char :: ":"%char :: port) by (cbn [app]; by rewrite <- app_assoc).
  rewrite IndexByte_app by (rewrite not_elem_of_cons; done).
  cbn [length]. rewrite !length_app. cbn [length].
  rewrite (proj2 (Nat.eqb_neq _ _)) by lia. rewrite (proj2 (Nat.eqb_eq _ _)) by lia.
  cbn [app drop]. rewrite !drop_0, Nat.sub_succ, Nat.sub_0_r, take_app_length.
  rewrite (bool_decide_false ("["%char ∈ _)).
  2:{ rewrite elem_of_app, !elem_of_cons. intros [?|[?|[?|?]]]; done. }
  rewrite (bool_decide_false ("]"%char ∈ _)).
  2:{ change (drop (S (length host)) (host ++ "]"%char :: ":"%char :: port)) with
        (drop (S (length host)) (host ++ "]"%char :: ":"%char :: port)).
      rewrite drop_past, !elem_of_cons. intros [?|?]; done. }
  f_equal. f_equal. replace (length host + 1)%nat with (S (length host)) by lia.
  cbn [drop]. replace (host ++ "]"%char :: ":"%char :: port) with ((host ++ ["]"%char]) ++ ":"%char :: port)
    by (by rewrite <- app_assoc).
  replace (S (length host)) with (length (host ++ ["]"%char])) by (rewrite length_app; simpl; lia).
  apply drop_past.
Qed.

Example ParseIP_v4 : IP_String <$> ParseIP "127.0.0.1"%go = Some "127.0.0.1"%go.
Proof. vm_compute. reflexivity. Qed.
Example ParseIP_v6 :
  IP_String <$> ParseIP "2600:1406:BC00:53::b81e:94ce"%go
  = Some "2600:1406:bc00:53::b81e:94ce"%go.
Proof. vm_compute. reflexivity. Qed.
Example ParseIP_loopback : IP_String <$> ParseIP "::1"%go = Some "::1"%go.
Proof. vm_compute. reflexivity. Qed.
Example ParseIP_mapped : IP_String <$> ParseIP "::ffff:1.2.3.4"%go = Some "1.2.3.4"%go.
Proof. vm_compute. reflexivity. Qed.
Example ParseIP_bad : map ParseIP ["127"%go; "1.2.3"%go; "01.2.3.4"%go; "1::2::3"%go; "::1%eth0"%go; "1:2:3:4:5:6:7:8:9"%go]
  = [None; None; None; None; None; None].
Proof. vm_compute. reflexivity. Qed.
Example SplitHostPort_v6 : SplitHostPort "[::1]:80"%go = Ret ("::1"%go, "80"%go).
Proof. vm_compute. reflexivity. Qed.
Example ParseCIDR_v4 : (fun n => IPNet_String (snd n)) <$> ParseCIDR "10.1.2.3/8"%go = Some "10.0.0.0/8"%go.
Proof. vm_compute. reflexivity. Qed.
Example ParseCIDR_v6 : (fun n => IPNet_String (snd n)) <$> ParseCIDR "2001:db8::1/032"%go = Some "2001:db8::/32"%go.
Proof. vm_compute. reflexivity. Qed.
Example ParseCIDR_bad : map ParseCIDR ["10.0.0.0"%go; "10.0.0.0/33"%go; "10.0.0.0/"%go; "::/129"%go; "::/-1"%go]
  = [None; None; None; None; None].
Proof. vm_compute. reflexivity. Qed.
