(* ===== verification/HttpHeader.v ===== *)
(** * Go's [net/http] header

    [http.Header] is a map from canonical field names to lists of values.  The
    operations the program uses, with the laws the components rely on. *)

From S2P Require Import Prelude GoStrings.

Abbreviation Header := (gmap (list ascii) (list (list ascii))) (only parsing).

(** The bytes of an RFC 9110 token ([validHeaderFieldByte]). *)
Definition is_token_byte (c : byte) : bool :=
  is_digit c || is_upper c || is_lower c || bool_decide (c ∈ "!#$%&'*+-.^_`|~"%go).

Fixpoint canonicalize (upper : bool) (s : gostring) : gostring :=
  match s with
  | [] => []
  | c :: s' =>
      (if upper then upper_byte c else lower_byte c)
      :: canonicalize (bool_decide (c = "-"%char)) s'
  end.

(** [textproto.CanonicalMIMEHeaderKey] *)
Definition CanonicalKey (s : gostring) : gostring :=
  if forallb is_token_byte s then canonicalize true s else s.

Definition Header_Values (h : Header) (key : gostring) : list gostring :=
  default [] (h !! CanonicalKey key).

Definition Header_Get (h : Header) (key : gostring) : gostring :=
  default [] (head (Header_Values h key)).

Definition Header_Set (h : Header) (key value : gostring) : Header :=
  <[CanonicalKey key := [value]]> h.

Definition Header_Add (h : Header) (key value : gostring) : Header :=
  <[CanonicalKey key := Header_Values h key ++ [value]]> h.

Definition Header_Del (h : Header) (key : gostring) : Header :=
  delete (CanonicalKey key) h.

(** ** Canonical names *)

Lemma case_byte_token (upper : bool) c :
  is_token_byte c = true ->
  is_token_byte (if upper then upper_byte c else lower_byte c) = true.
Proof.
  intros H.
  all_bytes_fact (fun c => implb (is_token_byte c)
    (is_token_byte (upper_byte c) && is_token_byte (lower_byte c))) c Hc.
  rewrite H in Hc. simpl in Hc. apply andb_true_iff in Hc as [? ?]. by destruct upper.
Qed.

Lemma case_byte_idemp (upper : bool) c :
  (if upper then upper_byte (if upper then upper_byte c else lower_byte c)
   else lower_byte (if upper then upper_byte c else lower_byte c))
  = (if upper then upper_byte c else lower_byte c).
Proof.
  all_bytes_fact (fun c => bool_decide (upper_byte (upper_byte c) = upper_byte c)
    && bool_decide (lower_byte (lower_byte c) = lower_byte c)) c Hc.
  bool_facts. by destruct upper.
Qed.

Lemma case_byte_dash (upper : bool) c :
  bool_decide ((if upper then upper_byte c else lower_byte c) = "-"%char)
  = bool_decide (c = "-"%char).
Proof.
  all_bytes_fact (fun c =>
     Bool.eqb (bool_decide (upper_byte c = "-"%char)) (bool_decide (c = "-"%char))
    && Bool.eqb (bool_decide (lower_byte c = "-"%char)) (bool_decide (c = "-"%char))) c Hc.
  apply andb_true_iff in Hc as [H1 H2].
  apply eqb_prop in H1, H2. by destruct upper.
Qed.

Lemma canonicalize_token u s :
  forallb is_token_byte s = true -> forallb is_token_byte (canonicalize u s) = true.
Proof.
  revert u. induction s as [|c s IH]; intros u; [done|].
  cbn [forallb canonicalize]. intros H. apply andb_true_iff in H as [H1 H2].
  by rewrite case_byte_token, IH.
Qed.

Lemma canonicalize_idemp u s : canonicalize u (canonicalize u s) = canonicalize u s.
Proof.
  revert u. induction s as [|c s IH]; intros u; [done|].
  cbn [canonicalize]. rewrite case_byte_idemp, case_byte_dash. by rewrite IH.
Qed.

(** Canonical names are fixed points. *)
Lemma CanonicalKey_idemp s : CanonicalKey (CanonicalKey s) = CanonicalKey s.
Proof.
  unfold CanonicalKey. destruct (forallb is_token_byte s) eqn:E.
  - by rewrite canonicalize_token, canonicalize_idemp.
  - by rewrite E.
Qed.

(** ** Laws of the operations *)

Lemma Values_Set_eq h k v : Header_Values (Header_Set h k v) k = [v].
Proof. unfold Header_Values, Header_Set. by rewrite lookup_insert_eq. Qed.

Lemma Values_Set_ne h k k' v :
  CanonicalKey k <> CanonicalKey k' -> Header_Values (Header_Set h k v) k' = Header_Values h k'.
Proof. intros. unfold Header_Values, Header_Set. by rewrite lookup_insert_ne. Qed.

Lemma Values_Add_eq h k v : Header_Values (Header_Add h k v) k = Header_Values h k ++ [v].
Proof. unfold Header_Values at 1, Header_Add. by rewrite lookup_insert_eq. Qed.

Lemma Values_Add_ne h k k' v :
  CanonicalKey k <> CanonicalKey k' -> Header_Values (Header_Add h k v) k' = Header_Values h k'.
Proof. intros. unfold Header_Values, Header_Add. by rewrite lookup_insert_ne. Qed.

Lemma Values_Del_eq h k : Header_Values (Header_Del h k) k = [].
Proof. unfold Header_Values, Header_Del. by rewrite lookup_delete_eq. Qed.

Lemma Values_Del_ne h k k' :
  CanonicalKey k <> CanonicalKey k' -> Header_Values (Header_Del h k) k' = Header_Values h k'.
Proof. intros. unfold Header_Values, Header_Del. by rewrite lookup_delete_ne. Qed.

Lemma Get_Set_eq h k v : Header_Get (Header_Set h k v) k = v.
Proof. unfold Header_Get. by rewrite Values_Set_eq. Qed.

Lemma Get_Set_ne h k k' v :
  CanonicalKey k <> CanonicalKey k' -> Header_Get (Header_Set h k v) k' = Header_Get h k'.
Proof. intros. unfold Header_Get. by rewrite Values_Set_ne. Qed.

Create Rewrite HintDb header.
#[export] Hint Rewrite Values_Set_eq Values_Add_eq Values_Del_eq Get_Set_eq : header.
#[export] Hint Rewrite Values_Set_ne Values_Add_ne Values_Del_ne Get_Set_ne using (vm_compute; congruence) : header.
