(* ===== verification/HttpPath.v ===== *)
(** * Path patterns (pkg/protocols/http/path_pattern.go)

    The patterns of [match path] constraints: their syntax, and the matching of
    a request path, which leaves a subpath when the pattern is a prefix. *)

From S2P Require Import Prelude GoStrings.

(** [PathPatternSegment] is its [Value], empty for the wildcard. *)
Record PathPattern := mkPath {
  Segments : list gostring;
  Relative : bool;
  Prefix : bool
}.

#[export] Instance PathPattern_eq_dec : EqDecision PathPattern.
Proof. solve_decision. Defined.

Definition slash : byte := "/"%char.
Definition escape : byte := "092"%char.

(** What the loop of [String] writes for a segment. *)
Definition segment_string (Value : gostring) : gostring :=
  if bool_decide (Value = []) then "*"%go else Value.

Fixpoint write_segments (i : nat) (relative : bool) (segs : list gostring) : gostring :=
  match segs with
  | [] => []
  | s :: segs' =>
      (if (0 <? i)%nat || negb relative then [slash] else [])
      ++ segment_string s ++ write_segments (S i) relative segs'
  end.

(** [PathPattern.String] *)
Definition PathPattern_String (p : PathPattern) : gostring :=
  if bool_decide (Segments p = []) then "/"%go
  else write_segments 0 (Relative p) (Segments p) ++ (if Prefix p then [slash] else []).

(** The value of a segment that is not empty. *)
Definition parse_segment (segmentString : gostring) : gostring :=
  let '(escaped, s) :=
    match segmentString with
    | c :: s' => if bool_decide (c = escape) then (true, s') else (false, segmentString)
    | [] => (false, segmentString)
    end in
  if bool_decide (s = "*"%go) && negb escaped then [] else s.

(** The loop of [Parse]: the segments and whether the pattern is a prefix. *)
Fixpoint parse_segments (segmentStrings : list gostring) : outcome (list gostring * bool) :=
  match segmentStrings with
  | [] => Ret ([], false)
  | s :: rest =>
      if bool_decide (s = []) then
        if bool_decide (rest = []) then Ret ([], true)
        else Throw (Errorf "invalid empty segment"%go)
      else '(segs, prefix) ← parse_segments rest; Ret (parse_segment s :: segs, prefix)
  end.

(** [PathPattern.Parse] *)
Definition PathPattern_Parse (s : gostring) : outcome PathPattern :=
  match s with
  | [] => Throw (Errorf "empty pattern"%go)
  | c :: s' =>
      let '(relative, segmentStrings) :=
        if bool_decide (c = slash) then (false, Split s' slash) else (true, Split s slash) in
      '(segs, prefix) ← parse_segments segmentStrings;
      Ret (mkPath segs relative prefix)
  end.

(** The loop of [Match]: the path segments left, or [None] for [return false]. *)
Fixpoint match_segments (patternSegments pathSegments : list gostring) : option (list gostring) :=
  match patternSegments with
  | [] => Some pathSegments
  | s :: ps =>
      match pathSegments with
      | [] => None
      | pathSegment :: rest =>
          if bool_decide (s <> []) && bool_decide (s <> pathSegment) then None
          else match_segments ps rest
      end
  end.

Definition path_segments (path : gostring) : list gostring :=
  let path := Trim path [slash] in
  if 0 <? len path then Split path slash else [].

(** [PathPattern.Match] *)
Definition PathPattern_Match (p : PathPattern) (path : gostring) : bool * gostring :=
  match match_segments (Segments p) (path_segments path) with
  | None => (false, [])
  | Some rest =>
      if (0 <? len rest) && negb (Prefix p) then (false, [])
      else (true, Join rest [slash])
  end.

(** ** Matching *)

(** A pattern segment accepts a path segment. *)
Definition accepts (s pathSegment : gostring) : Prop := s = [] \/ s = pathSegment.

Lemma match_segments_spec ps segs rest :
  match_segments ps segs = Some rest <->
  exists matched, segs = matched ++ rest /\ Forall2 accepts ps matched.
Proof.
  revert segs. induction ps as [|s ps IH]; intros segs; cbn [match_segments].
  - split.
    + intros [= ->]. exists []. by repeat constructor.
    + intros (m & -> & H). inversion H. done.
  - destruct segs as [|seg segs].
    + split; [done|]. intros (m & Hm & H). inversion H; subst. done.
    + destruct (bool_decide (s <> []) && bool_decide (s <> seg)) eqn:E.
      * split; [done|]. intros (m & Hm & H). inversion H as [|? y ? ? Ha]; subst.
        bool_facts. simpl in Hm. simplify_eq. by destruct Ha.
      * rewrite IH. split.
        -- intros (m & -> & H). exists (seg :: m). split; [done|]. constructor; [|done].
           apply andb_false_iff in E as [E|E]; apply bool_decide_eq_false, dec_stable in E; [by left|by right].
        -- intros (m & Hm & H). inversion H as [|? y ? m' Ha]; subst. simpl in Hm. simplify_eq. by exists m'.
Qed.

Definition plain_segment (s : gostring) : Prop := slash ∉ s.

(** The segments of a path: those between its slashes, the leading and trailing
    slashes left aside. *)
Lemma path_segments_Join segs m n :
  Forall plain_segment segs -> head segs <> Some [] -> last segs <> Some [] ->
  path_segments (replicate m slash ++ Join segs [slash] ++ replicate n slash) = segs.
Proof.
  intros Hp Hh Hl.
  assert (trimmed (Join segs [slash]) [slash]) as Ht.
  { destruct segs as [|s ss]; [done|]. split.
    - rewrite Join_head by (by intros ->). inversion Hp; subst. unfold plain_segment in *.
      destruct s as [|c s]; [done|]. set_solver.
    - destruct (last (s :: ss)) as [l|] eqn:E; [|by apply last_None in E].
      rewrite (Join_last_part _ _ l) by (congruence || done).
      assert (plain_segment l) as Hpl.
      { apply last_Some in E as [ss' E]. rewrite E, Forall_app in Hp. destruct Hp as [_ Hp].
        by inversion Hp. }
      unfold plain_segment in Hpl. destruct (last l) as [c|] eqn:El; [|done].
      apply last_Some in El as [l' ->]. set_solver. }
  unfold path_segments. rewrite Trim_pad; [|apply Forall_replicate; set_solver..|done].
  destruct segs as [|s ss]; [done|].
  assert (Join (s :: ss) [slash] <> []) as Hne.
  { intros E. apply (f_equal head) in E. rewrite Join_head in E by (by intros ->). by destruct s. }
  destruct (Join (s :: ss) [slash]) as [|c l] eqn:E; [done|]. rewrite len_cons.
  pose proof (len_nonneg _ l). rewrite (proj2 (Z.ltb_lt _ _)) by lia.
  rewrite <- E. by apply Split_Join.
Qed.

(** [C38] [PathPattern.Match], on any path: it answers [true] exactly when the
    first segments of the path are accepted one by one by the pattern's, with
    nothing left unless the pattern ends with a slash; the subpath it returns is
    then what is left of the path, without a slash at either end.  When it answers
    [false] the subpath is empty. *)
Theorem PathPattern_Match_spec p segs m n sub :
  Forall plain_segment segs -> head segs <> Some [] -> last segs <> Some [] ->
  let path := replicate m slash ++ Join segs [slash] ++ replicate n slash in
  (PathPattern_Match p path = (true, sub) <->
   exists matched rest,
     segs = matched ++ rest /\ Forall2 accepts (Segments p) matched
     /\ (rest = [] \/ Prefix p = true) /\ sub = Join rest [slash])
  /\ (PathPattern_Match p path = (false, sub) -> sub = []).
Proof.
  intros Hp Hh Hl path. unfold PathPattern_Match. subst path. rewrite path_segments_Join by done.
  destruct (match_segments (Segments p) segs) as [rest|] eqn:E.
  - pose proof (proj1 (match_segments_spec _ _ _) E) as (matched & -> & Hm).
    destruct ((0 <? len rest) && negb (Prefix p)) eqn:Er; split; try (by intros [= <-]).
    + split; [done|]. intros (m' & r' & Hs & Hm' & Hr & ->). exfalso.
      apply app_inj_1 in Hs as [-> ->]; [|by rewrite <- (Forall2_length _ _ _ Hm), <- (Forall2_length _ _ _ Hm')].
      bool_facts. destruct Hr as [->|Hr]; [by rewrite len_nil in *|congruence].
    + split.
      * intros [= <-]. exists matched, rest. split_and!; try done.
        apply andb_false_iff in Er as [Er|Er]; bool_facts; [left|by right].
        destruct rest; [done|]. rewrite len_cons in Er. pose proof (len_nonneg _ rest). lia.
      * intros (m' & r' & Hs & Hm' & Hr & ->).
        apply app_inj_1 in Hs as [-> ->]; [done|].
        by rewrite <- (Forall2_length _ _ _ Hm), <- (Forall2_length _ _ _ Hm').
  - split; [split|]; [done| |by intros [= <-]].
    intros (m' & r' & Hs & Hm' & _). exfalso.
    assert (match_segments (Segments p) segs = Some r') by (apply match_segments_spec; eauto).
    congruence.
Qed.

Lemma PathPattern_Match_spec_witness :
  PathPattern_Match (mkPath ["api"%go; []] false true) "/api/v1/users/7/"%go = (true, "users/7"%go).
Proof.
  apply (proj2 (proj1 (PathPattern_Match_spec (mkPath ["api"%go; []] false true)
    ["api"%go; "v1"%go; "users"%go; "7"%go] 1 1 "users/7"%go
    ltac:(by_decision) ltac:(by_decision) ltac:(by_decision)))).
  exists ["api"%go; "v1"%go], ["users"%go; "7"%go].
  split; [done|]. split; [|by auto].
  constructor; [by right|]. constructor; [by left|constructor].
Defined.

(** ** The syntax of patterns *)

(** A segment that [String] writes in a way [Parse] reads back: not a literal
    asterisk and not one that starts with the escape character. *)
Definition printable_segment (s : gostring) : Prop :=
  plain_segment s /\ s <> "*"%go /\ head s <> Some escape.

(** The patterns [Parse] builds without segments have the form of ["/"]. *)
Definition printable (p : PathPattern) : Prop :=
  Forall printable_segment (Segments p)
  /\ (Segments p = [] -> Relative p = false /\ Prefix p = true).

#[export] Instance printable_segment_dec s : Decision (printable_segment s).
Proof. unfold printable_segment, plain_segment. apply _. Defined.

#[export] Instance printable_dec p : Decision (printable p).
Proof. unfold printable. apply _. Defined.

Lemma segment_string_ok s :
  printable_segment s ->
  segment_string s <> [] /\ plain_segment (segment_string s)
  /\ parse_segment (segment_string s) = s.
Proof.
  intros (Hp & Ha & He). unfold segment_string. case_bool_decide as E; subst.
  - by split_and!; [done|by_decision|].
  - split_and!; [done..|]. unfold parse_segment. destruct s as [|c s]; [done|].
    destruct (bool_decide (c = escape)) eqn:Ec; bool_facts; [by subst|].
    rewrite (bool_decide_false (_ = "*"%go)) by done. done.
Qed.

Lemma write_segments_Join segs relative :
  Forall printable_segment segs -> segs <> [] ->
  write_segments 0 relative segs
  = (if negb relative then [slash] else []) ++ Join (map segment_string segs) [slash].
Proof.
  assert (forall segs i, (0 < i)%nat ->
            write_segments i relative segs = flat_map (fun s => slash :: segment_string s) segs) as Hw.
  { intros l. induction l as [|s l IH]; intros i Hi; cbn [write_segments flat_map]; [done|].
    rewrite (proj2 (Nat.ltb_lt 0 i)) by done. rewrite IH by lia. done. }
  intros _ Hne. destruct segs as [|s segs]; [done|]. cbn [write_segments map].
  rewrite Hw by lia. f_equal. clear Hne. revert s.
  induction segs as [|s2 segs IH]; intros s; cbn [flat_map map]; [by rewrite app_nil_r|].
  rewrite Join_cons by done. rewrite <- IH. done.
Qed.

Lemma parse_segments_strings segs (prefix : bool) :
  Forall printable_segment segs ->
  parse_segments (map segment_string segs ++ if prefix then [[]] else []) = Ret (segs, prefix).
Proof.
  induction 1 as [|s segs Hs _ IH]; cbn [map app]; [by destruct prefix|].
  destruct (segment_string_ok s Hs) as (Hne & _ & Hp).
  cbn [parse_segments]. rewrite bool_decide_false by done. rewrite IH. simpl. by rewrite Hp.
Qed.

Lemma parts_string segs (prefix : bool) :
  Forall printable_segment segs -> segs <> [] ->
  Split (Join (map segment_string segs) [slash] ++ (if prefix then [slash] else [])) slash
  = map segment_string segs ++ (if prefix then [[]] else []).
Proof.
  intros Hs Hne.
  assert (Join (map segment_string segs) [slash] ++ (if prefix then [slash] else [])
          = Join (map segment_string segs ++ (if prefix then [[]] else [])) [slash]) as ->.
  { destruct prefix; [|by rewrite !app_nil_r]. clear Hs.
    induction segs as [|s [|s2 segs] IH]; [done|simpl; by rewrite ?app_nil_r|].
    change (map segment_string (s :: s2 :: segs)) with (segment_string s :: map segment_string (s2 :: segs)).
    cbn [app]. rewrite (Join_cons _ (_ ++ _)) by done. rewrite <- IH by done.
    rewrite Join_cons by done. by rewrite <- !app_assoc. }
  apply Split_Join; [by destruct segs|]. apply Forall_app. split.
  - apply Forall_map. eapply Forall_impl; [exact Hs|]. intros s H. by apply segment_string_ok in H as (_ & ? & _).
  - destruct prefix; [|done]. repeat constructor. set_solver.
Qed.

(** Round trip of path patterns: a pattern written by [String] is read back
    by [Parse], wildcards, relative patterns and prefixes included. *)
Theorem PathPattern_roundtrip p :
  printable p -> PathPattern_Parse (PathPattern_String p) = Ret p.
Proof.
  intros [Hs Hn]. destruct p as [segs relative prefix]; simpl in *. unfold PathPattern_String; simpl.
  case_bool_decide as Hne; [by destruct Hn as [-> ->]; subst|].
  rewrite write_segments_Join by done. rewrite <- app_assoc.
  destruct relative; simpl; unfold PathPattern_Parse.
  - pose proof (parts_string segs prefix Hs Hne) as HS.
    destruct segs as [|s segs]; [done|]. inversion Hs as [|? ? Hs1 _]; subst.
    destruct (segment_string_ok s Hs1) as (Hs_ne & Hpl & _).
    destruct (Join (map segment_string (s :: segs)) [slash]) as [|c l] eqn:EJ.
    { apply (f_equal head) in EJ. cbn [map] in EJ. rewrite Join_head in EJ by done.
      by destruct (segment_string s). }
    assert (c <> slash) as Hc.
    { intros ->. apply (f_equal head) in EJ. cbn [map] in EJ. rewrite Join_head in EJ by done.
      destruct (segment_string s) as [|d t]; [done|]. injection EJ as ->. unfold plain_segment in Hpl. set_solver. }
    cbn [app] in *. rewrite bool_decide_false by done. rewrite HS.
    by rewrite parse_segments_strings by done.
  - rewrite parts_string by done. by rewrite parse_segments_strings by done.
Qed.

Lemma PathPattern_roundtrip_witness :
  PathPattern_Parse "*/users/*/"%go = Ret (mkPath [[]; "users"%go; []] true true).
Proof.
  apply (PathPattern_roundtrip (mkPath [[]; "users"%go; []] true true)). by_decision.
Defined.

(** A literal asterisk is written without its escape, and read back as the
    wildcard; an escape character alone is read as the wildcard too. *)
Example literal_asterisk_not_printed :
  PathPattern_Parse (escape :: "*"%go) = Ret (mkPath ["*"%go] true false)
  /\ PathPattern_String (mkPath ["*"%go] true false) = "*"%go
  /\ PathPattern_Parse "*"%go = Ret (mkPath [[]] true false)
  /\ PathPattern_Parse [escape] = Ret (mkPath [[]] true false).
Proof. by vm_compute. Qed.
