(* ===== verification/HttpMedia.v ===== *)
(** * Media types (pkg/protocols/http/media_types.go)

    Media types, the media ranges of an [Accept] header field, and the choice of
    the media type of a response. *)

From Stdlib Require Import QArith.
From S2P Require Import Prelude GoStrings.

(** ** Data *)

Record MediaTypeParameter := mkParam { p_Name : gostring; p_Value : gostring }.

Record MediaType := mkMedia {
  t_Type : gostring;
  t_Subtype : gostring;
  t_Parameters : list MediaTypeParameter
}.

(** A [float64]: a rational number, an infinity or not a number. *)
Inductive float64 := NaN | NegInf | PosInf | Finite (q : Q).

(** An empty type or subtype is the wildcard. *)
Record MediaRange := mkRange {
  r_Type : gostring;
  r_Subtype : gostring;
  Quality : float64;
  r_Parameters : list MediaTypeParameter
}.

#[export] Instance MediaTypeParameter_eq_dec : EqDecision MediaTypeParameter.
Proof. solve_decision. Defined.
#[export] Instance MediaType_eq_dec : EqDecision MediaType.
Proof. solve_decision. Defined.

Definition MediaTypeText := mkMedia "text"%go "plain"%go [mkParam "charset"%go "utf-8"%go].
Definition MediaTypeHTML := mkMedia "text"%go "html"%go [mkParam "charset"%go "utf-8"%go].
Definition MediaTypeJSON := mkMedia "application"%go "json"%go [].

(** ** Writing and reading *)

Definition MediaTypeParameter_String (p : MediaTypeParameter) : gostring :=
  p_Name p ++ "="%go ++ p_Value p.

Definition write_parameters (ps : list MediaTypeParameter) : gostring :=
  ps ≫= fun p => ";"%go ++ MediaTypeParameter_String p.

(** [MediaType.String] *)
Definition MediaType_String (t : MediaType) : gostring :=
  t_Type t ++ "/"%go ++ t_Subtype t ++ write_parameters (t_Parameters t).

Definition blanks : gostring := [" "%char; "009"%char].

(** [MediaTypeParameter.Parse] *)
Definition MediaTypeParameter_Parse (s : gostring) : outcome MediaTypeParameter :=
  match IndexByte s "="%char with
  | None => Throw (Errorf "missing '=' separator"%go)
  | Some equal =>
      let name := Trim (take equal s) blanks in
      if bool_decide (name = []) then Throw (Errorf "invalid empty name"%go) else
      let value := Trim (drop (S equal) s) blanks in
      if bool_decide (value = []) then Throw (Errorf "invalid empty value"%go)
      else Ret (mkParam name value)
  end.

Fixpoint parse_parameters (parts : list gostring) : outcome (list MediaTypeParameter) :=
  match parts with
  | [] => Ret []
  | part :: parts' =>
      p ← wrap_error "invalid parameter"%go (MediaTypeParameter_Parse part);
      ps ← parse_parameters parts';
      Ret (p :: ps)
  end.

(** [MediaType.Parse], of a fresh value. *)
Definition MediaType_Parse (s : gostring) : outcome MediaType :=
  match IndexByte s "/"%char with
  | None => Throw (Errorf "missing '/' separator"%go)
  | Some slash =>
      let mtype := Trim (take slash s) blanks in
      if bool_decide (mtype = []) then Throw (Errorf "invalid empty type"%go) else
      let s := drop (S slash) s in
      let semicolon := IndexByte s ";"%char in
      let subtype := Trim (take (default (length s) semicolon) s) blanks in
      if bool_decide (subtype = []) then Throw (Errorf "invalid empty subtype"%go) else
      match semicolon with
      | None => Ret (mkMedia mtype subtype [])
      | Some i =>
          params ← parse_parameters (Split (drop (S i) s) ";"%char);
          Ret (mkMedia mtype subtype params)
      end
  end.

(** [strconv.ParseFloat(s, 64)], without its error. *)
Class GoFloats := { ParseFloat : gostring -> option float64 }.

Section ranges.
Context `{GoUnicode, GoFloats}.

Definition quality_one : float64 := Finite 1.

(** The loop of [MediaRange.Parse] over the parameters. *)
Fixpoint range_parameters (ps : list MediaTypeParameter) (r : MediaRange) : outcome MediaRange :=
  match ps with
  | [] => Ret r
  | p :: ps' =>
      if bool_decide (ToLower (p_Name p) = "q"%go) then
        match ParseFloat (p_Value p) with
        | None => Throw (Errorf "invalid q parameter"%go)
        | Some f => range_parameters ps' (mkRange (r_Type r) (r_Subtype r) f (r_Parameters r))
        end
      else range_parameters ps'
             (mkRange (r_Type r) (r_Subtype r) (Quality r) (r_Parameters r ++ [p]))
  end.

(** [MediaRange.Parse], of a fresh value. *)
Definition MediaRange_Parse (s : gostring) : outcome MediaRange :=
  t ← MediaType_Parse s;
  if bool_decide (t_Type t = "*"%go) && bool_decide (t_Subtype t <> "*"%go)
  then Throw (Errorf "invalid wildcard type with non-wildcard subtype"%go)
  else
    let wild s := if bool_decide (s <> "*"%go) then s else [] in
    range_parameters (t_Parameters t)
      (mkRange (wild (t_Type t)) (wild (t_Subtype t)) quality_one []).

(** [RequestContext.AcceptedMediaRanges], for the value of the [Accept] field:
    the parts that are not media ranges are skipped. *)
Definition AcceptedMediaRanges (value : gostring) : list MediaRange :=
  omap (fun part =>
    match MediaRange_Parse (Trim part blanks) with Ret r => Some r | _ => None end)
    (Split value ","%char).
End ranges.

(** ** Choice *)

(** [a > b] on [float64]: false when one is not a number. *)
Definition float_gt (a b : float64) : bool :=
  match a, b with
  | NaN, _ | _, NaN => false
  | Finite p, Finite q => negb (Qle_bool p q)
  | PosInf, PosInf => false
  | PosInf, _ => true
  | _, PosInf => false
  | NegInf, _ => false
  | _, NegInf => true
  end.

(** [MediaRange.Matches] *)
Definition Matches (r : MediaRange) (t : MediaType) : bool :=
  if bool_decide (r_Type r <> []) && bool_decide (r_Type r <> t_Type t) then false
  else if bool_decide (r_Subtype r <> []) && bool_decide (r_Subtype r <> t_Subtype t) then false
  else true.

Definition specificityScore (r : MediaRange) : Z :=
  (if bool_decide (r_Type r <> []) then 1 else 0)
  + (if bool_decide (r_Subtype r <> []) then 1 else 0)
  + (if 0 <? len (r_Parameters r) then 1 else 0).

(** [MediaRange.PreferableTo] *)
Definition PreferableTo (r r2 : MediaRange) : bool :=
  if float_gt (Quality r) (Quality r2) then true
  else if float_gt (Quality r2) (Quality r) then false
  else specificityScore r2 <? specificityScore r.

(** A sort of [sort.Slice]: it is not stable and its result is specified only
    for a strict weak order. *)
Class GoSort := { sort_Slice : forall A, (A -> A -> bool) -> list A -> list A }.
Arguments sort_Slice {_ A}.

Section choice.
Context `{GoSort}.

(** The two loops of [NegotiateMediaType]. *)
Fixpoint first_match (ranges : list MediaRange) (supportedTypes : list MediaType) : option MediaType :=
  match ranges with
  | [] => None
  | r :: rs =>
      match List.find (Matches r) supportedTypes with
      | Some t => Some t
      | None => first_match rs supportedTypes
      end
  end.

(** [NegotiateMediaType]: [supportedTypes[0]] panics without types. *)
Definition NegotiateMediaType (ranges : list MediaRange) (supportedTypes : list MediaType)
  : outcome MediaType :=
  match first_match (sort_Slice PreferableTo ranges) supportedTypes with
  | Some t => Ret t
  | None => match supportedTypes with t :: _ => Ret t | [] => Panic end
  end.

(** [RequestContext.NegotiateMediaType]: a range [*/*] when no range is given,
    of the zero quality of its Go value. *)
Definition context_NegotiateMediaType `{GoUnicode, GoFloats} (accept : gostring)
  (supportedTypes : list MediaType) : outcome MediaType :=
  let ranges := AcceptedMediaRanges accept in
  let ranges := if bool_decide (len ranges = 0) then ranges ++ [mkRange [] [] (Finite 0) []] else ranges in
  NegotiateMediaType ranges supportedTypes.
End choice.

(** ** The order on ranges *)

Definition has_number (r : MediaRange) : Prop := Quality r <> NaN.

Lemma float_gt_irrefl a : float_gt a a = false.
Proof. destruct a; try done. simpl. by rewrite (proj2 (Qle_bool_iff q q) (Qle_refl q)). Qed.

(** On numbers, [float_gt] is the order of the extended rationals. *)
Lemma float_gt_negtrans a b c :
  a <> NaN -> b <> NaN -> c <> NaN ->
  float_gt a c = true -> float_gt a b = true \/ float_gt b c = true.
Proof.
  destruct a, b, c; simpl; try done; auto. intros _ _ _ H.
  destruct (Qle_bool q q0) eqn:E1; [|by left]. destruct (Qle_bool q0 q1) eqn:E2; [|by right].
  apply Qle_bool_iff in E1, E2. rewrite (proj2 (Qle_bool_iff q q1)) in H; [done|]. by eapply Qle_trans.
Qed.

Lemma float_gt_asym a b : float_gt a b = true -> float_gt b a = false.
Proof.
  destruct a, b; simpl; try done. intros H. apply negb_true_iff in H. apply negb_false_iff.
  apply Qle_bool_iff. destruct (Qlt_le_dec q0 q) as [Hl|Hl]; [by apply Qlt_le_weak|].
  apply Qle_bool_iff in Hl. congruence.
Qed.

Lemma PreferableTo_irrefl r : PreferableTo r r = false.
Proof. unfold PreferableTo. rewrite float_gt_irrefl. apply Z.ltb_irrefl. Qed.

Lemma PreferableTo_asym a b : PreferableTo a b = true -> PreferableTo b a = false.
Proof.
  unfold PreferableTo. destruct (float_gt (Quality a) (Quality b)) eqn:E1.
  - by rewrite (float_gt_asym _ _ E1).
  - destruct (float_gt (Quality b) (Quality a)); [done|]. rewrite Z.ltb_lt, Z.ltb_ge. lia.
Qed.

(** [PreferableTo] is a strict weak order on ranges whose quality is a number. *)
Lemma PreferableTo_negtrans a b c :
  has_number a -> has_number b -> has_number c ->
  PreferableTo a c = true -> PreferableTo a b = true \/ PreferableTo b c = true.
Proof.
  intros Ha Hb Hc. unfold PreferableTo, has_number in *.
  destruct (float_gt (Quality a) (Quality b)) eqn:Eab; [by left|].
  destruct (float_gt (Quality b) (Quality c)) eqn:Ebc; [by right|].
  destruct (float_gt (Quality a) (Quality c)) eqn:Eac.
  { destruct (float_gt_negtrans _ _ _ Ha Hb Hc Eac); congruence. }
  destruct (float_gt (Quality c) (Quality a)) eqn:Eca; [done|].
  destruct (float_gt (Quality b) (Quality a)) eqn:Eba.
  { destruct (float_gt_negtrans _ _ _ Hb Hc Ha Eba); congruence. }
  destruct (float_gt (Quality c) (Quality b)) eqn:Ecb.
  { destruct (float_gt_negtrans _ _ _ Hc Ha Hb Ecb); congruence. }
  rewrite !Z.ltb_lt. lia.
Qed.

(** ** The choice is the best one *)

(** What the documentation of [sort.Slice] promises, for a strict weak order on
    the elements: a permutation in which no element precedes a smaller one. *)
Class SortLaws `{GoSort} := {
  sort_permutation : forall A (less : A -> A -> bool) l, sort_Slice less l ≡ₚ l;
  sort_ordered : forall A (less : A -> A -> bool) l,
    (forall a b, a ∈ l -> b ∈ l -> less a b = true -> less b a = false) ->
    (forall a b c, a ∈ l -> b ∈ l -> c ∈ l -> less a c = true -> less a b = true \/ less b c = true) ->
    forall i j a b, (i < j)%nat -> sort_Slice less l !! i = Some a ->
      sort_Slice less l !! j = Some b -> less b a = false
}.

Lemma first_match_Some rs ts t :
  first_match rs ts = Some t ->
  exists i r, rs !! i = Some r /\ List.find (Matches r) ts = Some t
    /\ (forall j r', (j < i)%nat -> rs !! j = Some r' -> List.find (Matches r') ts = None).
Proof.
  induction rs as [|r rs IH]; cbn [first_match]; [done|].
  destruct (List.find (Matches r) ts) as [t'|] eqn:E.
  - intros [= <-]. exists 0%nat, r. split_and!; [done..|]. lia.
  - intros Ht. destruct (IH Ht) as (i & r' & Hi & Hf & Hj). exists (S i), r'. split_and!; [done..|].
    intros [|j] r'' Hlt Hr''; [by injection Hr'' as <-|]. apply (Hj j); [lia|done].
Qed.

Lemma first_match_None rs ts r :
  first_match rs ts = None -> r ∈ rs -> List.find (Matches r) ts = None.
Proof.
  induction rs as [|r' rs IH]; cbn [first_match]; [by intros ? ?%not_elem_of_nil|].
  destruct (List.find (Matches r') ts) eqn:E; [done|]. intros H [->|Hr]%elem_of_cons; auto.
Qed.

Definition acceptable (r : MediaRange) (ts : list MediaType) : Prop :=
  exists t, t ∈ ts /\ Matches r t = true.

Lemma find_acceptable r ts : List.find (Matches r) ts = None <-> ~ acceptable r ts.
Proof.
  split.
  - intros H (t & Ht & Hm). apply list_elem_of_In in Ht. by rewrite (List.find_none _ _ H t Ht) in Hm.
  - intros H. destruct (List.find (Matches r) ts) as [t|] eqn:E; [|done].
    apply List.find_some in E as [Ht Hm]. destruct H. exists t. split; [by apply list_elem_of_In|done].
Qed.

(** [C37] [NegotiateMediaType] answers the best type it can, whatever the sort
    does with equivalent ranges: the type it returns is supported; when a range
    matches a supported type, it is the first supported type some range [r]
    matches, and no range that matches a supported type is preferable to [r] (by
    quality, then by specificity); when no range matches, it is the first
    supported type.  It panics only without supported types. *)
Theorem NegotiateMediaType_best `{SortLaws} ranges ts :
  Forall has_number ranges -> ts <> [] ->
  exists t, NegotiateMediaType ranges ts = Ret t /\ t ∈ ts
  /\ ((exists r, r ∈ ranges /\ List.find (Matches r) ts = Some t
        /\ forall r', r' ∈ ranges -> acceptable r' ts -> PreferableTo r' r = false)
      \/ ((forall r, r ∈ ranges -> ~ acceptable r ts) /\ head ts = Some t)).
Proof.
  intros Hn Hts. unfold NegotiateMediaType. rewrite Forall_forall in Hn.
  set (rs := sort_Slice PreferableTo ranges).
  assert (rs ≡ₚ ranges) as HP by apply sort_permutation.
  destruct (first_match rs ts) as [t|] eqn:E.
  - destruct (first_match_Some _ _ _ E) as (i & r & Hi & Hf & Hj). exists t. split; [done|].
    pose proof (List.find_some _ _ Hf) as [Ht Hm]. split; [by apply list_elem_of_In|].
    left. exists r. split_and!; [rewrite <- HP; by eapply list_elem_of_lookup_2|done|].
    intros r' Hr' Ha. rewrite <- HP in Hr'. apply list_elem_of_lookup in Hr' as [j Hj'].
    destruct (Nat.lt_trichotomy j i) as [Hl|[->|Hl]].
    + exfalso. apply (Hj _ _ Hl) in Hj'. by apply find_acceptable in Hj'.
    + assert (r' = r) as -> by congruence. apply PreferableTo_irrefl.
    + eapply (sort_ordered _ PreferableTo ranges); [| |exact Hl|exact Hi|exact Hj'].
      * intros a b _ _. apply PreferableTo_asym.
      * intros. apply PreferableTo_negtrans; auto.
  - destruct ts as [|t ts']; [done|]. exists t. split; [done|]. split; [left|]. right. split; [|done].
    intros r Hr. apply find_acceptable. eapply first_match_None; [exact E|]. by rewrite HP.
Qed.

(** ** A sort *)

Lemma elem_of_shift {A} (a x y : A) l : a ∈ x :: l -> a ∈ x :: y :: l.
Proof. rewrite !elem_of_cons. intros [->|?]; auto. Qed.

Section insertion.
Context {A : Type} (less : A -> A -> bool).

Fixpoint insert_sorted (x : A) (l : list A) : list A :=
  match l with
  | [] => [x]
  | y :: l' => if less y x then y :: insert_sorted x l' else x :: l
  end.

Fixpoint insertion_sort (l : list A) : list A :=
  match l with
  | [] => []
  | x :: l' => insert_sorted x (insertion_sort l')
  end.

Lemma insert_sorted_perm x l : insert_sorted x l ≡ₚ x :: l.
Proof.
  induction l as [|y l IH]; cbn [insert_sorted]; [done|]. destruct (less y x); [|done].
  rewrite IH. constructor.
Qed.

Lemma insertion_sort_perm l : insertion_sort l ≡ₚ l.
Proof. induction l as [|x l IH]; cbn [insertion_sort]; [done|]. by rewrite insert_sorted_perm, IH. Qed.

Let in_order (a b : A) : Prop := less b a = false.

Lemma insert_sorted_ordered x l :
  (forall a b, a ∈ x :: l -> b ∈ x :: l -> less a b = true -> less b a = false) ->
  (forall a b c, a ∈ x :: l -> b ∈ x :: l -> c ∈ x :: l ->
     less a c = true -> less a b = true \/ less b c = true) ->
  StronglySorted in_order l -> StronglySorted in_order (insert_sorted x l).
Proof.
  intros Ha Hn Hs. induction Hs as [|y l Hs IH Hy]; cbn [insert_sorted].
  { repeat constructor. }
  destruct (less y x) eqn:E.
  - constructor.
    + apply IH.
      * intros a b Ia Ib. apply Ha; by apply elem_of_shift.
      * intros a b c Ia Ib Ic. apply Hn; by apply elem_of_shift.
    + rewrite insert_sorted_perm. constructor; [|done]. unfold in_order.
      apply Ha; [right; left|left|done].
  - constructor; [by constructor|]. constructor; [done|].
    rewrite Forall_forall in Hy |- *. intros z Hz. unfold in_order in *.
    destruct (less z x) eqn:Ez; [|done]. exfalso.
    destruct (Hn z y x) as [H|H]; [by right; right|by right; left|left|done| |congruence].
    by rewrite Hy in H.
Qed.

Lemma insertion_sort_ordered l :
  (forall a b, a ∈ l -> b ∈ l -> less a b = true -> less b a = false) ->
  (forall a b c, a ∈ l -> b ∈ l -> c ∈ l -> less a c = true -> less a b = true \/ less b c = true) ->
  StronglySorted in_order (insertion_sort l).
Proof.
  induction l as [|x l IH]; intros Ha Hn; cbn [insertion_sort]; [constructor|].
  apply insert_sorted_ordered.
  - intros a b. rewrite insertion_sort_perm. apply Ha.
  - intros a b c. rewrite insertion_sort_perm. apply Hn.
  - apply IH; [intros; apply Ha|intros a b c ???; apply Hn]; by try right.
Qed.

Lemma StronglySorted_pair (R : A -> A -> Prop) l i j a b :
  StronglySorted R l -> (i < j)%nat -> l !! i = Some a -> l !! j = Some b -> R a b.
Proof.
  intros Hs. revert i j. induction Hs as [|x l Hs IH Hx]; intros i j Hij Hi Hj; [done|].
  destruct j as [|j]; [lia|]. destruct i as [|i]; simpl in *.
  - injection Hi as <-. rewrite Forall_forall in Hx. apply Hx. by eapply list_elem_of_lookup_2.
  - eapply (IH i j); [lia|done..].
Qed.
End insertion.

#[export] Instance insertion_Sort : GoSort := { sort_Slice := @insertion_sort }.

#[export] Instance insertion_SortLaws : SortLaws.
Proof.
  split.
  - intros. apply insertion_sort_perm.
  - intros A less l Ha Hn i j a b Hij Hi Hj.
    exact (StronglySorted_pair _ _ _ _ _ _ (insertion_sort_ordered less l Ha Hn) Hij Hi Hj).
Defined.

Lemma NegotiateMediaType_best_witness :
  exists t, NegotiateMediaType [mkRange [] [] (Finite (1#2)) []; mkRange "text"%go "html"%go (Finite 1) []]
              [MediaTypeJSON; MediaTypeHTML] = Ret t /\ t ∈ [MediaTypeJSON; MediaTypeHTML].
Proof.
  destruct (NegotiateMediaType_best
    [mkRange [] [] (Finite (1#2)) []; mkRange "text"%go "html"%go (Finite 1) []]
    [MediaTypeJSON; MediaTypeHTML]
    ltac:(repeat constructor; discriminate) ltac:(discriminate)) as (t & Ht & Hin & _).
  exists t. exact (conj Ht Hin).
Defined.

(** The types are in the order of preference of the server for a range alone. *)
Example negotiate_example :
  NegotiateMediaType [mkRange [] [] (Finite (1#2)) []; mkRange "text"%go "html"%go (Finite 1) []]
    [MediaTypeJSON; MediaTypeHTML] = Ret MediaTypeHTML
  /\ NegotiateMediaType [mkRange [] [] (Finite 0) []] [MediaTypeJSON; MediaTypeHTML] = Ret MediaTypeJSON.
Proof. by vm_compute. Qed.

(** ** Round trip *)

(** A text that a trim leaves alone and that holds none of some separators. *)
Definition field_ok (seps s : gostring) : Prop :=
  s <> [] /\ trimmed s blanks /\ Forall (fun c => c ∉ s) seps.

Definition parameter_ok (p : MediaTypeParameter) : Prop :=
  field_ok "=;"%go (p_Name p) /\ field_ok ";"%go (p_Value p).

Definition media_ok (t : MediaType) : Prop :=
  field_ok "/"%go (t_Type t) /\ field_ok ";"%go (t_Subtype t)
  /\ Forall parameter_ok (t_Parameters t).

#[export] Instance field_ok_dec seps s : Decision (field_ok seps s).
Proof. unfold field_ok. apply _. Defined.
#[export] Instance parameter_ok_dec p : Decision (parameter_ok p).
Proof. unfold parameter_ok. apply _. Defined.
#[export] Instance media_ok_dec t : Decision (media_ok t).
Proof. unfold media_ok. apply _. Defined.

Lemma field_ok_sep seps s c : field_ok seps s -> c ∈ seps -> c ∉ s.
Proof. intros (_ & _ & H). rewrite Forall_forall in H. apply H. Qed.

Lemma IndexByte_at s1 c s2 :
  c ∉ s1 -> IndexByte (s1 ++ [c] ++ s2) c = Some (length s1)
            /\ take (length s1) (s1 ++ [c] ++ s2) = s1
            /\ drop (S (length s1)) (s1 ++ [c] ++ s2) = s2.
Proof.
  intros H. cbn [app]. split_and!; [by apply IndexByte_app|apply take_app_length|apply drop_past].
Qed.

Lemma MediaTypeParameter_Parse_String p :
  parameter_ok p -> MediaTypeParameter_Parse (MediaTypeParameter_String p) = Ret p.
Proof.
  intros [Hn Hv]. unfold MediaTypeParameter_Parse, MediaTypeParameter_String.
  destruct (IndexByte_at (p_Name p) "="%char (p_Value p)) as (-> & -> & ->).
  { eapply field_ok_sep; [done|]. set_solver. }
  destruct Hn as (Hn & Tn & _), Hv as (Hv & Tv & _). rewrite !Trim_id by done.
  rewrite !bool_decide_false by done. by destruct p.
Qed.

Lemma parse_parameters_String ps :
  Forall parameter_ok ps -> parse_parameters (map MediaTypeParameter_String ps) = Ret ps.
Proof.
  induction 1 as [|p ps Hp _ IH]; cbn [map parse_parameters]; [done|].
  rewrite MediaTypeParameter_Parse_String by done. simpl. rewrite IH. done.
Qed.

Lemma write_parameters_Join p ps :
  write_parameters (p :: ps) = ";"%go ++ Join (map MediaTypeParameter_String (p :: ps)) ";"%go.
Proof.
  revert p. induction ps as [|p2 ps IH]; intros p; unfold write_parameters in *.
  - simpl. by rewrite app_nil_r.
  - cbn [mbind list_bind] in *. rewrite IH. cbn [map]. rewrite (Join_cons _ (_ :: _)) by done.
    by rewrite <- !app_assoc.
Qed.

(** Round trip of media types: [Parse] reads back what [String] writes,
    parameters included. *)
Theorem MediaType_roundtrip t : media_ok t -> MediaType_Parse (MediaType_String t) = Ret t.
Proof.
  intros (Ht & Hs & Hp). unfold MediaType_Parse, MediaType_String.
  destruct (IndexByte_at (t_Type t) "/"%char (t_Subtype t ++ write_parameters (t_Parameters t)))
    as (-> & -> & ->).
  { eapply field_ok_sep; [done|]. set_solver. }
  pose proof (field_ok_sep _ _ ";"%char Hs ltac:(set_solver)) as Hsc.
  destruct Ht as (Hn & Tn & _), Hs as (Hv & Tv & _). rewrite (Trim_id (t_Type t)) by done.
  rewrite (bool_decide_false (t_Type t = [])) by done.
  destruct t as [ty sub ps]; cbn [t_Type t_Subtype t_Parameters] in *. destruct ps as [|p ps].
  - unfold write_parameters; cbn [mbind list_bind]. rewrite app_nil_r.
    rewrite (proj2 (IndexByte_None sub ";"%char)) by done. cbn [from_option id]. rewrite firstn_all.
    rewrite Trim_id by done. by rewrite bool_decide_false.
  - rewrite write_parameters_Join.
    destruct (IndexByte_at sub ";"%char (Join (map MediaTypeParameter_String (p :: ps)) ";"%go))
      as (-> & E1 & E2); [done|].
    cbn [from_option id]. rewrite E1, E2, Trim_id by done. rewrite bool_decide_false by done.
    rewrite Split_Join; [by rewrite parse_parameters_String by done|done|].
    apply Forall_map. eapply Forall_impl; [exact Hp|]. intros q [Hqn Hqv].
    unfold MediaTypeParameter_String.
    pose proof (field_ok_sep _ _ ";"%char Hqn ltac:(set_solver)).
    pose proof (field_ok_sep _ _ ";"%char Hqv ltac:(set_solver)). set_solver.
Qed.

Lemma MediaType_roundtrip_witness :
  MediaType_Parse "text/plain;charset=utf-8"%go = Ret MediaTypeText.
Proof. apply (MediaType_roundtrip MediaTypeText). by_decision. Defined.

(** ** Media ranges *)

(** [strconv.FormatFloat(f, 'g', -1, 64)] *)
Class GoFormatFloat := { FormatFloat : float64 -> gostring }.

Definition is_one (f : float64) : bool := match f with Finite q => Qeq_bool q 1 | _ => false end.

Definition or_wildcard (s : gostring) : gostring := if bool_decide (s = []) then "*"%go else s.

(** [MediaRange.String] *)
Definition MediaRange_String `{GoFormatFloat} (r : MediaRange) : gostring :=
  or_wildcard (r_Type r) ++ "/"%go ++ or_wildcard (r_Subtype r) ++ write_parameters (r_Parameters r)
  ++ (if is_one (Quality r) then [] else ";q="%go ++ FormatFloat (Quality r)).

(** The ranges that are written as they are read: a wildcard type has a wildcard subtype,
    and no parameter is called q. *)
Definition range_ok `{GoUnicode} (r : MediaRange) : Prop :=
  (r_Type r = [] \/ field_ok "/"%go (r_Type r) /\ r_Type r <> "*"%go)
  /\ (r_Subtype r = [] \/ field_ok ";"%go (r_Subtype r) /\ r_Subtype r <> "*"%go)
  /\ (r_Type r = [] -> r_Subtype r = [])
  /\ Forall (fun p => parameter_ok p /\ ToLower (p_Name p) <> "q"%go) (r_Parameters r).

Lemma wildcard_ok sep s :
  s = [] \/ field_ok sep s /\ s <> "*"%go -> (forall c, c ∈ sep -> c <> "*"%char) ->
  field_ok sep (or_wildcard s) /\ (if bool_decide (or_wildcard s <> "*"%go) then or_wildcard s else []) = s
  /\ bool_decide (or_wildcard s = "*"%go) = bool_decide (s = []).
Proof.
  intros [->|[Hs Hw]] Hsep; unfold or_wildcard.
  - rewrite !(bool_decide_true ([] = [])) by done. split; [|by vm_compute].
    split; [done|]. split; [by_decision|]. apply Forall_forall. intros c Hc%Hsep. set_solver.
  - assert (s <> []) by apply Hs. rewrite !(bool_decide_false (s = [])) by done.
    rewrite bool_decide_true, bool_decide_false by done. done.
Qed.

Section range_roundtrip.
Context `{GoUnicode, GoFloats, GoFormatFloat}.

Definition range_parameters_written (r : MediaRange) : list MediaTypeParameter :=
  r_Parameters r ++ (if is_one (Quality r) then [] else [mkParam "q"%go (FormatFloat (Quality r))]).

Lemma MediaRange_String_media r :
  MediaRange_String r
  = MediaType_String (mkMedia (or_wildcard (r_Type r)) (or_wildcard (r_Subtype r)) (range_parameters_written r)).
Proof using Type.
  unfold MediaRange_String, MediaType_String, range_parameters_written, write_parameters. cbn [t_Type t_Subtype t_Parameters].
  rewrite bind_app. destruct (is_one (Quality r)); [by rewrite !app_nil_r|]. by cbn; rewrite !app_nil_r.
Qed.

Lemma range_parameters_app ps qs r :
  Forall (fun p => parameter_ok p /\ ToLower (p_Name p) <> "q"%go) ps ->
  range_parameters (ps ++ qs) r = range_parameters qs (mkRange (r_Type r) (r_Subtype r) (Quality r) (r_Parameters r ++ ps)).
Proof using Type.
  intros Hps. revert r. induction Hps as [|p ps [_ Hp] _ IH]; intros r; cbn [app range_parameters].
  - rewrite app_nil_r. by destruct r.
  - rewrite bool_decide_false by done. rewrite IH. cbn. by rewrite <- app_assoc.
Qed.

(** Round trip of media ranges: [Parse] reads back what [String] writes, when the number of
    the quality is read back. *)
Theorem MediaRange_roundtrip r :
  range_ok r -> ToLower "q"%go = "q"%go ->
  field_ok ";"%go (FormatFloat (Quality r)) -> ParseFloat (FormatFloat (Quality r)) = Some (Quality r) ->
  MediaRange_Parse (MediaRange_String r)
  = Ret (mkRange (r_Type r) (r_Subtype r) (if is_one (Quality r) then quality_one else Quality r) (r_Parameters r)).
Proof using Type.
  intros (Ht & Hs & Hw & Hp) Hq Hft Hf. rewrite MediaRange_String_media. unfold MediaRange_Parse.
  destruct (wildcard_ok _ _ Ht) as (Ot & Et & Wt); [intros c Hc; set_solver|].
  destruct (wildcard_ok _ _ Hs) as (Os & Es & Ws); [intros c Hc; set_solver|].
  rewrite MediaType_roundtrip.
  - simpl. rewrite Et, Es. rewrite Wt, bool_decide_not, Ws.
    replace (bool_decide (r_Type r = []) && negb (bool_decide (r_Subtype r = []))) with false.
    2: { repeat case_bool_decide; try done. by rewrite Hw in *. }
    unfold range_parameters_written. rewrite range_parameters_app by done. cbn.
    destruct (is_one (Quality r)); [done|]. cbn. rewrite bool_decide_true by done. by rewrite Hf.
  - split; [done|]. split; [done|]. cbn. unfold range_parameters_written. apply Forall_app. split.
    + eapply Forall_impl; [exact Hp|]. by intros p [].
    + destruct (is_one (Quality r)); constructor; [|done]. by split; [by_decision|].
Qed.
End range_roundtrip.

#[local] Instance half_read : GoFloats := { ParseFloat s := if bool_decide (s = "0.5"%go) then Some (Finite (1 # 2)) else None }.
#[local] Instance half_written : GoFormatFloat := { FormatFloat _ := "0.5"%go }.
#[local] Existing Instance ascii_only.

Lemma MediaRange_roundtrip_witness :
  MediaRange_Parse "text/*;level=1;q=0.5"%go
  = Ret (mkRange "text"%go [] (Finite (1 # 2)) [mkParam "level"%go "1"%go]).
Proof.
  refine (MediaRange_roundtrip (mkRange "text"%go [] (Finite (1 # 2)) [mkParam "level"%go "1"%go]) _ _ _ _); [|done|by_decision|done].
  split; [right; by_decision|]. split; [by left|]. split; [done|]. repeat constructor; by_decision.
Defined.
