(* ===== verification/NetAddresses.v ===== *)
(** * Addresses and domain names (pkg/netutils: addresses.go, host_address.go,
    ip_addresses.go, domain_names.go, domain_name_pattern.go, errors.go, misc.go;
    pkg/httputils: host.go, syntax.go)

    Numeric addresses of clients, host addresses of upstream servers, domain
    names and patterns, Host header fields, and the errors that are not logged.
    A BCL value that is not a string never reaches these definitions. *)

From S2P Require Import Prelude GoStrings NetIP.

(** ** Numeric addresses *)

Definition valid_port (lo hi : Z) (port : gostring) : option Z :=
  match ParseInt port with
  | Some n => if (n <? lo) || (hi <? n) then None else Some n
  | None => None
  end.

Definition ParseNumericAddress (s : gostring) : outcome (IP * Z) :=
  '(host, port) ← replace_error "invalid format"%go (SplitHostPort s);
  match ParseIP host with
  | None => Throw (Errorf "invalid IP address"%go)
  | Some ipAddress =>
      match valid_port 1 65535 port with
      | Some portNumber => Ret (ipAddress, portNumber)
      | None => Throw (Errorf "invalid port number"%go)
      end
  end.

(** [ConnectionRemoteAddress]; [None] is a nil [net.Addr]. *)
Definition ConnectionRemoteAddress (remoteAddr : option gostring) : outcome (IP * Z) :=
  match remoteAddr with
  | None => Throw (Errorf "missing remote address"%go)
  | Some s => wrap_error "invalid remote address"%go (ParseNumericAddress s)
  end.

Definition FormatNumericAddress (addr : IP) (portNumber : Z) : gostring :=
  if bool_decide (length addr = IPv6len)
  then "["%go ++ IP_String addr ++ "]:"%go ++ Itoa portNumber
  else IP_String addr ++ ":"%go ++ Itoa portNumber.

(** The last valid port is 65534 here and 65535 everywhere else. *)
Definition ValidateBCLAddress (v : gostring) : outcome unit :=
  '(_, portString) ← replace_error "invalid address"%go (SplitHostPort v);
  if bool_decide (portString = []) then Throw (Errorf "invalid address: empty port number"%go)
  else match valid_port 1 65534 portString with
       | Some _ => Ret tt
       | None => Throw (Errorf "invalid address: invalid port number"%go)
       end.

(** ** Host addresses *)

Record HostAddress := mkHostAddress { ha_Hostname : gostring; ha_Address : IP; ha_Port : Z }.

#[export] Instance HostAddress_eq_dec : EqDecision HostAddress.
Proof. solve_decision. Defined.

Definition HostAddress_String (ha : HostAddress) : gostring :=
  let host := ha_Hostname ha in
  let host := if bool_decide (host = []) then IP_String (ha_Address ha) else host in
  JoinHostPort host (Itoa (ha_Port ha)).

(** [HostAddress.ReadBCLValue] of a string, on a zero host address. *)
Definition HostAddress_Parse (s : gostring) : outcome HostAddress :=
  '(host, port) ← wrap_error "invalid format"%go (SplitHostPort s);
  ha ←
    match host with
    | [] => Panic
    | c :: _ =>
        if is_digit c || bool_decide (c = ":"%char) then
          match ParseIP host with
          | None => Throw (Errorf "invalid IP address"%go)
          | Some addr => Ret (mkHostAddress [] addr 0)
          end
        else Ret (mkHostAddress host [] 0)
    end;
  match valid_port 1 65535 port with
  | Some n => Ret (mkHostAddress (ha_Hostname ha) (ha_Address ha) n)
  | None => Throw (Errorf "invalid port number"%go)
  end.

(** ** Networks and single addresses *)

Definition IPNetAddr_String (addr : IPNet) : gostring := IPNet_String addr.

Definition IPNetAddr_Parse (s : gostring) : outcome IPNet :=
  match ParseCIDR s with
  | None => Throw (Errorf "invalid format"%go)
  | Some (_, ipNetAddr) => Ret ipNetAddr
  end.

Definition IPAddr_String (addr : IPNet) : gostring := IPNet_String addr.

(** [IPAddr.Parse]; the mask is that of the 16 bytes [ParseIP] returns. *)
Definition IPAddr_Parse (s : gostring) : outcome IPNet :=
  match ParseIP s with
  | None => Throw (Errorf "invalid format"%go)
  | Some ipAddr =>
      let bitLen := len ipAddr * 8 in
      Ret (mkIPNet ipAddr (default [] (CIDRMask bitLen bitLen)))
  end.

(** ** Domain names *)

Definition is_letter (c : byte) : bool := is_upper c || is_lower c.
Definition letter_or_digit (c : byte) : bool := is_letter c || is_digit c.

Definition maxLabelLength : nat := 63.

(** The body of the label loop; a label with a rune above 0x7f has a byte
    above it, so that runes and bytes agree once this test has passed. *)
Definition validate_label (label : gostring) : outcome unit :=
  match label with
  | [] => Throw (Errorf "invalid empty domain name label"%go)
  | c0 :: cs =>
      if negb (forallb is_ascii label) then Throw (Errorf "invalid character"%go)
      else if (maxLabelLength <? length label)%nat then Throw (Errorf "label too long"%go)
      else if negb (letter_or_digit c0)
      then Throw (Errorf "labels must start with a letter or digit"%go)
      else if negb (letter_or_digit (List.last label c0))
      then Throw (Errorf "labels must end with a letter or digit"%go)
      else if negb (forallb (fun c => letter_or_digit c || bool_decide (c = "-"%char)) (removelast cs))
      then Throw (Errorf "labels characters must be letters, digits or '-' characters"%go)
      else Ret tt
  end.

Fixpoint validate_labels (labels : list gostring) : outcome unit :=
  match labels with
  | [] => Ret tt
  | label :: labels' => _ ← validate_label label; validate_labels labels'
  end.

Definition drop_final_dot (s : gostring) : gostring :=
  match last s with
  | Some c => if bool_decide (c = "."%char) then removelast s else s
  | None => s
  end.

(** [ValidateBCLDomainName]: the index of the last byte panics on an empty
    string. *)
Definition ValidateBCLDomainName (s : gostring) : outcome unit :=
  match s with
  | [] => Panic
  | _ => validate_labels (Split (drop_final_dot s) "."%char)
  end.

(** [DomainNamePattern]: the labels, the empty one a wildcard. *)
Abbreviation DomainNamePattern := (list gostring) (only parsing).

Definition DomainNamePattern_String (p : DomainNamePattern) : gostring :=
  p ≫= (fun l => (if bool_decide (l = []) then "*"%go else l) ++ "."%go).

Fixpoint parse_labels (labelStrings : list gostring) : outcome DomainNamePattern :=
  match labelStrings with
  | [] => Ret []
  | l :: ls =>
      if bool_decide (l = []) then Throw (Errorf "invalid empty label"%go)
      else
        labels ← parse_labels ls;
        Ret ((if bool_decide (l = "*"%go) then [] else l) :: labels)
  end.

Definition DomainNamePattern_Parse (s : gostring) : outcome DomainNamePattern :=
  let s := drop_final_dot s in
  if bool_decide (s = []) then Throw (Errorf "empty pattern"%go)
  else parse_labels (Split s "."%char).

Fixpoint match_labels (labels patternLabels : list gostring) : bool :=
  match labels, patternLabels with
  | [], [] => true
  | label :: labels', pl :: pls =>
      (bool_decide (pl = []) || bool_decide (label = pl)) && match_labels labels' pls
  | _, _ => false
  end.

Definition DomainNamePattern_Match (p : DomainNamePattern) (domainName : gostring) : bool :=
  let domainName := drop_final_dot domainName in
  if bool_decide (domainName = []) then false
  else match_labels (Split domainName "."%char) p.

(** ** Host header fields (pkg/httputils/host.go) *)

Definition valid_port_string (portString : gostring) : outcome unit :=
  match portString with
  | [] => Ret tt
  | _ => match valid_port 1 65535 portString with
         | Some _ => Ret tt
         | None => Throw (Errorf "invalid port number"%go)
         end
  end.

Definition ParseHostHeaderField (s : gostring) : outcome gostring :=
  match s with
  | [] => Throw (Errorf "empty value"%go)
  | c :: s' =>
      '(host, portString) ←
        (if bool_decide (c = "["%char) then
           let '(before, after, found) := Cut s' "]"%char in
           if negb found then Throw (Errorf "truncated IPv6 address"%go)
           else
             let host := before in
             if bool_decide (host = []) then Throw (Errorf "empty host"%go)
             else match ParseIP host with
                  | None => Throw (Errorf "invalid IPv6 address"%go)
                  | Some addr =>
                      if bool_decide (To16 addr = None) then Throw (Errorf "invalid IPv6 address"%go)
                      else match after with
                           | [] => Ret (host, [])
                           | a0 :: after' =>
                               if negb (bool_decide (a0 = ":"%char))
                               then Throw (Errorf "invalid character after IPv6 address"%go)
                               else if bool_decide (after' = []) then Throw (Errorf "truncated value"%go)
                               else Ret (host, after')
                           end
                  end
         else
           let '(before, after, found) := Cut s ":"%char in
           if found && bool_decide (after = []) then Throw (Errorf "truncated value"%go)
           else match before with
                | [] => Throw (Errorf "empty host"%go)
                | h0 :: _ =>
                    if (49 <=? bval h0) && (bval h0 <=? 57) then
                      match ParseIP before with
                      | None => Throw (Errorf "invalid IPv4 address"%go)
                      | Some addr =>
                          if bool_decide (To4 addr = None) then Throw (Errorf "invalid IPv4 address"%go)
                          else Ret (before, after)
                      end
                    else Ret (before, after)
                end);
      _ ← valid_port_string portString;
      Ret host
  end.

(** ** Token lists (pkg/httputils/syntax.go) *)

Section tokens.
Context `{GoUnicode}.

Definition SplitTokenList (s : gostring) (normalize : bool) : list gostring :=
  Split s ","%char ≫= (fun part =>
    let token := Trim part (" "%char :: ["009"%char]) in
    if bool_decide (token = []) then []
    else [if normalize then ToLower token else token]).
End tokens.

Definition AppendToTokenList (s : gostring) (tokens : list gostring) : gostring :=
  match tokens with
  | [] => s
  | _ =>
      let tokenString := Join tokens ", "%go in
      let s := TrimRight s (", "%go ++ ["009"%char]) in
      if bool_decide (s = []) then tokenString else s ++ ", "%go ++ tokenString
  end.

(** ** Errors (pkg/netutils/errors.go, misc.go) *)

(** The first [*os.SyscallError] of the chain. *)
Fixpoint find_syscall_error (e : error) : option Z :=
  match e with
  | SyscallError errno => Some errno
  | Wrapf _ e' | OpError _ e' | URLError e' => find_syscall_error e'
  | _ => None
  end.

(** [ECONNRESET] is 104 and [EPIPE] 32 on Linux. *)
Definition IsSilentIOError (err : error) : bool :=
  if errors_Is err io_EOF || errors_Is err io_ErrUnexpectedEOF then true
  else if errors_Is err net_ErrClosed then true
  else match find_syscall_error err with
       | Some errno => (errno =? 104) || (errno =? 32)
       | None => false
       end.

Fixpoint IsTLSError (err : error) : bool :=
  match err with
  | TLSRecordHeaderError => true
  | Wrapf _ e' | OpError _ e' | URLError e' => IsTLSError e'
  | _ => false
  end.

Definition IsConnectionClosedError (err : error) : bool :=
  errors_Is err io_EOF || errors_Is err net_ErrClosed.

(** ** Lemmas *)

Lemma ParseNumericAddress_completed s : completed (ParseNumericAddress s).
Proof.
  unfold ParseNumericAddress. apply completed_bind; [apply completed_replace, SplitHostPort_completed|].
  intros [host port] _. destruct (ParseIP host); [|done]. by destruct (valid_port _ _ _).
Qed.

Lemma drop_final_dot_snoc s : drop_final_dot (s ++ ["."%char]) = s.
Proof.
  unfold drop_final_dot. rewrite last_snoc, bool_decide_true by done. apply removelast_last.
Qed.

Lemma drop_final_dot_id s : last s <> Some "."%char -> drop_final_dot s = s.
Proof.
  unfold drop_final_dot. destruct (last s) as [c|]; [|done]. intros H.
  rewrite bool_decide_false; [done|]. congruence.
Qed.

Lemma last_app_ne {A} (a b : list A) : b <> [] -> last (a ++ b) = last b.
Proof. intros Hb. rewrite last_app. destruct (last b) eqn:E; [done|]. by apply last_None in E. Qed.

(** A domain name: labels that are not empty and hold no dot. *)
Definition label_ok (l : gostring) : Prop := l <> [] /\ ("."%char ∉ l).

#[export] Instance label_ok_dec l : Decision (label_ok l).
Proof. unfold label_ok. apply _. Defined.

Lemma Join_last labels :
  labels <> [] -> Forall label_ok labels ->
  Join labels "."%go <> [] /\ last (Join labels "."%go) <> Some "."%char.
Proof.
  intros Hne Hok. induction Hok as [|l ls [Hl Hd] Hok IH]; [done|].
  assert (last l <> Some "."%char) as Hll.
  { intros Hlast. apply last_Some in Hlast as [l' ->]. apply Hd. set_solver. }
  destruct ls as [|l2 ls]; [done|].
  rewrite Join_cons by done. destruct IH as [IH1 IH2]; [done|].
  split; [by destruct l|]. rewrite app_assoc, last_app_ne; done.
Qed.

Lemma Split_labels labels final :
  labels <> [] -> Forall label_ok labels ->
  Split (drop_final_dot (Join labels "."%go ++ if (final : bool) then "."%go else [])) "."%char = labels
  /\ drop_final_dot (Join labels "."%go ++ if final then "."%go else []) <> [].
Proof.
  intros Hne Hok. destruct (Join_last labels Hne Hok) as [H1 H2].
  assert (drop_final_dot (Join labels "."%go ++ if final then "."%go else []) = Join labels "."%go) as ->.
  { destruct final; [apply drop_final_dot_snoc|]. rewrite app_nil_r. by apply drop_final_dot_id. }
  split; [|done]. apply Split_Join; [done|]. eapply Forall_impl; [done|]. by intros l [_ ?].
Qed.

Lemma match_labels_spec labels p :
  match_labels labels p = true <-> Forall2 (fun pl l => pl = [] \/ l = pl) p labels.
Proof.
  revert p. induction labels as [|l labels IH]; intros [|pl p]; simpl; split; intros H; try done;
    try (by inversion H).
  - apply andb_true_iff in H as [H1 H2]. apply orb_true_iff in H1. rewrite !bool_decide_eq_true in H1.
    constructor; [done|by apply IH].
  - inversion H as [|? ? ? ? H1 H2]; subst. apply andb_true_iff. split; [|by apply IH].
    apply orb_true_iff. by rewrite !bool_decide_eq_true.
Qed.

(** ** Properties *)

(** A domain name pattern matches a name exactly when both have the same
    number of labels and every label of the pattern is a wildcard or equal to
    the label of the name; a final dot of the name is ignored, and the empty
    name never matches. *)
Theorem DomainNamePattern_Match_spec p labels (final : bool) :
  labels <> [] -> Forall label_ok labels ->
  (DomainNamePattern_Match p (Join labels "."%go ++ if final then "."%go else []) = true
   <-> Forall2 (fun pl l => pl = [] \/ l = pl) p labels)
  /\ DomainNamePattern_Match p [] = false.
Proof.
  intros Hne Hok. split; [|done]. unfold DomainNamePattern_Match.
  destruct (Split_labels labels final Hne Hok) as [Hs Hn].
  rewrite bool_decide_false by done. rewrite Hs. apply match_labels_spec.
Qed.

Lemma DomainNamePattern_Match_spec_witness :
  DomainNamePattern_Match [[]; "example"%go; "com"%go] "www.example.com."%go = true.
Proof.
  refine (proj2 (proj1 (DomainNamePattern_Match_spec [[]; "example"%go; "com"%go]
           ["www"%go; "example"%go; "com"%go] true ltac:(done) ltac:(by_decision))) _).
  apply Forall2_cons; split; [by left|]. apply Forall2_cons; split; [by right|].
  apply Forall2_cons; split; [by right|]. constructor.

Defined.

(** The labels a parsed pattern has. *)
Definition pattern_label_ok (l : gostring) : Prop := ("."%char ∉ l) /\ l <> "*"%go.

#[export] Instance pattern_label_ok_dec l : Decision (pattern_label_ok l).
Proof. unfold pattern_label_ok. apply _. Defined.

(** Parsing the text of a pattern gives the pattern back, wildcards
    included. *)
Theorem DomainNamePattern_roundtrip p :
  p <> [] -> Forall pattern_label_ok p ->
  DomainNamePattern_Parse (DomainNamePattern_String p) = Ret p.
Proof.
  intros Hne Hok. set (show := fun l : gostring => if bool_decide (l = []) then "*"%go else l).
  assert (DomainNamePattern_String p = Join (map show p) "."%go ++ "."%go) as ->.
  { clear Hok. unfold DomainNamePattern_String. induction p as [|l p IH]; [done|].
    cbn [map]. destruct p as [|l2 p]; [cbn [mbind list_bind map Join]; by rewrite app_nil_r|].
    rewrite Join_cons by done. cbn [mbind list_bind] in *. rewrite IH by done.
    by rewrite <- !app_assoc. }
  destruct (Split_labels (map show p) true) as [Hs Hn].
  { by destruct p. }
  { apply Forall_map. eapply Forall_impl; [done|]. intros l [Hd _]. unfold label_ok, show.
    case_bool_decide; [|done]. split; [done|]. by_decision. }
  unfold DomainNamePattern_Parse. rewrite bool_decide_false by done. rewrite Hs. clear Hs Hn Hne.
  induction Hok as [|l p [Hd Hstar] Hok IH]; [done|]. cbn [map parse_labels].
  assert (show l <> []) as Hshow by (unfold show; by case_bool_decide).
  rewrite bool_decide_false, IH by done. cbn [mbind outcome_bind]. f_equal. f_equal.
  unfold show. destruct (decide (l = [])) as [->|Hl]; [done|].
  by rewrite (bool_decide_false (l = [])), bool_decide_false.
Qed.

Lemma DomainNamePattern_roundtrip_witness :
  DomainNamePattern_Parse "*.example.com."%go = Ret [[]; "example"%go; "com"%go].
Proof. exact (DomainNamePattern_roundtrip [[]; "example"%go; "com"%go] ltac:(done) ltac:(by_decision)). Defined.

(** A host name that cannot be taken for an address or an IPv6 literal. *)
Definition hostname_ok (host : gostring) : Prop :=
  match host with
  | [] => False
  | c :: _ => is_digit c = false
  end /\ Forall (fun c => c ∉ host) ":[]"%go.

#[export] Instance hostname_ok_dec host : Decision (hostname_ok host).
Proof. unfold hostname_ok. destruct host; apply _. Defined.

Lemma port_separators n : 0 <= n -> Forall (fun c => c ∉ Itoa n) ":[]"%go.
Proof. intros Hn. repeat constructor; by apply (not_in_digits _ _ (Itoa_digits n Hn)). Qed.

Lemma valid_port_Itoa lo hi n : 0 <= lo -> hi < 2 ^ 63 -> lo <= n <= hi -> valid_port lo hi (Itoa n) = Some n.
Proof.
  intros Hlo Hhi Hn. unfold valid_port. rewrite ParseInt_Itoa by lia.
  rewrite (proj2 (Z.ltb_ge _ _)), (proj2 (Z.ltb_ge _ _)) by lia. done.
Qed.

(** The text of the host address of a named host reads back as the same
    host address, but a text with an empty host (":80") makes the reader panic
    instead of failing. *)
Theorem HostAddress_roundtrip host port :
  hostname_ok host -> 1 <= port <= 65535 ->
  HostAddress_Parse (HostAddress_String (mkHostAddress host [] port)) = Ret (mkHostAddress host [] port)
  /\ HostAddress_Parse (HostAddress_String (mkHostAddress [] (v4InV6Prefix ++ replicate 4 zero_byte) port))
     = Ret (mkHostAddress [] (v4InV6Prefix ++ replicate 4 zero_byte) port)
  /\ HostAddress_Parse (":"%char :: Itoa port) = Panic.
Proof.
  intros [Hh Hsep] Hp. pose proof (port_separators port ltac:(lia)) as Hps.
  assert (forall h, Forall (fun c => c ∉ h) ":[]"%go -> JoinHostPort h (Itoa port) = h ++ ":"%char :: Itoa port) as Hj.
  { intros h Hf. apply Forall_cons in Hf as [Hc _]. unfold JoinHostPort. by rewrite bool_decide_false. }
  unfold HostAddress_Parse, HostAddress_String. cbn [ha_Hostname ha_Port ha_Address].
  assert (host <> []) as Hne by (by destruct host).
  split; [|split].
  - rewrite bool_decide_false by done. rewrite Hj, SplitHostPort_plain by done.
    cbn [wrap_error mbind outcome_bind]. destruct host as [|c host]; [done|].
    rewrite Hh. rewrite bool_decide_false by (intros ->; apply Forall_cons in Hsep as [Hc _]; set_solver).
    cbn [orb]. rewrite valid_port_Itoa by lia. done.
  - rewrite bool_decide_true by done.
    change (IP_String (v4InV6Prefix ++ replicate 4 zero_byte)) with ("0.0.0.0"%go).
    assert (Forall (fun c => c ∉ "0.0.0.0"%go) ":[]"%go) as Hf by by_decision.
    rewrite Hj, SplitHostPort_plain by done. cbn [wrap_error mbind outcome_bind].
    change (ParseIP "0.0.0.0"%go) with (Some (v4InV6Prefix ++ replicate 4 zero_byte)).
    cbn [is_digit]. change (is_digit "0"%char || bool_decide ("0"%char = ":"%char)) with true.
    cbv iota. cbn [mbind outcome_bind]. rewrite valid_port_Itoa by lia. done.
  - change (":"%char :: Itoa port) with ([] ++ ":"%char :: Itoa port).
    rewrite SplitHostPort_plain; [done| |done]. repeat constructor; apply not_elem_of_nil.
Qed.

Lemma HostAddress_roundtrip_witness :
  HostAddress_Parse "www.example.com:80"%go = Ret (mkHostAddress "www.example.com"%go [] 80).
Proof. exact (proj1 (HostAddress_roundtrip "www.example.com"%go 80 ltac:(by_decision) ltac:(lia))). Defined.

(** A Host field made of a host name and a port gives the name; the port
    may be left out, and an invalid or missing one after the colon is an error. *)
Theorem ParseHostHeaderField_hostname host port :
  hostname_ok host -> 1 <= port <= 65535 ->
  ParseHostHeaderField host = Ret host
  /\ ParseHostHeaderField (host ++ ":"%char :: Itoa port) = Ret host
  /\ is_ret (ParseHostHeaderField (host ++ ":"%go)) = false
  /\ is_ret (ParseHostHeaderField (host ++ ":"%char :: Itoa (port + 65535))) = false.
Proof.
  intros [Hh Hsep] Hp. apply Forall_cons in Hsep as [Hc Hsep]. apply Forall_cons in Hsep as [Hb _].
  destruct host as [|c host]; [done|].
  assert (bool_decide (c = "["%char) = false) as Hcb by (apply bool_decide_eq_false; intros ->; set_solver).
  assert ((49 <=? bval c) && (bval c <=? 57) = false) as Hd.
  { unfold is_digit in Hh. apply andb_false_iff in Hh. apply andb_false_iff.
    rewrite !Z.leb_gt in *. lia. }
  assert (forall tail, ParseHostHeaderField ((c :: host) ++ ":"%char :: tail)
    = if bool_decide (tail = []) then Throw (Errorf "truncated value"%go)
      else _ ← valid_port_string tail; Ret (c :: host)) as Hport.
  { intros tail. unfold ParseHostHeaderField. cbn [app]. rewrite Hcb.
    change (c :: host ++ ":"%char :: tail) with ((c :: host) ++ ":"%char :: tail).
    rewrite Cut_found by done. cbn [andb]. rewrite Hd. by destruct (bool_decide (tail = [])). }
  split; [|split; [|split]].
  - unfold ParseHostHeaderField. rewrite Hcb, Cut_not_found by done. cbn [andb]. by rewrite Hd.
  - rewrite Hport, bool_decide_false by apply Itoa_not_nil. unfold valid_port_string.
    pose proof (Itoa_not_nil port). rewrite (valid_port_Itoa 1 65535 port) by lia. by destruct (Itoa port).
  - change ":"%go with (":"%char :: []). by rewrite Hport, bool_decide_true.
  - rewrite Hport, bool_decide_false by apply Itoa_not_nil. unfold valid_port_string, valid_port.
    rewrite ParseInt_Itoa by lia. rewrite (proj2 (Z.ltb_lt 65535 _)), orb_true_r by lia.
    pose proof (Itoa_not_nil (port + 65535)). by destruct (Itoa (port + 65535)).
Qed.

Lemma ParseHostHeaderField_hostname_witness :
  ParseHostHeaderField "localhost:8080"%go = Ret "localhost"%go.
Proof.
  exact (proj1 (proj2 (ParseHostHeaderField_hostname "localhost"%go 8080 ltac:(by_decision) ltac:(lia)))).
Defined.
