(* ===== verification/RateLimiter.v ===== *)
(** * Rate limiting (pkg/netutils/rate_limiter.go)

    The counter of one window, and the limiter that combines a global counter,
    counters for the networks clients belong to, and counters of configured
    addresses.  The clock readings of [time.Now] are an argument. *)

From S2P Require Import Prelude GoStrings NetIP NetAddresses.

(** ** Counters *)

Record RateCounterCfg := mkCfg { cfg_Limit : Z; cfg_Period : Z }.

Record RateCounter := mkCounter { Start : Z; Limit : Z; Period : Z; Count : Z }.

(** [NewRateCounter], where [clock] is the current UNIX time in milliseconds;
    [%] truncates. *)
Definition NewRateCounter (clock : Z) (cfg : RateCounterCfg) : RateCounter :=
  mkCounter (if 0 <? cfg_Period cfg then i64 (clock - Z.rem clock (cfg_Period cfg)) else 0)
    (cfg_Limit cfg) (cfg_Period cfg) 0.

(** [RateCounter.Update]: the counter is changed even when a new window starts
    with a rejected event. *)
Definition RateCounter_Update (n now : Z) (c : RateCounter) : bool * RateCounter :=
  if Period c =? 0 then (true, c)
  else if now <? Start c then (false, c)
  else
    let c := if Period c <? i64 (now - Start c)
             then mkCounter (i64 (now - Z.rem now (Period c))) (Limit c) (Period c) 0
             else c in
    if Limit c <? i64 (Count c + n) then (false, c)
    else (true, mkCounter (Start c) (Limit c) (Period c) (i64 (Count c + n))).

(** ** Configuration *)

(** [parseRateLimiterNetType] *)
Definition parseRateLimiterNetType (s : gostring) (max : Z) : outcome Z :=
  match s with
  | [] => Throw (Errorf "empty network type"%go)
  | c :: s' =>
      if negb (bool_decide (c = "/"%char))
      then Throw (Errorf "invalid network type: value must start with a '/' character"%go)
      else match ParseInt s' with
           | None => Throw (Errorf "invalid network type: invalid prefix"%go)
           | Some i64 =>
               if i64 <? 0 then Throw (Errorf "invalid network type: invalid prefix"%go)
               else if (i64 <? 1) || (max <? i64)
               then Throw (Errorf "invalid network type: prefix length out of range"%go)
               else Ret i64
           end
  end.

Definition RateLimiterIPv4NetType_Parse (s : gostring) : outcome Z := parseRateLimiterNetType s 32.
Definition RateLimiterIPv6NetType_Parse (s : gostring) : outcome Z := parseRateLimiterNetType s 128.

(** [RateLimiterCfg]; the address map is keyed by pointers: its entries are a
    list, where the same network can come several times. *)
Record RateLimiterCfg := mkLimiterCfg {
  Global : option RateCounterCfg;
  PerIPv4Address : gmap Z RateCounterCfg;
  PerIPv6Address : gmap Z RateCounterCfg;
  Addresses : list (IPNet * RateCounterCfg)
}.

Definition IsEmpty (cfg : RateLimiterCfg) : bool :=
  bool_decide (Global cfg = None) && (size (PerIPv4Address cfg) =? 0)%nat
  && (size (PerIPv6Address cfg) =? 0)%nat && (length (Addresses cfg) =? 0)%nat.

(** ** Configured addresses *)

Record AddressRateLimiter := mkAddrRL { NetAddress : IPNet; RateLimiter_ : RateCounter }.

(** The comparison of [AddressRateLimiters.Sort]. *)
Definition compare_addr (addr1 addr2 : IPNet) : comparison :=
  if len (net_IP addr1) <? len (net_IP addr2) then Lt
  else if len (net_IP addr2) <? len (net_IP addr1) then Gt
  else
    let prefixLength1 := Mask_Size (net_Mask addr1) in
    let prefixLength2 := Mask_Size (net_Mask addr2) in
    if prefixLength2 <? prefixLength1 then Lt
    else if prefixLength1 <? prefixLength2 then Gt
    else bytes_Compare (IPNet_String addr1) (IPNet_String addr2).

Definition addr_le (a1 a2 : AddressRateLimiter) : Prop :=
  compare_addr (NetAddress a1) (NetAddress a2) <> Gt.

#[export] Instance addr_le_dec : RelDecision addr_le.
Proof. intros a1 a2. unfold addr_le. apply _. Defined.

(** [AddressRateLimiters.Sort]: [slices.SortFunc] leaves the order of elements that
    compare equal unspecified; here it is the one they come in, which
    [NewRateLimiter] takes as an argument. *)
Definition Sort (rls : list AddressRateLimiter) : list AddressRateLimiter := merge_sort addr_le rls.

(** ** The limiter *)

Abbreviation RateCounterTable := (gmap gostring RateCounter) (only parsing).

Record RateLimiter := mkLimiter {
  rl_Cfg : RateLimiterCfg;
  rl_global : option RateCounter;
  perIPv4Address : gmap Z RateCounterTable;
  perIPv6Address : gmap Z RateCounterTable;
  addresses : list AddressRateLimiter
}.

Definition set_global (g : option RateCounter) (rl : RateLimiter) : RateLimiter :=
  mkLimiter (rl_Cfg rl) g (perIPv4Address rl) (perIPv6Address rl) (addresses rl).
Definition set_perIPv4 (m : gmap Z RateCounterTable) (rl : RateLimiter) : RateLimiter :=
  mkLimiter (rl_Cfg rl) (rl_global rl) m (perIPv6Address rl) (addresses rl).
Definition set_perIPv6 (m : gmap Z RateCounterTable) (rl : RateLimiter) : RateLimiter :=
  mkLimiter (rl_Cfg rl) (rl_global rl) (perIPv4Address rl) m (addresses rl).
Definition set_addresses (l : list AddressRateLimiter) (rl : RateLimiter) : RateLimiter :=
  mkLimiter (rl_Cfg rl) (rl_global rl) (perIPv4Address rl) (perIPv6Address rl) l.

(** [NewRateLimiter], whose range over the map of addresses goes over the entries
    [ranged], each with the time its counter reads; a nil map of tables is an
    empty one, which is all the code can tell. *)
Definition NewRateLimiter (clock : Z) (ranged : list (IPNet * RateCounterCfg * Z)) (cfg : RateLimiterCfg)
  : RateLimiter :=
  mkLimiter cfg
    (NewRateCounter clock <$> Global cfg)
    ((fun _ => ∅) <$> PerIPv4Address cfg)
    ((fun _ => ∅) <$> PerIPv6Address cfg)
    (Sort (map (fun '(addr, rcCfg, now) => mkAddrRL addr (NewRateCounter now rcCfg)) ranged)).

(** The orders in which the range over the map of addresses may go. *)
Definition ranges_over (ranged : list (IPNet * RateCounterCfg * Z)) (cfg : RateLimiterCfg) : Prop :=
  Permutation (map fst ranged) (Addresses cfg).

Definition gc_table (table : RateCounterTable) : RateCounterTable :=
  filter (fun '(_, counter) => Count counter <> 0) table.

(** [RateLimiter.GC] *)
Definition GC (rl : RateLimiter) : RateLimiter :=
  set_perIPv6 (gc_table <$> perIPv6Address rl) (set_perIPv4 (gc_table <$> perIPv4Address rl) rl).

(** The key of the counter of an address, for a prefix length out of [bits]. *)
Definition table_key (bits prefixLength : Z) (addr : IP) : gostring :=
  let mask := default [] (CIDRMask prefixLength bits) in
  IPNet_String (mkIPNet (default [] (Mask addr mask)) mask).

(** One turn of the loops over the tables: a missing configuration would be a
    nil dereference in [NewRateCounter]. *)
Definition update_table (cfgs : gmap Z RateCounterCfg) (clock bits n : Z) (addr : IP) (now : Z)
    (prefixLength : Z) (tables : gmap Z RateCounterTable) : outcome bool * gmap Z RateCounterTable :=
  let key := table_key bits prefixLength addr in
  let table := default ∅ (tables !! prefixLength) in
  match
    match table !! key with
    | Some rc => Some rc
    | None => NewRateCounter clock <$> cfgs !! prefixLength
    end
  with
  | None => (Panic, tables)
  | Some rc =>
      let '(ok, rc) := RateCounter_Update n now rc in
      (Ret ok, <[prefixLength := <[key := rc]> table]> tables)
  end.

(** The loop over the tables in the order [order]: whether all updates passed. *)
Fixpoint update_tables (cfgs : gmap Z RateCounterCfg) (clock bits n : Z) (addr : IP) (now : Z)
    (order : list Z) : ST (gmap Z RateCounterTable) bool :=
  match order with
  | [] => mret true
  | p :: order' =>
      ok ← update_table cfgs clock bits n addr now p;
      rest ← update_tables cfgs clock bits n addr now order';
      mret (ok && rest)
  end.

(** The loop over the configured addresses: the first that contains the address
    and accepts the event ends it. *)
Fixpoint update_addresses (n : Z) (addr : IP) (now : Z) (rls : list AddressRateLimiter)
  : bool * list AddressRateLimiter :=
  match rls with
  | [] => (false, [])
  | rl :: rls' =>
      if Contains (NetAddress rl) addr then
        let '(ok, rc) := RateCounter_Update n now (RateLimiter_ rl) in
        let rl := mkAddrRL (NetAddress rl) rc in
        if ok then (true, rl :: rls')
        else let '(pass, rls') := update_addresses n addr now rls' in (pass, rl :: rls')
      else let '(pass, rls') := update_addresses n addr now rls' in (pass, rl :: rls')
  end.

Definition update_global (n now : Z) : ST RateLimiter bool := fun rl =>
  match rl_global rl with
  | None => (Ret true, rl)
  | Some c => let '(ok, c) := RateCounter_Update n now c in (Ret ok, set_global (Some c) rl)
  end.

Definition update_ipv4 (order : list Z) (clock n : Z) (addr : IP) (now : Z) : ST RateLimiter bool := fun rl =>
  if bool_decide (length addr = IPv4len) then
    zoom perIPv4Address set_perIPv4
      (update_tables (PerIPv4Address (rl_Cfg rl)) clock 32 n addr now order) rl
  else (Ret true, rl).

Definition update_ipv6 (order : list Z) (clock n : Z) (addr : IP) (now : Z) : ST RateLimiter bool := fun rl =>
  if bool_decide (length addr = IPv6len) then
    zoom perIPv6Address set_perIPv6
      (update_tables (PerIPv6Address (rl_Cfg rl)) clock 128 n addr now order) rl
  else (Ret true, rl).

Definition update_specific (pass : bool) (n : Z) (addr : IP) (now : Z) : ST RateLimiter bool := fun rl =>
  match addresses rl with
  | [] => (Ret (pass || false), rl)
  | rls =>
      let '(addressPass, rls) := update_addresses n addr now rls in
      (Ret (if addressPass then pass || addressPass else false), set_addresses rls rl)
  end.

(** [RateLimiter.Update]; [order4] and [order6] are the orders in which the
    ranges over the two maps of tables go, and the counters one update creates read
    the same [clock]. *)
Definition RateLimiter_Update (order4 order6 : list Z) (clock n : Z) (addr : IP) (now : Z)
  : ST RateLimiter bool :=
  ok1 ← update_global n now;
  ok4 ← update_ipv4 order4 clock n addr now;
  ok6 ← update_ipv6 order6 clock n addr now;
  update_specific (ok1 && ok4 && ok6) n addr now.

(** ** Counters: lemmas *)

(** Limits, periods and times far from the ends of [int64]. *)
Definition bound : Z := 2 ^ 61.

Record counter_ok (c : RateCounter) : Prop := {
  ok_period : 0 < Period c < bound;
  ok_limit : 0 <= Limit c < bound;
  ok_start : 0 <= Start c < bound;
  ok_count : 0 <= Count c <= Limit c;
  ok_aligned : exists j, Start c = j * Period c
}.

Definition event_ok (e : Z * Z) : Prop := 0 <= fst e < bound /\ 0 <= snd e < bound.

#[export] Instance event_ok_dec e : Decision (event_ok e).
Proof. unfold event_ok. apply _. Defined.

(** The decisions on a sequence of events: how many requests, and when. *)
Fixpoint run_counter (events : list (Z * Z)) (c : RateCounter) : list bool * RateCounter :=
  match events with
  | [] => ([], c)
  | (n, now) :: es =>
      let '(ok, c) := RateCounter_Update n now c in
      let '(oks, c) := run_counter es c in
      (ok :: oks, c)
  end.

(** The requests admitted strictly inside the window number [k]. *)
Fixpoint admitted (k period : Z) (events : list (Z * Z)) (oks : list bool) : Z :=
  match events, oks with
  | (n, now) :: es, ok :: oks' =>
      (if ok && (k * period <? now) && (now <? (k + 1) * period) then n else 0)
      + admitted k period es oks'
  | _, _ => 0
  end.

(** What [RateCounter.Update] computes when nothing overflows. *)
Lemma RateCounter_Update_spec n now c :
  counter_ok c -> 0 <= n < bound -> 0 <= now < bound ->
  RateCounter_Update n now c =
  if now <? Start c then (false, c)
  else
    let start := if Period c <? now - Start c then now - now mod Period c else Start c in
    let count := if Period c <? now - Start c then 0 else Count c in
    if Limit c <? count + n then (false, mkCounter start (Limit c) (Period c) count)
    else (true, mkCounter start (Limit c) (Period c) (count + n)).
Proof.
  intros [Hp Hl Hs Hc _] Hn Ht. unfold bound in *. unfold RateCounter_Update.
  rewrite (proj2 (Z.eqb_neq _ _)) by lia.
  destruct (Z.ltb_spec now (Start c)); [done|].
  rewrite (i64_small (now - Start c)) by lia. rewrite Z.rem_mod_nonneg by lia.
  pose proof (Z.mod_pos_bound now (Period c) ltac:(lia)).
  pose proof (Z.mod_le now (Period c) ltac:(lia) ltac:(lia)).
  destruct (Z.ltb_spec (Period c) (now - Start c)); cbn [Start Limit Period Count].
  - rewrite (i64_small (now - _)), (i64_small (0 + n)) by lia. done.
  - rewrite (i64_small (Count c + n)) by lia. destruct (_ <? _); [by destruct c|done].
Qed.

Lemma RateCounter_Update_ok n now c ok c' :
  counter_ok c -> 0 <= n < bound -> 0 <= now < bound ->
  RateCounter_Update n now c = (ok, c') ->
  counter_ok c' /\ Limit c' = Limit c /\ Period c' = Period c.
Proof.
  intros Hok Hn Ht Hu. rewrite RateCounter_Update_spec in Hu by done.
  pose proof Hok as [Hp Hl Hs Hc [j Hj]].
  destruct (Z.ltb_spec now (Start c)); [by simplify_eq|].
  assert (exists m, now - now mod Period c = m * Period c /\ 0 <= now - now mod Period c <= now) as (m & Hm & Hr).
  { exists (now / Period c). pose proof (Z.div_mod now (Period c) ltac:(lia)).
    pose proof (Z.mod_pos_bound now (Period c) ltac:(lia)).
    pose proof (Z.mod_le now (Period c) ltac:(lia) ltac:(lia)). lia. }
  cbn zeta in Hu.
  destruct (Z.ltb_spec (Period c) (now - Start c));
    repeat case_hyp Hu; bool_facts; simplify_eq; (split; [constructor; cbn; try lia; eauto|done]).
Qed.

(** An event inside a window: afterwards the counter is at that window or
    already beyond it. *)
Lemma RateCounter_Update_window n now c ok c' k :
  counter_ok c -> 0 <= n < bound -> 0 <= now < bound ->
  RateCounter_Update n now c = (ok, c') ->
  k * Period c < now < (k + 1) * Period c ->
  (Start c' = k * Period c \/ (k * Period c < Start c /\ ok = false /\ c' = c)).
Proof.
  intros Hok Hn Ht Hu Hk. rewrite RateCounter_Update_spec in Hu by done.
  destruct Hok as [Hp Hl Hs Hc [j Hj]].
  destruct (Z.ltb_spec now (Start c)) as [Hlt|Hge]; [injection Hu as <- <-; right; split; [lia|done]|].
  left. cbn zeta in Hu.
  assert (now / Period c = k) as Hdiv by (symmetry; apply (Z.div_unique now (Period c) k (now - k * Period c)); lia).
  pose proof (Z.div_mod now (Period c) ltac:(lia)) as Hdm. rewrite Hdiv in Hdm.
  assert ((if Period c <? now - Start c then now - now mod Period c else Start c) = k * Period c) as Hstart.
  { destruct (Z.ltb_spec (Period c) (now - Start c)); [lia|].
    assert (j = k) by nia. nia. }
  rewrite Hstart in Hu. by repeat case_hyp Hu; simplify_eq.
Qed.

Lemma RateCounter_Update_true n now c c' :
  counter_ok c -> 0 <= n < bound -> 0 <= now < bound ->
  RateCounter_Update n now c = (true, c') ->
  Count c' <= Limit c /\ (Start c' = Start c -> Count c' = Count c + n) /\ n <= Count c'
  /\ Start c <= Start c'.
Proof.
  intros Hok Hn Ht Hu. rewrite RateCounter_Update_spec in Hu by done.
  pose proof Hok as [Hp Hl Hs Hc [j Hj]]. cbn zeta in Hu.
  destruct (Z.ltb_spec now (Start c)); [done|].
  destruct (Z.ltb_spec (Period c) (now - Start c)).
  - case_hyp Hu; [done|]. bool_facts. injection Hu as <-. cbn.
    pose proof (Z.mod_pos_bound now (Period c) ltac:(lia)). lia.
  - case_hyp Hu; [done|]. bool_facts. injection Hu as <-. cbn. lia.
Qed.

Lemma RateCounter_Update_false n now c c' :
  counter_ok c -> 0 <= n < bound -> 0 <= now < bound ->
  RateCounter_Update n now c = (false, c') ->
  (Start c' = Start c /\ Count c' = Count c) \/ Start c < Start c'.
Proof.
  intros Hok Hn Ht Hu. rewrite RateCounter_Update_spec in Hu by done.
  pose proof Hok as [Hp Hl Hs Hc [j Hj]]. cbn zeta in Hu.
  destruct (Z.ltb_spec now (Start c)); [injection Hu as <-; by left|].
  destruct (Z.ltb_spec (Period c) (now - Start c)).
  - case_hyp Hu; [|done]. injection Hu as <-. cbn. right.
    pose proof (Z.mod_pos_bound now (Period c) ltac:(lia)). lia.
  - case_hyp Hu; [|done]. injection Hu as <-. cbn. by left.
Qed.

(** What may still be admitted inside the window [k]. *)
Definition remaining (k : Z) (c : RateCounter) : Z :=
  if Start c <? k * Period c then Limit c
  else if Start c =? k * Period c then Limit c - Count c
  else 0.

Lemma run_counter_remaining k events c :
  counter_ok c -> Forall event_ok events ->
  admitted k (Period c) events (fst (run_counter events c)) <= remaining k c.
Proof.
  intros Hok Hev. revert c Hok. induction Hev as [|[n now] es [Hn Ht] Hes IH]; intros c Hok.
  { unfold remaining. simpl. destruct Hok. repeat case_match; lia. }
  cbn [run_counter fst snd] in *.
  destruct (RateCounter_Update n now c) as [ok c'] eqn:Hu.
  destruct (RateCounter_Update_ok _ _ _ _ _ Hok Hn Ht Hu) as (Hok' & Hl & Hp).
  specialize (IH c' Hok'). rewrite Hp in IH.
  destruct (run_counter es c') as [oks c'']. cbn [fst snd admitted] in *.
  unfold remaining in *. rewrite Hp, Hl in IH.
  pose proof Hok as [Hp0 Hl0 Hs0 Hc0 _]. pose proof Hok' as [_ _ Hs1 Hc1 _]. rewrite Hl in Hc1.
  destruct ok.
  - destruct (RateCounter_Update_true _ _ _ _ Hok Hn Ht Hu) as (H1 & H2 & H3 & H4).
    destruct (Z.ltb_spec (k * Period c) now), (Z.ltb_spec now ((k + 1) * Period c)); cbn [andb];
      try (repeat case_hyp IH; repeat case_goal; bool_facts; lia).
    destruct (RateCounter_Update_window _ _ _ _ _ k Hok Hn Ht Hu) as [Hw|(_ & [=] & _)]; [lia|].
    repeat case_hyp IH; repeat case_goal; bool_facts; lia.
  - cbn [andb]. destruct (RateCounter_Update_false _ _ _ _ Hok Hn Ht Hu) as [[H1 H2]|H1];
      repeat case_hyp IH; repeat case_goal; bool_facts; lia.
Qed.

(** ** The limiter: lemmas *)

(** The tables are those of the configured prefix lengths. *)
Record limiter_ok (rl : RateLimiter) : Prop := {
  ok_tables4 : dom (perIPv4Address rl) = dom (PerIPv4Address (rl_Cfg rl));
  ok_tables6 : dom (perIPv6Address rl) = dom (PerIPv6Address (rl_Cfg rl))
}.

(** One turn of the loop depends on, and changes, the table of its prefix only. *)
Definition table_turn (cfg : RateCounterCfg) (clock bits n : Z) (addr : IP) (now prefixLength : Z)
    (table : RateCounterTable) : bool * RateCounterTable :=
  let key := table_key bits prefixLength addr in
  let '(ok, rc) := RateCounter_Update n now (default (NewRateCounter clock cfg) (table !! key)) in
  (ok, <[key := rc]> table).

Section tables.
Context (cfgs : gmap Z RateCounterCfg) (clock bits n : Z) (addr : IP) (now : Z).

Lemma update_table_turn p cfg tables :
  cfgs !! p = Some cfg ->
  update_table cfgs clock bits n addr now p tables
  = let '(ok, t) := table_turn cfg clock bits n addr now p (default ∅ (tables !! p)) in
    (Ret ok, <[p := t]> tables).
Proof.
  intros Hc. unfold update_table, table_turn. rewrite Hc.
  destruct (default ∅ (tables !! p) !! table_key bits p addr); cbn;
    by destruct (RateCounter_Update _ _ _).
Qed.

Lemma update_tables_cons p cfg order tables :
  cfgs !! p = Some cfg ->
  let '(ok, t) := table_turn cfg clock bits n addr now p (default ∅ (tables !! p)) in
  update_tables cfgs clock bits n addr now (p :: order) tables
  = (andb ok <$> fst (update_tables cfgs clock bits n addr now order (<[p := t]> tables)),
     snd (update_tables cfgs clock bits n addr now order (<[p := t]> tables))).
Proof.
  intros Hc. pose proof (update_table_turn p cfg tables Hc) as Hu.
  destruct (table_turn _ _ _ _ _ _ _ _) as [ok t]. cbn [update_tables].
  unfold mbind, st_bind. rewrite Hu.
  by destruct (update_tables cfgs clock bits n addr now order _) as [[r|e| |] s].
Qed.

Lemma update_tables_perm order order' tables :
  Permutation order order' -> NoDup order -> Forall (fun p => is_Some (cfgs !! p)) order ->
  update_tables cfgs clock bits n addr now order tables
  = update_tables cfgs clock bits n addr now order' tables.
Proof.
  intros Hp. revert tables. induction Hp as [|p l l' Hp IH|p q l|l1 l2 l3 H12 IH12 H23 IH23];
    intros tables Hnd Hf.
  - done.
  - apply NoDup_cons in Hnd as [_ Hnd]. apply Forall_cons in Hf as [[c Hc] Hf].
    pose proof (update_tables_cons p c l tables Hc) as H1.
    pose proof (update_tables_cons p c l' tables Hc) as H2.
    destruct (table_turn _ _ _ _ _ _ _ _) as [ok t]. by rewrite H1, H2, IH.
  - apply Forall_cons in Hf as [[cq Hq] Hf]. apply Forall_cons in Hf as [[cp Hpp] Hf].
    assert (p <> q) as Hne by (intros ->; apply NoDup_cons in Hnd as [Hn _]; set_solver).
    pose proof (update_tables_cons q cq (p :: l) tables Hq) as H1.
    pose proof (update_tables_cons p cp (q :: l) tables Hpp) as H2.
    destruct (table_turn cq _ _ _ _ _ _ _) as [okq tq] eqn:Eq.
    destruct (table_turn cp _ _ _ _ _ _ _) as [okp tp] eqn:Ep. rewrite H1, H2. clear H1 H2.
    pose proof (update_tables_cons p cp l (<[q := tq]> tables) Hpp) as H1.
    pose proof (update_tables_cons q cq l (<[p := tp]> tables) Hq) as H2.
    rewrite lookup_insert_ne in H1, H2 by done. rewrite Ep in H1. rewrite Eq in H2.
    rewrite H1, H2, (insert_insert_ne _ _ _ _ _ Hne). cbn [fst snd].
    destruct (update_tables cfgs clock bits n addr now l (<[q:=tq]> (<[p:=tp]> tables)))
      as [[r|e| |] s]; unfold fmap, outcome_fmap; cbn [fst snd]; try reflexivity.
    by rewrite !andb_assoc, (andb_comm okp okq).
  - rewrite IH12 by done. apply IH23; by rewrite <- H12.
Qed.

Lemma update_tables_total order tables :
  Forall (fun p => is_Some (cfgs !! p)) order -> dom tables = dom cfgs ->
  exists ok tables', update_tables cfgs clock bits n addr now order tables = (Ret ok, tables')
                     /\ dom tables' = dom cfgs.
Proof.
  revert tables. induction order as [|p order IH]; intros tables Hf Hd; [by eexists _, _|].
  apply Forall_cons in Hf as [[c Hc] Hf].
  pose proof (update_tables_cons p c order tables Hc) as H1.
  destruct (table_turn _ _ _ _ _ _ _ _) as [ok t].
  destruct (IH (<[p := t]> tables) Hf) as (ok' & tables' & He & Hd').
  { rewrite dom_insert_L, Hd. assert (p ∈ dom cfgs) by (by apply elem_of_dom_2 in Hc). set_solver. }
  rewrite He in H1. rewrite H1. by eexists _, _.
Qed.
End tables.

(** The orders in which a range may go over the tables. *)
Definition range_order (order : list Z) (m : gmap Z RateCounterTable) : Prop :=
  NoDup order /\ forall p, p ∈ order <-> p ∈ dom m.

Lemma range_order_perm order order' m :
  range_order order m -> range_order order' m -> Permutation order order'.
Proof.
  intros [Hn H1] [Hn' H2]. apply NoDup_Permutation; [done|done|]. intros p. by rewrite H1, H2.
Qed.

Lemma range_order_cfgs order m cfgs :
  range_order order m -> dom m = dom cfgs -> Forall (fun p => is_Some ((cfgs : gmap Z RateCounterCfg) !! p)) order.
Proof.
  intros [_ Ho] Hd. apply Forall_forall. intros p Hp. apply elem_of_dom. rewrite <- Hd. by apply Ho.
Qed.

Lemma update_global_ret n now rl :
  exists ok g, update_global n now rl = (Ret ok, set_global g rl).
Proof.
  unfold update_global. destruct (rl_global rl) as [c|] eqn:Hg.
  - destruct (RateCounter_Update n now c) as [ok c']. by eexists _, _.
  - exists true, None. rewrite <- Hg. by destruct rl.
Qed.

Lemma update_specific_ret pass n addr now rl :
  exists ok l, update_specific pass n addr now rl = (Ret ok, set_addresses l rl).
Proof.
  unfold update_specific. destruct (addresses rl) as [|a l] eqn:Ha.
  - exists (pass || false), []. rewrite <- Ha. by destruct rl.
  - destruct (update_addresses n addr now (a :: l)) as [ap l']. by eexists _, _.
Qed.

Lemma update_ip_ret o4 o6 clock n addr now rl :
  limiter_ok rl -> range_order o4 (perIPv4Address rl) -> range_order o6 (perIPv6Address rl) ->
  (exists ok m, update_ipv4 o4 clock n addr now rl = (Ret ok, set_perIPv4 m rl)
                /\ dom m = dom (PerIPv4Address (rl_Cfg rl)))
  /\ (exists ok m, update_ipv6 o6 clock n addr now rl = (Ret ok, set_perIPv6 m rl)
                   /\ dom m = dom (PerIPv6Address (rl_Cfg rl))).
Proof.
  intros [H4 H6] Ho4 Ho6. unfold update_ipv4, update_ipv6, zoom. split; case_bool_decide.
  - destruct (update_tables_total (PerIPv4Address (rl_Cfg rl)) clock 32 n addr now o4 (perIPv4Address rl))
      as (ok & m & -> & Hm); [by eapply range_order_cfgs|done|]. by eexists _, _.
  - exists true, (perIPv4Address rl). split; [by destruct rl|done].
  - destruct (update_tables_total (PerIPv6Address (rl_Cfg rl)) clock 128 n addr now o6 (perIPv6Address rl))
      as (ok & m & -> & Hm); [by eapply range_order_cfgs|done|]. by eexists _, _.
  - exists true, (perIPv6Address rl). split; [by destruct rl|done].
Qed.

(** ** The order of the configured addresses *)

#[export] Instance addr_le_total : Total addr_le.
Proof.
  intros a b. unfold addr_le, compare_addr.
  destruct (Z.ltb_spec (len (net_IP (NetAddress a))) (len (net_IP (NetAddress b)))),
           (Z.ltb_spec (len (net_IP (NetAddress b))) (len (net_IP (NetAddress a))));
    try lia; try (by left); try (by right).
  destruct (Z.ltb_spec (Mask_Size (net_Mask (NetAddress b))) (Mask_Size (net_Mask (NetAddress a)))),
           (Z.ltb_spec (Mask_Size (net_Mask (NetAddress a))) (Mask_Size (net_Mask (NetAddress b))));
    try lia; try (by left); try (by right).
  rewrite (bytes_Compare_antisym (IPNet_String (NetAddress a))).
  by destruct (bytes_Compare _ _); simpl; [left|left|right].
Qed.

(** Shorter addresses first and, among addresses of one length, longer
    prefixes first. *)
Definition more_specific (a b : AddressRateLimiter) : Prop :=
  len (net_IP (NetAddress a)) < len (net_IP (NetAddress b))
  \/ (len (net_IP (NetAddress a)) = len (net_IP (NetAddress b))
      /\ Mask_Size (net_Mask (NetAddress b)) <= Mask_Size (net_Mask (NetAddress a))).

Lemma addr_le_specific a b : addr_le a b -> more_specific a b.
Proof.
  unfold addr_le, compare_addr, more_specific. intros H. repeat case_hyp H; bool_facts; try done; lia.
Qed.

Lemma Sort_sorted rls : StronglySorted more_specific (Sort rls).
Proof.
  apply Sorted_StronglySorted.
  - intros a b c [H1|[H1 H1']] [H2|[H2 H2']]; unfold more_specific; lia.
  - unfold Sort. assert (Sorted addr_le (merge_sort addr_le rls)) as Hs by apply (Sorted_merge_sort _).
    revert Hs. generalize (merge_sort addr_le rls).
    induction 1 as [|a l Hl IH Ha]; constructor; [done|].
    destruct Ha; constructor. by apply addr_le_specific.
Qed.

Lemma Sort_Permutation rls : Permutation (Sort rls) rls.
Proof. apply merge_sort_Permutation. Qed.

Lemma addr_le_lex a b :
  addr_le a b <->
  let la := len (net_IP (NetAddress a)) in let lb := len (net_IP (NetAddress b)) in
  let ma := Mask_Size (net_Mask (NetAddress a)) in let mb := Mask_Size (net_Mask (NetAddress b)) in
  la < lb \/ (la = lb /\ (mb < ma
    \/ (ma = mb /\ string_le (IPNet_String (NetAddress a)) (IPNet_String (NetAddress b))))).
Proof.
  unfold addr_le, compare_addr, string_le. cbv zeta.
  repeat case_goal; bool_facts; split; intros; try done; try lia; intuition lia.
Qed.

#[export] Instance addr_le_trans : Transitive addr_le.
Proof.
  intros a b c. rewrite !addr_le_lex. cbv zeta. intros [?|(? & [?|(? & H1)])] [?|(? & [?|(? & H2)])]; try lia.
  right. split; [lia|]. right. split; [lia|]. by etransitivity.
Qed.

Lemma addr_le_tie a b : addr_le a b -> addr_le b a -> compare_addr (NetAddress a) (NetAddress b) = Eq.
Proof.
  rewrite !addr_le_lex. unfold compare_addr. cbv zeta. intros H1 H2.
  repeat case_goal; bool_facts; try lia. destruct H1 as [?|(_ & [?|(_ & H1)])]; [lia..|].
  destruct H2 as [?|(_ & [?|(_ & H2)])]; [lia..|]. unfold string_le in *.
  rewrite (bytes_Compare_antisym (IPNet_String (NetAddress a))) in H2. by destruct (bytes_Compare _ _).
Qed.

(** Entries whose networks compare equal are the same entry. *)
Definition no_ties (ranged : list (IPNet * RateCounterCfg * Z)) : Prop :=
  forall x y, x ∈ ranged -> y ∈ ranged -> compare_addr (fst (fst x)) (fst (fst y)) = Eq -> x = y.

Lemma Sort_unique l l' :
  (forall a b, a ∈ l -> b ∈ l -> compare_addr (NetAddress a) (NetAddress b) = Eq -> a = b) ->
  Permutation l l' -> Sort l = Sort l'.
Proof.
  intros Ht Hp. unfold Sort. apply (Sorted_unique_strong addr_le); [|apply (Sorted_merge_sort _)..|].
  - intros a b Ha Hb H1 H2. apply Ht; [by rewrite merge_sort_Permutation in Ha| |by apply addr_le_tie].
    rewrite merge_sort_Permutation in Hb. by rewrite Hp.
  - by rewrite !merge_sort_Permutation.
Qed.

Lemma NewRateLimiter_ranged clock cfg ranged ranged' :
  no_ties ranged -> Permutation ranged ranged' ->
  NewRateLimiter clock ranged' cfg = NewRateLimiter clock ranged cfg.
Proof.
  intros Ht Hp. unfold NewRateLimiter. f_equal. symmetry. apply Sort_unique; [|by rewrite Hp].
  intros a b. rewrite !list_elem_of_fmap. intros ([[n1 c1] t1] & -> & H1) ([[n2 c2] t2] & -> & H2) He.
  by injection (Ht _ _ H1 H2 He) as -> -> ->.
Qed.

(** ** Properties *)

(** [C19] Whatever the order of the clock readings, the requests a counter
    admits strictly inside one aligned window add up to at most its limit; the
    counter stays well-formed, and a request is turned away only if it comes
    before the window or would exceed what is left of the limit. *)
Theorem RateCounter_window_limit c events k :
  counter_ok c -> Forall event_ok events ->
  admitted k (Period c) events (fst (run_counter events c)) <= Limit c
  /\ counter_ok (snd (run_counter events c))
  /\ (forall n now c', event_ok (n, now) -> Start c <= now ->
        RateCounter_Update n now c = (false, c') -> Limit c < Count c' + n).
Proof.
  intros Hok Hev. split; [|split].
  - pose proof (run_counter_remaining k events c Hok Hev) as H. etransitivity; [exact H|].
    destruct Hok. unfold remaining. repeat case_goal; lia.
  - revert c Hok. induction Hev as [|[n now] es [Hn Ht] Hes IH]; intros c Hok; [done|].
    cbn [run_counter fst snd] in *. destruct (RateCounter_Update n now c) as [ok c'] eqn:Hu.
    destruct (RateCounter_Update_ok _ _ _ _ _ Hok Hn Ht Hu) as (Hok' & _).
    specialize (IH c' Hok'). by destruct (run_counter es c').
  - intros n now c' [Hn Ht] Hs Hu. rewrite RateCounter_Update_spec in Hu by done. cbn zeta in Hu.
    cbn [fst snd] in *. rewrite (proj2 (Z.ltb_ge now _)) in Hu by lia. repeat case_hyp Hu; simplify_eq; bool_facts;
      cbn; done.
Qed.

Lemma RateCounter_window_limit_witness :
  let c := NewRateCounter 1500 (mkCfg 2 1000) in
  let events := [(1, 1500); (1, 1600); (1, 1999); (1, 2500)] in
  fst (run_counter events c) = [true; true; false; true]
  /\ admitted 1 1000 events (fst (run_counter events c)) <= 2.
Proof.
  intros c events. split; [reflexivity|].
  refine (proj1 (RateCounter_window_limit c events 1 _ ltac:(by_decision))).
  constructor; vm_compute; repeat split; try discriminate. by exists 1.
Defined.

(** [C34] An update of a limiter never panics and keeps its tables in line with
    the configuration, and the unspecified order in which Go goes over the maps
    of tables changes neither the decision nor the counters.  The order in which a
    new limiter goes over the map of addresses, and what the unstable sort makes of
    it, does not matter either, provided that entries which compare equal are the
    same (the networks are distinct: [equal_networks_order] shows that the decisions
    depend on the order otherwise).  A new limiter is well-formed, has one counter
    for each configured address, and the collector keeps it so. *)
Theorem RateLimiter_Update_order rl o4 o6 o4' o6' clock n addr now :
  limiter_ok rl ->
  range_order o4 (perIPv4Address rl) -> range_order o6 (perIPv6Address rl) ->
  range_order o4' (perIPv4Address rl) -> range_order o6' (perIPv6Address rl) ->
  (exists ok rl', RateLimiter_Update o4 o6 clock n addr now rl = (Ret ok, rl') /\ limiter_ok rl')
  /\ RateLimiter_Update o4' o6' clock n addr now rl = RateLimiter_Update o4 o6 clock n addr now rl
  /\ limiter_ok (GC rl)
  /\ (forall cfg ranged, ranges_over ranged cfg ->
        limiter_ok (NewRateLimiter clock ranged cfg)
        /\ Permutation (map NetAddress (addresses (NewRateLimiter clock ranged cfg))) (map fst (Addresses cfg))
        /\ (forall ranged', no_ties ranged -> Permutation ranged ranged' ->
              NewRateLimiter clock ranged' cfg = NewRateLimiter clock ranged cfg)).
Proof.
  intros Hok H4 H6 H4' H6'.
  assert (forall order order' rl0, limiter_ok rl0 ->
    range_order order (perIPv4Address rl0) -> range_order order' (perIPv4Address rl0) ->
    update_ipv4 order clock n addr now rl0 = update_ipv4 order' clock n addr now rl0) as He4.
  { intros order order' rl0 [Hd _] Ho Ho'. unfold update_ipv4. case_bool_decide; [|done]. unfold zoom.
    rewrite (update_tables_perm _ _ _ _ _ _ order order'); [done| |apply Ho|by eapply range_order_cfgs].
    by eapply range_order_perm. }
  assert (forall order order' rl0, limiter_ok rl0 ->
    range_order order (perIPv6Address rl0) -> range_order order' (perIPv6Address rl0) ->
    update_ipv6 order clock n addr now rl0 = update_ipv6 order' clock n addr now rl0) as He6.
  { intros order order' rl0 [_ Hd] Ho Ho'. unfold update_ipv6. case_bool_decide; [|done]. unfold zoom.
    rewrite (update_tables_perm _ _ _ _ _ _ order order'); [done| |apply Ho|by eapply range_order_cfgs].
    by eapply range_order_perm. }
  unfold RateLimiter_Update. unfold mbind, st_bind.
  destruct (update_global_ret n now rl) as (ok1 & g & ->).
  assert (limiter_ok (set_global g rl)) as Hok1 by (by destruct Hok).
  rewrite (He4 o4' o4 (set_global g rl)) by done.
  destruct (update_ip_ret o4 o6 clock n addr now (set_global g rl) Hok1 H4 H6) as [(ok4 & m4 & -> & Hm4) _].
  set (rl2 := set_perIPv4 m4 (set_global g rl)).
  assert (limiter_ok rl2) as Hok2 by (destruct Hok; by constructor).
  assert (range_order (elements (dom m4)) (perIPv4Address rl2)) as Hx.
  { split; [apply NoDup_elements|]. intros p. by rewrite elem_of_elements. }
  rewrite (He6 o6' o6 rl2) by done.
  destruct (update_ip_ret _ o6 clock n addr now rl2 Hok2 Hx H6) as [_ (ok6 & m6 & -> & Hm6)].
  destruct (update_specific_ret (ok1 && ok4 && ok6) n addr now (set_perIPv6 m6 rl2)) as (ok & l & ->).
  split; [|split; [done|split]].
  - eexists _, _. split; [reflexivity|]. destruct Hok. by constructor.
  - destruct Hok as [Hd4 Hd6]. constructor; cbn; by rewrite dom_fmap_L.
  - intros cfg ranged Hr. split; [constructor; cbn; by rewrite dom_fmap_L|].
    split; [|intros; by apply NewRateLimiter_ranged].
    cbn [addresses NewRateLimiter]. rewrite Sort_Permutation, <- Hr, !map_map.
    by erewrite map_ext; [|intros [[a c] t]].
Qed.

Definition ten_net : IPNet :=
  mkIPNet [byte_of 10; byte_of 0; byte_of 0; byte_of 0] [ff_byte; zero_byte; zero_byte; zero_byte].

(** Two limits of one network, ten seconds and one second long: which of the two
    comes first decides whether a third request passes. *)
Example equal_networks_order :
  let slow := (ten_net, mkCfg 1 10000, 0) in
  let fast := (ten_net, mkCfg 1 1000, 0) in
  let cfg := mkLimiterCfg None ∅ ∅ [(ten_net, mkCfg 1 10000); (ten_net, mkCfg 1 1000)] in
  let addr := [byte_of 10; byte_of 0; byte_of 0; byte_of 1] in
  let requests : ST RateLimiter (list bool) :=
    a ← RateLimiter_Update [] [] 0 1 addr 5; b ← RateLimiter_Update [] [] 0 1 addr 1500;
    c ← RateLimiter_Update [] [] 0 1 addr 1600; mret [a; b; c] in
  fst (requests (NewRateLimiter 0 [fast; slow] cfg)) = Ret [true; true; true]
  /\ fst (requests (NewRateLimiter 0 [slow; fast] cfg)) = Ret [true; true; false].
Proof. intros slow fast cfg addr requests. by vm_compute. Qed.

Definition example_limiter : RateLimiter :=
  NewRateLimiter 0 [] (mkLimiterCfg (Some (mkCfg 10 1000)) {[ 32 := mkCfg 1 1000; 24 := mkCfg 5 1000 ]}
                         {[ 48 := mkCfg 1 1000 ]} []).

Lemma RateLimiter_Update_order_witness :
  let addr := [byte_of 192; byte_of 0; byte_of 2; byte_of 1] in
  let eleven_net := mkIPNet [byte_of 11; byte_of 0; byte_of 0; byte_of 0] (net_Mask ten_net) in
  let one := (ten_net, mkCfg 5 1000, 0) in
  let two := (eleven_net, mkCfg 7 1000, 1) in
  let cfg := mkLimiterCfg None ∅ ∅ [(ten_net, mkCfg 5 1000); (eleven_net, mkCfg 7 1000)] in
  RateLimiter_Update [32; 24] [48] 0 1 addr 5 example_limiter
  = RateLimiter_Update [24; 32] [48] 0 1 addr 5 example_limiter
  /\ NewRateLimiter 0 [one; two] cfg = NewRateLimiter 0 [two; one] cfg.
Proof.
  intros addr eleven_net one two cfg.
  assert (limiter_ok example_limiter) as Hok by (constructor; cbn; by rewrite dom_fmap_L).
  assert (forall l m, NoDup l -> (list_to_set l : gset Z) = dom m -> range_order l m) as Ho.
  { intros l m Hn Hd. split; [done|]. intros p. by rewrite <- Hd, elem_of_list_to_set. }
  refine (match RateLimiter_Update_order example_limiter [24; 32] [48] [32; 24] [48] 0 1 addr 5 Hok _ _ _ _ with
          | conj _ (conj Hu (conj _ Hnew)) =>
              conj Hu (proj2 (proj2 (Hnew cfg [two; one] _)) [one; two] _ _)
          end); try (apply Ho; by_decision).
  - apply Permutation_swap.
  - intros x y Hx Hy He. apply list_elem_of_In in Hx, Hy. cbn in Hx, Hy.
    destruct Hx as [<-|[<-|[]]], Hy as [<-|[<-|[]]]; done.
  - apply Permutation_swap.
Defined.

(** A client address, as the server parses it, always has sixteen bytes:
    limits for IPv4 networks never apply and their tables stay empty, and with
    a limit for a /48 network all IPv4 clients share one counter. *)
Theorem RateLimiter_ipv4_clients rl o4 o4' o6 clock n s addr port now a b :
  ParseNumericAddress s = Ret (addr, port) ->
  RateLimiter_Update o4 o6 clock n addr now rl = RateLimiter_Update o4' o6 clock n addr now rl
  /\ update_ipv4 o4 clock n addr now rl = (Ret true, rl)
  /\ (length a = 4%nat -> length b = 4%nat ->
      table_key 128 48 (v4InV6Prefix ++ a) = table_key 128 48 (v4InV6Prefix ++ b)).
Proof.
  intros Hs. assert (length addr = IPv6len) as Hl.
  { unfold ParseNumericAddress in Hs. apply bind_Ret in Hs as ([host p] & _ & Hs).
    destruct (ParseIP host) as [ip|] eqn:Hip; [|done]. repeat case_hyp Hs; try done. injection Hs as <- <-.
    by eapply ParseIP_length. }
  assert (forall o r, update_ipv4 o clock n addr now r = (Ret true, r)) as H4.
  { intros o r. unfold update_ipv4. by rewrite Hl. }
  split; [|split; [done|]].
  - unfold RateLimiter_Update, mbind, st_bind. destruct (update_global n now rl) as [[ok|e| |] r]; try done.
    by rewrite !H4.
  - intros Ha Hb. do 4 (destruct a as [|? a]; [done|]). do 4 (destruct b as [|? b]; [done|]).
    destruct a; [|done]. destruct b; [|done]. unfold table_key.
    assert (forall c d e f, Mask (v4InV6Prefix ++ [c; d; e; f]) (default [] (CIDRMask 48 128))
              = Some (replicate 16 zero_byte)) as Hm.
    { intros c d e f. assert (forall x, byte_and x zero_byte = zero_byte) as Hz.
      { intros x. unfold byte_and. change (bval zero_byte) with 0. by rewrite Z.land_0_r. }
      change (default [] (CIDRMask 48 128)) with (replicate 6 ff_byte ++ replicate 10 zero_byte).
      transitivity (Some (zip_with byte_and (v4InV6Prefix ++ [c; d; e; f])
                            (replicate 6 ff_byte ++ replicate 10 zero_byte))); [reflexivity|].
      unfold v4InV6Prefix. cbn [app replicate zip_with]. rewrite !Hz. reflexivity. }
    by rewrite !Hm.
Qed.

Lemma RateLimiter_ipv4_clients_witness :
  exists addr port, ParseNumericAddress "192.0.2.1:4321"%go = Ret (addr, port)
    /\ update_ipv4 [32; 24] 0 1 addr 5 example_limiter = (Ret true, example_limiter).
Proof.
  eexists _, _. split; [vm_compute; reflexivity|].
  refine (proj1 (proj2 (RateLimiter_ipv4_clients example_limiter _ [] [] 0 1 "192.0.2.1:4321"%go _ 4321 5 [] [] _))).
  vm_compute. reflexivity.
Defined.

(** ** Configured addresses *)

Lemma update_addresses_spec n addr now rls :
  fst (update_addresses n addr now rls)
  = existsb (fun rl => Contains (NetAddress rl) addr && fst (RateCounter_Update n now (RateLimiter_ rl))) rls.
Proof.
  induction rls as [|rl rls IH]; [done|]. cbn [update_addresses existsb].
  destruct (Contains _ _); cbn [andb orb].
  - destruct (RateCounter_Update _ _ _) as [[] rc]; [done|].
    destruct (update_addresses _ _ _ rls) as [p l]. done.
  - destruct (update_addresses _ _ _ rls) as [p l]. done.
Qed.

(** The configured addresses are sorted by length of the address, then by
    decreasing prefix length, and lose none.  As soon as one is configured they
    alone decide: a request passes exactly when one of them contains the client
    and still accepts the request, whatever the other limits say, so that
    clients that belong to none of them are always turned away. *)
Theorem RateLimiter_addresses rl o4 o6 clock n addr now ok rl' :
  addresses rl <> [] ->
  RateLimiter_Update o4 o6 clock n addr now rl = (Ret ok, rl') ->
  ok = existsb (fun a => Contains (NetAddress a) addr
                         && fst (RateCounter_Update n now (RateLimiter_ a))) (addresses rl)
  /\ (Forall (fun a => Contains (NetAddress a) addr = false) (addresses rl) -> ok = false)
  /\ (forall rls, StronglySorted more_specific (Sort rls) /\ Permutation (Sort rls) rls).
Proof.
  intros Ha Hu.
  assert (ok = existsb (fun a => Contains (NetAddress a) addr
                         && fst (RateCounter_Update n now (RateLimiter_ a))) (addresses rl)) as Hok.
  { unfold RateLimiter_Update, mbind, st_bind in Hu.
    destruct (update_global_ret n now rl) as (ok1 & g & Hg). rewrite Hg in Hu.
    assert (forall r r' b, update_ipv4 o4 clock n addr now r = (Ret b, r') -> addresses r' = addresses r) as H4.
    { intros r r' b H. unfold update_ipv4, zoom in H. case_bool_decide; [|by simplify_eq].
      destruct (update_tables _ _ _ _ _ _ _ _). by simplify_eq. }
    assert (forall r r' b, update_ipv6 o6 clock n addr now r = (Ret b, r') -> addresses r' = addresses r) as H6.
    { intros r r' b H. unfold update_ipv6, zoom in H. case_bool_decide; [|by simplify_eq].
      destruct (update_tables _ _ _ _ _ _ _ _). by simplify_eq. }
    destruct (update_ipv4 o4 clock n addr now (set_global g rl)) as [[ok4|e| |] r4] eqn:E4; try done.
    destruct (update_ipv6 o6 clock n addr now r4) as [[ok6|e| |] r6] eqn:E6; try done.
    apply H4 in E4. apply H6 in E6. cbn in E4. rewrite E4 in E6.
    unfold update_specific in Hu. rewrite E6 in Hu. destruct (addresses rl) as [|a l]; [done|].
    rewrite <- update_addresses_spec. destruct (update_addresses n addr now (a :: l)) as [p l'].
    injection Hu as <- _. destruct p; [apply orb_true_r|done]. }
  split; [done|]. split; [|intros rls; split; [apply Sort_sorted|apply Sort_Permutation]].
  intros Hf. rewrite Hok. clear -Hf. induction Hf as [|a l Hc Hf IH]; [done|]. cbn [existsb]. by rewrite Hc.
Qed.

Definition example_addresses : RateLimiter :=
  NewRateLimiter 0 [(ten_net, mkCfg 5 1000, 0)] (mkLimiterCfg None ∅ ∅ [(ten_net, mkCfg 5 1000)]).

Lemma RateLimiter_addresses_witness :
  let addr := v4InV6Prefix ++ [byte_of 192; byte_of 0; byte_of 2; byte_of 1] in
  fst (RateLimiter_Update [] [] 0 1 addr 5 example_addresses) = Ret false.
Proof.
  intros addr. destruct (RateLimiter_Update [] [] 0 1 addr 5 example_addresses) as [r rl'] eqn:Hu.
  assert (r = fst (RateLimiter_Update [] [] 0 1 addr 5 example_addresses)) as Hr by (by rewrite Hu).
  assert (exists ok, r = Ret ok) as [ok Hok] by (rewrite Hr; vm_compute; by eexists).
  rewrite Hok in *. assert (addresses example_addresses <> []) as Hne by (by vm_compute).
  destruct (RateLimiter_addresses example_addresses [] [] 0 1 addr 5 ok rl' Hne Hu) as (_ & Hf & _).
  cbn [fst]. f_equal. apply Hf. by_decision.
Defined.

(** ** The collector *)

(** The collector removes exactly the counters that stand at zero, and
    removing one never changes the decision on the next request: a fresh
    counter decides the same. A counter that admitted something is kept until
    a later request of the same clients resets it, however long that takes. *)
Theorem GC_transparent table key cfg c n now :
  counter_ok c -> Limit c = cfg_Limit cfg -> Period c = cfg_Period cfg ->
  0 < n < bound -> Start c <= now < bound ->
  table !! key = Some c ->
  (gc_table table !! key = if Count c =? 0 then None else Some c)
  /\ fst (RateCounter_Update n now (default (NewRateCounter now cfg) (gc_table table !! key)))
     = fst (RateCounter_Update n now c)
  /\ (forall c', RateCounter_Update n now c = (true, c') ->
        gc_table (<[key := c']> table) !! key = Some c').
Proof.
  intros Hok Hl Hp Hn Hnow Hk.
  assert (forall t d, t !! key = Some d -> gc_table t !! key = if Count d =? 0 then None else Some d) as Hgc.
  { intros t d Hd. unfold gc_table. destruct (Z.eqb_spec (Count d) 0) as [H0|H0].
    - apply map_lookup_filter_None. right. intros d' Hd' Hc. congruence.
    - by apply map_lookup_filter_Some. }
  assert (0 <= now < bound) as Ht by (destruct Hok; lia).
  split; [by apply Hgc|]. split.
  - rewrite (Hgc _ _ Hk). destruct (Z.eqb_spec (Count c) 0) as [H0|H0]; [|done]. cbn [default].
    assert (counter_ok (NewRateCounter now cfg)) as Hok'.
    { destruct Hok as [HP HL _ _ _]. rewrite Hl, Hp in *. unfold NewRateCounter.
      rewrite (proj2 (Z.ltb_lt _ _)) by lia. rewrite Z.rem_mod_nonneg by lia.
      pose proof (Z.mod_pos_bound now (cfg_Period cfg) ltac:(lia)).
      pose proof (Z.mod_le now (cfg_Period cfg) ltac:(lia) ltac:(lia)).
      rewrite i64_small by (unfold bound in *; lia).
      constructor; cbn; try lia. exists (now / cfg_Period cfg).
      pose proof (Z.div_mod now (cfg_Period cfg) ltac:(lia)). lia. }
    assert (Start (NewRateCounter now cfg) <= now) as Hs.
    { destruct Hok as [HP _ _ _ _]. rewrite Hp in *. unfold NewRateCounter. cbn.
      rewrite (proj2 (Z.ltb_lt _ _)) by lia. rewrite Z.rem_mod_nonneg by lia.
      pose proof (Z.mod_pos_bound now (cfg_Period cfg) ltac:(lia)).
      pose proof (Z.mod_le now (cfg_Period cfg) ltac:(lia) ltac:(lia)).
      rewrite i64_small by (unfold bound in *; lia). lia. }
    rewrite !RateCounter_Update_spec by (done || lia).
    rewrite (proj2 (Z.ltb_ge now (Start (NewRateCounter now cfg)))) by lia.
    rewrite (proj2 (Z.ltb_ge now (Start c))) by lia. cbn zeta.
    cbn [NewRateCounter Limit Period Count]. rewrite H0, Hl.
    replace ((if Period c <? now - Start c then 0 else 0) + n) with n by (case_match; lia).
    replace ((if cfg_Period cfg <? now - Start (NewRateCounter now cfg) then 0 else 0) + n) with n
      by (case_match; lia).
    by destruct (cfg_Limit cfg <? n).
  - intros c' Hu. rewrite (Hgc _ c') by apply lookup_insert_eq.
    destruct (RateCounter_Update_true n now c c' Hok ltac:(lia) Ht Hu) as (_ & _ & Hc & _).
    rewrite (proj2 (Z.eqb_neq _ _)) by lia. done.
Qed.

Lemma GC_transparent_witness :
  let c := mkCounter 1000 2 1000 0 in
  let table : RateCounterTable := {[ "10.0.0.1/32"%go := c ]} in
  gc_table table !! "10.0.0.1/32"%go = None
  /\ fst (RateCounter_Update 1 5500 (default (NewRateCounter 5500 (mkCfg 2 1000))
            (gc_table table !! "10.0.0.1/32"%go)))
     = fst (RateCounter_Update 1 5500 c).
Proof.
  intros c table.
  destruct (GC_transparent table "10.0.0.1/32"%go (mkCfg 2 1000) c 1 5500) as (H1 & H2 & _).
  - constructor; vm_compute; repeat split; try discriminate. by exists 1.
  - reflexivity.
  - reflexivity.
  - by_decision.
  - by_decision.
  - reflexivity.
  - split; [exact H1|exact H2].
Defined.
