(* ===== verification/FormatString.v ===== *)
(** * Format strings (pkg/boulevard/format_string.go)

    Templates with variables, used for redirection targets, replies, header
    values and FastCGI parameters: parsing into parts and expansion. *)

From S2P Require Import Prelude GoStrings.

Inductive FormatStringPart :=
  | PartConstant (Value : gostring)
  | PartVariable (Value DefaultValue : gostring).

#[export] Instance FormatStringPart_eq_dec : EqDecision FormatStringPart.
Proof. solve_decision. Defined.

Record FormatString := mkFormat {
  fs_Value : gostring;
  parts : list FormatStringPart;
  lenHint : Z
}.

(** The runs of runes both validators accept are ASCII, and a string with a byte
    above 127 has a rune above 127. *)
Definition variable_byte (c : byte) : bool :=
  is_lower c || is_digit c || bool_decide (c = "_"%char) || bool_decide (c = "."%char).
Definition environment_byte (c : byte) : bool :=
  is_upper c || is_digit c || bool_decide (c = "_"%char).

Definition validateFormatStringVariableName (name : gostring) : outcome unit :=
  if forallb variable_byte name then Ret tt else Throw (Errorf "invalid character"%go).
Definition validateEnvironmentVariableName (name : gostring) : outcome unit :=
  if forallb environment_byte name then Ret tt else Throw (Errorf "invalid character"%go).

Definition backslash : byte := "092"%char.

(** The environment of the process: [os.LookupEnv]. *)
Class Environment := { os_LookupEnv : gostring -> option gostring }.

Section environment.
Context `{Environment}.

(** One turn of the loop of [FormatString.Parse] on data that is not empty:
    the part, the length it adds to the hint, and the data left. *)
Definition parse_escape (data : gostring) : outcome (FormatStringPart * Z * gostring) :=
  match data with
  | c0 :: c1 :: rest =>
      if bool_decide (c1 <> "$"%char) && bool_decide (c1 <> "{"%char)
      then Throw (Errorf "invalid escape sequence"%go)
      else Ret (PartConstant [c0; c1], 2, rest)
  | _ => Throw (Errorf "truncated escape sequence"%go)
  end.

Definition parse_environment (data : gostring) : outcome (FormatStringPart * Z * gostring) :=
  match data with
  | _ :: c1 :: rest =>
      if bool_decide (c1 <> "{"%char) then Throw (Errorf "invalid character after '$'"%go)
      else match IndexByte rest "}"%char with
           | None => Throw (Errorf "truncated environment variable block"%go)
           | Some e =>
               let name := take e rest in
               _ ← wrap_error "invalid environment variable name"%go
                     (validateEnvironmentVariableName name);
               match os_LookupEnv name with
               | None => Throw (Errorf "unknown environment variable"%go)
               | Some value => Ret (PartConstant value, len value, drop (S e) rest)
               end
           end
  | _ => Throw (Errorf "truncated environment variable block"%go)
  end.

Definition parse_variable (data : gostring) : outcome (FormatStringPart * Z * gostring) :=
  let rest := drop 1 data in
  match IndexByte rest "}"%char with
  | None => Throw (Errorf "truncated variable block"%go)
  | Some e =>
      let block := take e rest in
      let '(name, defaultValue) :=
        match IndexByte block ":"%char with
        | Some colon => (take colon block, drop (S colon) block)
        | None => (block, [])
        end in
      _ ← wrap_error "invalid variable name"%go (validateFormatStringVariableName name);
      Ret (PartVariable name defaultValue, 16, drop (S e) rest)
  end.

Definition parse_constant (data : gostring) : outcome (FormatStringPart * Z * gostring) :=
  let e := default (length data) (IndexAny data (backslash :: "${"%go)) in
  Ret (PartConstant (take e data), Z.of_nat e, drop e data).

Definition parse_part (c : byte) (data : gostring) : outcome (FormatStringPart * Z * gostring) :=
  if bool_decide (c = backslash) then parse_escape data
  else if bool_decide (c = "$"%char) then parse_environment data
  else if bool_decide (c = "{"%char) then parse_variable data
  else parse_constant data.

Fixpoint Parse_loop (fuel : nat) (ps : list FormatStringPart) (hint : Z) (data : gostring)
  : outcome (list FormatStringPart * Z) :=
  match data with
  | [] => Ret (ps, hint)
  | c :: _ =>
      match fuel with
      | O => OutOfFuel
      | S fuel' =>
          '(p, n, data) ← parse_part c data;
          Parse_loop fuel' (ps ++ [p]) (hint + n) data
      end
  end.

(** [FormatString.Parse]; every part takes at least one byte. *)
Definition FormatString_Parse (value : gostring) : outcome FormatString :=
  '(ps, hint) ← Parse_loop (length value) [] 0 value;
  Ret (mkFormat value ps hint).
End environment.

(** [FormatString.Expand]: [cmp.Or] takes the default for an empty value. *)
Definition expand_part (vars : gmap gostring gostring) (p : FormatStringPart) : gostring :=
  match p with
  | PartConstant v => v
  | PartVariable name def =>
      let v := default [] (vars !! name) in
      if bool_decide (v = []) then def else v
  end.

Definition Expand (s : FormatString) (vars : gmap gostring gostring) : gostring :=
  parts s ≫= expand_part vars.

(** ** Lemmas *)

Section lemmas.
Context `{Environment}.

Lemma validate_completed name :
  completed (validateFormatStringVariableName name)
  /\ completed (validateEnvironmentVariableName name).
Proof.
  unfold validateFormatStringVariableName, validateEnvironmentVariableName.
  by destruct (forallb variable_byte name), (forallb environment_byte name).
Qed.

Lemma parse_part_completed c data :
  completed (parse_part c (c :: data)).
Proof.
  unfold parse_part, parse_escape, parse_environment, parse_variable, parse_constant.
  repeat case_bool_decide; try done.
  - destruct data; [done|]. by case_goal.
  - destruct data; [done|]. case_bool_decide; [done|]. destruct (IndexByte _ _); [|done].
    apply completed_bind; [apply completed_wrap, validate_completed|]. intros _ _. by case_goal.
  - destruct (IndexByte _ _) as [e|]; [|done].
    destruct (match IndexByte (take e _) _ with Some _ => _ | None => _ end) as [name def].
    apply completed_bind; [apply completed_wrap, validate_completed|done].
Qed.

Lemma parse_part_shrinks c data p n data' :
  parse_part c (c :: data) = Ret (p, n, data') -> (length data' <= length data)%nat.
Proof.
  unfold parse_part, parse_escape, parse_environment, parse_variable, parse_constant.
  intros Hp. repeat case_bool_decide; try done.
  - destruct data; [done|]. case_hyp Hp; [done|]. injection Hp as _ _ <-. simpl. lia.
  - destruct data; [done|]. case_bool_decide; [done|]. destruct (IndexByte _ _); [|done].
    apply bind_Ret in Hp as (_ & _ & Hp). case_hyp Hp; [|done]. injection Hp as _ _ <-.
    rewrite length_drop. simpl. lia.
  - destruct (IndexByte _ _) as [e|]; [|done].
    destruct (match IndexByte (take e _) _ with Some _ => _ | None => _ end) as [name def].
    apply bind_Ret in Hp as (_ & _ & Hp). injection Hp as _ _ <-. rewrite length_drop. cbn [drop]. rewrite drop_0. lia.
  - injection Hp as _ _ <-. rewrite length_drop. cbn [length IndexAny].
    rewrite (bool_decide_false (c ∈ _)).
    2:{ rewrite !elem_of_cons. intros [?|[?|[?|Hn]]]; try done. by apply elem_of_nil in Hn. }
    destruct (IndexAny data (backslash :: "${"%go)) as [i|]; simpl; lia.
Qed.

Lemma Parse_loop_completed fuel ps hint data :
  (length data <= fuel)%nat -> completed (Parse_loop fuel ps hint data).
Proof.
  revert ps hint data. induction fuel as [|fuel IH]; intros ps hint [|c data] Hf; try done; simpl in Hf; [lia|].
  cbn [Parse_loop]. apply completed_bind; [apply parse_part_completed|].
  intros [[p n] data'] Hp. apply parse_part_shrinks in Hp. apply IH. lia.
Qed.

(** Enough fuel is enough. *)
Lemma Parse_loop_enough fuel fuel' ps hint data :
  (length data <= fuel)%nat -> (length data <= fuel')%nat ->
  Parse_loop fuel ps hint data = Parse_loop fuel' ps hint data.
Proof.
  revert fuel' ps hint data. induction fuel as [|fuel IH]; intros fuel' ps hint [|c data] Hf Hf'.
  - by destruct fuel'.
  - simpl in Hf. lia.
  - by destruct fuel'.
  - destruct fuel' as [|fuel']; [simpl in Hf'; lia|]. cbn [Parse_loop].
    destruct (parse_part c (c :: data)) as [[[p n] data']| | |] eqn:Hp; cbn [mbind outcome_bind]; try done.
    apply parse_part_shrinks in Hp. simpl in *. apply IH; lia.
Qed.

(** ** Serialized templates *)

Definition special : gostring := backslash :: "${"%go.

Definition serialize_part (p : FormatStringPart) : gostring :=
  match p with
  | PartConstant v => v
  | PartVariable name def => "{"%go ++ name ++ (if bool_decide (def = []) then [] else ":"%go ++ def) ++ "}"%go
  end.

Definition part_ok (p : FormatStringPart) : Prop :=
  match p with
  | PartConstant v => v <> [] /\ Forall (fun c => c ∉ special) v
  | PartVariable name def => forallb variable_byte name = true /\ ("}"%char ∉ def)
  end.

#[export] Instance part_ok_dec p : Decision (part_ok p).
Proof. destruct p; unfold part_ok; apply _. Defined.

(** No constant directly follows another. *)
Fixpoint alternating (ps : list FormatStringPart) : bool :=
  match ps with
  | PartConstant _ :: (PartConstant _ :: _) => false
  | _ :: ps' => alternating ps'
  | [] => true
  end.

Lemma variable_name_bytes name c :
  forallb variable_byte name = true -> variable_byte c = false -> c ∉ name.
Proof. rewrite forallb_forall. intros Hn Hc Hin. apply list_elem_of_In, Hn in Hin. congruence. Qed.

Lemma parse_part_variable name def rest :
  part_ok (PartVariable name def) ->
  parse_part "{"%char (serialize_part (PartVariable name def) ++ rest)
  = Ret (PartVariable name def, 16, rest).
Proof.
  intros [Hn Hd]. unfold parse_part. rewrite !bool_decide_false by done. rewrite bool_decide_true by done.
  unfold parse_variable, serialize_part.
  set (block := name ++ (if bool_decide (def = []) then [] else ":"%go ++ def)).
  replace (("{"%go ++ name ++ (if bool_decide (def = []) then [] else ":"%go ++ def) ++ "}"%go) ++ rest)
    with ("{"%char :: (block ++ "}"%char :: rest)) by (unfold block; cbn [app]; by rewrite <- !app_assoc).
  cbn [drop]. rewrite !drop_0.
  assert ("}"%char ∉ block) as Hb.
  { unfold block. rewrite not_elem_of_app. split; [by apply (variable_name_bytes name)|].
    case_bool_decide; [apply not_elem_of_nil|]. cbn [app]. rewrite not_elem_of_cons. done. }
  rewrite IndexByte_app by done. rewrite take_app_length, drop_past.
  assert (match IndexByte block ":"%char with
          | Some colon => (take colon block, drop (S colon) block)
          | None => (block, [])
          end = (name, def)) as ->.
  { assert (":"%char ∉ name) as Hc by (by apply (variable_name_bytes name)). unfold block.
    destruct (decide (def = [])) as [->|Hne].
    - rewrite bool_decide_true, app_nil_r by done. by rewrite (proj2 (IndexByte_None name _) Hc).
    - rewrite bool_decide_false by done. cbn [app]. rewrite IndexByte_app by done.
      by rewrite take_app_length, drop_past. }
  unfold validateFormatStringVariableName. by rewrite Hn.
Qed.

Lemma IndexAny_none s chars : Forall (fun c => c ∉ chars) s -> IndexAny s chars = None.
Proof. induction 1 as [|c s Hc Hs IH]; [done|]. simpl. by rewrite bool_decide_false, IH. Qed.

Lemma IndexAny_app s c t chars :
  Forall (fun c => c ∉ chars) s -> c ∈ chars -> IndexAny (s ++ c :: t) chars = Some (length s).
Proof.
  intros Hs Hc. induction Hs as [|d s Hd Hs IH]; simpl; [by rewrite bool_decide_true|].
  by rewrite bool_decide_false, IH.
Qed.

Lemma parse_part_constant v rest c v' :
  v = c :: v' -> part_ok (PartConstant v) ->
  (rest = [] \/ exists rest', rest = "{"%char :: rest') ->
  exists n, parse_part c (v ++ rest) = Ret (PartConstant v, n, rest).
Proof.
  intros -> [_ Hs] Hr. pose proof Hs as Hs'. apply Forall_cons in Hs' as [Hc _]. unfold special in *.
  rewrite !not_elem_of_cons in Hc. destruct Hc as (Hc1 & Hc2 & Hc3 & _). unfold parse_part.
  rewrite !bool_decide_false by done. unfold parse_constant.
  assert (default (length ((c :: v') ++ rest)) (IndexAny ((c :: v') ++ rest) (backslash :: "${"%go))
          = length (c :: v')) as ->.
  { destruct Hr as [->|[rest' ->]].
    - rewrite app_nil_r. by rewrite IndexAny_none.
    - rewrite IndexAny_app; [done|done|]. by_decision. }
  eexists. by rewrite take_app_length, drop_app_length.
Qed.

Lemma serialize_next ps v :
  alternating (PartConstant v :: ps) = true ->
  (ps ≫= serialize_part = [] \/ exists rest, ps ≫= serialize_part = "{"%char :: rest).
Proof.
  intros Ha. destruct ps as [|[w|name def] ps]; [by left|done|]. right. cbn. by eexists.
Qed.

Lemma Parse_loop_serialize fuel ps acc hint :
  Forall part_ok ps -> alternating ps = true -> (length (ps ≫= serialize_part) <= fuel)%nat ->
  exists hint', Parse_loop fuel acc hint (ps ≫= serialize_part) = Ret (acc ++ ps, hint').
Proof.
  intros Hok. revert fuel acc hint. induction Hok as [|p ps Hp Hok IH]; intros fuel acc hint Ha Hf.
  { exists hint. rewrite app_nil_r. by destruct fuel. }
  cbn [mbind list_bind] in *.
  assert (alternating ps = true) as Ha' by (destruct p, ps as [|[] ?]; done).
  assert (exists c d n, serialize_part p = c :: d
            /\ parse_part c (serialize_part p ++ (ps ≫= serialize_part)) = Ret (p, n, ps ≫= serialize_part))
    as (c & d & n & Hd & Hpart).
  { destruct p as [v|name def].
    - destruct v as [|c v'] eqn:Hv; [by destruct Hp|].
      destruct (parse_part_constant v (ps ≫= serialize_part) c v' Hv) as (n & Hn); [by subst v|..].
      { by eapply (serialize_next ps v); subst v. }
      exists c, v', n. subst v. done.
    - eexists _, _, 16. split; [reflexivity|]. by apply parse_part_variable. }
  destruct fuel as [|fuel]; [rewrite Hd in Hf; simpl in Hf; lia|].
  rewrite Hd in *. cbn [app Parse_loop]. cbn [app] in Hpart. rewrite Hpart. cbn [mbind outcome_bind].
  destruct (IH fuel (acc ++ [p]) (hint + n) Ha') as (hint' & He).
  { rewrite length_app in Hf. simpl in Hf. lia. }
  exists hint'. rewrite <- app_assoc in He. exact He.
Qed.
End lemmas.

(** ** Properties *)

(** Parsing a format string never panics and always ends, whatever the
    string and the environment. *)
Theorem FormatString_Parse_total `{Environment} value : completed (FormatString_Parse value).
Proof.
  unfold FormatString_Parse. apply completed_bind; [by apply Parse_loop_completed|].
  by intros [ps hint] _.
Qed.

(** Parsing the text of a template gives its parts back, and the expansion
    replaces each variable by its value, or by its default when the variable is
    unset or empty, and leaves everything else as it is. *)
Theorem FormatString_roundtrip `{Environment} ps vars :
  Forall part_ok ps -> alternating ps = true ->
  exists s, FormatString_Parse (ps ≫= serialize_part) = Ret s /\ parts s = ps
            /\ Expand s vars = ps ≫= expand_part vars.
Proof.
  intros Hok Ha. unfold FormatString_Parse.
  destruct (Parse_loop_serialize _ ps [] 0 Hok Ha (le_n _)) as (hint & ->).
  eexists. split; [reflexivity|]. done.
Qed.

Lemma FormatString_roundtrip_witness :
  let env := {| os_LookupEnv := fun _ => None |} in
  exists s, @FormatString_Parse env "https://{http.request.host:localhost}/x"%go = Ret s
            /\ Expand s ∅ = "https://localhost/x"%go.
Proof.
  intros env.
  destruct (@FormatString_roundtrip env
              [PartConstant "https://"%go; PartVariable "http.request.host"%go "localhost"%go; PartConstant "/x"%go]
              ∅ ltac:(by_decision) eq_refl) as (s & Hs & _ & He).
  exists s. split; [exact Hs|]. rewrite He. reflexivity.
Defined.
