(* ===== verification/HttpContext.v ===== *)
(** * Requests in progress (pkg/protocols/http/request_context.go,
      pkg/httputils/response_writer.go, header_ops.go, http_version.go,
      access_logger.go)

    The context of a request: what is known of the client and of the target, the
    writer of the response, the variables of format strings, the replies, and the
    access log. *)

From S2P Require Import Prelude GoStrings NetIP HttpHeader NetAddresses FormatString.

Abbreviation vars := (gmap (list ascii) (list ascii)) (only parsing).

(** ** HTTP versions *)

Inductive HTTPVersion := HTTPVersionHTTP10 | HTTPVersionHTTP11 | HTTPVersionHTTP2 | HTTPVersionHTTP3.

#[export] Instance HTTPVersion_eq_dec : EqDecision HTTPVersion.
Proof. solve_decision. Defined.

(** [HTTPVersion.Match] *)
Definition HTTPVersion_Match (v : HTTPVersion) (major minor : Z) : bool :=
  match v with
  | HTTPVersionHTTP10 => (major =? 1) && (minor =? 0)
  | HTTPVersionHTTP11 => (major =? 1) && (minor =? 1)
  | HTTPVersionHTTP2 => major =? 2
  | HTTPVersionHTTP3 => major =? 3
  end.

(** [HTTPVersion.Parse] *)
Definition HTTPVersion_Parse (s : gostring) : outcome HTTPVersion :=
  if bool_decide (s = "HTTP/1.0"%go) then Ret HTTPVersionHTTP10
  else if bool_decide (s = "HTTP/1.1"%go) then Ret HTTPVersionHTTP11
  else if bool_decide (s = "HTTP/2"%go) then Ret HTTPVersionHTTP2
  else if bool_decide (s = "HTTP/3"%go) then Ret HTTPVersionHTTP3
  else Throw (Errorf "invalid HTTP version"%go).

(** ** Operations on header fields *)

Inductive HeaderOpType := HeaderOpTypeSet | HeaderOpTypeAdd | HeaderOpTypeRemove.

Record HeaderOp := mkOp { op_Type : HeaderOpType; op_Name : gostring; op_Value : FormatString }.

(** [HeaderOps.Apply]; [Expand] of the value does not read the header. *)
Fixpoint HeaderOps_Apply (ops : list HeaderOp) (header : Header) (vs : vars) : Header :=
  match ops with
  | [] => header
  | op :: ops' =>
      let value := Expand (op_Value op) vs in
      let header :=
        match op_Type op with
        | HeaderOpTypeSet => Header_Set header (op_Name op) value
        | HeaderOpTypeAdd => Header_Add header (op_Name op) value
        | HeaderOpTypeRemove => Header_Del header (op_Name op)
        end in
      HeaderOps_Apply ops' header vs
  end.

(** ** Requests *)

Record URL := mkURL { u_Scheme : gostring; u_Host : gostring; u_Path : gostring; u_RawQuery : gostring }.

Record Request := mkRequest {
  Method : gostring;
  Req_URL : URL;
  Proto : gostring;
  ProtoMajor : Z;
  ProtoMinor : Z;
  Req_Header : Header;
  Req_Host : gostring;
  RemoteAddr : gostring;
  Req_TLS : bool                (** [TLS != nil] *)
}.

(** Functions of the standard library that produce text. *)
Class GoText := {
  URL_String : URL -> gostring;        (** [url.URL.String] *)
  StatusText : Z -> gostring;          (** [http.StatusText] *)
  Error_String : error -> gostring;    (** [error.Error], with the formatted values *)
  Quote : gostring -> gostring         (** the [%q] verb *)
}.

(** ** Responses

    The [http.ResponseWriter] the server library gives: its header map, and the
    two methods that send. *)
Class HttpWriter (W : Type) := {
  w_Header : W -> Header;
  w_SetHeader : Header -> W -> W;
  w_WriteHeader : Z -> W -> outcome unit * W;
  w_Write : gostring -> W -> Z * option error * W
}.

Record ResponseWriter (W : Type) := mkWriter { Status : Z; BodySize : Z; rw_w : W }.
Arguments mkWriter {W}.
Arguments Status {W}.
Arguments BodySize {W}.
Arguments rw_w {W}.

Definition NewResponseWriter {W} (w : W) : ResponseWriter W := mkWriter 0 0 w.

(** [ResponseWriter.Flush]: the writer below has to be an [http.Flusher]. *)
Class HttpFlusher (W : Type) := { w_Flush : W -> option W }.

Definition Flush {W} `{HttpFlusher W} (rw : ResponseWriter W) : outcome (ResponseWriter W) :=
  match w_Flush (rw_w rw) with
  | Some w => Ret (mkWriter (Status rw) (BodySize rw) w)
  | None => Panic
  end.

(** ** Access loggers *)

(** [AccessLoggerCfg]'s format, and the file the logger has open. *)
Record AccessLogger := mkLogger { al_Format : FormatString; al_file : nat }.

Section writer.
Context {W : Type} `{HttpWriter W}.

Definition rw_Write (data : gostring) : ST (ResponseWriter W) (Z * option error) := fun rw =>
  let '(n, err, w) := w_Write data (rw_w rw) in
  (Ret (n, err), mkWriter (Status rw) (i64 (BodySize rw + n)) w).

(** The status is noted before the call, so a status the library refuses with a
    panic is noted too. *)
Definition rw_WriteHeader (status : Z) : ST (ResponseWriter W) unit := fun rw =>
  let '(r, w) := w_WriteHeader status (rw_w rw) in
  (r, mkWriter status (BodySize rw) w).

End writer.

(** [RequestContext]; [A] is the type of authentication objects.  The rate limiter
    and the log file are shared by requests, so the context has their location. *)
Record RequestContext (W A : Type) := mkContext {
  Ctx_Request : Request;
  Ctx_ResponseWriter : ResponseWriter W;
  Ctx_AccessLogger : option AccessLogger;
  Ctx_Auth : option A;
  Ctx_RequestRateLimiter : option nat;
  ClientAddress : option IP;
  Ctx_Host : gostring;
  Subpath : gostring;
  ConnectionOptions : list gostring;
  UpgradeProtocols : list gostring;
  Username : gostring;
  StartTime : Z;
  Vars : vars
}.
Arguments mkContext {W A}.
Arguments Ctx_Request {W A}.
Arguments Ctx_ResponseWriter {W A}.
Arguments Ctx_AccessLogger {W A}.
Arguments Ctx_Auth {W A}.
Arguments Ctx_RequestRateLimiter {W A}.
Arguments ClientAddress {W A}.
Arguments Ctx_Host {W A}.
Arguments Subpath {W A}.
Arguments ConnectionOptions {W A}.
Arguments UpgradeProtocols {W A}.
Arguments Username {W A}.
Arguments StartTime {W A}.
Arguments Vars {W A}.

Section setters.
Context {W A : Type}.
Implicit Type ctx : RequestContext W A.

Definition set_writer (rw : ResponseWriter W) ctx :=
  mkContext (Ctx_Request ctx) rw (Ctx_AccessLogger ctx) (Ctx_Auth ctx)
    (Ctx_RequestRateLimiter ctx) (ClientAddress ctx) (Ctx_Host ctx) (Subpath ctx)
    (ConnectionOptions ctx) (UpgradeProtocols ctx) (Username ctx) (StartTime ctx) (Vars ctx).
Definition set_settings (al : option AccessLogger) (a : option A) (rl : option nat) ctx :=
  mkContext (Ctx_Request ctx) (Ctx_ResponseWriter ctx) al a rl (ClientAddress ctx) (Ctx_Host ctx)
    (Subpath ctx) (ConnectionOptions ctx) (UpgradeProtocols ctx) (Username ctx) (StartTime ctx) (Vars ctx).
Definition set_client (addr : IP) ctx :=
  mkContext (Ctx_Request ctx) (Ctx_ResponseWriter ctx) (Ctx_AccessLogger ctx) (Ctx_Auth ctx)
    (Ctx_RequestRateLimiter ctx) (Some addr) (Ctx_Host ctx) (Subpath ctx)
    (ConnectionOptions ctx) (UpgradeProtocols ctx) (Username ctx) (StartTime ctx) (Vars ctx).
Definition set_host (host : gostring) ctx :=
  mkContext (Ctx_Request ctx) (Ctx_ResponseWriter ctx) (Ctx_AccessLogger ctx) (Ctx_Auth ctx)
    (Ctx_RequestRateLimiter ctx) (ClientAddress ctx) host (Subpath ctx)
    (ConnectionOptions ctx) (UpgradeProtocols ctx) (Username ctx) (StartTime ctx) (Vars ctx).
Definition set_subpath (subpath : gostring) ctx :=
  mkContext (Ctx_Request ctx) (Ctx_ResponseWriter ctx) (Ctx_AccessLogger ctx) (Ctx_Auth ctx)
    (Ctx_RequestRateLimiter ctx) (ClientAddress ctx) (Ctx_Host ctx) subpath
    (ConnectionOptions ctx) (UpgradeProtocols ctx) (Username ctx) (StartTime ctx) (Vars ctx).
Definition set_connection (options protocols : list gostring) ctx :=
  mkContext (Ctx_Request ctx) (Ctx_ResponseWriter ctx) (Ctx_AccessLogger ctx) (Ctx_Auth ctx)
    (Ctx_RequestRateLimiter ctx) (ClientAddress ctx) (Ctx_Host ctx) (Subpath ctx)
    options protocols (Username ctx) (StartTime ctx) (Vars ctx).
Definition set_username (username : gostring) ctx :=
  mkContext (Ctx_Request ctx) (Ctx_ResponseWriter ctx) (Ctx_AccessLogger ctx) (Ctx_Auth ctx)
    (Ctx_RequestRateLimiter ctx) (ClientAddress ctx) (Ctx_Host ctx) (Subpath ctx)
    (ConnectionOptions ctx) (UpgradeProtocols ctx) username (StartTime ctx) (Vars ctx).

(** [ctx.Vars[name] = value] *)
Definition set_var (name value : gostring) ctx :=
  mkContext (Ctx_Request ctx) (Ctx_ResponseWriter ctx) (Ctx_AccessLogger ctx) (Ctx_Auth ctx)
    (Ctx_RequestRateLimiter ctx) (ClientAddress ctx) (Ctx_Host ctx) (Subpath ctx)
    (ConnectionOptions ctx) (UpgradeProtocols ctx) (Username ctx) (StartTime ctx)
    (<[name := value]> (Vars ctx)).
End setters.

(** ** Operations *)

Section operations.
Context {W A : Type} `{HttpWriter W, GoUnicode, GoText}.
Implicit Type ctx : RequestContext W A.

Definition IsHTTP1x ctx : bool := ProtoMajor (Ctx_Request ctx) =? 1.
Definition IsHTTP10 ctx : bool :=
  (ProtoMajor (Ctx_Request ctx) =? 1) && (ProtoMinor (Ctx_Request ctx) =? 0).

Definition initSubpath ctx : RequestContext W A :=
  let subpath := u_Path (Req_URL (Ctx_Request ctx)) in
  set_subpath
    match subpath with
    | c :: s => if bool_decide (c = "/"%char) then s else subpath
    | [] => subpath
    end ctx.

Definition initConnectionOptions ctx : RequestContext W A :=
  let connectionField := Header_Get (Req_Header (Ctx_Request ctx)) "Connection"%go in
  set_connection (SplitTokenList connectionField true) (UpgradeProtocols ctx) ctx.

Definition initUpgradeProtocols ctx : RequestContext W A :=
  if IsHTTP10 ctx then ctx
  else if negb (IsHTTP1x ctx) then ctx
  else if negb (bool_decide ("upgrade"%go ∈ ConnectionOptions ctx)) then ctx
  else
    let upgradeField := Header_Get (Req_Header (Ctx_Request ctx)) "Upgrade"%go in
    set_connection (ConnectionOptions ctx) (SplitTokenList upgradeField false) ctx.

Definition initVars ctx : RequestContext W A :=
  let req := Ctx_Request ctx in
  set_var "http.request.query"%go (u_RawQuery (Req_URL req))
    (set_var "http.request.path"%go (u_Path (Req_URL req))
      (set_var "http.request.uri"%go (URL_String (Req_URL req))
        (set_var "http.request.method"%go (ToUpper (Method req)) ctx))).

(** [NewRequestContext]; [now] is [time.Now()]. *)
Definition NewRequestContext (now : Z) (req : Request) (w : W) : RequestContext W A :=
  initVars (initUpgradeProtocols (initConnectionOptions (initSubpath
    (mkContext req (NewResponseWriter w) None None None None [] [] [] [] [] now ∅)))).

(** [RequestContext.IdentifyClient] *)
Definition IdentifyClient : ST (RequestContext W A) unit := fun ctx =>
  match wrap_error "cannot parse remote address"%go
          (ParseNumericAddress (RemoteAddr (Ctx_Request ctx))) with
  | Ret (addr, _) => (Ret tt, set_var "http.client_address"%go (IP_String addr) (set_client addr ctx))
  | Throw e => (Throw e, ctx)
  | Panic => (Panic, ctx)
  | OutOfFuel => (OutOfFuel, ctx)
  end.

(** [RequestContext.IdentifyRequestHost] *)
Definition IdentifyRequestHost : ST (RequestContext W A) unit := fun ctx =>
  let req := Ctx_Request ctx in
  let hostAddr := if bool_decide (Req_Host req = []) then u_Host (Req_URL req) else Req_Host req in
  match wrap_error "invalid Host header field"%go (ParseHostHeaderField hostAddr) with
  | Ret host => (Ret tt, set_var "http.request.host"%go host (set_host host ctx))
  | Throw e => (Throw e, ctx)
  | Panic => (Panic, ctx)
  | OutOfFuel => (OutOfFuel, ctx)
  end.

Definition on_writer {B} (m : ST (ResponseWriter W) B) : ST (RequestContext W A) B :=
  zoom Ctx_ResponseWriter set_writer m.

(** [header := ctx.ResponseWriter.Header()] and a change made to it. *)
Definition change_header (f : Header -> Header) : ST (RequestContext W A) unit :=
  on_writer (modify (fun rw =>
    mkWriter (Status rw) (BodySize rw) (w_SetHeader (f (w_Header (rw_w rw))) (rw_w rw)))).

(** [io.Copy] of the pieces the readers of a body give, one [Write] for each: the
    first error, or a short write, ends it.  The caller only logs the error. *)
Fixpoint copy_body (pieces : list gostring) : ST (RequestContext W A) unit :=
  match pieces with
  | [] => mret tt
  | data :: pieces' =>
      '(n, err) ← on_writer (rw_Write data);
      if bool_decide (err <> None) || negb (n =? len data) then mret tt
      else copy_body pieces'
  end.

(** [RequestContext.Reply]; [None] is a nil reader. *)
Definition Reply (status : Z) (data : option (list gostring)) : ST (RequestContext W A) unit :=
  _ ← modify (set_var "http.response.status"%go (Itoa status));
  _ ← on_writer (rw_WriteHeader status);
  match data with
  | None => mret tt
  | Some pieces => copy_body pieces
  end.

Definition text_type : gostring := "text/plain;charset=utf-8"%go.

(** [RequestContext.ReplyError2], for the formatted message: a reader of an empty
    message is skipped by the copy. *)
Definition ReplyError2 (status : Z) (msg : gostring) : ST (RequestContext W A) unit :=
  _ ← change_header (fun h => Header_Set h "Content-Type"%go text_type);
  Reply status (Some (if bool_decide (msg = []) then [["010"%char]] else [msg; ["010"%char]])).

Definition ReplyError (status : Z) : ST (RequestContext W A) unit :=
  ReplyError2 status (Itoa status ++ " "%go ++ StatusText status).

(** ** The access log *)

(** [AccessLogger.formatMsgCommon]; [date] is the formatted time of the call. *)
Definition formatMsgCommon (date : gostring) ctx : gostring :=
  let req := Ctx_Request ctx in
  let rw := Ctx_ResponseWriter ctx in
  match ClientAddress ctx with
  | None => "-"%go
  | Some addr => IP_String addr
  end
  ++ " "%go ++ "-"%go
  ++ " "%go ++ (if bool_decide (Username ctx = []) then "-"%go else Username ctx)
  ++ " "%go ++ "["%go ++ date ++ "]"%go
  ++ " "%go ++ ["034"%char] ++ Method req ++ " "%go ++ u_Path (Req_URL req) ++ " "%go ++ Proto req
  ++ ["034"%char]
  ++ " "%go ++ (if Status rw =? 0 then "-"%go else Itoa (Status rw))
  ++ " "%go ++ Itoa (BodySize rw).

Definition quoted_field (name : gostring) (header : Header) : gostring :=
  let v := Header_Get header name in if bool_decide (v = []) then "-"%go else Quote v.

(** [AccessLogger.formatMsgCombined] *)
Definition formatMsgCombined (date : gostring) ctx : gostring :=
  let header := Req_Header (Ctx_Request ctx) in
  formatMsgCommon date ctx
  ++ " "%go ++ quoted_field "Referer"%go header
  ++ " "%go ++ quoted_field "User-Agent"%go header.

(** The line [AccessLogger.Log] writes. *)
Definition log_line (date : gostring) (l : AccessLogger) ctx : gostring :=
  (if bool_decide (fs_Value (al_Format l) = "common"%go) then formatMsgCommon date ctx
   else if bool_decide (fs_Value (al_Format l) = "combined"%go) then formatMsgCombined date ctx
   else Expand (al_Format l) (Vars ctx))
  ++ ["010"%char].
End operations.

(** ** Header operations *)

(** What one operation does to the values of the field [k]. *)
Definition op_effect (vs : vars) (k : gostring) (values : list gostring) (op : HeaderOp) : list gostring :=
  if bool_decide (CanonicalKey (op_Name op) = CanonicalKey k) then
    match op_Type op with
    | HeaderOpTypeSet => [Expand (op_Value op) vs]
    | HeaderOpTypeAdd => values ++ [Expand (op_Value op) vs]
    | HeaderOpTypeRemove => []
    end
  else values.

Lemma Values_canonical h k k' :
  CanonicalKey k = CanonicalKey k' -> Header_Values h k = Header_Values h k'.
Proof. intros E. unfold Header_Values. by rewrite E. Qed.

(** [HeaderOps.Apply] changes a header field by field: the values of a field
    after it are those the operations on that field (whatever the case of its
    name) leave one after the other, and no operation on another field matters. *)
Theorem HeaderOps_Apply_field ops h vs k :
  Header_Values (HeaderOps_Apply ops h vs) k
  = foldl (op_effect vs k) (Header_Values h k) ops.
Proof.
  revert h. induction ops as [|op ops IH]; intros h; cbn [HeaderOps_Apply foldl]; [done|].
  rewrite IH. f_equal. unfold op_effect.
  destruct (decide (CanonicalKey (op_Name op) = CanonicalKey k)) as [E|E].
  - rewrite bool_decide_true by done. rewrite <- !(Values_canonical _ _ _ E).
    destruct (op_Type op); [apply Values_Set_eq|apply Values_Add_eq|apply Values_Del_eq].
  - rewrite bool_decide_false by done.
    destruct (op_Type op); [by apply Values_Set_ne|by apply Values_Add_ne|by apply Values_Del_ne].
Qed.

(** ** Connection upgrades *)

(** The protocols a request asks to upgrade to are those of its [Upgrade]
    field exactly when it is an HTTP/1 request after HTTP/1.0 with the connection
    option [upgrade], in any case; any other request asks for none. *)
Theorem NewRequestContext_upgrade {W A} `{HttpWriter W, GoUnicode, GoText} now req (w : W) :
  UpgradeProtocols (NewRequestContext (A := A) now req w)
  = if (ProtoMajor req =? 1) && negb (ProtoMinor req =? 0)
       && bool_decide ("upgrade"%go ∈ SplitTokenList (Header_Get (Req_Header req) "Connection"%go) true)
    then SplitTokenList (Header_Get (Req_Header req) "Upgrade"%go) false
    else [].
Proof.
  unfold NewRequestContext, initVars. cbn [UpgradeProtocols set_var].
  unfold initUpgradeProtocols, IsHTTP10, IsHTTP1x, initConnectionOptions, initSubpath.
  cbn [Ctx_Request set_connection set_subpath ConnectionOptions UpgradeProtocols].
  destruct (ProtoMajor req =? 1); simpl; [|done].
  destruct (ProtoMinor req =? 0); simpl; [done|].
  by destruct (bool_decide _).
Qed.

(** ** Accounting *)

Lemma i64_add a b : i64 (i64 a + b) = i64 (a + b).
Proof.
  unfold i64.
  replace ((a + 2 ^ 63) mod 2 ^ 64 - 2 ^ 63 + b + 2 ^ 63) with ((a + 2 ^ 63) mod 2 ^ 64 + b) by lia.
  rewrite Zplus_mod_idemp_l. f_equal. f_equal. lia.
Qed.

(** A writer that says how many bytes of the body it took. *)
Class BodyWriter (W : Type) `{HttpWriter W} := {
  w_body : W -> gostring;
  body_Write : forall data w n err w', w_Write data w = (n, err, w') ->
    0 <= n <= len data /\ w_body w' = w_body w ++ take (Z.to_nat n) data;
  body_WriteHeader : forall status w r w', w_WriteHeader status w = (r, w') -> w_body w' = w_body w;
  body_SetHeader : forall h w, w_body (w_SetHeader h w) = w_body w
}.

Section accounting.
Context {W A : Type} `{BodyWriter W, GoUnicode, GoText}.
Implicit Type ctx : RequestContext W A.

(** The size the access log shows is that of the body taken by the writer. *)
Definition accounted ctx : Prop :=
  BodySize (Ctx_ResponseWriter ctx) = i64 (len (w_body (rw_w (Ctx_ResponseWriter ctx)))).

Definition keeps_account {B} (m : ST (RequestContext W A) B) : Prop :=
  forall ctx, accounted ctx -> accounted (m ctx).2.

Lemma keeps_account_bind {B C} (m : ST (RequestContext W A) B) (f : B -> ST (RequestContext W A) C) :
  keeps_account m -> (forall b, keeps_account (f b)) -> keeps_account (m ≫= f).
Proof.
  intros Hm Hf ctx Hc. specialize (Hm ctx Hc). unfold mbind, st_bind.
  destruct (m ctx) as [[b|e| |] ctx']; simpl in *; try done. by apply Hf.
Qed.

Lemma keeps_ret {B} (b : B) : keeps_account (mret b).
Proof. by intros ctx. Qed.

Lemma keeps_Write data : keeps_account (on_writer (rw_Write data)).
Proof.
  intros ctx Hc. unfold on_writer, zoom, rw_Write, accounted in *.
  destruct (w_Write data (rw_w (Ctx_ResponseWriter ctx))) as [[n err] w'] eqn:E.
  destruct (body_Write _ _ _ _ _ E) as [Hn Hb]. cbn. rewrite Hb, Hc, len_app, i64_add.
  f_equal. unfold len at 3. rewrite length_take. unfold len in *. lia.
Qed.

Lemma keeps_WriteHeader status : keeps_account (on_writer (rw_WriteHeader status)).
Proof.
  intros ctx Hc. unfold on_writer, zoom, rw_WriteHeader, accounted in *.
  destruct (w_WriteHeader status (rw_w (Ctx_ResponseWriter ctx))) as [r w'] eqn:E.
  cbn. by rewrite (body_WriteHeader _ _ _ _ E).
Qed.

Lemma keeps_change_header f : keeps_account (change_header f).
Proof. intros ctx Hc. unfold accounted in *. cbn. by rewrite body_SetHeader. Qed.

Lemma keeps_copy pieces : keeps_account (copy_body pieces).
Proof.
  induction pieces as [|d ds IH]; cbn [copy_body]; [apply keeps_ret|].
  apply keeps_account_bind; [apply keeps_Write|]. intros [n err].
  destruct (bool_decide _ || _); [apply keeps_ret|apply IH].
Qed.

Lemma keeps_Reply status data : keeps_account (Reply status data).
Proof.
  apply keeps_account_bind; [by intros ctx|]. intros []. apply keeps_account_bind; [apply keeps_WriteHeader|].
  intros []. destruct data; [apply keeps_copy|apply keeps_ret].
Qed.

(** Whatever a reply does (an error status, a body cut by a write error, a
    status the library refuses with a panic), the size the access log shows stays
    the number of bytes of the body the connection took, and the status is the
    last one replied. *)
Theorem replies_accounted ctx status data msg :
  accounted ctx ->
  accounted (Reply status data ctx).2
  /\ accounted (ReplyError2 status msg ctx).2
  /\ Status (Ctx_ResponseWriter (Reply status data ctx).2) = status.
Proof.
  intros Hc. split_and!.
  - by apply keeps_Reply.
  - by apply (keeps_account_bind _ _ (keeps_change_header _) (fun _ => keeps_Reply _ _)).
  - assert (forall ds ctx, Status (Ctx_ResponseWriter (copy_body ds ctx).2)
                           = Status (Ctx_ResponseWriter ctx)) as Hcopy.
    { induction ds as [|d ds IH]; intros c; cbn [copy_body]; [done|].
      unfold mbind, st_bind, on_writer, zoom, rw_Write.
      destruct (w_Write d (rw_w (Ctx_ResponseWriter c))) as [[n err] w'].
      destruct (bool_decide _ || _); [done|]. by rewrite IH. }
    unfold Reply, mbind, st_bind, modify, on_writer, zoom, rw_WriteHeader.
    destruct (w_WriteHeader _ _) as [[[]|e| |] w']; [|done..].
    destruct data; [|done]. by rewrite Hcopy.
Qed.
End accounting.

(** ** The writer of net/http

    What [http.response] does: the first final status is sent with the header as it
    is then; a status below 100 or above 999 panics; an informational status other
    than 101 is sent at once; a body is refused for the statuses that have none. *)
Record Wire := mkWire {
  wire_header : Header;
  wire_informational : list Z;
  wire_sent : option (Z * Header);
  wire_body : gostring
}.

Definition Wire_WriteHeader (code : Z) (w : Wire) : outcome unit * Wire :=
  if bool_decide (wire_sent w <> None) then (Ret tt, w)
  else if (code <? 100) || (999 <? code) then (Panic, w)
  else if (code <=? 199) && negb (code =? 101) then
    (Ret tt, mkWire (wire_header w) (wire_informational w ++ [code]) None (wire_body w))
  else (Ret tt, mkWire (wire_header w) (wire_informational w) (Some (code, wire_header w)) (wire_body w)).

Definition body_allowed (code : Z) : bool :=
  negb (((100 <=? code) && (code <=? 199)) || (code =? 204) || (code =? 304)).

Definition Wire_Write (data : gostring) (w : Wire) : Z * option error * Wire :=
  let '(_, w) := Wire_WriteHeader 200 w in
  match wire_sent w with
  | Some (code, _) =>
      if bool_decide (data = []) then (0, None, w)
      else if body_allowed code then
        (len data, None, mkWire (wire_header w) (wire_informational w) (wire_sent w) (wire_body w ++ data))
      else (0, Some (ErrVar "http.ErrBodyNotAllowed"%go), w)
  | None => (0, None, w)
  end.

#[export] Instance Wire_HttpWriter : HttpWriter Wire := {
  w_Header := wire_header;
  w_SetHeader h w := mkWire h (wire_informational w) (wire_sent w) (wire_body w);
  w_WriteHeader := Wire_WriteHeader;
  w_Write := Wire_Write
}.

Definition new_wire : Wire := mkWire ∅ [] None [].

Lemma Wire_WriteHeader_body code w : wire_body (Wire_WriteHeader code w).2 = wire_body w.
Proof.
  unfold Wire_WriteHeader. destruct (bool_decide _); [done|]. destruct (_ || _); [done|].
  by destruct (_ && _).
Qed.

#[export] Instance Wire_BodyWriter : BodyWriter Wire.
Proof.
  refine {| w_body := wire_body |}; [| |done].
  - intros data w n err w'. simpl. unfold Wire_Write.
    pose proof (Wire_WriteHeader_body 200 w) as Hb.
    destruct (Wire_WriteHeader 200 w) as [r w1]. simpl in Hb. rewrite <- Hb.
    pose proof (len_nonneg _ data).
    assert (wire_body w1 = wire_body w1 ++ take (Z.to_nat 0) data) as H0 by (by rewrite app_nil_r).
    destruct (wire_sent w1) as [[code h]|]; [|intros [= <- <- <-]; split; [lia|done]].
    destruct (bool_decide (data = [])); [intros [= <- <- <-]; split; [lia|done]|].
    destruct (body_allowed code); intros [= <- <- <-]; [|split; [lia|done]].
    split; [lia|]. cbn. unfold len. by rewrite Nat2Z.id, firstn_all.
  - intros status w r w' E. simpl in E. by rewrite <- (Wire_WriteHeader_body status w), E.
Defined.

#[export] Instance plain_text : GoText := {
  URL_String u := u_Path u;
  StatusText _ := [];
  Error_String _ := [];
  Quote s := s
}.

Definition example_request (hdr : Header) : Request :=
  mkRequest "GET"%go (mkURL [] [] "/a"%go []) "HTTP/1.1"%go 1 1 hdr "example.com"%go "10.0.0.1:99"%go false.

Definition example_context : RequestContext Wire unit :=
  NewRequestContext (H0 := ascii_only) 0 (example_request ∅) new_wire.

Lemma replies_accounted_witness :
  accounted (ReplyError2 (W := Wire) (A := unit) 404 "file not found"%go example_context).2.
Proof.
  assert (accounted example_context) as Hc by (vm_compute; reflexivity).
  pose proof (replies_accounted example_context 404 None "file not found"%go Hc) as Hr.
  exact (proj1 (proj2 Hr)).
Defined.

(** ** Replies on the wire *)

Section wire.
Context {A : Type}.
Implicit Type ctx : RequestContext Wire A.

Definition wire ctx : Wire := rw_w (Ctx_ResponseWriter ctx).

Definition unsent ctx : Prop := wire_sent (wire ctx) = None.

(** A status [Reply] sends as the final one. *)
Definition final_status (status : Z) : Prop := status = 101 \/ 200 <= status <= 999.

Lemma Wire_WriteHeader_final status w :
  wire_sent w = None -> final_status status ->
  Wire_WriteHeader status w
  = (Ret tt, mkWire (wire_header w) (wire_informational w) (Some (status, wire_header w)) (wire_body w)).
Proof.
  intros Hs Hf. unfold Wire_WriteHeader, final_status in *. rewrite Hs. cbn [bool_decide].
  rewrite bool_decide_false by (intros n; by apply n).
  destruct ((status <? 100) || (999 <? status)) eqn:E1.
  { apply orb_true_iff in E1 as [?|?]; bool_facts; lia. }
  destruct ((status <=? 199) && negb (status =? 101)) eqn:E2; [bool_facts; lia|done].
Qed.

Lemma Wire_Write_sent data w x : wire_sent w = Some x -> wire_sent (Wire_Write data w).2 = Some x
  /\ wire_header (Wire_Write data w).2 = wire_header w.
Proof.
  intros Hs. unfold Wire_Write, Wire_WriteHeader. rewrite Hs.
  rewrite bool_decide_true by done. rewrite Hs. destruct x as [code h].
  destruct (bool_decide (data = [])); [done|]. by destruct (body_allowed code).
Qed.

Lemma copy_body_sent pieces ctx x :
  wire_sent (wire ctx) = Some x ->
  exists ctx', copy_body pieces ctx = (Ret tt, ctx') /\ wire_sent (wire ctx') = Some x.
Proof.
  revert ctx. induction pieces as [|d ds IH]; intros ctx Hs; cbn [copy_body].
  { by exists ctx. }
  pose proof (proj1 (Wire_Write_sent d (wire ctx) x Hs)) as Hw.
  unfold mbind, st_bind, on_writer, zoom, rw_Write. unfold wire in Hw. simpl in Hw |- *.
  destruct (Wire_Write d (rw_w (Ctx_ResponseWriter ctx))) as [[n err] w'].
  destruct (bool_decide _ || _); [by eexists|]. by apply IH.
Qed.

(** Copying a body to a connection whose status has been sent. *)
Lemma copy_body_wire pieces ctx code h :
  wire_sent (wire ctx) = Some (code, h) ->
  exists ctx', copy_body pieces ctx = (Ret tt, ctx')
    /\ wire ctx' = mkWire (wire_header (wire ctx)) (wire_informational (wire ctx)) (Some (code, h))
         (wire_body (wire ctx) ++ (if body_allowed code then concat pieces else []))
    /\ UpgradeProtocols ctx' = UpgradeProtocols ctx.
Proof.
  revert ctx. induction pieces as [|d ds IH]; intros ctx Hs; cbn [copy_body concat].
  { exists ctx. split; [done|]. split; [|done]. rewrite <- Hs.
    destruct (body_allowed code); rewrite app_nil_r; by destruct (wire ctx). }
  unfold mbind, st_bind, on_writer, zoom, rw_Write. cbn [w_Write Wire_HttpWriter].
  unfold wire in *. unfold Wire_Write, Wire_WriteHeader. rewrite Hs, bool_decide_true, Hs by done.
  destruct (bool_decide (d = [])) eqn:Ed; bool_facts.
  - subst d. rewrite bool_decide_false by (intros n; by apply n).
    change (0 =? len []) with true. cbn [orb negb app].
    match goal with |- context [copy_body ds ?c] => destruct (IH c) as (ctx' & Hr & Hw & Hu); [exact Hs|] end.
    exists ctx'. rewrite Hr, Hw, Hu. destruct (body_allowed code); done.
  - destruct (body_allowed code) eqn:Eb.
    + rewrite Z.eqb_refl, bool_decide_false by (intros n; by apply n). cbn [orb negb].
      match goal with |- context [copy_body ds ?c] => destruct (IH c) as (ctx' & Hr & Hw & Hu); [done|] end.
      exists ctx'. rewrite Hr, Hw, Hu. cbn. split; [done|]. by rewrite <- (assoc_L (++)).
    + rewrite bool_decide_true by done. cbn [orb].
      eexists. split; [reflexivity|]. cbn. split; [|done]. rewrite app_nil_r, <- Hs.
      by destruct (rw_w (Ctx_ResponseWriter ctx)).
Qed.

(** A reply on a connection that has no response yet: it returns, and its status
    goes with the header as it was. *)
Lemma Reply_sends status data ctx :
  unsent ctx -> final_status status ->
  exists ctx', Reply status data ctx = (Ret tt, ctx')
  /\ wire_sent (wire ctx') = Some (status, wire_header (wire ctx)).
Proof.
  intros Hu Hf. unfold Reply, mbind, st_bind, modify, on_writer, zoom, rw_WriteHeader.
  cbn [Ctx_ResponseWriter set_var w_WriteHeader Wire_HttpWriter].
  rewrite (Wire_WriteHeader_final status (rw_w (Ctx_ResponseWriter ctx)) Hu Hf).
  destruct data as [pieces|]; [|by eexists]. by apply copy_body_sent.
Qed.

(** The same, with the body. *)
Lemma Reply_wire status pieces ctx :
  unsent ctx -> final_status status ->
  exists ctx', Reply status (Some pieces) ctx = (Ret tt, ctx')
  /\ wire_sent (wire ctx') = Some (status, wire_header (wire ctx))
  /\ wire_body (wire ctx')
     = wire_body (wire ctx) ++ (if body_allowed status then concat pieces else []).
Proof.
  intros Hu Hf. unfold Reply, mbind, st_bind, modify, on_writer, zoom, rw_WriteHeader.
  cbn [Ctx_ResponseWriter set_var w_WriteHeader Wire_HttpWriter].
  rewrite (Wire_WriteHeader_final status (rw_w (Ctx_ResponseWriter ctx)) Hu Hf).
  match goal with |- context [copy_body pieces ?c] =>
    destruct (copy_body_wire pieces c status (wire_header (wire ctx)) eq_refl) as (ctx' & -> & Hw & _) end.
  exists ctx'. rewrite Hw. done.
Qed.

Lemma ReplyError2_sends status msg ctx :
  unsent ctx -> final_status status ->
  exists ctx', ReplyError2 status msg ctx = (Ret tt, ctx')
  /\ wire_sent (wire ctx')
     = Some (status, Header_Set (wire_header (wire ctx)) "Content-Type"%go text_type).
Proof.
  intros Hu Hf. unfold ReplyError2. unfold change_header, modify, on_writer at 1, zoom at 1.
  unfold mbind, st_bind at 1.
  match goal with |- context [Reply status ?d ?c] =>
    destruct (Reply_sends status d c) as (ctx' & E & Hs); [exact Hu|exact Hf|] end.
  exists ctx'. split; [exact E|exact Hs].
Qed.
End wire.
