(* ===== verification/HttpAuth.v ===== *)
(** * Authentication (pkg/protocols/http/auth.go, auth_basic.go, auth_bearer.go)

    The secrets a handler accepts, how they are loaded and transformed, and the
    authentication of a request with the Basic and Bearer schemes. *)

From S2P Require Import Prelude GoStrings NetIP HttpHeader HttpContext.

(** ** Configuration *)

Inductive HashAlgorithm :=
  | HashAlgorithmSHA256 | HashAlgorithmSHA512 | HashAlgorithmSHA3256 | HashAlgorithmSHA3512.

#[export] Instance HashAlgorithm_eq_dec : EqDecision HashAlgorithm.
Proof. solve_decision. Defined.

Record HMACSecretsCfg := mkHMAC { hmac_Hash : HashAlgorithm; hmac_Key : gostring }.

(** An empty [Hash] string is [None]. *)
Record SecretsCfg := mkSecrets { sc_Hash : option HashAlgorithm; sc_HMAC : option HMACSecretsCfg }.

Record BasicAuthCfg := mkBasicCfg { bc_Users : list gostring; bc_UserFilePath : gostring }.
Record BearerAuthCfg := mkBearerCfg { tc_Tokens : list gostring; tc_TokenFile : gostring }.

Record AuthCfg := mkAuthCfg {
  ac_Secrets : option SecretsCfg;
  ac_Realm : gostring;
  ac_Basic : option BasicAuthCfg;
  ac_Bearer : option BearerAuthCfg
}.

(** The hash functions of the crypto packages, and HMAC over them. *)
Class GoCrypto := {
  hash_Sum : HashAlgorithm -> gostring -> gostring;
  hmac_Sum : HashAlgorithm -> gostring -> gostring -> gostring
}.

(** [strings.TrimSpace] on a string that is not ASCII, and the files the process
    can open and read. *)
Class GoFiles := {
  unicode_TrimSpace : gostring -> gostring;
  os_ReadFile : gostring -> outcome gostring
}.

(** ** Base 64 (encoding/base64, [StdEncoding.DecodeString]) *)

Definition base64_value (c : byte) : option Z :=
  if is_upper c then Some (bval c - 65)
  else if is_lower c then Some (bval c - 71)
  else if is_digit c then Some (bval c + 4)
  else if bool_decide (c = "+"%char) then Some 62
  else if bool_decide (c = "/"%char) then Some 63
  else None.

(** Four characters at a time; the padding ends the input. *)
Fixpoint base64_quanta (s : gostring) : option gostring :=
  match s with
  | [] => Some []
  | a :: b :: c :: d :: rest =>
      va ← base64_value a; vb ← base64_value b;
      if bool_decide (d = "="%char) then
        if bool_decide (rest <> []) then None
        else if bool_decide (c = "="%char) then Some [byte_of (va * 4 + vb / 16)]
        else vc ← base64_value c;
             Some [byte_of (va * 4 + vb / 16); byte_of (vb mod 16 * 16 + vc / 4)]
      else
        vc ← base64_value c; vd ← base64_value d;
        r ← base64_quanta rest;
        Some (byte_of (va * 4 + vb / 16) :: byte_of (vb mod 16 * 16 + vc / 4)
              :: byte_of (vc mod 4 * 64 + vd) :: r)
  | _ => None
  end.

(** Line breaks are skipped wherever they are. *)
Definition base64_Decode (s : gostring) : option gostring :=
  base64_quanta (List.filter (fun c => negb (bool_decide (c ∈ ["010"%char; "013"%char]))) s).

(** ** Secrets *)

Section auth.
Context `{GoUnicode, GoText, GoCrypto, GoFiles}.

Definition transformAuthSecretHash (secret : gostring) (alg : HashAlgorithm) : gostring :=
  hex_string (hash_Sum alg secret).

Definition transformAuthSecretHMAC (secret : gostring) (cfg : HMACSecretsCfg) : gostring :=
  hex_string (hmac_Sum (hmac_Hash cfg) (hmac_Key cfg) secret).

(** [transformAuthSecret]; the configuration of the secrets is dereferenced. *)
Definition transformAuthSecret (secret : gostring) (authCfg : AuthCfg) : outcome gostring :=
  match ac_Secrets authCfg with
  | None => Panic
  | Some cfg =>
      match sc_Hash cfg, sc_HMAC cfg with
      | Some alg, _ => Ret (transformAuthSecretHash secret alg)
      | None, Some hmac => Ret (transformAuthSecretHMAC secret hmac)
      | None, None => Panic
      end
  end.

Definition spaces : gostring :=
  ["009"%char; "010"%char; "011"%char; "012"%char; "013"%char; " "%char].

Definition TrimSpace (s : gostring) : gostring :=
  if forallb is_ascii s then Trim s spaces else unicode_TrimSpace s.

Definition newline : byte := "010"%char.

(** The loop of [loadAuthSecretFile] over what is left of the file; [line] is what
    [ReadString] has read of the current line, which it returns with [io.EOF] when
    the file ends before a line break. *)
Fixpoint load_secrets (r line : gostring) (secrets : gset gostring) : gset gostring :=
  match r with
  | [] => secrets
  | c :: r' =>
      if bool_decide (c = newline) then
        let line := TrimSpace (line ++ [c]) in
        load_secrets r' [] (if len line =? 0 then secrets else {[ line ]} ∪ secrets)
      else load_secrets r' (line ++ [c]) secrets
  end.

Definition loadAuthSecretFile (filePath : gostring) : outcome (gset gostring) :=
  data ← wrap_error "cannot read"%go (os_ReadFile filePath);
  Ret (load_secrets data [] ∅).

(** ** Authentication objects *)

Inductive Auth :=
  | BasicAuth (Cfg : AuthCfg) (Users : gset gostring)
  | BearerAuth (Cfg : AuthCfg) (Tokens : gset gostring).

(** [BasicAuth.Init] and [BearerAuth.Init]: the values of the configuration, or
    the file when there is one. *)
Definition BasicAuth_Init (cfg : AuthCfg) (basicCfg : BasicAuthCfg) : outcome Auth :=
  if bool_decide (bc_UserFilePath basicCfg = []) then
    Ret (BasicAuth cfg (list_to_set (bc_Users basicCfg)))
  else
    users ← wrap_error "cannot load user credentials"%go (loadAuthSecretFile (bc_UserFilePath basicCfg));
    Ret (BasicAuth cfg users).

Definition BearerAuth_Init (cfg : AuthCfg) (bearerCfg : BearerAuthCfg) : outcome Auth :=
  if bool_decide (tc_TokenFile bearerCfg = []) then
    Ret (BearerAuth cfg (list_to_set (tc_Tokens bearerCfg)))
  else
    tokens ← wrap_error "cannot load credentials"%go (loadAuthSecretFile (tc_TokenFile bearerCfg));
    Ret (BearerAuth cfg tokens).

(** [NewAuth] *)
Definition NewAuth (cfg : AuthCfg) : outcome Auth :=
  let cfg :=
    match ac_Secrets cfg with
    | None => mkAuthCfg (Some (mkSecrets (Some HashAlgorithmSHA256) None))
                (ac_Realm cfg) (ac_Basic cfg) (ac_Bearer cfg)
    | Some _ => cfg
    end in
  match ac_Basic cfg, ac_Bearer cfg with
  | Some basicCfg, _ => BasicAuth_Init cfg basicCfg
  | None, Some bearerCfg => BearerAuth_Init cfg bearerCfg
  | None, None => Panic
  end.

Section requests.
Context {W A : Type} `{HttpWriter W}.
Let M := ST (RequestContext W A).

Definition setWWWAuthenticate (scheme realm : gostring) : M unit :=
  let value :=
    if bool_decide (realm <> []) then scheme ++ " realm="%go ++ Quote realm else scheme in
  change_header (fun h => Header_Set h "WWW-Authenticate"%go value).

(** [ctx.ReplyError2(status, "%v", err); return err] *)
Definition reject {B} (status : Z) (err : error) : M B :=
  _ ← ReplyError2 status (Error_String err); throw err.

(** The [Authorization] field cut at its first space, for a scheme: what both
    [AuthenticateRequest] methods start with. *)
Definition authorization_parameter (name expected realm : gostring) : M gostring :=
  authorization ← gets (fun ctx => Header_Get (Req_Header (Ctx_Request ctx)) "Authorization"%go);
  let unauthorized err : M gostring := _ ← setWWWAuthenticate name realm; reject 401 err in
  if bool_decide (authorization = []) then
    unauthorized (Errorf "missing or empty Authorization header field"%go)
  else match IndexByte authorization " "%char with
       | None => unauthorized (Errorf "invalid authorization format"%go)
       | Some space =>
           let scheme := take space authorization in
           if bool_decide (ToLower scheme <> expected) then
             unauthorized (Errorf ("invalid authorization scheme "%go ++ Quote scheme))
           else mret (drop (S space) authorization)
       end.

(** [BasicAuth.AuthenticateRequest] *)
Definition BasicAuth_AuthenticateRequest (cfg : AuthCfg) (users : gset gostring) : M unit :=
  parameter ← authorization_parameter "Basic"%go "basic"%go (ac_Realm cfg);
  match base64_Decode parameter with
  | None => reject 403 (Errorf "cannot decode base64-encoded credentials"%go)
  | Some credentialsData =>
      let '(username, password, found) := Cut credentialsData ":"%char in
      if negb found then reject 403 (Errorf "invalid authorization: missing ':' separator"%go)
      else
        _ ← modify (fun ctx => set_var "http.request.username"%go username (set_username username ctx));
        secret ← lift (transformAuthSecret password cfg);
        let credentials := username ++ ":"%go ++ secret in
        if negb (bool_decide (credentials ∈ users)) then reject 403 (Errorf "invalid credentials"%go)
        else mret tt
  end.

(** [BearerAuth.AuthenticateRequest] *)
Definition BearerAuth_AuthenticateRequest (cfg : AuthCfg) (tokens : gset gostring) : M unit :=
  parameter ← authorization_parameter "Bearer"%go "bearer"%go (ac_Realm cfg);
  token ← lift (transformAuthSecret parameter cfg);
  if negb (bool_decide (token ∈ tokens)) then reject 403 (Errorf "invalid token"%go)
  else mret tt.

(** The method of the [Auth] interface. *)
Definition AuthenticateRequest (a : Auth) : M unit :=
  match a with
  | BasicAuth cfg users => BasicAuth_AuthenticateRequest cfg users
  | BearerAuth cfg tokens => BearerAuth_AuthenticateRequest cfg tokens
  end.
End requests.
End auth.

(** ** Base 64 round trip *)

Definition base64_char (v : Z) : byte :=
  if v <? 26 then byte_of (v + 65) else if v <? 52 then byte_of (v + 71)
  else if v <? 62 then byte_of (v - 4) else if v =? 62 then "+"%char else "/"%char.

(** The encoding clients use. *)
Fixpoint base64_Encode (s : gostring) : gostring :=
  match s with
  | a :: b :: c :: rest =>
      base64_char (bval a / 4) :: base64_char (bval a mod 4 * 16 + bval b / 16)
      :: base64_char (bval b mod 16 * 4 + bval c / 64) :: base64_char (bval c mod 64)
      :: base64_Encode rest
  | [a; b] => [base64_char (bval a / 4); base64_char (bval a mod 4 * 16 + bval b / 16);
               base64_char (bval b mod 16 * 4); "="%char]
  | [a] => [base64_char (bval a / 4); base64_char (bval a mod 4 * 16); "="%char; "="%char]
  | [] => []
  end.

Lemma base64_char_value v :
  0 <= v < 64 ->
  base64_value (base64_char v) = Some v /\ base64_char v <> "="%char
  /\ (base64_char v ∉ ["010"%char; "013"%char]).
Proof.
  intros Hv.
  assert (forallb (fun n => let v := Z.of_nat n in
            bool_decide (base64_value (base64_char v) = Some v /\ base64_char v <> "="%char
                         /\ (base64_char v ∉ ["010"%char; "013"%char]))) (seq 0 64) = true) as H
    by (vm_compute; reflexivity).
  rewrite forallb_forall in H. specialize (H (Z.to_nat v)). cbv zeta in H. rewrite Z2Nat.id in H by lia.
  apply bool_decide_eq_true in H; [done|]. apply in_seq. lia.
Qed.

(** Three bytes at a time. *)
Lemma triple_ind (P : gostring -> Prop) :
  P [] -> (forall a, P [a]) -> (forall a b, P [a; b]) ->
  (forall a b c s, P s -> P (a :: b :: c :: s)) -> forall s, P s.
Proof.
  intros H0 H1 H2 H3 s.
  assert (P s /\ (forall a, P (a :: s)) /\ forall a b, P (a :: b :: s)) as [? _]; [|done].
  induction s as [|c s (IH0 & IH1 & IH2)]; auto.
Qed.

Lemma sextet_bounds a b :
  0 <= bval a / 4 < 64 /\ 0 <= bval a mod 4 * 16 + bval b / 16 < 64 /\ 0 <= bval a mod 4 * 16 < 64
  /\ 0 <= bval a mod 16 * 4 + bval b / 64 < 64 /\ 0 <= bval a mod 16 * 4 < 64 /\ 0 <= bval a mod 64 < 64.
Proof.
  pose proof (bval_range a). pose proof (bval_range b). Z.to_euclidean_division_equations; lia.
Qed.

Lemma base64_quanta_Encode s : base64_quanta (base64_Encode s) = Some s.
Proof.
  induction s as [|a|a b|a b c s IH] using triple_ind; [done|..].
  - destruct (sextet_bounds a a) as (B1 & _ & B2 & _). cbn [base64_Encode base64_quanta].
    rewrite (proj1 (base64_char_value _ B1)), (proj1 (base64_char_value _ B2)). simpl.
    replace (bval a / 4 * 4 + bval a mod 4 * 16 / 16) with (bval a)
      by (rewrite Z.div_mul by done; Z.to_euclidean_division_equations; lia).
    by rewrite byte_of_bval.
  - destruct (sextet_bounds a b) as (B1 & B2 & _). destruct (sextet_bounds b b) as (_ & _ & _ & _ & B3 & _).
    destruct (base64_char_value _ B3) as (V3 & N3 & _). cbn [base64_Encode base64_quanta].
    rewrite (proj1 (base64_char_value _ B1)), (proj1 (base64_char_value _ B2)). simpl.
    rewrite (bool_decide_false (base64_char _ = _)) by done. rewrite V3. simpl.
    pose proof (bval_range a). pose proof (bval_range b).
    replace (bval a / 4 * 4 + (bval a mod 4 * 16 + bval b / 16) / 16) with (bval a)
      by (Z.to_euclidean_division_equations; lia).
    replace ((bval a mod 4 * 16 + bval b / 16) mod 16 * 16 + bval b mod 16 * 4 / 4) with (bval b)
      by (Z.to_euclidean_division_equations; lia).
    by rewrite !byte_of_bval.
  - destruct (sextet_bounds a b) as (B1 & B2 & _). destruct (sextet_bounds b c) as (_ & _ & _ & B3 & _).
    destruct (sextet_bounds c c) as (_ & _ & _ & _ & _ & B4).
    destruct (base64_char_value _ B4) as (V4 & N4 & _). cbn [base64_Encode base64_quanta].
    rewrite (proj1 (base64_char_value _ B1)), (proj1 (base64_char_value _ B2)),
      (proj1 (base64_char_value _ B3)), V4. simpl.
    rewrite bool_decide_false by done. rewrite IH. simpl.
    pose proof (bval_range a). pose proof (bval_range b). pose proof (bval_range c).
    replace (bval a / 4 * 4 + (bval a mod 4 * 16 + bval b / 16) / 16) with (bval a)
      by (Z.to_euclidean_division_equations; lia).
    replace ((bval a mod 4 * 16 + bval b / 16) mod 16 * 16 + (bval b mod 16 * 4 + bval c / 64) / 4)
      with (bval b) by (Z.to_euclidean_division_equations; lia).
    replace ((bval b mod 16 * 4 + bval c / 64) mod 4 * 64 + bval c mod 64) with (bval c)
      by (Z.to_euclidean_division_equations; lia).
    by rewrite !byte_of_bval.
Qed.

Lemma base64_Encode_lines s : Forall (fun c => c ∉ ["010"%char; "013"%char]) (base64_Encode s).
Proof.
  induction s as [|a|a b|a b c s IH] using triple_ind; cbn [base64_Encode]; [done|..].
  - destruct (sextet_bounds a a) as (B1 & _ & B2 & _).
    repeat constructor; try (by apply base64_char_value); by_decision.
  - destruct (sextet_bounds a b) as (B1 & B2 & _). destruct (sextet_bounds b b) as (_ & _ & _ & _ & B3 & _).
    repeat constructor; try (by apply base64_char_value); by_decision.
  - destruct (sextet_bounds a b) as (B1 & B2 & _). destruct (sextet_bounds b c) as (_ & _ & _ & B3 & _).
    destruct (sextet_bounds c c) as (_ & _ & _ & _ & _ & B4).
    repeat constructor; try (by apply base64_char_value); done.
Qed.

Lemma base64_roundtrip s : base64_Decode (base64_Encode s) = Some s.
Proof.
  unfold base64_Decode.
  assert (List.filter (fun c => negb (bool_decide (c ∈ ["010"%char; "013"%char]))) (base64_Encode s)
          = base64_Encode s) as ->; [|apply base64_quanta_Encode].
  induction (base64_Encode_lines s) as [|c l Hc _ IH]; [done|].
  cbn [List.filter]. rewrite bool_decide_false by done. simpl. by rewrite IH.
Qed.

(** ** What the schemes accept *)

Section schemes.
Context {W A : Type} `{HttpWriter W, GoUnicode, GoText, GoCrypto}.
Implicit Type ctx : RequestContext W A.

Definition authorization ctx : gostring := Header_Get (Req_Header (Ctx_Request ctx)) "Authorization"%go.

Lemma reject_not_ret {B} status err ctx (b : B) ctx' : reject status err ctx <> (Ret b, ctx').
Proof.
  unfold reject, throw, mbind, st_bind.
  by destruct (ReplyError2 status _ ctx) as [[?|?| |] ?].
Qed.

Lemma authorization_parameter_spec name expected realm ctx parameter ctx' :
  authorization_parameter name expected realm ctx = (Ret parameter, ctx') <->
  ctx' = ctx /\ exists scheme, authorization ctx = scheme ++ " "%go ++ parameter
    /\ (" "%char ∉ scheme) /\ ToLower scheme = expected.
Proof.
  assert (forall err c, (setWWWAuthenticate name realm ≫= fun _ => reject 401 err) ctx
                        <> (Ret parameter, c)) as Hno.
  { intros err c. unfold setWWWAuthenticate, mbind, st_bind. cbn. apply reject_not_ret. }
  unfold authorization_parameter. unfold mbind at 1, st_bind at 1, gets. fold (authorization ctx).
  destruct (bool_decide (authorization ctx = [])) eqn:E0.
  { split; [intros H'; by apply Hno in H'|]. bool_facts. intros (_ & s & Hs & _).
    rewrite E0 in Hs. by destruct s. }
  destruct (IndexByte (authorization ctx) " "%char) as [space|] eqn:E.
  2: { split; [intros H'; by apply Hno in H'|]. intros (_ & s & Hs & _). exfalso.
       apply IndexByte_None in E. rewrite Hs in E. set_solver. }
  split.
  - destruct (bool_decide (ToLower (take space (authorization ctx)) <> expected)) eqn:E2; [intros H'; by apply Hno in H'|].
    intros [= <- <-]. split; [done|]. apply bool_decide_eq_false, dec_stable in E2.
    exists (take space (authorization ctx)).
    destruct (IndexByte_Some _ _ _ E) as (s1 & s2 & Hs & Hl & Hn).
    rewrite Hs in E2 |- *. subst space. rewrite take_app_length in E2 |- *. by rewrite drop_past.
  - intros (-> & s & Hs & Hn & Hl). rewrite Hs in E |- *. cbn [app] in *.
    rewrite IndexByte_app in E by done. injection E as <-.
    rewrite take_app_length, drop_past. by rewrite bool_decide_false by (intros n; by apply n).
Qed.

(** [C30] Basic authentication accepts a request exactly when its [Authorization]
    field is the scheme [Basic], in any case, a space and the base 64 form of
    [username:password] such that [username], a colon and the transformed password
    is one of the users; the context is then given the user name, and nothing has
    been sent.  In every other case the request is not accepted. *)
Theorem BasicAuth_accepts cfg users ctx ctx' :
  AuthenticateRequest (BasicAuth cfg users) ctx = (Ret tt, ctx') <->
  exists scheme payload username password secret,
    authorization ctx = scheme ++ " "%go ++ payload
    /\ (" "%char ∉ scheme) /\ ToLower scheme = "basic"%go
    /\ base64_Decode payload = Some (username ++ ":"%go ++ password)
    /\ (":"%char ∉ username)
    /\ transformAuthSecret password cfg = Ret secret
    /\ (username ++ ":"%go ++ secret ∈ users)
    /\ ctx' = set_var "http.request.username"%go username (set_username username ctx).
Proof.
  cbn [AuthenticateRequest]. unfold BasicAuth_AuthenticateRequest.
  pose proof (authorization_parameter_spec "Basic"%go "basic"%go (ac_Realm cfg) ctx) as Hspec.
  unfold mbind at 1, st_bind at 1.
  destruct (authorization_parameter _ _ _ ctx) as [[payload|e| |] c] eqn:E; cycle 1.
  1-3: split; [done|]; intros (s & pl & u & pw & sec & Ha & Hn & Hl & _);
    destruct (Hspec pl ctx) as [_ H']; by discriminate H'; eauto.
  destruct (proj1 (Hspec payload c) eq_refl) as (-> & scheme & Ha & Hn & Hl).
  assert (forall s pl, authorization ctx = s ++ " "%go ++ pl -> (" "%char ∉ s) -> pl = payload) as Huniq.
  { intros s pl Hs Hns. rewrite Ha in Hs. cbn [app] in Hs.
    pose proof (IndexByte_app _ _ payload Hn) as I1. rewrite Hs, IndexByte_app in I1 by done.
    injection I1 as I1. by apply app_inj_1 in Hs as [_ [= ->]]. }
  destruct (base64_Decode payload) as [data|] eqn:Ed; cycle 1.
  { split; [intros H'; by apply reject_not_ret in H'|].
    intros (s & pl & u & pw & sec & Ha' & Hn' & _ & Hd & _). rewrite (Huniq s pl Ha' Hn') in Hd. congruence. }
  destruct (decide (":"%char ∈ data)) as [Hc|Hc]; cycle 1.
  { rewrite Cut_not_found by done. cbn [negb]. split; [intros H'; by apply reject_not_ret in H'|].
    intros (s & pl & u & pw & sec & Ha' & Hn' & _ & Hd & _). rewrite (Huniq s pl Ha' Hn'), Ed in Hd.
    injection Hd as ->. destruct Hc. set_solver. }
  destruct (IndexByte data ":"%char) as [i|] eqn:Ei; [|by apply IndexByte_None in Ei].
  destruct (IndexByte_Some _ _ _ Ei) as (u & pw & -> & _ & Hu). rewrite Cut_found by done. cbn [negb].
  unfold mbind, st_bind, modify, lift. split.
  - destruct (transformAuthSecret pw cfg) as [secret|e| |] eqn:Et; try done.
    destruct (bool_decide (u ++ ":"%go ++ secret ∈ users)) eqn:Em; cbn [negb];
      [|intros H'; by apply reject_not_ret in H'].
    intros [= <-]. bool_facts. by exists scheme, payload, u, pw, secret.
  - intros (s & pl & u' & pw' & sec & Ha' & Hn' & _ & Hd & Hu' & Ht & Hm & ->).
    rewrite (Huniq s pl Ha' Hn'), Ed in Hd. injection Hd as Hd.
    assert (u' = u) as ->.
    { pose proof (Cut_found u _ pw Hu) as C1. by rewrite Hd, Cut_found in C1 by done; injection C1. }
    apply app_inv_head in Hd. injection Hd as ->. rewrite Ht.
    by rewrite bool_decide_true.
Qed.

(** Bearer authentication accepts a request exactly when its [Authorization]
    field is the scheme [Bearer], in any case, a space and a token whose
    transformed form is one of the tokens; nothing has then been sent and the
    context is unchanged. *)
Theorem BearerAuth_accepts cfg tokens ctx ctx' :
  AuthenticateRequest (BearerAuth cfg tokens) ctx = (Ret tt, ctx') <->
  exists scheme payload token,
    authorization ctx = scheme ++ " "%go ++ payload
    /\ (" "%char ∉ scheme) /\ ToLower scheme = "bearer"%go
    /\ transformAuthSecret payload cfg = Ret token /\ (token ∈ tokens) /\ ctx' = ctx.
Proof.
  cbn [AuthenticateRequest]. unfold BearerAuth_AuthenticateRequest.
  pose proof (authorization_parameter_spec "Bearer"%go "bearer"%go (ac_Realm cfg) ctx) as Hspec.
  split.
  - unfold mbind at 1, st_bind at 1.
    destruct (authorization_parameter _ _ _ ctx) as [[payload|e| |] c] eqn:E; try done.
    destruct (proj1 (Hspec payload c) eq_refl) as (-> & scheme & Ha & Hn & Hl).
    unfold mbind, st_bind, lift. destruct (transformAuthSecret payload cfg) as [token|e| |] eqn:Et; try done.
    destruct (bool_decide (token ∈ tokens)) eqn:Em; cbn [negb]; [|intros H'; by apply reject_not_ret in H'].
    intros [= <-]. bool_facts. by exists scheme, payload, token.
  - intros (s & pl & token & Ha & Hn & Hl & Ht & Hm & ->).
    rewrite (st_bind_ret _ _ _ pl ctx) by (apply Hspec; eauto).
    unfold mbind, st_bind, lift. rewrite Ht. by rewrite bool_decide_true.
Qed.
End schemes.

(** ** What is sent to a request that is not accepted *)

Section rejection.
Context {A : Type} `{GoUnicode, GoText, GoCrypto}.
Implicit Type ctx : RequestContext Wire A.

(** What [reject] leaves: a final response of that status. *)
Lemma reject_sends {B} status err ctx :
  unsent ctx -> final_status status ->
  exists ctx', reject (B := B) status err ctx = (Throw err, ctx')
  /\ wire_sent (wire ctx')
     = Some (status, Header_Set (wire_header (wire ctx)) "Content-Type"%go text_type).
Proof.
  intros Hu Hf. unfold reject, throw, mbind, st_bind.
  destruct (ReplyError2_sends status (Error_String err) ctx Hu Hf) as (ctx' & -> & Hs). by exists ctx'.
Qed.

(** A rejection as a client sees it: 403, or 401 with the challenge. *)
Definition rejected ctx : Prop :=
  exists status hdr, wire_sent (wire ctx) = Some (status, hdr)
  /\ (status = 403 \/ status = 401 /\ Header_Values hdr "WWW-Authenticate"%go <> []).

Lemma reject_403 {B} err ctx :
  unsent ctx -> exists ctx', reject (B := B) 403 err ctx = (Throw err, ctx') /\ rejected ctx'.
Proof.
  intros Hu. destruct (@reject_sends B 403 err ctx Hu) as (ctx' & E & Hs); [right; lia|].
  exists ctx'. split; [done|]. eexists _, _. by split; [|left].
Qed.

Lemma challenge_401 {B} name realm err ctx :
  unsent ctx ->
  exists ctx', (setWWWAuthenticate name realm ≫= fun _ => reject (B := B) 401 err) ctx = (Throw err, ctx')
  /\ rejected ctx'.
Proof.
  intros Hu. unfold setWWWAuthenticate, change_header, modify, on_writer, zoom, mbind, st_bind at 1.
  match goal with |- context [reject 401 err ?c] =>
    destruct (@reject_sends B 401 err c) as (ctx' & E & Hs); [exact Hu|right; lia|] end.
  exists ctx'. split; [exact E|]. eexists _, _. split; [exact Hs|]. right. split; [done|].
  cbn. rewrite Values_Set_ne by (vm_compute; congruence). by rewrite Values_Set_eq.
Qed.

Lemma authorization_parameter_reject name expected realm ctx :
  unsent ctx ->
  match authorization_parameter name expected realm ctx with
  | (Ret _, ctx') => ctx' = ctx
  | (Throw _, ctx') => rejected ctx'
  | _ => False
  end.
Proof.
  intros Hu.
  assert (forall err, match (setWWWAuthenticate name realm ≫= fun _ => reject (B := gostring) 401 err) ctx with
                      | (Ret _, ctx') => ctx' = ctx
                      | (Throw _, ctx') => rejected ctx'
                      | _ => False
                      end) as Hc.
  { intros err. by destruct (@challenge_401 gostring name realm err ctx Hu) as (ctx' & -> & Hr). }
  unfold authorization_parameter. unfold mbind at 1, st_bind at 1, gets.
  destruct (bool_decide (_ = [])); [apply Hc|].
  destruct (IndexByte _ _) as [space|]; [|apply Hc]. destruct (bool_decide _); [apply Hc|done].
Qed.

Definition secrets_ok (a : Auth) : Prop :=
  match a with
  | BasicAuth cfg _ | BearerAuth cfg _ => forall s, is_ret (transformAuthSecret s cfg) = true
  end.

(** The outcomes of authentication: an acceptance or a panic sends nothing, and an
    error comes after a rejection. *)
Definition auth_outcome (a : Auth) ctx (r : outcome unit * RequestContext Wire A) : Prop :=
  match r with
  | (Ret _, ctx') => Ctx_ResponseWriter ctx' = Ctx_ResponseWriter ctx
  | (Throw _, ctx') => rejected ctx'
  | (Panic, ctx') => Ctx_ResponseWriter ctx' = Ctx_ResponseWriter ctx /\ ~ secrets_ok a
  | (OutOfFuel, _) => False
  end.

Lemma transformAuthSecret_cases s cfg :
  match transformAuthSecret s cfg with Ret _ | Panic => True | _ => False end.
Proof. unfold transformAuthSecret. repeat case_match; done. Qed.

Lemma AuthenticateRequest_outcome a ctx : unsent ctx -> auth_outcome a ctx (AuthenticateRequest a ctx).
Proof.
  intros Hu.
  assert (forall e c, unsent c -> auth_outcome a ctx (reject (B := unit) 403 e c)) as Hr
    by (intros e c Hc; by destruct (@reject_403 unit e c Hc) as (c' & -> & ?)).
  destruct a as [cfg users|cfg tokens]; cbn [AuthenticateRequest].
  - unfold BasicAuth_AuthenticateRequest, mbind at 1, st_bind at 1.
    pose proof (authorization_parameter_reject "Basic"%go "basic"%go (ac_Realm cfg) ctx Hu) as Hp.
    destruct (authorization_parameter _ _ _ ctx) as [[payload|e| |] c]; try done. subst c.
    destruct (base64_Decode payload) as [data|]; [|by apply Hr].
    destruct (Cut data ":"%char) as [[u pw] found]. destruct found; cbn [negb]; [|by apply Hr].
    unfold mbind, st_bind, modify, lift. pose proof (transformAuthSecret_cases pw cfg) as Ht.
    destruct (transformAuthSecret pw cfg) eqn:E; try done.
    + destruct (negb _); [by apply Hr|done].
    + split; [done|]. intros Hs. specialize (Hs pw). by rewrite E in Hs.
  - unfold BearerAuth_AuthenticateRequest, mbind at 1, st_bind at 1.
    pose proof (authorization_parameter_reject "Bearer"%go "bearer"%go (ac_Realm cfg) ctx Hu) as Hp.
    destruct (authorization_parameter _ _ _ ctx) as [[payload|e| |] c]; try done. subst c.
    unfold mbind, st_bind, lift. pose proof (transformAuthSecret_cases payload cfg) as Ht.
    destruct (transformAuthSecret payload cfg) eqn:E; try done.
    + destruct (negb _); [by apply Hr|done].
    + split; [done|]. intros Hs. specialize (Hs payload). by rewrite E in Hs.
Qed.

(** A request that is not accepted is answered: authentication returns an
    error only after a response went out whose status is 403, or 401 with a
    [WWW-Authenticate] challenge.  When the secrets are configured (as [NewAuth]
    makes them) it always returns, accepting or rejecting. *)
Theorem AuthenticateRequest_answers a ctx :
  unsent ctx -> secrets_ok a ->
  match AuthenticateRequest a ctx with
  | (Ret _, ctx') => unsent ctx'
  | (Throw _, ctx') => rejected ctx'
  | _ => False
  end.
Proof.
  intros Hu Hs. pose proof (AuthenticateRequest_outcome a ctx Hu) as Ho. unfold auth_outcome in Ho.
  destruct (AuthenticateRequest a ctx) as [[[]|e| |] c]; try tauto.
  unfold unsent, wire in *. by rewrite Ho.
Qed.
End rejection.

(** ** Secret files *)

(** What [loadAuthSecretFile] loads: exactly the lines that end with a line
    break, without the white space around them, the blank ones left out. *)
Theorem loadAuthSecretFile_lines `{GoFiles} path data secrets :
  os_ReadFile path = Ret data ->
  loadAuthSecretFile path = Ret secrets ->
  forall s, s ∈ secrets <->
    s <> [] /\ exists line, line ∈ removelast (Split data newline) /\ s = TrimSpace (line ++ [newline]).
Proof.
  intros Hf Hl s. unfold loadAuthSecretFile in Hl. rewrite Hf in Hl. simpl in Hl. injection Hl as <-.
  assert (forall r line acc, newline ∉ line ->
    s ∈ load_secrets r line acc <->
    s ∈ acc \/ s <> [] /\ exists l, l ∈ removelast (Split (line ++ r) newline) /\ s = TrimSpace (l ++ [newline])) as Hload.
  2: { rewrite Hload by set_solver. set_solver. }
  induction r as [|c r IH]; intros line acc Hn; cbn [load_secrets].
  - rewrite app_nil_r, Split_no_sep by done. simpl. split; [by left|].
    intros [?|(_ & l & Hl & _)]; [done|]. by apply not_elem_of_nil in Hl.
  - destruct (bool_decide (c = newline)) eqn:Ec; bool_facts.
    + subst c. rewrite Split_app by done. rewrite IH by apply not_elem_of_nil. cbn [app].
      change (removelast (line :: Split r newline)) with
        (match Split r newline with [] => [] | _ :: _ => line :: removelast (Split r newline) end).
      destruct (Split r newline) as [|p ps] eqn:E; [by apply Split_not_nil in E|]. rewrite <- E.
      setoid_rewrite elem_of_cons.
      destruct (len (TrimSpace (line ++ [newline])) =? 0) eqn:El.
      * assert (TrimSpace (line ++ [newline]) = []) as E0.
        { destruct (TrimSpace (line ++ [newline])) as [|x l]; [done|]. bool_facts.
          rewrite len_cons in El. pose proof (len_nonneg _ l). lia. }
        split; [naive_solver|]. intros [?|(Hs & l & [->|Hl] & ->)]; [by left|congruence|right; eauto].
      * assert (TrimSpace (line ++ [newline]) <> []) as E0 by (intros E0; by rewrite E0 in El).
        rewrite elem_of_union, elem_of_singleton.
        split; [|naive_solver]. intros [[->|?]|(Hs & l & Hl & ->)]; [right; eauto|by left|right; eauto].
    + rewrite IH by set_solver. by rewrite <- app_assoc.
Qed.

(** Concrete functions of the standard library. *)
#[export] Instance example_files : GoFiles := {
  unicode_TrimSpace s := s;
  os_ReadFile path := if bool_decide (path = "tokens"%go)
                      then Ret ("  a"%go ++ [newline; newline] ++ "b"%go) else Throw fs_ErrNotExist
}.

#[export] Instance example_crypto : GoCrypto := {
  hash_Sum _ s := s;
  hmac_Sum _ key s := key ++ s
}.

Lemma loadAuthSecretFile_lines_witness :
  loadAuthSecretFile "tokens"%go = Ret {[ "a"%go ]} /\ ("a"%go ∈ ({[ "a"%go ]} : gset gostring)).
Proof.
  split; [by vm_compute|].
  apply (loadAuthSecretFile_lines (H := example_files) "tokens"%go ("  a"%go ++ [newline; newline] ++ "b"%go) {[ "a"%go ]}
    ltac:(vm_compute; reflexivity) ltac:(vm_compute; reflexivity) "a"%go).
  split; [done|]. exists "  a"%go. split; by_decision.
Defined.

(** The last line of a file is lost when no line break ends it: here [b]. *)
Example unterminated_secret_lost :
  loadAuthSecretFile "tokens"%go = Ret {[ "a"%go ]}
  /\ bool_decide ("b"%go ∈ ({[ "a"%go ]} : gset gostring)) = false.
Proof. by vm_compute. Qed.

Definition example_auth : AuthCfg := mkAuthCfg (Some (mkSecrets (Some HashAlgorithmSHA256) None)) [] None None.

(** A client that sends the base 64 form of its credentials is accepted. *)
Example basic_client_accepted :
  is_ret (AuthenticateRequest (H := ascii_only)
    (BasicAuth example_auth {[ "b:70"%go ]})
    (NewRequestContext (A := unit) (H0 := ascii_only) 0
       (example_request (Header_Set ∅ "Authorization"%go ("bAsIc "%go ++ base64_Encode "b:p"%go)))
       new_wire)).1 = true.
Proof. by vm_compute. Qed.

Lemma AuthenticateRequest_answers_witness :
  match AuthenticateRequest (H := ascii_only) (BearerAuth example_auth {[ "70"%go ]})
          example_context with
  | (Ret _, ctx') => unsent ctx'
  | (Throw _, ctx') => rejected ctx'
  | _ => False
  end.
Proof.
  assert (unsent example_context) as Hu by (vm_compute; reflexivity).
  assert (secrets_ok (BearerAuth example_auth {[ "70"%go ]})) as Hs by (intros s; reflexivity).
  pose proof (AuthenticateRequest_answers (A := unit) (H := ascii_only) (H0 := plain_text)
    (H1 := example_crypto) (BearerAuth example_auth {[ "70"%go ]}) example_context Hu Hs) as Ha.
  exact Ha.
Defined.
