(* ===== verification/HttpHandler.v ===== *)
(** * Handlers (pkg/protocols/http/handler.go, Protocol.findHandler and
      Protocol.gcRateLimiters of protocol.go)

    The tree of handlers of a server: the constraints on the requests a handler
    accepts, the settings it gives to the context of a request, and the search for
    the handler of a request. *)

From S2P Require Import Prelude GoStrings HttpHeader NetAddresses RateLimiter FormatString.
From S2P Require Import HttpPath HttpContext.

(** ** Configuration *)

(** A compiled regular expression, as its [MatchString] method. *)
Abbreviation Regexp := (list ascii -> bool) (only parsing).

Record MatchCfg := mkMatch {
  m_TLS : option bool;
  HTTPVersions : list HTTPVersion;
  Methods : list gostring;
  Hosts : list DomainNamePattern;
  HostRegexps : list Regexp;
  HeaderValues : gmap gostring (list gostring);
  HeaderRegexps : gmap gostring (list Regexp);
  Paths : list PathPattern;
  PathRegexps : list Regexp
}.

(** The order in which a [range] loop visits a map: any order of its entries. *)
Class MapRange := {
  range_map : forall V, gmap gostring V -> list (gostring * V);
  range_map_entries : forall V (m : gmap gostring V), range_map V m ≡ₚ map_to_list m
}.
Arguments range_map {_ V}.

(** [MatchCfg.HasPaths] *)
Definition HasPaths (cfg : MatchCfg) : bool :=
  (0 <? len (Paths cfg)) || (0 <? len (PathRegexps cfg)).

(** [Handler], with the fields of its configuration the search uses; [A] is the
    type of its authentication, [X] that of its action.  The rate limiter is the
    location of the shared object, with its configuration. *)
#[warnings="-register-all"]
Inductive Handler (A X : Type) := mkHandler {
  h_Match : MatchCfg;
  NextHandler : bool;
  h_AccessLogger : option AccessLogger;
  h_Auth : option A;
  h_RequestRateLimiter : option (nat * RateLimiterCfg);
  h_Action : option X;
  h_Handlers : list (Handler A X)
}.
Arguments mkHandler {A X}.
Arguments h_Match {A X}.
Arguments NextHandler {A X}.
Arguments h_AccessLogger {A X}.
Arguments h_Auth {A X}.
Arguments h_RequestRateLimiter {A X}.
Arguments h_Action {A X}.
Arguments h_Handlers {A X}.

(** ** Constraints *)

(** The [tls] constraint. *)
Definition match_tls (spec : MatchCfg) (tls : bool) : bool :=
  match m_TLS spec with
  | Some true => tls
  | Some false => negb tls
  | None => true
  end.

Definition match_version (spec : MatchCfg) (req : Request) : bool :=
  if 0 <? len (HTTPVersions spec)
  then existsb (fun v => HTTPVersion_Match v (ProtoMajor req) (ProtoMinor req)) (HTTPVersions spec)
  else true.

Definition match_method (spec : MatchCfg) (req : Request) : bool :=
  if 0 <? len (Methods spec) then bool_decide (Method req ∈ Methods spec) else true.

Definition match_host (spec : MatchCfg) (host : gostring) : bool :=
  if (0 <? len (Hosts spec)) || (0 <? len (HostRegexps spec)) then
    existsb (fun p => DomainNamePattern_Match p host) (Hosts spec)
    || existsb (fun re => re host) (HostRegexps spec)
  else true.

(** The loop [outer1]: an entry without values overwrites [headerMatch], an entry
    with values sets it and leaves the loop. *)
Fixpoint header_values_loop (header : Header) (entries : list (gostring * list gostring))
  (headerMatch : bool) : bool :=
  match entries with
  | [] => headerMatch
  | (name, expectedValues) :: entries' =>
      if len expectedValues =? 0 then
        header_values_loop header entries' (0 <? len (Header_Values header name))
      else if existsb (fun value => bool_decide (value ∈ expectedValues)) (Header_Values header name)
      then true
      else header_values_loop header entries' headerMatch
  end.

(** The loop [outer2] *)
Definition header_regexps_loop (header : Header) (entries : list (gostring * list Regexp)) : bool :=
  existsb (fun '(name, res) =>
    existsb (fun value => existsb (fun re : Regexp => re value) res) (Header_Values header name)) entries.

Definition match_header `{MapRange} (spec : MatchCfg) (header : Header) : bool :=
  if (0 <? Z.of_nat (size (HeaderValues spec))) || (0 <? Z.of_nat (size (HeaderRegexps spec))) then
    header_values_loop header (range_map (HeaderValues spec)) false
    || header_regexps_loop header (range_map (HeaderRegexps spec))
  else true.

(** The loop over the patterns: the subpath of the first that matches, relative
    patterns being matched with the subpath of the context. *)
Fixpoint match_patterns (patterns : list PathPattern) (path subpath : gostring) : option gostring :=
  match patterns with
  | [] => None
  | p :: ps =>
      let refPath := if Relative p then subpath else path in
      let '(pMatch, sub) := PathPattern_Match p refPath in
      if pMatch then Some sub else match_patterns ps path subpath
  end.

(** The [path] constraint: the subpath of the match, or [None]. *)
Definition match_path (spec : MatchCfg) (path subpath : gostring) : option gostring :=
  if HasPaths spec then
    match match_patterns (Paths spec) path subpath with
    | Some sub => Some sub
    | None => if existsb (fun re : Regexp => re path) (PathRegexps spec) then Some [] else None
    end
  else Some [].

Section handlers.
Context `{MapRange} {W A X : Type}.
Implicit Type ctx : RequestContext W A.
Implicit Type h : Handler A X.

(** ** Matching *)

(** All the constraints, in the order of the code: the subpath of the match. *)
Definition match_constraints h ctx : option gostring :=
  let spec := h_Match h in
  let req := Ctx_Request ctx in
  if negb (match_tls spec (Req_TLS req)) then None
  else if negb (match_version spec req) then None
  else if negb (match_method spec req) then None
  else if negb (match_host spec (Ctx_Host ctx)) then None
  else if negb (match_header spec (Req_Header req)) then None
  else match_path spec (u_Path (Req_URL req)) (Subpath ctx).

(** The settings of the context a handler replaces. *)
Definition inherit h ctx : RequestContext W A :=
  set_settings
    (match h_AccessLogger h with Some l => Some l | None => Ctx_AccessLogger ctx end)
    (match h_Auth h with Some a => Some a | None => Ctx_Auth ctx end)
    (match h_RequestRateLimiter h with
     | Some (loc, cfg) => if IsEmpty cfg then None else Some loc
     | None => Ctx_RequestRateLimiter ctx
     end) ctx.

(** [Handler.matchRequest] *)
Definition matchRequest h ctx : bool * RequestContext W A :=
  match match_constraints h ctx with
  | None => (false, ctx)
  | Some subpath =>
      let ctx := inherit h ctx in
      if NextHandler h then (false, ctx)
      else (true, set_var "http.match.subpath"%go subpath (set_subpath subpath ctx))
  end.

(** ** Search *)

(** The function [find] of [Protocol.findHandler], over the result of a handler of
    the list. *)
Section find.
Variable visit : Handler A X -> RequestContext W A -> option (Handler A X) * RequestContext W A.

Fixpoint find_in (handlers : list (Handler A X)) (lastMatch : option (Handler A X)) ctx
  : option (Handler A X) * RequestContext W A :=
  match handlers with
  | [] => (lastMatch, ctx)
  | h :: hs =>
      match visit h ctx with
      | (Some r, ctx) => (Some r, ctx)
      | (None, ctx) => find_in hs lastMatch ctx
      end
  end.
End find.

(** One turn of its loop: the handler returned when [h] matches. *)
Fixpoint visit h ctx : option (Handler A X) * RequestContext W A :=
  let '(m, ctx) := matchRequest h ctx in
  if m then
    let '(h2, ctx) := find_in visit (h_Handlers h) (Some h) ctx in
    match h2 with
    | Some h2 => (Some h2, ctx)
    | None => (Some h, ctx)
    end
  else (None, ctx).

(** [Protocol.findHandler] *)
Definition findHandler (handlers : list (Handler A X)) ctx : option (Handler A X) * RequestContext W A :=
  find_in visit handlers None ctx.
End handlers.

(** [Protocol.gcRateLimiters]: the handlers of the tree in preorder; each limiter
    is shared by the requests, at its location. *)
Fixpoint limiter_locations {A X} (h : Handler A X) : list nat :=
  match h_RequestRateLimiter h with Some (loc, _) => [loc] | None => [] end
  ++ (fix all hs := match hs with [] => [] | h :: hs => limiter_locations h ++ all hs end) (h_Handlers h).

Definition gcRateLimiters {A X} (handlers : list (Handler A X)) (limiters : gmap nat RateLimiter)
  : gmap nat RateLimiter :=
  foldl (fun m loc => alter GC loc m) limiters (handlers ≫= limiter_locations).

(** ** Induction on the tree of handlers *)

Lemma handler_ind {A X} (P : Handler A X -> Prop) :
  (forall h, Forall P (h_Handlers h) -> P h) -> forall h, P h.
Proof.
  intros HP. fix IH 1. intros h. apply HP. destruct h as [? ? ? ? ? ? hs]. cbn.
  induction hs as [|h hs IHhs]; constructor; [apply IH|exact IHhs].
Qed.

(** ** The search

    What the search does is said with the handlers whose constraints hold, in the
    order they are visited: each gives its settings to the context, and those
    without [next_handler] are taken, the last one taken being the answer. *)

Section search.
Context `{MapRange} {W A X : Type}.
Implicit Type ctx : RequestContext W A.
Implicit Types h : Handler A X.
Implicit Types hs vs chain : list (Handler A X).

Definition settings : Type := option AccessLogger * option A * option nat.

Definition settings_of ctx : settings :=
  (Ctx_AccessLogger ctx, Ctx_Auth ctx, Ctx_RequestRateLimiter ctx).

(** The settings a handler gives: its access logger and its authentication replace
    those inherited, and an empty rate limiter removes the one inherited. *)
Definition give (s : settings) h : settings :=
  (match h_AccessLogger h with Some l => Some l | None => s.1.1 end,
   match h_Auth h with Some a => Some a | None => s.1.2 end,
   match h_RequestRateLimiter h with
   | Some (loc, cfg) => if IsEmpty cfg then None else Some loc
   | None => s.2
   end).

Definition taken h : bool := negb (NextHandler h).

(** A handler, then one of its handlers, and so on. *)
Fixpoint chain_in hs chain : Prop :=
  match chain with
  | [] => False
  | h :: c => h ∈ hs /\ (c = [] \/ chain_in (h_Handlers h) c)
  end.

Definition reaches hs h : Prop := exists chain, chain_in hs chain /\ last chain = Some h.

(** What matching never changes. *)
Definition same_request ctx ctx' : Prop :=
  Ctx_Request ctx' = Ctx_Request ctx /\ Ctx_ResponseWriter ctx' = Ctx_ResponseWriter ctx
  /\ Ctx_Host ctx' = Ctx_Host ctx /\ ClientAddress ctx' = ClientAddress ctx
  /\ ConnectionOptions ctx' = ConnectionOptions ctx /\ UpgradeProtocols ctx' = UpgradeProtocols ctx
  /\ Username ctx' = Username ctx /\ StartTime ctx' = StartTime ctx.

#[export] Instance same_request_preorder : PreOrder same_request.
Proof. split; [by intros c; repeat split|]. unfold same_request. intros a b c. intuition congruence. Qed.

(** The context a match leaves: the subpath is the one [h]'s constraints gave. *)
Definition matched_by h ctx ctx' : Prop :=
  Vars ctx' !! "http.match.subpath"%go = Some (Subpath ctx')
  /\ exists ctx0, same_request ctx ctx0 /\ match_constraints h ctx0 = Some (Subpath ctx').

Definition searched hs ctx vs (res : option (Handler A X)) ctx' : Prop :=
  (forall v, v ∈ vs -> reaches hs v)
  /\ settings_of ctx' = foldl give (settings_of ctx) vs
  /\ res = last (List.filter taken vs)
  /\ same_request ctx ctx'
  /\ match res with
     | None => Subpath ctx' = Subpath ctx /\ Vars ctx' = Vars ctx
     | Some h => matched_by h ctx ctx'
                 /\ exists chain, chain_in hs chain /\ last chain = Some h
                    /\ chain `sublist_of` List.filter taken vs
     end.

Lemma chain_in_mono hs hs' chain : hs ⊆ hs' -> chain_in hs chain -> chain_in hs' chain.
Proof. destruct chain; [done|]. intros Hs [H' ?]. split; [by apply Hs|done]. Qed.

Lemma reaches_mono hs hs' h : hs ⊆ hs' -> reaches hs h -> reaches hs' h.
Proof. intros Hs (c & Hc & Hl). exists c. split; [by eapply chain_in_mono|done]. Qed.

Lemma reaches_child p h : reaches (h_Handlers p) h -> reaches [p] h.
Proof.
  intros (c & Hc & Hl). exists (p :: c). split.
  - split; [set_solver|by right].
  - rewrite last_cons, Hl. done.
Qed.

Lemma searched_mono hs hs' ctx vs res ctx' :
  hs ⊆ hs' -> searched hs ctx vs res ctx' -> searched hs' ctx vs res ctx'.
Proof.
  intros Hs (H1 & H2 & H3 & H4 & H5). split_and!; try done.
  - intros v Hv. by eapply reaches_mono, H1.
  - destruct res as [h|]; [|done]. destruct H5 as [? (c & ? & ? & ?)]. split; [done|].
    exists c. split_and!; try done. by eapply chain_in_mono.
Qed.

Lemma searched_nil hs ctx : searched hs ctx [] None ctx.
Proof. split_and!; try done. by intros v ?%not_elem_of_nil. Qed.

(** A first part of the search that takes nothing, then the rest of it. *)
Lemma searched_app hs ctx vs1 ctx1 vs2 res ctx2 :
  searched hs ctx vs1 None ctx1 -> searched hs ctx1 vs2 res ctx2 ->
  searched hs ctx (vs1 ++ vs2) res ctx2.
Proof.
  intros (H1 & H2 & H3 & H4 & H5 & H6) (K1 & K2 & K3 & K4 & K5).
  assert (List.filter taken vs1 = []) as Hf.
  { destruct (List.filter taken vs1) as [|x l] eqn:E; [done|]. rewrite last_cons in H3.
    by destruct (last l). }
  assert (List.filter taken (vs1 ++ vs2) = List.filter taken vs2) as Hfa
    by (by rewrite List.filter_app, Hf).
  split_and!.
  - intros v [?|?]%elem_of_app; auto.
  - by rewrite foldl_app, <- H2.
  - by rewrite Hfa.
  - by etransitivity.
  - destruct res as [h|]; [|by rewrite <- H5, <- H6].
    rewrite Hfa. destruct K5 as [[Kv (c0 & Kc & Km)] Kch]. split; [|done]. split; [done|].
    exists c0. split; [by etransitivity|done].
Qed.

(** A handler that is taken, then the search among its handlers. *)
Lemma searched_child h ctx ctx1 vs res ctx2 :
  matchRequest h ctx = (true, ctx1) ->
  searched (h_Handlers h) ctx1 vs res ctx2 ->
  searched [h] ctx (h :: vs) (Some (default h res)) ctx2.
Proof.
  unfold matchRequest. intros Hm (K1 & K2 & K3 & K4 & K5).
  destruct (match_constraints h ctx) as [sub|] eqn:Em; [|done].
  destruct (NextHandler h) eqn:Eh; [done|]. injection Hm as <-.
  assert (taken h = true) as Ht by (by unfold taken; rewrite Eh).
  assert (reaches [h] h) as Hrh by (exists [h]; split; [split; [set_solver|by left]|done]).
  split; [|split; [|split; [|split]]].
  - intros v [->|Hv]%elem_of_cons; [done|]. by apply reaches_child, K1.
  - cbn [foldl]. by rewrite K2.
  - cbn [List.filter]. rewrite Ht, last_cons. destruct res as [r|]; simpl.
    + by rewrite <- K3.
    + by rewrite <- K3.
  - etransitivity; [|done]. by repeat split.
  - destruct res as [r|]; cbn [from_option id].
    + destruct K5 as [[Kv (c0 & Kc & Km)] (c & Hc & Hl & Hs)]. split.
      * split; [done|]. exists c0. split; [|done]. etransitivity; [|done]. by repeat split.
      * exists (h :: c). split_and!.
        -- split; [set_solver|by right].
        -- by rewrite last_cons, Hl.
        -- cbn [List.filter]. rewrite Ht. by apply sublist_skip.
    + destruct K5 as [K5 K6]. split.
      * split; [by rewrite K6, K5; cbn; rewrite lookup_insert_eq|].
        exists ctx. split; [done|]. by rewrite K5.
      * exists [h]. split_and!; [split; [set_solver|by left]|done|].
        cbn [List.filter]. rewrite Ht. apply sublist_skip, sublist_nil_l.
Qed.

(** A handler that is not taken: its constraints fail, or it has [next_handler]. *)
Lemma searched_skip h ctx ctx1 :
  matchRequest h ctx = (false, ctx1) -> exists vs, searched [h] ctx vs None ctx1.
Proof.
  unfold matchRequest. intros Hm.
  destruct (match_constraints h ctx) as [sub|] eqn:Em.
  - destruct (NextHandler h) eqn:Eh; [|done]. injection Hm as <-. exists [h].
    assert (taken h = false) as Ht by (by unfold taken; rewrite Eh).
    split_and!; try done.
    + intros v ->%list_elem_of_singleton. exists [h]. split; [split; [set_solver|by left]|done].
    + cbn [List.filter]. by rewrite Ht.
  - injection Hm as <-. exists []. apply searched_nil.
Qed.

Lemma find_in_searched hs last ctx r ctx' :
  Forall (fun h => forall ctx r ctx', visit h ctx = (r, ctx') -> exists vs, searched [h] ctx vs r ctx') hs ->
  find_in visit hs last ctx = (r, ctx') ->
  exists vs res, searched hs ctx vs res ctx' /\ r = match res with Some h => Some h | None => last end.
Proof.
  intros Hall. revert ctx. induction Hall as [|h hs Hh _ IH]; intros ctx; cbn [find_in].
  - intros [= <- <-]. exists [], None. split; [apply searched_nil|done].
  - destruct (visit h ctx) as [[x|] ctx1] eqn:E; apply Hh in E as [vs1 Hs1].
    + intros [= <- <-]. exists vs1, (Some x). split; [|done]. eapply searched_mono; [|done]. set_solver.
    + intros Hf. destruct (IH _ Hf) as (vs2 & res & Hs2 & Hr). exists (vs1 ++ vs2), res. split; [|done].
      eapply searched_app; (eapply searched_mono; [|done]); set_solver.
Qed.

Lemma visit_searched h ctx r ctx' :
  visit h ctx = (r, ctx') -> exists vs, searched [h] ctx vs r ctx'.
Proof.
  revert ctx r ctx'. induction h as [h IH] using handler_ind. intros ctx r ctx' Hv.
  destruct (matchRequest h ctx) as [m ctx1] eqn:Em.
  assert (visit h ctx = if m then
            let '(h2, ctx) := find_in visit (h_Handlers h) (Some h) ctx1 in
            match h2 with Some h2 => (Some h2, ctx) | None => (Some h, ctx) end
          else (None, ctx1)) as Heq.
  { destruct h; cbn [visit]. by rewrite Em. }
  rewrite Heq in Hv. destruct m.
  - destruct (find_in visit (h_Handlers h) (Some h) ctx1) as [h2 ctx2] eqn:Ef.
    destruct (find_in_searched _ _ _ _ _ IH Ef) as (vs & res & Hs & Hr).
    exists (h :: vs).
    assert ((r, ctx') = (Some (default h res), ctx2)) as [= -> ->] by (by rewrite <- Hv, Hr; destruct res).
    by eapply searched_child.
  - injection Hv as <- <-. by apply searched_skip in Em.
Qed.

Lemma findHandler_searched hs ctx r ctx' :
  findHandler hs ctx = (r, ctx') -> exists vs, searched hs ctx vs r ctx'.
Proof.
  intros Hf. destruct (find_in_searched hs None ctx r ctx') as (vs & res & Hs & ->); [|done|].
  - apply Forall_forall. intros h _. apply visit_searched.
  - exists vs. by destruct res.
Qed.

Lemma give_auth s h : s.1.2 <> None \/ h_Auth h <> None -> (give s h).1.2 <> None.
Proof. unfold give; simpl. destruct (h_Auth h); naive_solver. Qed.

Lemma gives_auth vs s :
  s.1.2 <> None \/ (exists v, v ∈ vs /\ h_Auth v <> None) -> (foldl give s vs).1.2 <> None.
Proof.
  revert s. induction vs as [|v vs IH]; intros s Hs; cbn [foldl].
  - destruct Hs as [?|(v & Hv & _)]; [done|]. by apply not_elem_of_nil in Hv.
  - apply IH. destruct Hs as [?|(w & [->|Hw]%elem_of_cons & Ha)]; [left; apply give_auth..|right]; eauto.
Qed.

(** Authentication is never lost on the way to a handler: when the search
    answers [h], it went through handlers down to [h] such that, if any of them
    (or the protocol's context before) has an authentication, the request has one
    to pass before the action of [h]. *)
Theorem findHandler_keeps_authentication hs ctx h :
  (findHandler hs ctx).1 = Some h ->
  exists chain, chain_in hs chain /\ last chain = Some h
  /\ (forall p, p ∈ chain -> h_Auth p <> None -> Ctx_Auth (findHandler hs ctx).2 <> None)
  /\ (Ctx_Auth ctx <> None -> Ctx_Auth (findHandler hs ctx).2 <> None).
Proof.
  destruct (findHandler hs ctx) as [r ctx'] eqn:E. cbn [fst snd]. intros ->.
  destruct (findHandler_searched _ _ _ _ E) as (vs & _ & Hset & _ & _ & _ & chain & Hc & Hl & Hs).
  assert (Ctx_Auth ctx' = (foldl give (settings_of ctx) vs).1.2) as Ha by (by rewrite <- Hset).
  exists chain. split_and!; try done.
  - intros p Hp Hpa. rewrite Ha. apply gives_auth. right. exists p. split; [|done].
    apply (sublist_subseteq _ _ Hs) in Hp. apply list_elem_of_In, List.filter_In in Hp as [Hp _].
    by apply list_elem_of_In.
  - intros Hca. rewrite Ha. apply gives_auth. by left.
Qed.
End search.

(** ** What the search answers

    A description of the answer that does not follow the recursion of the code.  A handler
    is accepted at a level of the tree when its constraints hold, with the subpath the level
    above left, and it has no [next_handler].  At each level the first accepted handler is
    taken; the answer is the last one taken.  Those whose constraints hold before it give
    their settings too. *)

Section answer.
Context `{MapRange} {W A X : Type}.
Implicit Type ctx : RequestContext W A.
Implicit Types h : Handler A X.
Implicit Types hs vs chain : list (Handler A X).

(** The subpath the constraints of [h] leave, at a level with the subpath [sub]. *)
Definition left_subpath ctx (sub : gostring) h : option gostring := match_constraints h (set_subpath sub ctx).

Definition accepted ctx sub h : Prop := is_Some (left_subpath ctx sub h) /\ NextHandler h = false.

(** The handlers of a level whose constraints hold. *)
Definition giving ctx sub hs : list (Handler A X) :=
  List.filter (fun h => match left_subpath ctx sub h with Some _ => true | None => false end) hs.

(** The handlers taken, level after level; the subpath at the end; the handlers that give
    their settings, in order. *)
Inductive descent ctx : list (Handler A X) -> gostring -> list (Handler A X) -> gostring -> list (Handler A X) -> Prop :=
  | descent_stop hs sub :
      (forall h, h ∈ hs -> ~ accepted ctx sub h) -> descent ctx hs sub [] sub (giving ctx sub hs)
  | descent_take before h after sub sub' chain sub'' vs :
      (forall x, x ∈ before -> ~ accepted ctx sub x) ->
      left_subpath ctx sub h = Some sub' -> NextHandler h = false ->
      descent ctx (h_Handlers h) sub' chain sub'' vs ->
      descent ctx (before ++ h :: after) sub (h :: chain) sub'' (giving ctx sub before ++ h :: vs).

Lemma first_accepted ctx sub before1 h1 after1 before2 h2 after2 :
  before1 ++ h1 :: after1 = before2 ++ h2 :: after2 ->
  (forall x, x ∈ before1 -> ~ accepted ctx sub x) -> accepted ctx sub h1 ->
  (forall x, x ∈ before2 -> ~ accepted ctx sub x) -> accepted ctx sub h2 ->
  before1 = before2 /\ h1 = h2.
Proof.
  revert before2. induction before1 as [|b1 before1 IH]; intros [|b2 before2]; cbn [app].
  - by intros [= -> _].
  - intros [= <- _] _ H1 H2 _. exfalso. apply (H2 h1); [left|done].
  - intros [= -> _] H1 _ _ H2. exfalso. apply (H1 h2); [left|done].
  - intros [= -> Heq] H1 A1 H2 A2. destruct (IH before2 Heq) as [-> ->]; try done;
      intros x Hx; [apply H1|apply H2]; by right.
Qed.

(** The two forms of a descent, with the level as a variable. *)
Lemma descent_inv ctx hs sub c s vs :
  descent ctx hs sub c s vs ->
  ((forall h, h ∈ hs -> ~ accepted ctx sub h) /\ c = [] /\ s = sub /\ vs = giving ctx sub hs)
  \/ (exists before h after sub' c' vs', hs = before ++ h :: after
      /\ (forall x, x ∈ before -> ~ accepted ctx sub x) /\ accepted ctx sub h
      /\ left_subpath ctx sub h = Some sub' /\ descent ctx (h_Handlers h) sub' c' s vs'
      /\ c = h :: c' /\ vs = giving ctx sub before ++ h :: vs').
Proof.
  intros [hs' sub' Hn|before h after ? sub' c' s' vs' Hn Hh Hk Hd]; [by left|right].
  by exists before, h, after, sub', c', vs'.
Qed.

(** There is only one descent: the constraints and the order of the handlers fix it. *)
Lemma descent_unique ctx hs sub c s vs c' s' vs' :
  descent ctx hs sub c s vs -> descent ctx hs sub c' s' vs' -> c' = c /\ s' = s /\ vs' = vs.
Proof.
  intros Hd. revert c' s' vs'. induction Hd as [hs sub Hn|before h after sub sub' c s vs Hn Hh Hk Hd IH];
    intros c' s' vs' [(Hn' & -> & -> & ->)|(b2 & h2 & a2 & sub2 & c2 & vs2 & Heq & Hn' & Ha & Hh2 & Hd2 & -> & ->)]%descent_inv.
  - done.
  - exfalso. apply (Hn h2); [set_solver|done].
  - exfalso. apply (Hn' h); [set_solver|]. split; [by eexists|done].
  - destruct (first_accepted ctx sub before h after b2 h2 a2 Heq) as [-> ->]; try done.
    rewrite Hh in Hh2. injection Hh2 as <-. by destruct (IH _ _ _ Hd2) as (-> & -> & ->).
Qed.

(** A handler that is not accepted, before a level. *)
Lemma descent_cons ctx h hs sub c s vs :
  ~ accepted ctx sub h -> descent ctx hs sub c s vs ->
  descent ctx (h :: hs) sub c s (giving ctx sub [h] ++ vs).
Proof.
  intros Hh [(Hn & -> & -> & ->)|(b & x & a & sub' & c' & vs' & -> & Hn & [_ Hk] & Hx & Hd & -> & ->)]%descent_inv.
  - unfold giving. rewrite <- List.filter_app. apply (descent_stop ctx (h :: hs)).
    intros x [->|Hx]%elem_of_cons; [done|by apply Hn].
  - rewrite app_assoc. unfold giving. rewrite <- List.filter_app.
    apply (descent_take ctx (h :: b) x a sub sub'); try done.
    intros y [->|Hy]%elem_of_cons; [done|by apply Hn].
Qed.

(** The context the search leaves. *)
Record left_by ctx chain sub vs ctx' : Prop := {
  lb_settings : settings_of ctx' = foldl give (settings_of ctx) vs;
  lb_request : same_request ctx ctx';
  lb_subpath : Subpath ctx' = sub;
  lb_vars : Vars ctx' = match chain with [] => Vars ctx | _ => <["http.match.subpath"%go := sub]> (Vars ctx) end
}.

Lemma left_subpath_same ctx ctx' sub h : same_request ctx ctx' -> left_subpath ctx' sub h = left_subpath ctx sub h.
Proof. intros (H1 & _ & H2 & _). unfold left_subpath, match_constraints. cbn. by rewrite H1, H2. Qed.

Lemma descent_same ctx ctx' hs sub c s vs :
  same_request ctx ctx' -> descent ctx' hs sub c s vs -> descent ctx hs sub c s vs.
Proof.
  intros Hs Hd. induction Hd as [hs sub Hn|before h after sub sub' c s vs Hn Hh Hk Hd IH].
  - replace (giving ctx' sub hs) with (giving ctx sub hs).
    2: { unfold giving. apply List.filter_ext. intros h. by rewrite (left_subpath_same _ _ _ _ Hs). }
    constructor. intros h Hh Ha. apply (Hn h Hh). unfold accepted in *. by rewrite (left_subpath_same _ _ _ _ Hs).
  - replace (giving ctx' sub before) with (giving ctx sub before).
    2: { unfold giving. apply List.filter_ext. intros x. by rewrite (left_subpath_same _ _ _ _ Hs). }
    rewrite (left_subpath_same _ _ _ _ Hs) in Hh. econstructor; try done.
    intros x Hx Ha. apply (Hn x Hx). unfold accepted in *. by rewrite (left_subpath_same _ _ _ _ Hs).
Qed.

(** *** The code descends *)

(** What a search among [hs] from [ctx] does: the descent, and what it leaves. *)
Definition descends hs ctx (r : option (Handler A X)) ctx' : Prop :=
  exists chain sub vs, descent ctx hs (Subpath ctx) chain sub vs
    /\ r = last chain /\ left_by ctx chain sub vs ctx'.

(** A handler that is not accepted is passed over, then the rest of the level. *)
Lemma descends_skip h hs ctx ctx1 r ctx' :
  matchRequest h ctx = (false, ctx1) -> descends hs ctx1 r ctx' ->
  descends (h :: hs) ctx r ctx'.
Proof.
  unfold matchRequest. intros Hm (c & sub & vs & Hd & Hr & [L1 L2 L3 L4]).
  assert (left_subpath ctx (Subpath ctx) h = match_constraints h ctx) as Hh by (by destruct ctx).
  assert (~ accepted ctx (Subpath ctx) h /\ same_request ctx ctx1 /\ Subpath ctx1 = Subpath ctx
    /\ Vars ctx1 = Vars ctx /\ settings_of ctx1 = foldl give (settings_of ctx) (giving ctx (Subpath ctx) [h]))
    as (Ha & Hs & Hsub & Hv & Hset).
  { unfold accepted, giving. cbn [List.filter]. rewrite Hh. destruct (match_constraints h ctx) as [p|].
    - destruct (NextHandler h); [|done]. injection Hm as <-. split_and!; try done. by intros [_ ?].
    - injection Hm as <-. split_and!; try done. by intros [[? ?] _]. }
  exists c, sub, (giving ctx (Subpath ctx) [h] ++ vs). split_and!; [|done|].
  - apply descent_cons; [done|]. apply (descent_same _ _ _ _ _ _ _ Hs). by rewrite <- Hsub.
  - split; try done.
    + by rewrite foldl_app, <- Hset.
    + by etransitivity; [|exact L2].
    + by rewrite L4, Hv.
Qed.

(** A handler that is accepted ends its level: the search goes on below it. *)
Lemma descends_take h hs ctx ctx1 r ctx' :
  matchRequest h ctx = (true, ctx1) -> descends (h_Handlers h) ctx1 r ctx' ->
  descends (h :: hs) ctx (Some (default h r)) ctx'.
Proof.
  unfold matchRequest. intros Hm (c & sub & vs & Hd & Hr & [L1 L2 L3 L4]).
  assert (left_subpath ctx (Subpath ctx) h = match_constraints h ctx) as Hh by (by destruct ctx).
  destruct (match_constraints h ctx) as [p|]; [|done].
  destruct (NextHandler h) eqn:Hk; [done|]. injection Hm as <-.
  exists (h :: c), sub, (h :: vs). split_and!.
  - apply (descent_take ctx [] h hs (Subpath ctx) p); [by intros x ?%not_elem_of_nil|done|done|].
    eapply descent_same; [|exact Hd]. by repeat split.
  - by rewrite Hr, last_cons; destruct (last c).
  - split; [done..|].
    rewrite L4. destruct c as [|x c]; [|by apply insert_insert_eq].
    cbn. f_equal. by destruct (descent_inv _ _ _ _ _ _ Hd) as [(_ & _ & -> & _)|(? & ? & ? & ? & ? & ? & ? & ? & ? & ? & ? & ? & ?)].
Qed.

Lemma descends_nil ctx : descends [] ctx None ctx.
Proof.
  exists [], (Subpath ctx), []. split_and!; [|done|by split].
  apply (descent_stop ctx []). by intros h ?%not_elem_of_nil.
Qed.

(** One turn of the loop of the code, and the turns that follow it. *)
Lemma visit_unfold h ctx :
  visit h ctx = let '(m, ctx1) := matchRequest h ctx in
    if m then let '(h2, ctx2) := find_in visit (h_Handlers h) (Some h) ctx1 in (Some (default h h2), ctx2)
    else (None, ctx1).
Proof.
  destruct h; cbn [visit]. destruct (matchRequest _ ctx) as [[] ctx1]; [|done].
  cbn [h_Handlers]. by destruct (find_in visit _ _ ctx1) as [[]].
Qed.

Definition visit_descends h : Prop := forall hs ctx last r ctx',
  (forall ctx1 r ctx', find_in visit hs last ctx1 = (r, ctx') -> exists r0, descends hs ctx1 r0 ctx' /\ r = union r0 last) ->
  find_in visit (h :: hs) last ctx = (r, ctx') ->
  exists r0, descends (h :: hs) ctx r0 ctx' /\ r = union r0 last.

Lemma find_in_descends hs :
  Forall visit_descends hs -> forall ctx last r ctx',
  find_in visit hs last ctx = (r, ctx') -> exists r0, descends hs ctx r0 ctx' /\ r = union r0 last.
Proof.
  induction 1 as [|h hs Hh _ IH]; intros ctx last r ctx'.
  - cbn [find_in]. intros [= <- <-]. exists None. split; [apply descends_nil|by destruct last].
  - apply Hh. intros ctx1 r1 ctx1'. apply IH.
Qed.

Lemma all_visits_descend h : visit_descends h.
Proof.
  induction h as [h IH] using handler_ind. intros hs ctx last r ctx' Hrest. cbn [find_in].
  rewrite visit_unfold. destruct (matchRequest h ctx) as [[] ctx1] eqn:Em.
  - destruct (find_in visit (h_Handlers h) (Some h) ctx1) as [h2 ctx2] eqn:Ef. intros [= <- <-].
    destruct (find_in_descends _ IH _ _ _ _ Ef) as (r0 & Hd & ->). exists (Some (default h r0)).
    split; [by eapply descends_take|by destruct r0, last].
  - intros Hf. destruct (Hrest _ _ _ Hf) as (r0 & Hd & ->). exists r0. split; [by eapply descends_skip|done].
Qed.

Lemma findHandler_descends hs ctx r ctx' : findHandler hs ctx = (r, ctx') -> descends hs ctx r ctx'.
Proof.
  intros Hf. destruct (find_in_descends hs) with ctx (@None (Handler A X)) r ctx' as (r0 & Hd & ->); [|done|].
  - apply Forall_forall. intros h _. apply all_visits_descend.
  - by destruct r0.
Qed.

(** [C4] [findHandler], for any tree of handlers and any request, computes the [descent]
    described above, which the constraints, the request and the order of the handlers
    fix completely.  At the top and then below each handler taken, the first handler
    whose constraints hold and that has no [next_handler] is taken, whatever the ones
    after it, with the subpath the level above left; the search stops at a level where
    there is none.  The answer is the last handler taken, and there is none exactly when
    no handler at the top is accepted.  The settings of the context are those it had
    with, in order, those of the handlers whose constraints hold before the one taken,
    of the one taken, and so on down the levels; the subpath is the one the constraints
    of the answer left, and the variable that shows it agrees; nothing else changes. *)
Theorem findHandler_spec hs ctx :
  exists chain sub vs,
    descent ctx hs (Subpath ctx) chain sub vs
    /\ (forall chain' sub' vs', descent ctx hs (Subpath ctx) chain' sub' vs' ->
         chain' = chain /\ sub' = sub /\ vs' = vs)
    /\ (findHandler hs ctx).1 = last chain
    /\ left_by ctx chain sub vs (findHandler hs ctx).2
    /\ ((findHandler hs ctx).1 = None <-> forall h, h ∈ hs -> ~ accepted ctx (Subpath ctx) h).
Proof.
  destruct (findHandler hs ctx) as [r ctx'] eqn:E.
  destruct (findHandler_descends _ _ _ _ E) as (chain & sub & vs & Hd & -> & Hl).
  exists chain, sub, vs. split_and!; try done.
  - intros c' s' vs' Hd'. by destruct (descent_unique _ _ _ _ _ _ _ _ _ Hd Hd') as (-> & -> & ->).
  - cbn [fst]. rewrite last_None.
    destruct (descent_inv _ _ _ _ _ _ Hd) as [(Hn & -> & _)|(b & h & a & ? & c & ? & -> & _ & Ha & _ & _ & -> & _)].
    + done.
    + split; [done|]. intros Hn. exfalso. apply (Hn h); [set_solver|done].
Qed.
End answer.

(** ** What the constraints mean *)

(** The constraints as documented: each kind that is configured holds, a kind with
    several values holding when one of them does. *)
Record constraints_hold (spec : MatchCfg) (req : Request) (host subpath : gostring) : Prop := {
  hold_tls : forall b, m_TLS spec = Some b -> Req_TLS req = b;
  hold_version : HTTPVersions spec = [] \/
    exists v, v ∈ HTTPVersions spec /\ HTTPVersion_Match v (ProtoMajor req) (ProtoMinor req) = true;
  hold_method : Methods spec = [] \/ Method req ∈ Methods spec;
  hold_host : (Hosts spec = [] /\ HostRegexps spec = [])
    \/ (exists p, p ∈ Hosts spec /\ DomainNamePattern_Match p host = true)
    \/ (exists re : Regexp, In re (HostRegexps spec) /\ re host = true);
  hold_header : (HeaderValues spec = ∅ /\ HeaderRegexps spec = ∅)
    \/ (exists name values v, HeaderValues spec !! name = Some values /\ v ∈ values
          /\ v ∈ Header_Values (Req_Header req) name)
    \/ (exists name res (re : Regexp) v, HeaderRegexps spec !! name = Some res /\ In re res
          /\ v ∈ Header_Values (Req_Header req) name /\ re v = true);
  hold_path : (Paths spec = [] /\ PathRegexps spec = [])
    \/ (exists p, p ∈ Paths spec
          /\ (PathPattern_Match p (if Relative p then subpath else u_Path (Req_URL req))).1 = true)
    \/ (exists re : Regexp, In re (PathRegexps spec) /\ re (u_Path (Req_URL req)) = true)
}.

Lemma len_pos_false {B} (l : list B) : (0 <? len l) = false <-> l = [].
Proof.
  destruct l as [|x l]; [done|]. rewrite len_cons, Z.ltb_ge. pose proof (len_nonneg _ l).
  split; [lia|done].
Qed.

Lemma size_pos_false {V} (m : gmap gostring V) : (0 <? Z.of_nat (size m)) = false <-> m = ∅.
Proof. rewrite Z.ltb_ge, <- map_size_empty_iff. lia. Qed.

Lemma match_tls_iff spec tls : match_tls spec tls = true <-> forall b, m_TLS spec = Some b -> tls = b.
Proof.
  unfold match_tls. destruct (m_TLS spec) as [[]|], tls; split; naive_solver.
Qed.

Lemma match_version_iff spec req :
  match_version spec req = true <-> HTTPVersions spec = [] \/
    exists v, v ∈ HTTPVersions spec /\ HTTPVersion_Match v (ProtoMajor req) (ProtoMinor req) = true.
Proof.
  unfold match_version. setoid_rewrite list_elem_of_In. rewrite <- existsb_exists.
  destruct (0 <? len (HTTPVersions spec)) eqn:E.
  - split; [by right|]. intros [H|H]; [by rewrite H in E|done].
  - apply len_pos_false in E. rewrite E. split; [by left|done].
Qed.

Lemma match_method_iff spec req :
  match_method spec req = true <-> Methods spec = [] \/ Method req ∈ Methods spec.
Proof.
  unfold match_method. destruct (0 <? len (Methods spec)) eqn:E.
  - rewrite bool_decide_eq_true. split; [by right|]. intros [H|H]; [by rewrite H in E|done].
  - apply len_pos_false in E. split; [by left|done].
Qed.

Lemma match_host_iff spec host :
  match_host spec host = true <->
  (Hosts spec = [] /\ HostRegexps spec = [])
  \/ (exists p, p ∈ Hosts spec /\ DomainNamePattern_Match p host = true)
  \/ (exists re : Regexp, In re (HostRegexps spec) /\ re host = true).
Proof.
  unfold match_host. setoid_rewrite list_elem_of_In. rewrite <- !existsb_exists.
  destruct ((0 <? len (Hosts spec)) || (0 <? len (HostRegexps spec))) eqn:E.
  - rewrite orb_true_iff. split; [by right|]. intros [[H1 H2]|H]; [by rewrite H1, H2 in E|done].
  - apply orb_false_iff in E as [E1%len_pos_false E2%len_pos_false]. rewrite E1, E2. split; [by left|done].
Qed.

Lemma header_values_loop_iff header entries :
  Forall (fun e => e.2 <> []) entries ->
  header_values_loop header entries false = true <->
  exists name values v, (name, values) ∈ entries /\ v ∈ values /\ v ∈ Header_Values header name.
Proof.
  induction 1 as [|[name values] es Hv _ IH]; cbn [header_values_loop].
  - split; [done|]. intros (n & vs & v & H & _). by apply not_elem_of_nil in H.
  - destruct (len values =? 0) eqn:E0.
    { exfalso. apply Hv. simpl. destruct values as [|x l]; [done|].
      bool_facts. rewrite len_cons in E0. pose proof (len_nonneg _ l). lia. }
    destruct (existsb _ (Header_Values header name)) eqn:E.
    + split; [intros _|done]. apply existsb_exists in E as (v & Hin & Hd). bool_facts.
      exists name, values, v. split_and!; [left|done|by apply list_elem_of_In].
    + rewrite IH. split; intros (n & vs & v & Hn & H1 & H2); exists n, vs, v; split_and!; try done.
      * by right.
      * apply elem_of_cons in Hn as [[= -> ->]|]; [|done]. exfalso.
        assert (existsb (fun v => bool_decide (v ∈ values)) (Header_Values header name) = true) as Ht; [|congruence].
        apply existsb_exists. exists v. split; [by apply list_elem_of_In|by apply bool_decide_eq_true].
Qed.

Lemma range_entry `{MapRange} {V} (m : gmap gostring V) k v : In (k, v) (range_map m) <-> m !! k = Some v.
Proof. rewrite <- elem_of_map_to_list, <- (range_map_entries V m). symmetry. apply list_elem_of_In. Qed.

Lemma header_regexps_loop_iff header entries :
  header_regexps_loop header entries = true <->
  exists name res (re : Regexp) v, In (name, res) entries /\ In re res
    /\ v ∈ Header_Values header name /\ re v = true.
Proof.
  unfold header_regexps_loop. rewrite existsb_exists. split.
  - intros ([name res] & Hin & Hv). apply existsb_exists in Hv as (v & Hv & Hr).
    apply existsb_exists in Hr as (re & Hre & Hm). exists name, res, re, v.
    split_and!; try done. by apply list_elem_of_In.
  - intros (name & res & re & v & Hin & Hre & Hv & Hm). exists (name, res). split; [done|].
    apply existsb_exists. exists v. split; [by apply list_elem_of_In|].
    apply existsb_exists. by exists re.
Qed.

(** No entry asks only for the presence of the field. *)
Definition no_presence_test (spec : MatchCfg) : Prop :=
  map_Forall (fun _ values => values <> []) (HeaderValues spec).

Lemma match_header_iff `{MapRange} spec header :
  no_presence_test spec ->
  match_header spec header = true <->
  (HeaderValues spec = ∅ /\ HeaderRegexps spec = ∅)
  \/ (exists name values v, HeaderValues spec !! name = Some values /\ v ∈ values
        /\ v ∈ Header_Values header name)
  \/ (exists name res (re : Regexp) v, HeaderRegexps spec !! name = Some res /\ In re res
        /\ v ∈ Header_Values header name /\ re v = true).
Proof.
  intros Hp. unfold match_header. setoid_rewrite <- range_entry.
  rewrite <- header_regexps_loop_iff.
  assert (header_values_loop header (range_map (HeaderValues spec)) false = true <->
          exists name values v, In (name, values) (range_map (HeaderValues spec)) /\ v ∈ values
            /\ v ∈ Header_Values header name) as <-.
  { setoid_rewrite <- list_elem_of_In. apply header_values_loop_iff. apply Forall_forall.
    intros [k vs] Hin. apply list_elem_of_In, range_entry in Hin. by eapply Hp. }
  destruct (_ || _) eqn:E.
  - rewrite orb_true_iff. split; [by right|]. intros [[H1 H2]|?]; [by rewrite H1, H2 in E|done].
  - apply orb_false_iff in E as [E1%size_pos_false E2%size_pos_false]. split; [by left|done].
Qed.

Lemma match_patterns_iff ps path subpath :
  match_patterns ps path subpath <> None <->
  exists p, p ∈ ps /\ (PathPattern_Match p (if Relative p then subpath else path)).1 = true.
Proof.
  induction ps as [|p ps IH]; cbn [match_patterns].
  - split; [done|]. intros (p & H & _). by apply not_elem_of_nil in H.
  - destruct (PathPattern_Match p _) as [[] sub] eqn:E.
    + split; [intros _|done]. exists p. split; [left|by rewrite E].
    + rewrite IH. split; intros (q & Hq & Hm); exists q; (split; [|done]).
      * by right.
      * apply elem_of_cons in Hq as [->|]; [by rewrite E in Hm|done].
Qed.

Lemma match_path_iff spec path subpath :
  match_path spec path subpath <> None <->
  (Paths spec = [] /\ PathRegexps spec = [])
  \/ (exists p, p ∈ Paths spec
        /\ (PathPattern_Match p (if Relative p then subpath else path)).1 = true)
  \/ (exists re : Regexp, In re (PathRegexps spec) /\ re path = true).
Proof.
  unfold match_path, HasPaths. rewrite <- match_patterns_iff, <- existsb_exists.
  destruct ((0 <? len (Paths spec)) || (0 <? len (PathRegexps spec))) eqn:E.
  - destruct (match_patterns _ _ _) as [sub|] eqn:Em.
    + split; [|done]. intros _. right. by left.
    + destruct (existsb _ _) eqn:Ee.
      * split; [|done]. intros _. right. by right.
      * split; [done|]. intros [[H1 H2]|[?|?]]; [by rewrite H1, H2 in E|done|done].
  - apply orb_false_iff in E as [E1%len_pos_false E2%len_pos_false]. rewrite E1, E2.
    split; [by left|done].
Qed.

(** [C31] [Handler.matchRequest] accepts a request exactly when every kind of
    constraint that is configured holds (one of its values being enough) and the
    handler has no [next_handler], provided no header constraint only asks for the
    presence of a field; the order of the maps does not matter then.  A handler that
    is not accepted leaves the context as it was, but for the settings a
    [next_handler] gives. *)
Theorem matchRequest_spec `{MapRange} {W A X} (h : Handler A X) (ctx : RequestContext W A) :
  no_presence_test (h_Match h) ->
  ((matchRequest h ctx).1 = true <->
   constraints_hold (h_Match h) (Ctx_Request ctx) (Ctx_Host ctx) (Subpath ctx)
   /\ NextHandler h = false)
  /\ ((matchRequest h ctx).1 = false ->
      (matchRequest h ctx).2 = if NextHandler h && bool_decide (match_constraints h ctx <> None)
                               then inherit h ctx else ctx).
Proof.
  intros Hp. set (req := Ctx_Request ctx).
  assert (match_constraints h ctx <> None <->
          constraints_hold (h_Match h) req (Ctx_Host ctx) (Subpath ctx)) as Hc.
  { unfold match_constraints. fold req.
    pose proof (match_tls_iff (h_Match h) (Req_TLS req)) as H1.
    pose proof (match_version_iff (h_Match h) req) as H2.
    pose proof (match_method_iff (h_Match h) req) as H3.
    pose proof (match_host_iff (h_Match h) (Ctx_Host ctx)) as H4.
    pose proof (match_header_iff (h_Match h) (Req_Header req) Hp) as H5.
    pose proof (match_path_iff (h_Match h) (u_Path (Req_URL req)) (Subpath ctx)) as H6.
    destruct (match_tls _ _); cbn [negb]; [|split; [done|intros C; discriminate (proj2 H1 (hold_tls _ _ _ _ C))]].
    destruct (match_version _ _); cbn [negb]; [|split; [done|intros C; discriminate (proj2 H2 (hold_version _ _ _ _ C))]].
    destruct (match_method _ _); cbn [negb]; [|split; [done|intros C; discriminate (proj2 H3 (hold_method _ _ _ _ C))]].
    destruct (match_host _ _); cbn [negb]; [|split; [done|intros C; discriminate (proj2 H4 (hold_host _ _ _ _ C))]].
    destruct (match_header _ _); cbn [negb]; [|split; [done|intros C; discriminate (proj2 H5 (hold_header _ _ _ _ C))]].
    rewrite H6. split; [|by intros []].
    intros H7. split; [by apply H1|by apply H2|by apply H3|by apply H4|by apply H5|done]. }
  unfold matchRequest. destruct (match_constraints h ctx) as [sub|] eqn:E.
  - destruct (NextHandler h) eqn:En.
    + split; [split; [done|by intros [_ ?]]|]. intros _. by rewrite bool_decide_true.
    + split; [|done]. split; [intros _|done]. split; [by apply Hc|done].
  - split; [|by rewrite bool_decide_false, andb_false_r by (intros n; by apply n)].
    split; [done|]. intros [Hh _]. apply Hc in Hh. done.
Qed.

(** ** Examples *)

#[local] Instance map_order : MapRange := {
  range_map V m := map_to_list m;
  range_map_entries V m := Permutation_refl _
}.

#[local] Instance reverse_map_order : MapRange := {
  range_map V m := rev (map_to_list m);
  range_map_entries V m := symmetry (Permutation_rev _)
}.

Definition any_request : MatchCfg := mkMatch None [] [] [] [] ∅ ∅ [] [].

Definition path_match (p : PathPattern) : MatchCfg := mkMatch None [] [] [] [] ∅ ∅ [p] [].

Definition leaf (spec : MatchCfg) (x : nat) : Handler nat nat := mkHandler spec false None None None (Some x) [].

(** A handler that asks for authentication, with handlers for two paths. *)
Definition example_tree : list (Handler nat nat) :=
  [mkHandler (path_match (mkPath ["b"%go] false true)) false None None None (Some 0%nat) [];
   mkHandler any_request false None (Some 7%nat) None (Some 1%nat)
     [leaf (path_match (mkPath ["x"%go] false false)) 2; leaf (path_match (mkPath ["a"%go] false true)) 3]].

Definition example_match_context : RequestContext unit nat :=
  mkContext (example_request ∅) (NewResponseWriter tt) None None None None [] "a"%go [] [] [] 0 ∅.

Lemma findHandler_keeps_authentication_witness :
  exists chain, chain_in example_tree chain
  /\ last chain = Some (leaf (path_match (mkPath ["a"%go] false true)) 3).
Proof.
  destruct (findHandler_keeps_authentication (H := map_order) example_tree example_match_context
    (leaf (path_match (mkPath ["a"%go] false true)) 3) ltac:(vm_compute; reflexivity))
    as (chain & Hc & Hl & _). exact (ex_intro _ chain (conj Hc Hl)).
Defined.

Lemma matchRequest_spec_witness :
  constraints_hold (path_match (mkPath ["a"%go] false true)) (example_request ∅) []
    (Subpath example_match_context).
Proof.
  exact (proj1 (proj1 (proj1 (matchRequest_spec (H := map_order)
    (leaf (path_match (mkPath ["a"%go] false true)) 3) example_match_context
    (map_Forall_empty _))) ltac:(vm_compute; reflexivity))).
Defined.

(** With a test of presence the answer depends on the order in which the map is
    visited: the entry for [X-A], which is present, is forgotten when the one for
    [X-B], which is not, comes after it. *)
Example header_presence_order :
  let spec := mkMatch None [] [] [] [] (<["X-A"%go := []]> (<["X-B"%go := []]> ∅)) ∅ [] [] in
  let header : Header := Header_Set ∅ "X-A"%go "1"%go in
  match_header (H := map_order) spec header <> match_header (H := reverse_map_order) spec header.
Proof. by vm_compute. Qed.

(** A handler without path constraint resets the subpath, so that a relative
    pattern in one of its handlers has nothing to match. *)
Example relative_pattern_under_pathless_handler :
  let inner := leaf (path_match (mkPath ["a"%go] true false)) 2 in
  let outer := mkHandler any_request false None None None (Some 1%nat) [inner] in
  (findHandler (H := map_order) [outer] example_match_context).1 = Some outer
  /\ (findHandler (H := map_order) [inner] example_match_context).1 = Some inner.
Proof. by vm_compute. Qed.
