(* ===== verification/HttpServer.v ===== *)
(** * Serving a request (pkg/protocols/http/server.go, pkg/netutils/tls.go)

    What the server does with a request, from its reception to the access log: the
    identification of the client and of the host, the TLS policy, the search of the
    handler, the rate limit, the authentication, the action, and what is deferred. *)

From S2P Require Import Prelude GoStrings NetIP HttpHeader NetAddresses RateLimiter FormatString.
From S2P Require Import HttpPath HttpMedia HttpContext HttpAuth HttpHandler.

(** ** TLS versions *)

Definition VersionTLS10 : Z := 0x301.
Definition VersionTLS11 : Z := 0x302.
Definition VersionTLS12 : Z := 0x303.
Definition VersionTLS13 : Z := 0x304.

(** The versions of [TLSCfg]; 0 when they are not configured. *)
Record TLSCfg := mkTLSCfg { MinVersion : Z; MaxVersion : Z }.

Definition all_versions : list Z := [VersionTLS10; VersionTLS11; VersionTLS12; VersionTLS13].

(** [TLSCfg.SupportedTLSVersions]; nil and empty slices are both [[]]. *)
Definition SupportedTLSVersions (cfg : TLSCfg) : list Z :=
  let start : nat :=
    if MinVersion cfg =? VersionTLS11 then 1%nat
    else if MinVersion cfg =? VersionTLS12 then 2%nat
    else if MinVersion cfg =? VersionTLS13 then 3%nat else 0%nat in
  let end_ : nat :=
    if MaxVersion cfg =? VersionTLS10 then 1%nat
    else if MaxVersion cfg =? VersionTLS11 then 2%nat
    else if MaxVersion cfg =? VersionTLS12 then 3%nat else 4%nat in
  if (end_ <? start)%nat then [] else drop start (take end_ all_versions).

(** [ParseTLSVersion] *)
Definition ParseTLSVersion (s : gostring) : outcome Z :=
  if bool_decide (s = "1.0"%go) then Ret VersionTLS10
  else if bool_decide (s = "1.1"%go) then Ret VersionTLS11
  else if bool_decide (s = "1.2"%go) then Ret VersionTLS12
  else if bool_decide (s = "1.3"%go) then Ret VersionTLS13
  else Throw (Errorf "invalid TLS version"%go).

(** [HTTPTLSProtocolString] *)
Definition HTTPTLSProtocolString (version : Z) : outcome gostring :=
  if version =? VersionTLS10 then Ret "TLS/1.0"%go
  else if version =? VersionTLS11 then Ret "TLS/1.1"%go
  else if version =? VersionTLS12 then Ret "TLS/1.2"%go
  else if version =? VersionTLS13 then Ret "TLS/1.3"%go
  else Panic.

Fixpoint protocol_strings (versions : list Z) : outcome (list gostring) :=
  match versions with
  | [] => Ret []
  | v :: vs => s ← HTTPTLSProtocolString v; ss ← protocol_strings vs; Ret (s :: ss)
  end.

(** ** The server *)

Inductive TLSHandling := TLSHandlingAccept | TLSHandlingReject | TLSHandlingRequire | TLSHandlingRedirect.

#[export] Instance TLSHandling_eq_dec : EqDecision TLSHandling.
Proof. solve_decision. Defined.

(** The fields of a listener and of its TLS configuration that are used here. *)
Record Listener := mkListener { l_Port : Z; l_TLS : option TLSCfg }.

(** [Protocol], with the fields of its configuration used here. *)
Record Protocol (X : Type) := mkProtocol {
  TLSHandling_ : TLSHandling;
  HSTS : bool;
  accessLogger : option AccessLogger;
  handlers : list (Handler Auth X);
  defaultTLSListener : option Listener
}.
Arguments mkProtocol {X}.
Arguments TLSHandling_ {X}.
Arguments HSTS {X}.
Arguments accessLogger {X}.
Arguments handlers {X}.
Arguments defaultTLSListener {X}.

(** What a request reaches: its context, and the rate limiters and log files the
    requests share. *)
Record State (W : Type) := mkState {
  ctx_of : RequestContext W Auth;
  limiters : gmap nat RateLimiter;
  files : gmap nat gostring
}.
Arguments mkState {W}.
Arguments ctx_of {W}.
Arguments limiters {W}.
Arguments files {W}.

(** What is read of the environment during a request: the times, their formats, and
    the orders in which the maps of the rate limiter are visited. *)
Record Moment := mkMoment {
  now : Z;
  clock : Z;
  date : gostring;
  seconds : gostring;
  order4 : list Z;
  order6 : list Z
}.

(** [if err := m; err != nil] *)
Definition try {S} (m : ST S unit) : ST S (option error) := fun s =>
  match m s with
  | (Ret _, s') => (Ret None, s')
  | (Throw e, s') => (Ret (Some e), s')
  | (Panic, s') => (Panic, s')
  | (OutOfFuel, s') => (OutOfFuel, s')
  end.

Section server.
Context {W X : Type} `{HttpWriter W, GoUnicode, GoText, GoCrypto, GoSort, MapRange}.
Let M := ST (State W).

Definition on_ctx {B} (m : ST (RequestContext W Auth) B) : M B :=
  zoom ctx_of (fun c s => mkState c (limiters s) (files s)) m.

Definition get_ctx {B} (f : RequestContext W Auth -> B) : M B := gets (fun s => f (ctx_of s)).

(** [Server.handleTLS]: whether the request has been answered. *)
Definition handleTLS (p : Protocol X) : ST (RequestContext W Auth) bool :=
  tls ← gets (fun ctx => Req_TLS (Ctx_Request ctx));
  if bool_decide (TLSHandling_ p = TLSHandlingReject) && tls then
    _ ← change_header (fun h => Header_Add h "Upgrade"%go "HTTP/2.0, HTTP/1.1, HTTP/1.0"%go);
    _ ← ReplyError2 426 "TLS not supported"%go;
    mret true
  else if bool_decide (TLSHandling_ p = TLSHandlingRequire) && negb tls then
    _ ← match defaultTLSListener p with
        | None => mret tt
        | Some l =>
            match l_TLS l with
            | None => lift Panic
            | Some cfg =>
                let versions := sort_Slice (fun a b => b <? a) (SupportedTLSVersions cfg) in
                protocols ← lift (protocol_strings versions);
                change_header (fun h => Header_Add h "Upgrade"%go (Join protocols ", "%go))
            end
        end;
    _ ← ReplyError2 426 "TLS required"%go;
    mret true
  else if bool_decide (TLSHandling_ p = TLSHandlingRedirect) && negb tls then
    url ← gets (fun ctx => Req_URL (Ctx_Request ctx));
    ctxHost ← gets Ctx_Host;
    let host :=
      match defaultTLSListener p with
      | Some l => if negb (l_Port l =? 443) then ctxHost ++ ":"%go ++ Itoa (l_Port l) else ctxHost
      | None => ctxHost
      end in
    let uri := mkURL "https"%go host (u_Path url) (u_RawQuery url) in
    _ ← change_header (fun h => Header_Add h "Location"%go (URL_String uri));
    _ ← Reply 301 None;
    mret true
  else mret false.

(** [Server.handleHSTS] *)
Definition handleHSTS (p : Protocol X) : ST (RequestContext W Auth) unit :=
  if negb (HSTS p) then mret tt
  else
    tls ← gets (fun ctx => Req_TLS (Ctx_Request ctx));
    if negb tls then mret tt
    else change_header (fun h =>
           Header_Set h "Strict-Transport-Security"%go "max-age=31536000; includeSubDomains"%go).

(** [rl.Update(1, ctx.ClientAddress, ctx.StartTime)] on the shared limiter. *)
Definition update_limiter (t : Moment) (loc : nat) : M bool := fun s =>
  match limiters s !! loc with
  | None => (Panic, s)
  | Some rl =>
      let addr := default [] (ClientAddress (ctx_of s)) in
      let '(r, rl) := RateLimiter_Update (order4 t) (order6 t) (clock t) 1 addr (StartTime (ctx_of s)) rl in
      (r, mkState (ctx_of s) (<[loc := rl]> (limiters s)) (files s))
  end.

(** [find] on the state: the context the search leaves. *)
Definition find_handler (p : Protocol X) : M (option (Handler Auth X)) :=
  on_ctx (fun ctx => let '(h, ctx) := findHandler (handlers p) ctx in (Ret h, ctx)).

Section action.
(** [HandleRequest] of an action. *)
Variable HandleRequest : X -> M unit.

(** [ServeHTTP] once the handler is found. *)
Definition handle (t : Moment) (h : Handler Auth X) : M unit :=
  rl ← get_ctx Ctx_RequestRateLimiter;
  ok ← match rl with Some loc => update_limiter t loc | None => mret true end;
  if negb ok then on_ctx (ReplyError2 429 "rate limit reached"%go)
  else
    auth ← get_ctx Ctx_Auth;
    err ← match auth with Some a => on_ctx (try (AuthenticateRequest a)) | None => mret None end;
    match err with
    | Some _ => mret tt
    | None =>
        match h_Action h with
        | None => on_ctx (ReplyError 501)
        | Some action => HandleRequest action
        end
    end.

(** [ServeHTTP] between the two identifications and the action. *)
Definition serve (p : Protocol X) (t : Moment) : M unit :=
  err ← on_ctx (try IdentifyClient);
  match err with
  | Some _ => on_ctx (ReplyError 500)
  | None =>
      err ← on_ctx (try IdentifyRequestHost);
      match err with
      | Some e => on_ctx (ReplyError2 400 (Error_String e))
      | None =>
          answered ← on_ctx (handleTLS p);
          if (answered : bool) then mret tt
          else
            _ ← on_ctx (handleHSTS p);
            h ← find_handler p;
            match h with
            | None => on_ctx (ReplyError2 404 "unhandled request"%go)
            | Some h => handle t h
            end
      end
  end.

(** [RequestContext.OnRequestHandled] and [AccessLogger.Log]; an error of the write
    is only logged. *)
Definition OnRequestHandled (t : Moment) : M unit :=
  _ ← on_ctx (modify (set_var "http.response_time"%go (seconds t)));
  logger ← get_ctx Ctx_AccessLogger;
  match logger with
  | None => mret tt
  | Some l => modify (fun s =>
      let line := log_line (date t) l (ctx_of s) in
      mkState (ctx_of s) (limiters s) (alter (fun f => f ++ line) (al_file l) (files s)))
  end.

(** [RequestContext.Recover], of a panic: the panic stops there. *)
Definition Recover : M unit :=
  status ← get_ctx (fun ctx => Status (Ctx_ResponseWriter ctx));
  if status =? 0 then on_ctx (ReplyError 500) else mret tt.

(** [Server.ServeHTTP]: the deferred calls run last first, also after a panic. *)
Definition ServeHTTP (p : Protocol X) (t : Moment) (req : Request) (w : W)
  (rls : gmap nat RateLimiter) (fs : gmap nat gostring) : outcome unit * State W :=
  let ctx := NewRequestContext (now t) req w in
  let ctx := set_settings (accessLogger p) (Ctx_Auth ctx) (Ctx_RequestRateLimiter ctx) ctx in
  let '(r1, s) := serve p t (mkState ctx rls fs) in
  let '(r2, s) := OnRequestHandled t s in
  match r1, r2 with
  | Panic, _ | _, Panic => Recover s
  | _, _ => (r1, s)
  end.
End action.
End server.

(** ** TLS versions *)

(** The versions a listener supports are those between its two bounds, in
    increasing order, a bound that is not one of the four versions (0 when it is
    not configured) being no bound; none when the bounds are inverted. *)
Theorem SupportedTLSVersions_spec cfg :
  SupportedTLSVersions cfg
  = List.filter (fun v =>
      (if bool_decide (MinVersion cfg ∈ all_versions) then MinVersion cfg <=? v else true)
      && (if bool_decide (MaxVersion cfg ∈ all_versions) then v <=? MaxVersion cfg else true)) all_versions.
Proof.
  assert (forall v, v = VersionTLS10 \/ v = VersionTLS11 \/ v = VersionTLS12 \/ v = VersionTLS13
                    \/ v ∉ all_versions) as Hcase.
  { intros v. destruct (decide (v ∈ all_versions)) as [Hv|Hv]; [|tauto].
    unfold all_versions in Hv. rewrite !elem_of_cons in Hv. pose proof (not_elem_of_nil v). tauto. }
  assert (forall v w, v ∉ all_versions -> w ∈ all_versions -> (v =? w) = false) as Hne.
  { intros v w Hv Hw. apply Z.eqb_neq. congruence. }
  unfold SupportedTLSVersions. destruct cfg as [lo hi]; cbn [MinVersion MaxVersion].
  destruct (Hcase lo) as [->|[->|[->|[->|Hlo]]]]; destruct (Hcase hi) as [->|[->|[->|[->|Hhi]]]];
    try (vm_compute; reflexivity);
    rewrite ?(bool_decide_false _ Hlo), ?(bool_decide_false _ Hhi),
      ?(Hne lo _ Hlo), ?(Hne hi _ Hhi) by by_decision; vm_compute; reflexivity.
Qed.

(** ** What the steps keep *)

Section keeps.
Context {W X : Type} `{HttpWriter W, GoUnicode, GoText, GoCrypto, GoSort, MapRange}.
Implicit Type ctx : RequestContext W Auth.
Implicit Type p : Protocol X.

(** A step that, when it returns, has kept the request and the authentication. *)
Definition keeps {B} (m : ST (RequestContext W Auth) B) : Prop :=
  forall ctx b ctx', m ctx = (Ret b, ctx') ->
    Ctx_Request ctx' = Ctx_Request ctx /\ Ctx_Auth ctx' = Ctx_Auth ctx.

Lemma keeps_try_client : keeps (try IdentifyClient).
Proof.
  intros ctx b ctx'. unfold try, IdentifyClient.
  destruct (wrap_error _ _) as [[addr port]|e| |]; intros [= <- <-]; done.
Qed.

Lemma keeps_try_host : keeps (try IdentifyRequestHost).
Proof.
  intros ctx b ctx'. unfold try, IdentifyRequestHost.
  destruct (wrap_error _ _) as [host|e| |]; intros [= <- <-]; done.
Qed.

Lemma keeps_HSTS p : keeps (handleHSTS p).
Proof.
  intros ctx b ctx'. unfold handleHSTS. destruct (HSTS p); cbn; [|by intros [= <- <-]].
  unfold mbind, st_bind, gets. destruct (Req_TLS _); intros [= <- <-]; done.
Qed.

(** [handleTLS] does nothing when it lets the request through. *)
Lemma handleTLS_through p ctx ctx' : handleTLS p ctx = (Ret false, ctx') -> ctx' = ctx.
Proof.
  unfold handleTLS. unfold mbind at 1, st_bind at 1, gets at 1.
  assert (forall (m : ST (RequestContext W Auth) unit) c,
    (m ≫= fun _ => mret true) ctx <> (Ret false, c)) as Hno.
  { intros m c. unfold mbind, st_bind. by destruct (m ctx) as [[[]|e| |] ?]. }
  assert (forall B (m : ST (RequestContext W Auth) B) (f : B -> ST (RequestContext W Auth) unit) c,
    (m ≫= fun b => f b ≫= fun _ => mret true) ctx <> (Ret false, c)) as Hno2.
  { intros B m f c. unfold mbind, st_bind. destruct (m ctx) as [[b|e| |] c1]; try done.
    by destruct (f b c1) as [[[]|e| |] ?]. }
  destruct (_ && Req_TLS _); [by intros E%Hno2|].
  destruct (_ && negb _); [by intros E%Hno2|].
  destruct (bool_decide (TLSHandling_ p = TLSHandlingRedirect) && _); [|by intros [= <-]].
  unfold mbind, st_bind, gets. cbn [fst snd].
  destruct (change_header _ ctx) as [[[]|e| |] c1]; try done. by destruct (Reply 301 None c1) as [[[]|e| |] ?].
Qed.

Lemma gives_auth_from (vs : list (Handler Auth X)) s a :
  (foldl give s vs).1.2 = Some a -> s.1.2 = Some a \/ exists v, v ∈ vs /\ h_Auth v = Some a.
Proof.
  revert s. induction vs as [|v vs IH]; intros s; cbn [foldl]; [by left|].
  intros Ha. destruct (IH _ Ha) as [Hg|(w & Hw & Hwa)].
  - unfold give in Hg; simpl in Hg. destruct (h_Auth v) as [a'|] eqn:E; [|by left].
    right. exists v. split; [left|congruence].
  - right. exists w. split; [by right|done].
Qed.

(** An authentication that accepts the request in no context. *)
Definition refuses (a : Auth) (req : Request) : Prop :=
  forall ctx ctx', Ctx_Request ctx = req -> AuthenticateRequest a ctx <> (Ret tt, ctx').

(** Every handler at the top of the tree that can be taken has an authentication. *)
Definition protected (hs : list (Handler Auth X)) : Prop :=
  forall h, h ∈ hs -> NextHandler h = false -> h_Auth h <> None.

Lemma chain_taken (hs chain : list (Handler Auth X)) vs :
  chain `sublist_of` List.filter taken vs -> chain_in hs chain ->
  exists h, h ∈ hs /\ NextHandler h = false /\ h ∈ vs.
Proof.
  destruct chain as [|h chain]; [done|]. intros Hs [Hh _]. exists h. split; [done|].
  assert (h ∈ List.filter taken vs) as Hf by (apply (sublist_subseteq _ _ Hs); left).
  apply list_elem_of_In, List.filter_In in Hf as [Hv Ht]. unfold taken in Ht.
  split; [by apply negb_true_iff in Ht|by apply list_elem_of_In].
Qed.

(** The authentication of the context after the search of a protected tree. *)
Lemma findHandler_protected hs ctx h ctx' :
  findHandler hs ctx = (Some h, ctx') -> protected hs -> Ctx_Auth ctx = None ->
  Ctx_Request ctx' = Ctx_Request ctx
  /\ exists a v, Ctx_Auth ctx' = Some a /\ reaches hs v /\ h_Auth v = Some a.
Proof.
  intros Hf Hp Hn.
  destruct (findHandler_searched _ _ _ _ Hf) as (vs & Hr & Hset & _ & Hsame & _ & chain & Hc & _ & Hs).
  split; [apply Hsame|].
  destruct (chain_taken _ _ _ Hs Hc) as (t & Ht & Hnx & Htv).
  assert (Ctx_Auth ctx' = (foldl give (settings_of ctx) vs).1.2) as Ha by (by rewrite <- Hset).
  pose proof (gives_auth vs (settings_of ctx)) as Hg. rewrite <- Ha in Hg.
  destruct (Ctx_Auth ctx') as [a|] eqn:E; [|by destruct Hg; [right; eauto|]].
  destruct (gives_auth_from vs (settings_of ctx) a) as [Hs0|(v & Hv & Hva)].
  - by rewrite <- Ha.
  - simpl in Hs0. congruence.
  - exists a, v. split_and!; [done|by apply Hr|done].
Qed.
End keeps.

(** ** No action without authentication *)

Section safety.
Context {W X : Type} `{HttpWriter W, GoUnicode, GoText, GoCrypto, GoSort, MapRange}.
Implicit Types act : X -> ST (State W) unit.

Lemma zoom_ret {B} (m : ST (RequestContext W Auth) B) s b s' :
  on_ctx m s = (Ret b, s') ->
  m (ctx_of s) = (Ret b, ctx_of s').
Proof.
  unfold on_ctx, zoom. destruct (m (ctx_of s)) as [r c]. intros [= -> <-]. done.
Qed.

Lemma update_limiter_ctx t loc s r s' : update_limiter (W := W) t loc s = (r, s') -> ctx_of s' = ctx_of s.
Proof.
  unfold update_limiter. destruct (limiters s !! loc); [|by intros [= <- <-]].
  destruct (RateLimiter_Update _ _ _ _ _ _ _) as [res rl1]. by intros [= <- <-].
Qed.

Lemma bind_cong {S B C} (m : ST S B) (f g : B -> ST S C) s :
  (forall b s', m s = (Ret b, s') -> f b s' = g b s') -> (m ≫= f) s = (m ≫= g) s.
Proof.
  intros Hfg. unfold mbind, st_bind. destruct (m s) as [[b|e| |] s'] eqn:E; try done. by apply Hfg.
Qed.

(** With an authentication that refuses the request, the action does not matter. *)
Lemma handle_refused act1 act2 t h s a :
  Ctx_Auth (ctx_of s) = Some a -> refuses (W := W) a (Ctx_Request (ctx_of s)) ->
  handle act1 t h s = handle act2 t h s.
Proof.
  intros Ha Hr. unfold handle. apply bind_cong. intros rl s1 [= <- <-]. apply bind_cong. intros ok s2 E.
  assert (ctx_of s2 = ctx_of s) as Hc.
  { destruct (Ctx_RequestRateLimiter (ctx_of s)); [by eapply update_limiter_ctx|by injection E as _ <-]. }
  destruct ok; cbn [negb]; [|done]. apply bind_cong. intros auth s3 [= <- <-].
  rewrite Hc, Ha. apply bind_cong. intros [e|] s4 E4; [done|]. exfalso.
  apply zoom_ret in E4. unfold try in E4. rewrite Hc in E4.
  destruct (AuthenticateRequest a (ctx_of s)) as [[[]|e| |] c] eqn:Ea; try done.
  by eapply (Hr (ctx_of s)).
Qed.

Lemma handle_agree act1 act2 t h s :
  (forall x, h_Action h = Some x -> act1 x = act2 x) -> handle act1 t h s = handle act2 t h s.
Proof.
  intros Hx. unfold handle. apply bind_cong. intros rl s1 _. apply bind_cong. intros ok s2 _.
  destruct (negb ok); [done|]. apply bind_cong. intros auth s3 _. apply bind_cong. intros [e|] s4 _; [done|].
  destruct (h_Action h) as [x|]; [|done]. by rewrite Hx.
Qed.

(** Only the actions of the handlers of the tree matter. *)
Lemma ServeHTTP_agree (p : Protocol X) act1 act2 t req w rls fs :
  (forall h x, reaches (handlers p) h -> h_Action h = Some x -> act1 x = act2 x) ->
  ServeHTTP act1 p t req w rls fs = ServeHTTP act2 p t req w rls fs.
Proof.
  intros Hx. unfold ServeHTTP. set (s0 := mkState _ rls fs). clearbody s0.
  assert (serve act1 p t s0 = serve act2 p t s0) as ->; [|done]. unfold serve.
  apply bind_cong. intros [e1|] s1 _; [done|]. apply bind_cong. intros [e2|] s2 _; [done|].
  apply bind_cong. intros [] s3 _; [done|]. apply bind_cong. intros [] s4 _.
  apply bind_cong. intros [h|] s5 E5; [|done]. unfold find_handler in E5. apply zoom_ret in E5.
  destruct (findHandler (handlers p) (ctx_of s4)) as [h' c5] eqn:Ef. injection E5 as -> _.
  destruct (findHandler_searched _ _ _ _ Ef) as (vs & _ & _ & _ & _ & _ & chain & Hc & Hl & _).
  apply handle_agree. intros x. apply Hx. by exists chain.
Qed.

(** [C5] End to end: when every handler at the top of the tree that can be taken has
    an authentication and every authentication of the tree refuses the request, the
    action of no handler runs: the whole service of the request, its response, its
    log and its effect on the rate limiters, is the same whatever the actions do. *)
Theorem ServeHTTP_protected (p : Protocol X) req :
  protected (handlers p) ->
  (forall h a, reaches (handlers p) h -> h_Auth h = Some a -> refuses (W := W) a req) ->
  forall act1 act2 t w rls fs,
    ServeHTTP act1 p t req w rls fs = ServeHTTP act2 p t req w rls fs.
Proof.
  intros Hp Hr act1 act2 t w rls fs. unfold ServeHTTP.
  set (c0 := set_settings _ _ _ _).
  assert (Ctx_Request c0 = req /\ Ctx_Auth c0 = None) as [Hq0 Ha0].
  { unfold c0, NewRequestContext, initVars, initUpgradeProtocols. cbn [set_settings set_var Ctx_Request Ctx_Auth].
    repeat case_match; done. }
  clearbody c0.
  assert (serve act1 p t (mkState c0 rls fs) = serve act2 p t (mkState c0 rls fs)) as ->; [|done].
  unfold serve. apply bind_cong. intros [e1|] s1 E1; [done|].
  apply zoom_ret in E1. apply keeps_try_client in E1 as [Hq1 Ha1].
  apply bind_cong. intros [e2|] s2 E2; [done|].
  apply zoom_ret in E2. apply keeps_try_host in E2 as [Hq2 Ha2].
  apply bind_cong. intros [] s3 E3; [done|].
  apply zoom_ret, handleTLS_through in E3.
  apply bind_cong. intros [] s4 E4. apply zoom_ret, keeps_HSTS in E4 as [Hq4 Ha4].
  apply bind_cong. intros [h|] s5 E5; [|done].
  unfold find_handler in E5. apply zoom_ret in E5.
  destruct (findHandler (handlers p) (ctx_of s4)) as [h' c5] eqn:Ef. injection E5 as -> ->.
  cbn [ctx_of] in Hq1, Ha1. rewrite E3 in Hq4, Ha4.
  destruct (findHandler_protected _ _ _ _ Ef Hp) as (Hq5 & a & v & Ha5 & Hv & Hva); [congruence|].
  apply (handle_refused _ _ _ _ _ a Ha5). eapply Hr in Hv; [|done].
  by assert (Ctx_Request (ctx_of s5) = req) as -> by congruence.
Qed.
End safety.

(** ** Every request is answered *)

Section answers.
Context {X : Type} `{GoUnicode, GoText, GoCrypto, GoSort, MapRange}.
Let C := RequestContext Wire Auth.
Implicit Type ctx : C.
Implicit Type s : State Wire.

(** Nothing has been sent and no status is noted. *)
Definition fresh ctx : Prop := unsent ctx /\ Status (Ctx_ResponseWriter ctx) = 0.

(** The final status has been sent. *)
Definition answered ctx : Prop := wire_sent (wire ctx) <> None.

(** A step that leaves the response alone, and one that answers.  A step may panic
    before it sends anything: [Recover] answers then. *)
Definition silent {B} (m : ST C B) : Prop :=
  forall ctx, fresh ctx ->
    match m ctx with
    | (Ret _, ctx') | (Panic, ctx') => fresh ctx'
    | _ => False
    end.

Definition answers (m : ST C unit) : Prop :=
  forall ctx, fresh ctx ->
    match m ctx with
    | (Ret _, ctx') => answered ctx'
    | (Panic, ctx') => fresh ctx' \/ answered ctx'
    | _ => False
    end.

Definition answersS (m : ST (State Wire) unit) : Prop :=
  forall s, fresh (ctx_of s) ->
    match m s with
    | (Ret _, s') => answered (ctx_of s')
    | (Panic, s') => fresh (ctx_of s') \/ answered (ctx_of s')
    | _ => False
    end.

Lemma on_ctx_answers m : answers m -> answersS (on_ctx m).
Proof.
  intros Hm s Hs. specialize (Hm _ Hs). unfold on_ctx, zoom.
  by destruct (m (ctx_of s)) as [[[]|e| |] c].
Qed.

Lemma silent_then {B} (m : ST C B) (f : B -> ST (State Wire) unit) :
  silent m -> (forall b, answersS (f b)) -> answersS (on_ctx m ≫= f).
Proof.
  intros Hm Hf s Hs. specialize (Hm _ Hs). unfold on_ctx, zoom, mbind, st_bind.
  destruct (m (ctx_of s)) as [[b|e| |] c]; try done; [by apply Hf|by left].
Qed.

Lemma silent_bind {B} (m : ST C B) (f : B -> ST C unit) :
  silent m -> (forall b, answers (f b)) -> answers (m ≫= f).
Proof.
  intros Hm Hf ctx Hs. specialize (Hm _ Hs). unfold mbind, st_bind.
  destruct (m ctx) as [[b|e| |] c]; try done; [by apply Hf|by left].
Qed.

Lemma answers_ReplyError2 status msg : final_status status -> answers (ReplyError2 status msg).
Proof.
  intros Hf ctx [Hu _]. destruct (ReplyError2_sends status msg ctx Hu Hf) as (c & -> & Hs).
  unfold answered. by rewrite Hs.
Qed.

Lemma answers_Reply status data : final_status status -> answers (Reply status data).
Proof.
  intros Hf ctx [Hu _]. destruct (Reply_sends status data ctx Hu Hf) as (c & -> & Hs).
  unfold answered. by rewrite Hs.
Qed.

Lemma answers_ret {B} (m : ST C unit) (b : B) :
  answers m -> forall ctx, fresh ctx ->
    match (m ≫= fun _ => mret b) ctx with
    | (Ret b', ctx') => answered ctx' /\ b' = b
    | (Panic, ctx') => fresh ctx' \/ answered ctx'
    | _ => False
    end.
Proof.
  intros Hm ctx Hs. specialize (Hm ctx Hs). unfold mbind, st_bind. by destruct (m ctx) as [[[]|e| |] c].
Qed.

Lemma silent_change_header f : silent (change_header f).
Proof. by intros ctx Hs. Qed.

Lemma try_client_cases : silent (try IdentifyClient).
Proof.
  intros ctx Hs. unfold try, IdentifyClient.
  pose proof (completed_wrap "cannot parse remote address"%go _
    (ParseNumericAddress_completed (RemoteAddr (Ctx_Request ctx)))) as Hc.
  by destruct (wrap_error _ _) as [[addr port]|e| |].
Qed.

Lemma try_host_cases : silent (try IdentifyRequestHost).
Proof.
  intros ctx Hs. unfold try, IdentifyRequestHost.
  destruct (wrap_error _ _) as [h|e| |] eqn:E; try exact Hs.
  exfalso. revert E. unfold ParseHostHeaderField, valid_port_string.
  repeat (case_match; simplify_eq; simpl in *; try done).
Qed.

Lemma silent_HSTS (p : Protocol X) : silent (handleHSTS p).
Proof.
  intros ctx Hs. unfold handleHSTS. destruct (HSTS p); cbn [negb]; [|exact Hs].
  unfold mbind, st_bind, gets. by destruct (Req_TLS _).
Qed.

Lemma protocol_strings_cases versions :
  match protocol_strings versions with Ret _ | Panic => True | _ => False end.
Proof.
  induction versions as [|v vs IH]; cbn [protocol_strings]; [done|].
  unfold HTTPTLSProtocolString. repeat case_match; simpl; try done; destruct (protocol_strings vs); done.
Qed.

(** [handleTLS] lets the request through, or answers it. *)
Lemma handleTLS_cases (p : Protocol X) ctx :
  fresh ctx ->
  match handleTLS p ctx with
  | (Ret true, ctx') => answered ctx'
  | (Ret false, ctx') => ctx' = ctx
  | (Panic, ctx') => fresh ctx' \/ answered ctx'
  | _ => False
  end.
Proof.
  intros Hs. unfold handleTLS. unfold mbind at 1, st_bind at 1, gets at 1.
  assert (forall (m : ST C unit), answers m ->
    match (m ≫= fun _ => mret true) ctx with
    | (Ret true, ctx') => answered ctx'
    | (Ret false, ctx') => ctx' = ctx
    | (Panic, ctx') => fresh ctx' \/ answered ctx'
    | _ => False
    end) as Hret.
  { intros m Hm. pose proof (answers_ret m true Hm ctx Hs) as Ha.
    destruct ((m ≫= _) ctx) as [[[]|e| |] c]; naive_solver. }
  assert (forall B (m : ST C B) (f : B -> ST C unit), silent m -> (forall b, answers (f b)) ->
    match (m ≫= fun b => f b ≫= fun _ => mret true) ctx with
    | (Ret true, ctx') => answered ctx'
    | (Ret false, ctx') => ctx' = ctx
    | (Panic, ctx') => fresh ctx' \/ answered ctx'
    | _ => False
    end) as Hret2.
  { intros B m f Hm Hf. pose proof (Hret (m ≫= f) (silent_bind m f Hm Hf)) as Hr.
    unfold mbind, st_bind in *. destruct (m ctx) as [[b|e| |] c]; done. }
  destruct (_ && Req_TLS _).
  { apply Hret2; [apply silent_change_header|]. intros []. apply answers_ReplyError2. right; lia. }
  destruct (_ && negb _).
  { apply Hret2; [|intros []; apply answers_ReplyError2; right; lia].
    destruct (defaultTLSListener p) as [l|]; [|by intros c Hc]. destruct (l_TLS l) as [cfg|]; [|by intros c Hc].
    intros c Hc. unfold lift, mbind, st_bind.
    pose proof (protocol_strings_cases (sort_Slice (fun a b => b <? a) (SupportedTLSVersions cfg))) as Hps.
    by destruct (protocol_strings _). }
  destruct (bool_decide (TLSHandling_ p = TLSHandlingRedirect) && _); [|done].
  unfold mbind at 1, st_bind at 1, gets at 1. unfold mbind at 1, st_bind at 1, gets at 1.
  apply Hret2; [apply silent_change_header|]. intros []. apply answers_Reply. right; lia.
Qed.

Lemma silent_find (p : Protocol X) :
  silent (fun ctx => let '(h, ctx) := findHandler (handlers p) ctx in (Ret h, ctx)).
Proof.
  intros ctx Hs. destruct (findHandler (handlers p) ctx) as [h c] eqn:E.
  destruct (findHandler_searched _ _ _ _ E) as (vs & _ & _ & _ & (_ & Hw & _) & _).
  unfold fresh, unsent, wire in *. by rewrite Hw.
Qed.

Definition returns_or_panics {B} (r : outcome B) : Prop :=
  match r with Ret _ | Panic => True | _ => False end.

Lemma update_tables_cases cfgs clk bits n addr nw order tables :
  returns_or_panics (update_tables cfgs clk bits n addr nw order tables).1.
Proof.
  revert tables. induction order as [|o rest IH]; intros tables; cbn [update_tables]; [done|].
  assert (returns_or_panics (update_table cfgs clk bits n addr nw o tables).1) as Ht.
  { unfold update_table. repeat case_match; done. }
  unfold mbind, st_bind. destruct (update_table _ _ _ _ _ _ _ _) as [[ok|e| |] t]; try done.
  specialize (IH t). by destruct (update_tables _ _ _ _ _ _ _ _) as [[ok'|e| |] t'].
Qed.

Lemma RateLimiter_Update_cases o4 o6 clk n addr nw rl :
  returns_or_panics (RateLimiter_Update o4 o6 clk n addr nw rl).1.
Proof.
  unfold RateLimiter_Update.
  assert (forall B D (m : ST RateLimiter B) (f : B -> ST RateLimiter D) r,
    (forall r, returns_or_panics (m r).1) -> (forall b r, returns_or_panics (f b r).1) ->
    returns_or_panics ((m ≫= f) r).1) as Hb.
  { intros B D m f r Hm Hf. unfold mbind, st_bind. specialize (Hm r). by destruct (m r) as [[b|e| |] r']. }
  apply Hb; [|intros ok1 r1; apply Hb; [|intros ok4 r4; apply Hb; [|intros ok6]]]; intros r.
  - unfold update_global. repeat case_match; done.
  - unfold update_ipv4, zoom. case_match; [|done].
    match goal with |- context [update_tables ?a ?b ?c ?d ?e ?f ?g ?h] =>
      pose proof (update_tables_cases a b c d e f g h) as Hi; by destruct (update_tables a b c d e f g h) end.
  - unfold update_ipv6, zoom. case_match; [|done].
    match goal with |- context [update_tables ?a ?b ?c ?d ?e ?f ?g ?h] =>
      pose proof (update_tables_cases a b c d e f g h) as Hi; by destruct (update_tables a b c d e f g h) end.
  - unfold update_specific. repeat case_match; done.
Qed.

(** ** Every request is answered: the theorem *)

(** What the theorem asks of an action: it sends a final status, or it panics before
    it notes one. *)
Definition action_answers (act : X -> ST (State Wire) unit) : Prop := forall x, answersS (act x).

(** A step on the state that leaves the response alone. *)
Definition silentS {B} (m : ST (State Wire) B) : Prop :=
  forall s, fresh (ctx_of s) ->
    match m s with
    | (Ret _, s') | (Panic, s') => fresh (ctx_of s')
    | _ => False
    end.

Lemma silentS_bind {B} (m : ST (State Wire) B) (f : B -> ST (State Wire) unit) :
  silentS m -> (forall b, answersS (f b)) -> answersS (m ≫= f).
Proof.
  intros Hm Hf s Hs. specialize (Hm _ Hs). unfold mbind, st_bind.
  destruct (m s) as [[b|e| |] s']; try done; [by apply Hf|by left].
Qed.

Lemma silent_update_limiter t loc : silentS (update_limiter t loc).
Proof.
  intros s Hs. unfold update_limiter. destruct (limiters s !! loc) as [rl|]; [|done].
  pose proof (RateLimiter_Update_cases (order4 t) (order6 t) (clock t) 1
    (default [] (ClientAddress (ctx_of s))) (StartTime (ctx_of s)) rl) as Hc.
  by destruct (RateLimiter_Update _ _ _ _ _ _ _) as [[ok|e| |] rl'].
Qed.

(** The authentication, then [f] if it accepts. *)
Lemma answers_auth a (f : option error -> ST (State Wire) unit) :
  (forall e, f (Some e) = mret tt) -> answersS (f None) ->
  answersS (on_ctx (try (AuthenticateRequest a)) ≫= f).
Proof.
  intros Hsome Hnone s Hs.
  pose proof (AuthenticateRequest_outcome a (ctx_of s) (proj1 Hs)) as Ho.
  unfold mbind, st_bind, on_ctx, zoom, try. unfold auth_outcome in Ho.
  destruct (AuthenticateRequest a (ctx_of s)) as [[[]|e| |] c]; try done.
  - apply Hnone. unfold fresh, unsent, wire in *. simpl. by rewrite Ho.
  - rewrite Hsome. destruct Ho as (status & hdr & Hsent & _). simpl. unfold answered. by rewrite Hsent.
  - left. destruct Ho as [Ho _]. unfold fresh, unsent, wire in *. simpl. by rewrite Ho.
Qed.

Lemma handle_answers act t h : action_answers act -> answersS (handle act t h).
Proof.
  intros Hact. unfold handle. apply silentS_bind; [by intros s Hs|]. intros rl.
  apply silentS_bind; [destruct rl; [apply silent_update_limiter|by intros s Hs]|]. intros ok.
  destruct ok; cbn [negb]; [|apply on_ctx_answers, answers_ReplyError2; right; lia].
  assert (answersS (match h_Action h with None => on_ctx (ReplyError 501) | Some action => act action end)) as Hlast.
  { destruct (h_Action h); [apply Hact|]. apply on_ctx_answers, answers_ReplyError2. right; lia. }
  apply silentS_bind; [by intros s Hs|]. intros [a|]; [by apply answers_auth|exact Hlast].
Qed.

Lemma serve_answers act p t : action_answers act -> answersS (serve act p t).
Proof.
  intros Hact. unfold serve.
  apply silent_then; [apply try_client_cases|]. intros [e|].
  { apply on_ctx_answers, answers_ReplyError2. right; lia. }
  apply silent_then; [apply try_host_cases|]. intros [e|].
  { apply on_ctx_answers, answers_ReplyError2. right; lia. }
  intros s Hs. pose proof (handleTLS_cases p (ctx_of s) Hs) as Htls.
  unfold mbind at 1, st_bind at 1, on_ctx at 1, zoom at 1.
  destruct (handleTLS p (ctx_of s)) as [[[]|e| |] c]; try done.
  subst c. replace (mkState (ctx_of s) (limiters s) (files s)) with s by (by destruct s).
  revert s Hs. cut (answersS (_ ← on_ctx (handleHSTS p);
    h ← find_handler p;
    match h with
    | None => on_ctx (ReplyError2 404 "unhandled request"%go)
    | Some h => handle act t h
    end)); [intros Hc s Hs; by apply Hc|].
  apply silent_then; [apply silent_HSTS|]. intros [].
  apply silent_then; [apply silent_find|]. intros [h|]; [by apply handle_answers|].
  apply on_ctx_answers, answers_ReplyError2. right; lia.
Qed.

(** A reply after the final status: nothing more is sent but the body. *)
Lemma ReplyError2_answered status msg ctx :
  answered ctx -> exists ctx', ReplyError2 status msg ctx = (Ret tt, ctx') /\ answered ctx'.
Proof.
  intros Ha. unfold answered in Ha. destruct (wire_sent (wire ctx)) as [x|] eqn:E; [|done].
  unfold ReplyError2, change_header, modify, on_writer at 1, zoom at 1, Reply.
  unfold mbind, st_bind, on_writer at 1, zoom at 1, rw_WriteHeader. cbn -[copy_body].
  unfold Wire_WriteHeader at 1. cbn [wire_sent]. unfold wire in E. rewrite E.
  rewrite bool_decide_true by done.
  match goal with |- context [copy_body ?d ?c] =>
    destruct (copy_body_sent d c x eq_refl) as (ctx' & Hc & Hs) end.
  exists ctx'. split; [exact Hc|]. unfold answered. by rewrite Hs.
Qed.

Lemma OnRequestHandled_writer t s :
  exists s', OnRequestHandled t s = (Ret tt, s')
  /\ Ctx_ResponseWriter (ctx_of s') = Ctx_ResponseWriter (ctx_of s).
Proof.
  unfold OnRequestHandled, mbind, st_bind, on_ctx, zoom, get_ctx, gets, modify.
  cbn. destruct (Ctx_AccessLogger (ctx_of s)); by eexists.
Qed.

(** Every request gets an answer: with actions that send a final status or
    panic before they note one, [ServeHTTP] returns and a final status has been
    sent, whatever the request, the configuration, the state of the rate limiters
    and the panics on the way (secrets that are not configured, a listener without
    TLS configuration, an address no table accepts). *)
Theorem ServeHTTP_answers act (p : Protocol X) t req w rls fs :
  action_answers act -> wire_sent w = None ->
  exists s, ServeHTTP act p t req w rls fs = (Ret tt, s) /\ answered (ctx_of s).
Proof.
  intros Hact Hw. unfold ServeHTTP. set (c0 := set_settings _ _ _ _).
  assert (fresh c0) as Hf.
  { unfold c0, NewRequestContext, initVars, initUpgradeProtocols, fresh, unsent, wire.
    cbn [set_settings set_var Ctx_ResponseWriter]. repeat case_match; done. }
  clearbody c0. pose proof (serve_answers act p t Hact (mkState c0 rls fs) Hf) as Hs.
  destruct (serve act p t (mkState c0 rls fs)) as [[[]|e| |] s1]; try done.
  - destruct (OnRequestHandled_writer t s1) as (s2 & -> & Hrw). exists s2. split; [done|].
    unfold answered, wire in *. by rewrite Hrw.
  - destruct (OnRequestHandled_writer t s1) as (s2 & -> & Hrw).
    assert (fresh (ctx_of s2) \/ answered (ctx_of s2)) as Hs2.
    { unfold fresh, answered, unsent, wire in *. by rewrite Hrw. }
    unfold Recover, mbind, st_bind, get_ctx, gets, on_ctx, zoom.
    destruct (Status _ =? 0) eqn:E.
    + destruct Hs2 as [[Hu _]|Ha].
      * destruct (ReplyError2_sends 500 (Itoa 500 ++ " "%go ++ StatusText 500) (ctx_of s2) Hu
          ltac:(right; lia)) as (c & Hc & Hsent).
        unfold ReplyError. rewrite Hc. eexists. split; [done|]. unfold answered. simpl. by rewrite Hsent.
      * destruct (ReplyError2_answered 500 (Itoa 500 ++ " "%go ++ StatusText 500) (ctx_of s2) Ha)
          as (c & Hc & Hsent).
        unfold ReplyError. rewrite Hc. by eexists.
    + destruct Hs2 as [[_ H0s]|Ha]; [by rewrite H0s in E|]. by exists s2.
Qed.
End answers.

(** ** The TLS policy *)

Section policy.
Context {X : Type} `{GoUnicode, GoText, GoCrypto, GoSort, MapRange}.

(** The connections a policy turns away. *)
Definition turned_away (h : TLSHandling) (tls : bool) : bool :=
  match h with
  | TLSHandlingAccept => false
  | TLSHandlingReject => tls
  | TLSHandlingRequire | TLSHandlingRedirect => negb tls
  end.

Lemma handleTLS_policy `{HttpWriter W} (p : Protocol X) (ctx : RequestContext W Auth) :
  match handleTLS p ctx with
  | (Ret false, _) => turned_away (TLSHandling_ p) (Req_TLS (Ctx_Request ctx)) = false
  | _ => turned_away (TLSHandling_ p) (Req_TLS (Ctx_Request ctx)) = true
  end.
Proof.
  unfold handleTLS, turned_away. unfold mbind at 1, st_bind at 1, gets at 1.
  destruct (TLSHandling_ p), (Req_TLS (Ctx_Request ctx)); cbn [bool_decide decide andb negb]; try done.
  - unfold mbind, st_bind. repeat case_match; simplify_eq; done.
  - unfold mbind, st_bind. repeat case_match; simplify_eq; done.
  - unfold mbind, st_bind. repeat case_match; simplify_eq; done.
Qed.

(** What [serve] does with a connection that is turned away: only the context
    changes, and no action is involved. *)
Lemma serve_turned_away `{HttpWriter W} (p : Protocol X) t s :
  turned_away (TLSHandling_ p) (Req_TLS (Ctx_Request (ctx_of s))) = true ->
  exists r c, forall act, serve act p t s = (r, mkState c (limiters s) (files s)).
Proof.
  intros Ht. unfold serve. unfold mbind at 1, st_bind at 1, on_ctx at 1, zoom at 1.
  destruct (try IdentifyClient (ctx_of s)) as [r1 c1] eqn:E1.
  destruct r1 as [[e1|]|e| |]; [| |by eexists _, _..].
  { unfold on_ctx, zoom. cbn [ctx_of limiters files].
    destruct (ReplyError 500 c1) as [r c]. by eexists r, c. }
  apply keeps_try_client in E1 as [Hq1 _].
  unfold mbind at 1, st_bind at 1, on_ctx at 1, zoom at 1. cbn [ctx_of limiters files].
  destruct (try IdentifyRequestHost c1) as [r2 c2] eqn:E2.
  destruct r2 as [[e2|]|e| |]; [| |by eexists _, _..].
  { unfold on_ctx, zoom. cbn [ctx_of limiters files].
    destruct (ReplyError2 400 (Error_String e2) c2) as [r c]. by eexists r, c. }
  apply keeps_try_host in E2 as [Hq2 _].
  unfold mbind at 1, st_bind at 1, on_ctx at 1, zoom at 1. cbn [ctx_of limiters files].
  pose proof (handleTLS_policy p c2) as Hp. rewrite Hq2, Hq1, Ht in Hp.
  destruct (handleTLS p c2) as [[[]|e| |] c3]; [|done|by eexists _, _..].
  by eexists _, _.
Qed.

(** [C33] The TLS policy is enforced before anything else is done with a request: a
    connection it turns away (without TLS when TLS is required or redirected to,
    with TLS when it is rejected) reaches no action and no rate limiter. *)
Theorem TLS_policy_enforced `{HttpWriter W} (p : Protocol X) req :
  turned_away (TLSHandling_ p) (Req_TLS req) = true ->
  forall t w rls fs, exists x, limiters x.2 = rls /\ forall act, ServeHTTP act p t req w rls fs = x.
Proof.
  intros Ht t w rls fs. unfold ServeHTTP. set (c0 := set_settings _ _ _ _).
  assert (Ctx_Request c0 = req) as Hq.
  { unfold c0, NewRequestContext, initVars, initUpgradeProtocols. cbn [set_settings set_var Ctx_Request].
    repeat case_match; done. }
  clearbody c0. rewrite <- Hq in Ht.
  destruct (serve_turned_away p t (mkState c0 rls fs) Ht) as (r & c & Hs). cbn [limiters files] in Hs.
  set (st := mkState c rls fs) in Hs.
  set (x := let '(r2, s) := OnRequestHandled t st in
            match r, r2 with Panic, _ | _, Panic => Recover s | _, _ => (r, s) end).
  exists x. split; [|intros act; by rewrite Hs].
  assert (forall s : State W, limiters (OnRequestHandled t s).2 = limiters s) as Ho.
  { intros s. unfold OnRequestHandled, mbind, st_bind, on_ctx, zoom, get_ctx, gets, modify. cbn.
    by destruct (Ctx_AccessLogger (ctx_of s)). }
  assert (forall s : State W, limiters (Recover s).2 = limiters s) as Hr.
  { intros s. unfold Recover, mbind, st_bind, get_ctx, gets, on_ctx, zoom.
    destruct (Status _ =? 0); [|done]. by destruct (ReplyError 500 (ctx_of s)). }
  specialize (Ho st). unfold x. destruct (OnRequestHandled t st) as [r2 s2]. simpl in Ho.
  destruct r, r2; rewrite ?Hr; exact Ho.
Qed.
End policy.

(** ** Examples *)

#[local] Instance example_range : MapRange := {
  range_map V m := map_to_list m;
  range_map_entries V m := Permutation_refl _
}.

Definition example_moment : Moment := mkMoment 0 0 "now"%go "0.1"%go [] [].

Definition example_listener : Listener := mkListener 8443 (Some (mkTLSCfg VersionTLS12 0)).

Definition a_handler (a : option Auth) : Handler Auth unit :=
  mkHandler any_request false None a None (Some tt) [].

Definition an_access_logger : AccessLogger := mkLogger (mkFormat "common"%go [] 0) 0.

Definition serve_example (act : unit -> ST (State Wire) unit) (policy : TLSHandling) (a : option Auth)
  : outcome unit * State Wire :=
  ServeHTTP (H0 := ascii_only) act
    (mkProtocol policy false (Some an_access_logger) [a_handler a] (Some example_listener))
    example_moment (example_request ∅) new_wire ∅ {[ 0%nat := [] ]}.

(** A panic of an action is logged without a status: the log is written before the
    reply of [Recover]. *)
Example panic_logged_before_reply :
  let '(r, s) := serve_example (fun _ => lift Panic) TLSHandlingAccept None in
  r = Ret tt
  /\ fst <$> wire_sent (wire (ctx_of s)) = Some 500
  /\ files s !! 0%nat
     = Some ("10.0.0.1 - - [now] "%go ++ ["034"%char] ++ "GET /a HTTP/1.1"%go ++ ["034"%char] ++ " - 0"%go
             ++ ["010"%char]).
Proof. by vm_compute. Qed.

(** The redirection of a host that is an IPv6 address: the brackets the host was
    given with are not part of the host of the context, and are not written. *)
Example tls_redirect_ipv6 :
  let req := mkRequest "GET"%go (mkURL [] [] "/"%go []) "HTTP/1.1"%go 1 1 ∅ "[::1]:80"%go "10.0.0.1:99"%go false in
  let '(_, s) := ServeHTTP (H0 := ascii_only)
    (H1 := Build_GoText (fun u => u_Scheme u ++ "://"%go ++ u_Host u ++ u_Path u) (fun _ => []) (fun _ => []) (fun s => s))
    (fun _ => mret tt)
    (mkProtocol (X := unit) TLSHandlingRedirect false None [] (Some example_listener))
    example_moment req new_wire ∅ ∅ in
  (fun '(_, h) => Header_Get h "Location"%go) <$> wire_sent (wire (ctx_of s)) = Some "https://::1:8443/"%go.
Proof. by vm_compute. Qed.

Lemma TLS_policy_enforced_witness :
  limiters (serve_example (fun _ => lift Panic) TLSHandlingRequire None).2 = ∅.
Proof.
  destruct (TLS_policy_enforced (H := ascii_only)
    (mkProtocol (X := unit) TLSHandlingRequire false (Some an_access_logger) [a_handler None] (Some example_listener))
    (example_request ∅) eq_refl example_moment new_wire ∅ {[ 0%nat := [] ]}) as (x & Hl & Hx).
  unfold serve_example. rewrite Hx. exact Hl.
Defined.

Lemma refuses_no_authorization cfg tokens req :
  Header_Get (Req_Header req) "Authorization"%go = [] ->
  refuses (W := Wire) (H0 := ascii_only) (BearerAuth cfg tokens) req.
Proof.
  intros Ha ctx ctx' <- E. cbn [AuthenticateRequest] in E. unfold BearerAuth_AuthenticateRequest in E.
  unfold authorization_parameter in E. unfold mbind at 1, st_bind at 1 in E.
  unfold mbind at 1, st_bind at 1, gets in E. rewrite Ha in E. rewrite bool_decide_true in E by done.
  destruct ((setWWWAuthenticate _ _ ≫= _) ctx) as [[pl|e| |] c] eqn:Er; try done.
  unfold setWWWAuthenticate, mbind, st_bind in Er. cbn in Er. by apply reject_not_ret in Er.
Qed.

Lemma ServeHTTP_protected_witness :
  serve_example (fun _ => lift Panic) TLSHandlingAccept (Some (BearerAuth example_auth {[ "70"%go ]}))
  = serve_example (fun _ => mret tt) TLSHandlingAccept (Some (BearerAuth example_auth {[ "70"%go ]})).
Proof.
  unfold serve_example.
  apply (ServeHTTP_protected (H0 := ascii_only)).
  - intros h Hh _. cbn [handlers] in Hh. apply list_elem_of_singleton in Hh as ->. discriminate.
  - intros h a (chain & Hc & Hl) Ha.
    assert (h = a_handler (Some (BearerAuth example_auth {[ "70"%go ]}))) as ->.
    { destruct chain as [|h1 chain]; [done|]. destruct Hc as [Hh Hc]. cbn [handlers] in Hh.
      apply list_elem_of_singleton in Hh as ->. destruct Hc as [->|Hc]; [by injection Hl as <-|].
      destruct chain as [|h2 chain]; [done|]. destruct Hc as [Hh _]. by apply not_elem_of_nil in Hh. }
    injection Ha as <-. by apply refuses_no_authorization.
Defined.

Lemma ServeHTTP_answers_witness :
  exists s, serve_example (fun _ => on_ctx (Reply 200 None)) TLSHandlingAccept None = (Ret tt, s)
  /\ answered (ctx_of s).
Proof.
  assert (action_answers (fun _ : unit => on_ctx (Reply 200 None))) as Ha.
  { intros []. apply on_ctx_answers, answers_Reply. right; lia. }
  pose proof (ServeHTTP_answers (H := ascii_only) (fun _ : unit => on_ctx (Reply 200 None))
    (mkProtocol TLSHandlingAccept false (Some an_access_logger) [a_handler None] (Some example_listener))
    example_moment (example_request ∅) new_wire ∅ {[ 0%nat := [] ]} Ha eq_refl) as Hs.
  exact Hs.
Defined.
