(* ===== verification/HttpActions.v ===== *)
(** * Actions (pkg/protocols/http/action_reply.go, action_redirect.go,
      redirections.go, action_serve.go, the header part of
      action_reverse_proxy.go, the parameters of action_fastcgi.go)

    What a handler does with a request: fixed replies, redirections, files of a
    directory, the requests sent to an upstream server and the parameters of a
    FastCGI request. *)

From S2P Require Import Prelude GoStrings NetIP HttpHeader NetAddresses FormatString.
From S2P Require Import HttpPath HttpContext HttpAuth HttpHandler HttpServer.

(** ** Paths (package path) *)

(** One element of [path.Clean]: [out] is the reversed list of those kept. *)
Definition clean_step (rooted : bool) (out : list gostring) (elem : gostring) : list gostring :=
  if bool_decide (elem = []) || bool_decide (elem = "."%go) then out
  else if bool_decide (elem = ".."%go) then
    match out with
    | last :: out' => if bool_decide (last = ".."%go) then elem :: out else out'
    | [] => if rooted then [] else [elem]
    end
  else elem :: out.

(** [path.Clean] *)
Definition path_Clean (path : gostring) : gostring :=
  let rooted := bool_decide (head path = Some slash) in
  let elems := rev (foldl (clean_step rooted) [] (Split path slash)) in
  if rooted then slash :: Join elems [slash]
  else if bool_decide (elems = []) then "."%go else Join elems [slash].

(** [path.Join] of two elements. *)
Definition path_Join (a b : gostring) : gostring :=
  if bool_decide (a = []) then
    if bool_decide (b = []) then [] else path_Clean b
  else path_Clean (a ++ [slash] ++ b).

(** ** Replies and redirections *)

Record ReplyActionCfg := mkReplyCfg { ra_Status : Z; ra_Header : list HeaderOp; ra_Body : option FormatString }.

Record RedirectActionCfg := mkRedirectCfg {
  rd_Status : Z; rd_URI : FormatString; rd_Header : list HeaderOp; rd_Body : option FormatString
}.

(** [url.Parse], without its error, and [View.Render] of the data of a template:
    the status, the reason and the URI of a redirection, or the index of a
    directory. *)
Record ServeIndexEntry := mkIndexEntry {
  ie_Filename : gostring; ie_DisplayedFilename : gostring; ie_Directory : bool;
  ie_Size : Z; ie_DisplayedSize : gostring; ie_MTime : gostring
}.

Inductive ViewData :=
  | RedirectData (Status : Z) (Reason URI : gostring)
  | IndexData (DirectoryPath : gostring) (Entries : list ServeIndexEntry)
      (MaxDisplayedFilenameLength MTimeLength MaxDisplayedSizeLength : Z).

(** A file of the system: what [os.Stat] says of it. *)
Inductive FileMode := ModeDir | ModeRegular | ModeOther.

Record DirEntry := mkDirEntry { de_Name : gostring; de_IsDir : bool; de_Info : option (Z * gostring) }.

(** The functions of the system and of the libraries the actions call:
    [http.ServeContent] is given the name, the modification time and the content. *)
Class ActionEnv (W A : Type) := {
  url_Parse : gostring -> option URL;
  view_Render : gostring -> ViewData -> RequestContext W A -> outcome gostring;
  os_Stat : gostring -> outcome (FileMode * Z);
  os_Open : gostring -> outcome gostring;
  os_ReadDir : gostring -> outcome (list DirEntry);
  format_2f : Z -> Z -> gostring;       (** [%.2f] of a quotient *)
  ServeContent : gostring -> Z -> gostring -> ST (RequestContext W A) unit
}.

Section actions.
Context {W A : Type} `{HttpWriter W, GoUnicode, GoText, !ActionEnv W A}.
Let M := ST (RequestContext W A).

(** The body of a [strings.Reader] or [bytes.Reader] for [io.Copy]: one write, none
    when it is empty. *)
Definition reader_pieces (s : gostring) : list gostring := if bool_decide (s = []) then [] else [s].

(** [header.Apply(ctx.ResponseWriter.Header(), ctx.Vars)] *)
Definition apply_header (ops : list HeaderOp) : M unit :=
  vs ← gets Vars; change_header (fun h => HeaderOps_Apply ops h vs).

(** [ReplyAction.HandleRequest] *)
Definition ReplyAction_HandleRequest (cfg : ReplyActionCfg) : M unit :=
  let status := if negb (ra_Status cfg =? 0) then ra_Status cfg else 200 in
  _ ← apply_header (ra_Header cfg);
  vs ← gets Vars;
  Reply status ((fun body => reader_pieces (Expand body vs)) <$> ra_Body cfg).

Definition html_type : gostring := "text/html;charset=utf-8"%go.

(** [redirect] *)
Definition redirect (status : Z) (uriString : gostring) (header : list HeaderOp)
  (body : option FormatString) : M unit :=
  let status := if status =? 0 then 302 else status in
  match url_Parse uriString with
  | None => ReplyError 500
  | Some uri =>
      _ ← modify (set_var "http.redirect.uri"%go (URL_String uri));
      _ ← change_header (fun h => Header_Set h "Location"%go (URL_String uri));
      _ ← apply_header header;
      method ← gets (fun ctx => Method (Ctx_Request ctx));
      if bool_decide (method = "GET"%go) then
        match body with
        | None =>
            _ ← change_header (fun h => Header_Set h "Content-Type"%go html_type);
            data ← gets (view_Render "redirect"%go (RedirectData status (StatusText status) (URL_String uri)));
            match data with
            | Ret bodyData => Reply status (Some (reader_pieces bodyData))
            | Throw _ => ReplyError 500
            | Panic => lift Panic
            | OutOfFuel => lift OutOfFuel
            end
        | Some fs =>
            vs ← gets Vars;
            Reply status (Some (reader_pieces (Expand fs vs)))
        end
      else Reply status None
  end.

(** [RedirectAction.HandleRequest] *)
Definition RedirectAction_HandleRequest (cfg : RedirectActionCfg) : M unit :=
  vs ← gets Vars;
  redirect (rd_Status cfg) (Expand (rd_URI cfg) vs) (rd_Header cfg) (rd_Body cfg).

(** ** Files *)

Record ServeActionCfg := mkServeCfg {
  sv_Path : FormatString;
  IndexFiles : list gostring;
  IndexRedirectStatus : Z;
  IndexRedirectURI : option FormatString;
  IndexView_Enabled : bool;
  FileNotFoundReply : option ReplyActionCfg
}.

(** [ServeAction.formatFileSize] *)
Definition formatFileSize (size : Z) : gostring :=
  if size <? 1000 then Itoa size ++ "     B"%go
  else if size <? 1000000 then format_2f size 1000 ++ "KiB"%go
  else if size <? 1000000000 then format_2f size 1000000 ++ "MiB"%go
  else if size <? 1000000000000 then format_2f size 1000000000 ++ "GiB"%go
  else format_2f size 1000000000000 ++ "TiB"%go.

(** The loop of [ServeAction.readIndexEntries] *)
Definition index_entry (de : DirEntry) : ServeIndexEntry :=
  let displayed := if de_IsDir de then de_Name de ++ "/"%go else de_Name de in
  match de_Info de with
  | Some (size, mtime) =>
      if negb (de_IsDir de)
      then mkIndexEntry (de_Name de) displayed (de_IsDir de) size (formatFileSize size) mtime
      else mkIndexEntry (de_Name de) displayed (de_IsDir de) 0 [] mtime
  | None => mkIndexEntry (de_Name de) displayed (de_IsDir de) 0 [] []
  end.

Definition readIndexEntries (dirPath : gostring) : outcome (list ServeIndexEntry) :=
  match os_ReadDir dirPath with
  | Ret des => Ret (map index_entry des)
  | Throw _ => Throw (Errorf "cannot read directory"%go)
  | Panic => Panic
  | OutOfFuel => OutOfFuel
  end.

(** [ServeAction.serveIndexView]; 20 is the length of the timestamp layout. *)
Definition serveIndexView (dirPath : gostring) : M unit :=
  match readIndexEntries dirPath with
  | Ret entries =>
      subpath ← gets Subpath;
      let relDirPath := if bool_decide (subpath = []) then "."%go else subpath in
      let widest f := foldl (fun n e => Z.max n (len (f e : gostring))) 0 entries in
      let data := IndexData relDirPath entries (widest ie_Filename) 20 (widest ie_DisplayedSize) in
      content ← gets (view_Render "index"%go data);
      match content with
      | Ret content => Reply 200 (Some (reader_pieces content))
      | Throw _ => ReplyError 500
      | Panic => lift Panic
      | OutOfFuel => lift OutOfFuel
      end
  | Throw _ => ReplyError 500
  | Panic => lift Panic
  | OutOfFuel => lift OutOfFuel
  end.

(** The loop over the index files: the first that can be opened is served. *)
Fixpoint serve_index_files (filePath : gostring) (files : list gostring) (otherwise : M unit) : M unit :=
  match files with
  | [] => otherwise
  | indexFile :: files' =>
      let indexFilePath := path_Join filePath indexFile in
      match os_Stat indexFilePath, os_Open indexFilePath with
      | Ret (_, modTime), Ret body => ServeContent indexFilePath modTime body
      | _, _ => serve_index_files filePath files' otherwise
      end
  end.

(** The file of the system a request is for. *)
Definition serve_file_path (cfg : ServeActionCfg) (spec : MatchCfg) (ctx : RequestContext W A) : gostring :=
  let basePath := Expand (sv_Path cfg) (Vars ctx) in
  let subpath :=
    if bool_decide (Subpath ctx = []) && negb (HasPaths spec) then u_Path (Req_URL (Ctx_Request ctx))
    else Subpath ctx in
  path_Join basePath subpath.

Definition is_not_exist (e : error) : bool := errors_Is e fs_ErrNotExist.

(** [ServeAction.HandleRequest]; [spec] is the match configuration of its handler. *)
Definition ServeAction_HandleRequest (cfg : ServeActionCfg) (spec : MatchCfg) : M unit :=
  filePath ← gets (serve_file_path cfg spec);
  match os_Stat filePath with
  | Ret (mode, modTime) =>
      match mode with
      | ModeDir =>
          let otherwise : M unit :=
            if IndexView_Enabled cfg then serveIndexView filePath
            else ReplyError2 403 "directory access denied"%go in
          match IndexRedirectURI cfg with
          | Some uri =>
              vs ← gets Vars;
              redirect (IndexRedirectStatus cfg) (Expand uri vs) [] None
          | None => serve_index_files filePath (IndexFiles cfg) otherwise
          end
      | ModeOther => ReplyError2 403 "file access denied"%go
      | ModeRegular =>
          match os_Open filePath with
          | Ret body => ServeContent filePath modTime body
          | Throw e => if is_not_exist e then ReplyError2 404 "file not found"%go else ReplyError 500
          | Panic => lift Panic
          | OutOfFuel => lift OutOfFuel
          end
      end
  | Throw e =>
      if is_not_exist e then
        match FileNotFoundReply cfg with
        | None => ReplyError2 404 "file not found"%go
        | Some reply => ReplyAction_HandleRequest reply
        end
      else ReplyError 500
  | Panic => lift Panic
  | OutOfFuel => lift OutOfFuel
  end.
End actions.

(** ** Requests to an upstream server *)

Section proxy.
Context {W A : Type} `{GoUnicode}.
Implicit Type ctx : RequestContext W A.

Definition rfc2616Fields : list gostring :=
  ["Connection"%go; "Keep-Alive"%go; "Proxy-Authenticate"%go; "Proxy-Authorization"%go; "TE"%go;
   "Trailers"%go; "Transfer-Encoding"%go; "Upgrade"%go].

(** [for _, name := range names { header.Del(name) }] *)
Definition delete_fields (names : list gostring) (header : Header) : Header :=
  foldl Header_Del header names.

(** [deleteRequestHeaderHopByHopFields] *)
Definition deleteRequestHeaderHopByHopFields ctx (header : Header) : Header :=
  delete_fields rfc2616Fields (delete_fields (ConnectionOptions ctx) header).

(** [deleteRequestUserAgentField] *)
Definition deleteRequestUserAgentField (header : Header) : Header :=
  if bool_decide (Header_Get header "User-Agent"%go = []) then Header_Set header "User-Agent"%go []
  else header.

(** [setRequestHeaderForwardedFields]; a nil address is printed ["<nil>"]. *)
Definition setRequestHeaderForwardedFields ctx (header : Header) : Header :=
  let addrList := Header_Get header "X-Forwarded-For"%go in
  let addrList := AppendToTokenList addrList [IP_String (default [] (ClientAddress ctx))] in
  let header := Header_Set header "X-Forwarded-For"%go addrList in
  let header := Header_Set header "X-Forwarded-Host"%go (Ctx_Host ctx) in
  Header_Set header "X-Forwarded-Proto"%go (if Req_TLS (Ctx_Request ctx) then "https"%go else "http"%go).

(** [initRequestHeader], for the operations of the configuration. *)
Definition initRequestHeader (ops : list HeaderOp) ctx (header : Header) : Header :=
  let header := deleteRequestHeaderHopByHopFields ctx header in
  let header := deleteRequestUserAgentField header in
  let header := setRequestHeaderForwardedFields ctx header in
  HeaderOps_Apply ops header (Vars ctx).

(** [maybeSetConnectionUpgrade] *)
Definition maybeSetConnectionUpgrade ctx (header : Header) : Header :=
  if len (UpgradeProtocols ctx) =? 0 then header
  else Header_Set (Header_Set header "Connection"%go "upgrade"%go) "Upgrade"%go
         (Join (UpgradeProtocols ctx) ", "%go).

(** [rewriteRequest] and [maybeSetConnectionUpgrade]: the request sent upstream;
    [Clone] copies the header. *)
Definition rewriteRequest (ops : list HeaderOp) ctx (scheme address : gostring) : Request :=
  let req := Ctx_Request ctx in
  let url := mkURL scheme address (u_Path (Req_URL req)) (u_RawQuery (Req_URL req)) in
  mkRequest (Method req) url (Proto req) (ProtoMajor req) (ProtoMinor req)
    (initRequestHeader ops ctx (Req_Header req)) (Req_Host req) (RemoteAddr req) (Req_TLS req).

Definition upstream_request (ops : list HeaderOp) ctx (scheme address : gostring) : Request :=
  let req := rewriteRequest ops ctx scheme address in
  mkRequest (Method req) (Req_URL req) (Proto req) (ProtoMajor req) (ProtoMinor req)
    (maybeSetConnectionUpgrade ctx (Req_Header req)) (Req_Host req) (RemoteAddr req) (Req_TLS req).

(** [isConnectionUpgraded] *)
Definition isConnectionUpgraded ctx (StatusCode : Z) : bool :=
  if negb (StatusCode =? 101) then false
  else
    let connectionField := Header_Get (Req_Header (Ctx_Request ctx)) "Connection"%go in
    bool_decide ("upgrade"%go ∈ SplitTokenList connectionField true).

(** [initResponseHeader]: the fields of the upstream response, visited in the order
    [fields], are added to those already set. *)
Definition add_values (header : Header) (name : gostring) (values : list gostring) : Header :=
  foldl (fun h v => Header_Add h name v) header values.

Definition initResponseHeader (ops : list HeaderOp) ctx (fields : list (gostring * list gostring))
  (header : Header) : Header :=
  HeaderOps_Apply ops (foldl (fun h '(name, vs) => add_values h name vs) header fields) (Vars ctx).
End proxy.

(** ** FastCGI parameters *)

Record FastCGIActionCfg := mkFastCGICfg {
  fc_Parameters : gmap gostring gostring;
  fc_Path : gostring;
  DefaultScript : gostring
}.

(** [http.Request.BasicAuth]: the user name. *)
Definition request_BasicAuth (auth : gostring) : option gostring :=
  if (len auth <? 6) || negb (bool_decide (map lower_byte (take 6 auth) = "basic "%go)) then None
  else
    data ← base64_Decode (drop 6 auth);
    let '(username, _, ok) := Cut data ":"%char in
    if ok then Some username else None.

Definition header_parameter `{GoUnicode} (name : gostring) : gostring :=
  "HTTP_"%go ++ ToUpper (map (fun c => if bool_decide (c = "-"%char) then "_"%char else c) name).

Section fastcgi.
Context {W A : Type} `{GoUnicode}.
Implicit Type ctx : RequestContext W A.

(** The script and the path of a request: [scriptRE] is [FindString] of the regular
    expression of the configuration. *)
Definition script_and_path (cfg : FastCGIActionCfg) (scriptRE : option (gostring -> gostring))
  (subpath : gostring) : gostring * gostring :=
  let subpath := if bool_decide (subpath = []) then DefaultScript cfg else subpath in
  match scriptRE with
  | None => (subpath, "/"%go)
  | Some FindString =>
      let m := FindString ("/"%go ++ subpath) in
      if bool_decide (m = []) then (subpath, "/"%go)
      else (TrimPrefix m "/"%go, path_Join "/"%go (TrimPrefix subpath m))
  end.

(** The map of [requestParameters]; the loops over the request's header and the
    configuration visit them in the orders [fields] and [configured]. *)
Definition request_parameters (cfg : FastCGIActionCfg) (scriptRE : option (gostring -> gostring))
  (buildId : gostring) (serverPort reqBodySize : Z)
  (fields : list (gostring * list gostring)) (configured : list (gostring * gostring)) ctx
  : gmap gostring gostring :=
  let req := Ctx_Request ctx in
  let header := Req_Header req in
  let '(scriptName, pathInfo) := script_and_path cfg scriptRE (Subpath ctx) in
  let basePath := if bool_decide (fc_Path cfg = []) then "/"%go else fc_Path cfg in
  let addr := IP_String (default [] (ClientAddress ctx)) in
  let params : gmap gostring gostring := list_to_map [
    ("CONTENT_LENGTH"%go, Itoa reqBodySize);
    ("CONTENT_TYPE"%go, Header_Get header "Content-Type"%go);
    ("GATEWAY_INTERFACE"%go, "CGI/1.1"%go);
    ("PATH_INFO"%go, pathInfo);
    ("PATH_TRANSLATED"%go, path_Join basePath pathInfo);
    ("QUERY_STRING"%go, u_RawQuery (Req_URL req));
    ("REMOTE_ADDR"%go, addr);
    ("REMOTE_HOST"%go, addr);
    ("REQUEST_METHOD"%go, ToUpper (Method req));
    ("SCRIPT_NAME"%go, scriptName);
    ("SERVER_NAME"%go, Ctx_Host ctx);
    ("SERVER_PORT"%go, Itoa serverPort);
    ("SERVER_PROTOCOL"%go, Proto req);
    ("SERVER_SOFTWARE"%go, "boulevard/"%go ++ buildId);
    ("SCRIPT_FILENAME"%go, path_Join basePath scriptName)] in
  let authorization := Header_Get header "Authorization"%go in
  let params :=
    let '(scheme, _, ok) := Cut authorization " "%char in
    if ok then <["AUTH_TYPE"%go := scheme]> params else params in
  let params :=
    match request_BasicAuth authorization with
    | Some username => <["REMOTE_USER"%go := username]> params
    | None => params
    end in
  let params :=
    foldl (fun ps '(name, values) => <[header_parameter name := Join values ", "%go]> ps) params fields in
  foldl (fun ps '(name, value) => <[name := value]> ps) params configured.

(** [requestParameters]: the pairs in the order a range over the map gives. *)
Definition requestParameters `{MapRange} (cfg : FastCGIActionCfg) (scriptRE : option (gostring -> gostring))
  (buildId : gostring) (serverPort reqBodySize : Z) ctx : list (gostring * gostring) :=
  range_map (request_parameters cfg scriptRE buildId serverPort reqBodySize
    (range_map (Req_Header (Ctx_Request ctx))) (range_map (fc_Parameters cfg)) ctx).
End fastcgi.

(** ** Paths: lemmas *)

(** An element [path.Clean] keeps. *)
Definition normal (s : gostring) : Prop := s <> [] /\ s <> "."%go /\ s <> ".."%go /\ plain_segment s.

#[export] Instance normal_dec s : Decision (normal s).
Proof. unfold normal, plain_segment. apply _. Defined.

Definition kept (elem : gostring) : bool := negb (bool_decide (elem = []) || bool_decide (elem = "."%go)).

Lemma Split_lead s : Split (slash :: s) slash = [] :: Split s slash.
Proof. exact (Split_app [] slash s (not_elem_of_nil _)). Qed.

Lemma Split_Join_app es s :
  Forall plain_segment es -> es <> [] -> Split (Join es [slash] ++ slash :: s) slash = es ++ Split s slash.
Proof.
  intros Hp Hne. induction Hp as [|e es He Hp IH]; [done|].
  destruct es as [|e2 es]; [by rewrite Split_app|].
  rewrite Join_cons by done. rewrite <- !app_assoc. cbn [app]. rewrite Split_app by done.
  by rewrite IH.
Qed.

Lemma clean_no_dotdot rooted out es :
  Forall (fun e => e <> ".."%go) es ->
  foldl (clean_step rooted) out es = rev (List.filter kept es) ++ out.
Proof.
  intros Hf. revert out. induction Hf as [|e es He _ IH]; intros out; cbn [foldl List.filter]; [done|].
  rewrite IH. unfold clean_step, kept.
  destruct (bool_decide (e = []) || bool_decide (e = "."%go)); cbn [negb]; [done|].
  rewrite bool_decide_false by done. cbn [rev]. by rewrite <- app_assoc.
Qed.

Lemma filter_kept_normal es : Forall normal es -> List.filter kept es = es.
Proof.
  induction 1 as [|e es (H1 & H2 & _) _ IH]; [done|]. cbn [List.filter]. unfold kept at 1.
  rewrite !bool_decide_false by done. simpl. by rewrite IH.
Qed.

Lemma normal_plain es : Forall normal es -> Forall plain_segment es.
Proof. intros H. eapply Forall_impl; [exact H|]. by intros e (_ & _ & _ & ?). Qed.

Lemma normal_not_dotdot es : Forall normal es -> Forall (fun e => e <> ".."%go) es.
Proof. intros H. eapply Forall_impl; [exact H|]. by intros e (_ & _ & ? & _). Qed.

Lemma clean_pops n out : Forall normal out ->
  foldl (clean_step true) out (replicate n ".."%go) = drop n out.
Proof.
  revert out. induction n as [|n IH]; intros out Ho; cbn [replicate foldl]; [done|].
  unfold clean_step at 2. rewrite !(bool_decide_false (".."%go = _)) by done. cbn [orb].
  rewrite bool_decide_true by done. destruct Ho as [|o out (_ & _ & Hd & _) Ho].
  - rewrite IH by constructor. by destruct n.
  - rewrite bool_decide_false by done. by rewrite IH.
Qed.

(** The elements below an absolute base. *)
Lemma path_Join_elements bs sub :
  Forall normal bs -> bs <> [] ->
  path_Join (slash :: Join bs [slash]) sub
  = slash :: Join (rev (foldl (clean_step true) (rev bs) (Split sub slash))) [slash].
Proof.
  intros Hb Hne. unfold path_Join, path_Clean. rewrite bool_decide_false by done. cbn [app head].
  rewrite bool_decide_true by done.
  rewrite Split_lead.
  rewrite Split_Join_app by (by try apply normal_plain). cbn [foldl].
  rewrite foldl_app. f_equal. f_equal. f_equal. f_equal.
  assert (clean_step true [] [] = []) as -> by reflexivity.
  rewrite clean_no_dotdot by (by apply normal_not_dotdot).
  by rewrite filter_kept_normal, app_nil_r.
Qed.

(** ** The files a serve action gives access to *)

Section files.
Context {W A : Type}.
Implicit Type ctx : RequestContext W A.

(** What the action adds to the base path. *)
Definition requested (spec : MatchCfg) ctx : gostring :=
  if bool_decide (Subpath ctx = []) && negb (HasPaths spec) then u_Path (Req_URL (Ctx_Request ctx))
  else Subpath ctx.

(** A request without a [..] segment stays under the directory of the action:
    the file is the base path followed by the segments of the request, the empty
    ones and the [.] ones left out. *)
Theorem serve_path_confined cfg spec ctx bs :
  Forall normal bs -> bs <> [] ->
  Expand (sv_Path cfg) (Vars ctx) = slash :: Join bs [slash] ->
  ".."%go ∉ Split (requested spec ctx) slash ->
  serve_file_path cfg spec ctx
  = slash :: Join (bs ++ List.filter kept (Split (requested spec ctx) slash)) [slash].
Proof.
  intros Hb Hne Hbase Hdd. unfold serve_file_path. rewrite Hbase. fold (requested spec ctx).
  rewrite path_Join_elements by done. f_equal. f_equal.
  rewrite clean_no_dotdot; [by rewrite rev_app_distr, !rev_involutive|].
  apply Forall_forall. congruence.
Qed.

(** With as many [..] segments as the base path has, a request reaches any
    absolute path of the system: nothing keeps a serve action in its directory. *)
Theorem serve_path_traversal cfg spec ctx bs ts :
  Forall normal bs -> bs <> [] -> Forall normal ts -> ts <> [] ->
  Expand (sv_Path cfg) (Vars ctx) = slash :: Join bs [slash] ->
  requested spec ctx = slash :: Join (replicate (length bs) ".."%go ++ ts) [slash] ->
  serve_file_path cfg spec ctx = slash :: Join ts [slash].
Proof.
  intros Hb Hne Ht Htne Hbase Hreq. unfold serve_file_path. rewrite Hbase. fold (requested spec ctx).
  rewrite path_Join_elements by done. rewrite Hreq.
  rewrite Split_lead.
  rewrite Split_Join; cycle 1.
  { destruct (length bs); [by destruct ts|done]. }
  { apply Forall_app. split; [|by apply normal_plain]. apply Forall_replicate. by_decision. }
  cbn [foldl]. rewrite foldl_app.
  assert (clean_step true (rev bs) [] = rev bs) as -> by (by destruct (rev bs)).
  rewrite clean_pops by (by apply Forall_rev).
  rewrite drop_ge by (by rewrite length_rev). rewrite clean_no_dotdot by (by apply normal_not_dotdot).
  by rewrite filter_kept_normal, app_nil_r, rev_involutive by done.
Qed.
End files.

Definition www : FormatString := mkFormat "/srv/www"%go [PartConstant "/srv/www"%go] 8.

Definition www_cfg : ServeActionCfg := mkServeCfg www [] 0 None false None.

Definition path_context (path : gostring) : RequestContext unit unit :=
  mkContext (mkRequest "GET"%go (mkURL [] [] path []) "HTTP/1.1"%go 1 1 ∅ [] [] false)
    (NewResponseWriter tt) None None None None [] [] [] [] [] 0 ∅.

Lemma serve_path_confined_witness :
  serve_file_path www_cfg any_request (path_context "/a//./b"%go) = "/srv/www/a/b"%go.
Proof.
  exact (serve_path_confined www_cfg any_request (path_context "/a//./b"%go) ["srv"%go; "www"%go]
    ltac:(by_decision) ltac:(discriminate) eq_refl ltac:(by_decision)).
Defined.

Lemma serve_path_traversal_witness :
  serve_file_path www_cfg any_request (path_context "/../../etc/passwd"%go) = "/etc/passwd"%go.
Proof.
  exact (serve_path_traversal www_cfg any_request (path_context "/../../etc/passwd"%go)
    ["srv"%go; "www"%go] ["etc"%go; "passwd"%go]
    ltac:(by_decision) ltac:(discriminate) ltac:(by_decision) ltac:(discriminate) eq_refl eq_refl).
Defined.

(** ** The header sent to an upstream server *)

Section forwarding.
Context {W A : Type} `{GoUnicode}.
Implicit Type ctx : RequestContext W A.

(** A field a proxy must not forward: named by a connection option, or in the list
    of RFC 2616. *)
Definition hop_by_hop ctx (k : gostring) : Prop :=
  Exists (fun name => CanonicalKey name = CanonicalKey k) (ConnectionOptions ctx ++ rfc2616Fields).

#[export] Instance hop_by_hop_dec ctx k : Decision (hop_by_hop ctx k).
Proof. unfold hop_by_hop. apply _. Defined.

Lemma delete_fields_values names h k :
  Header_Values (delete_fields names h) k
  = if decide (Exists (fun name => CanonicalKey name = CanonicalKey k) names) then [] else Header_Values h k.
Proof.
  unfold delete_fields. revert h. induction names as [|n names IH]; intros h; cbn [foldl].
  - destruct (decide _) as [E|]; [by inversion E|done].
  - rewrite IH. destruct (decide (CanonicalKey n = CanonicalKey k)) as [E|E].
    + assert (Header_Values (Header_Del h n) k = []) as Hd.
      { rewrite <- (Values_canonical _ _ _ E). apply Values_Del_eq. }
      rewrite Hd. destruct (decide (Exists _ (n :: names))) as [|Hn]; [by destruct (decide _)|].
      destruct Hn. by left.
    + rewrite Values_Del_ne by done. destruct (decide (Exists _ names)) as [He|He];
        destruct (decide (Exists _ (n :: names))) as [Hn|Hn]; try done.
      * destruct Hn. by right.
      * inversion Hn; [done|]. done.
Qed.

Lemma hop_by_hop_values ctx h k :
  Header_Values (deleteRequestHeaderHopByHopFields ctx h) k
  = if decide (hop_by_hop ctx k) then [] else Header_Values h k.
Proof.
  unfold deleteRequestHeaderHopByHopFields. rewrite !delete_fields_values. unfold hop_by_hop.
  rewrite (decide_ext _ _ _ _ (Exists_app _ _ _)).
  repeat destruct (decide _); try done; tauto.
Qed.

Definition same_field (k name : gostring) : bool := bool_decide (CanonicalKey k = CanonicalKey name).

Lemma set_values h k name v :
  Header_Values (Header_Set h name v) k = if same_field k name then [v] else Header_Values h k.
Proof.
  unfold same_field. case_bool_decide as E.
  - rewrite (Values_canonical _ _ _ E). apply Values_Set_eq.
  - apply Values_Set_ne. congruence.
Qed.

(** What the proxy makes of a field by itself, before the operations of its
    configuration: a hop-by-hop field is dropped; the first value of
    [X-Forwarded-For] gets the address of the client appended; the other forwarding
    fields are those of the proxy whatever the client sent; a missing or empty
    [User-Agent] is sent as an empty one, which keeps Go from adding its own; any
    other field is the client's. *)
Definition forwarded_values ctx (k : gostring) : list gostring :=
  let kept := if decide (hop_by_hop ctx k) then [] else Header_Values (Req_Header (Ctx_Request ctx)) k in
  if same_field k "X-Forwarded-Proto"%go then [if Req_TLS (Ctx_Request ctx) then "https"%go else "http"%go]
  else if same_field k "X-Forwarded-Host"%go then [Ctx_Host ctx]
  else if same_field k "X-Forwarded-For"%go
  then [AppendToTokenList (default [] (head kept)) [IP_String (default [] (ClientAddress ctx))]]
  else if same_field k "User-Agent"%go && bool_decide (default [] (head kept) = []) then [[]]
  else kept.

Lemma hop_by_hop_canonical ctx k k' :
  CanonicalKey k = CanonicalKey k' -> hop_by_hop ctx k <-> hop_by_hop ctx k'.
Proof. intros E. unfold hop_by_hop. by rewrite E. Qed.

Lemma forwarded_values_spec ctx k :
  Header_Values (setRequestHeaderForwardedFields ctx (deleteRequestUserAgentField
    (deleteRequestHeaderHopByHopFields ctx (Req_Header (Ctx_Request ctx))))) k = forwarded_values ctx k.
Proof.
  set (h := deleteRequestHeaderHopByHopFields _ _).
  assert (forall k, Header_Values (deleteRequestUserAgentField h) k
    = if same_field k "User-Agent"%go && bool_decide (default [] (head (Header_Values h k)) = [])
      then [[]] else Header_Values h k) as Hua.
  { intros k'. unfold deleteRequestUserAgentField, Header_Get.
    destruct (same_field k' _) eqn:E; cbn [andb].
    - unfold same_field in E. bool_facts. rewrite <- !(Values_canonical _ _ _ E).
      case_bool_decide; [|done]. rewrite set_values. unfold same_field. by rewrite bool_decide_true.
    - case_bool_decide; [|done]. by rewrite set_values, E. }
  unfold setRequestHeaderForwardedFields, forwarded_values. rewrite !set_values. cbv zeta.
  rewrite <- hop_by_hop_values. fold h.
  destruct (same_field k "X-Forwarded-Proto"%go); [done|].
  destruct (same_field k "X-Forwarded-Host"%go); [done|].
  destruct (same_field k "X-Forwarded-For"%go) eqn:E; [|apply Hua].
  unfold Header_Get. rewrite Hua. unfold same_field in E. bool_facts. rewrite <- (Values_canonical _ _ _ E).
  by assert (same_field "X-Forwarded-For"%go "User-Agent"%go = false) as -> by (by vm_compute).
Qed.

(** [C28] The header of the request sent to an upstream server: the values of
    every field are those the proxy makes of it ([forwarded_values]: hop-by-hop
    fields dropped, forwarding fields set, a missing [User-Agent] kept missing, every
    other field the client's) followed by the operations of the configuration on that
    field, in their order; then, for an upgrade the client asked for and whatever is
    configured, [Connection] and [Upgrade] are those of the upgrade. *)
Theorem upstream_request_header ops ctx scheme address k :
  Header_Values (Req_Header (upstream_request ops ctx scheme address)) k
  = if negb (len (UpgradeProtocols ctx) =? 0) && same_field k "Connection"%go then ["upgrade"%go]
    else if negb (len (UpgradeProtocols ctx) =? 0) && same_field k "Upgrade"%go
    then [Join (UpgradeProtocols ctx) ", "%go]
    else foldl (op_effect (Vars ctx) k) (forwarded_values ctx k) ops.
Proof.
  unfold upstream_request, rewriteRequest, initRequestHeader, maybeSetConnectionUpgrade. cbn [Req_Header].
  destruct (len (UpgradeProtocols ctx) =? 0); cbn [negb andb].
  - by rewrite HeaderOps_Apply_field, forwarded_values_spec.
  - rewrite !set_values, HeaderOps_Apply_field, forwarded_values_spec.
    destruct (same_field k "Connection"%go) eqn:Ec, (same_field k "Upgrade"%go) eqn:Eu; try done.
    unfold same_field in *. bool_facts. by rewrite Ec in Eu.
Qed.
End forwarding.

(** The options of a second [Connection] line are not seen: the field they name is
    sent upstream. *)
Example second_connection_line_ignored :
  let header : Header :=
    <["Connection"%go := ["close"%go; "x-secret"%go]]> (<["X-Secret"%go := ["1"%go]]> ∅) in
  let ctx := NewRequestContext (A := unit) (H0 := ascii_only) 0 (example_request header) new_wire in
  Header_Values (Req_Header (upstream_request [] ctx "http"%go "upstream"%go)) "X-Secret"%go = ["1"%go].
Proof. by vm_compute. Qed.

(** ** FastCGI parameters: theorems *)

Section parameters.
Context {W A : Type} `{GoUnicode}.
Implicit Type ctx : RequestContext W A.

Lemma has_prefix_false s p c d : head s = Some c -> head p = Some d -> c <> d -> has_prefix s p = false.
Proof.
  destruct s as [|x s], p as [|y p]; try done. intros [= ->] [= ->] Hne. simpl.
  by rewrite bool_decide_false.
Qed.

(** What the script and the path of a FastCGI request are when the regular
    expression finds the script at the start of the subpath (which does not start
    with a slash): the script is what was found, but the script is not removed from
    the path, so that [PATH_INFO] is the whole subpath, script included. *)
Theorem script_and_path_found cfg FindString subpath script rest :
  subpath = script ++ rest -> head subpath <> None -> head subpath <> Some slash ->
  FindString ("/"%go ++ subpath) = "/"%go ++ script ->
  script_and_path cfg (Some FindString) subpath = (script, path_Join "/"%go subpath).
Proof.
  intros Hs Hne Hh Hf. unfold script_and_path.
  rewrite (bool_decide_false (subpath = [])) by (intros ->; done).
  rewrite Hf. rewrite bool_decide_false by done. f_equal.
  - unfold TrimPrefix. cbn [app has_prefix]. by destruct script.
  - f_equal. unfold TrimPrefix. destruct (head subpath) as [c|] eqn:E; [|done].
    rewrite (has_prefix_false _ _ c slash E); [done|done|congruence].
Qed.

(** The variables of RFC 3875 the server sets. *)
Definition meta_variables : list gostring :=
  ["CONTENT_LENGTH"%go; "CONTENT_TYPE"%go; "GATEWAY_INTERFACE"%go; "PATH_INFO"%go; "PATH_TRANSLATED"%go;
   "QUERY_STRING"%go; "REMOTE_ADDR"%go; "REMOTE_HOST"%go; "REQUEST_METHOD"%go; "SCRIPT_NAME"%go;
   "SERVER_NAME"%go; "SERVER_PORT"%go; "SERVER_PROTOCOL"%go; "SERVER_SOFTWARE"%go; "SCRIPT_FILENAME"%go].

Lemma foldl_insert_fields (fields : list (gostring * list gostring)) (ps : gmap gostring gostring) k :
  (forall n, header_parameter n <> k) ->
  foldl (fun ps '(name, values) => <[header_parameter name := Join values ", "%go]> ps) ps fields !! k = ps !! k.
Proof.
  intros Hk. revert ps. induction fields as [|[n vs] fields IH]; intros ps; cbn [foldl]; [done|].
  rewrite IH. by apply lookup_insert_ne.
Qed.

Lemma foldl_insert_configured (configured : list (gostring * gostring)) (ps : gmap gostring gostring) k :
  k ∉ configured.*1 ->
  foldl (fun ps '(name, value) => <[name := value]> ps) ps configured !! k = ps !! k.
Proof.
  revert ps. induction configured as [|[n v] l IH]; intros ps Hk; cbn [foldl]; [done|].
  cbn in Hk. apply not_elem_of_cons in Hk as [Hn Hk]. rewrite IH by done. by apply lookup_insert_ne.
Qed.

Lemma meta_not_header k n : k ∈ meta_variables -> header_parameter n <> k.
Proof.
  intros Hk E. assert (take 5 k = "HTTP_"%go) as Ht by (by rewrite <- E).
  assert (Forall (fun k => take 5 k <> "HTTP_"%go) meta_variables) as Hall by by_decision.
  rewrite Forall_forall in Hall. by eapply Hall.
Qed.

(** The variables of a FastCGI request cannot be forged by its header: one that
    the configuration does not set has the value of a request with the same method,
    target, address, host and standard fields, whatever other fields the client adds. *)
Theorem request_parameters_meta cfg scriptRE buildId port size fields fields' configured ctx k :
  k ∈ meta_variables -> k ∉ configured.*1 ->
  request_parameters cfg scriptRE buildId port size fields configured ctx !! k
  = request_parameters cfg scriptRE buildId port size fields' [] ctx !! k
  /\ is_Some (request_parameters cfg scriptRE buildId port size fields configured ctx !! k).
Proof.
  intros Hk Hc. unfold request_parameters.
  destruct (script_and_path cfg scriptRE (Subpath ctx)) as [script info].
  rewrite !foldl_insert_configured by (done || apply not_elem_of_nil).
  rewrite !foldl_insert_fields by (intros; by apply meta_not_header). split; [done|].
  assert (Forall (fun k => k <> "AUTH_TYPE"%go /\ k <> "REMOTE_USER"%go) meta_variables) as Hm by by_decision.
  rewrite Forall_forall in Hm. destruct (Hm k Hk) as [Ha Hr].
  assert (forall l : list (gostring * gostring), k ∈ l.*1 -> is_Some ((list_to_map l : gmap gostring gostring) !! k)) as Hl.
  { intros l Hin. destruct (list_to_map l !! k) eqn:E; [by eexists|]. by apply not_elem_of_list_to_map in E. }
  destruct (Cut _ " "%char) as [[auth rest] ok].
  destruct (request_BasicAuth _); destruct ok; rewrite ?lookup_insert_ne by congruence;
    apply Hl; cbn [fmap list_fmap fst]; exact Hk.
Qed.
End parameters.

Lemma script_and_path_found_witness :
  script_and_path (mkFastCGICfg ∅ [] []) (Some (fun _ => "/index.php"%go)) "index.php/users"%go
  = ("index.php"%go, "/index.php/users"%go).
Proof.
  exact (script_and_path_found (mkFastCGICfg ∅ [] []) (fun _ => "/index.php"%go) "index.php/users"%go
    "index.php"%go "/users"%go eq_refl ltac:(discriminate) ltac:(discriminate) eq_refl).
Defined.

Lemma request_parameters_meta_witness :
  is_Some (request_parameters (H := ascii_only) (mkFastCGICfg ∅ [] "index.php"%go) None "1"%go 80 0
    [("Proxy"%go, ["x"%go])] [] (path_context "/a"%go) !! "SERVER_PORT"%go).
Proof.
  exact (proj2 (request_parameters_meta (H := ascii_only) (mkFastCGICfg ∅ [] "index.php"%go) None "1"%go 80 0
    [("Proxy"%go, ["x"%go])] [] [] (path_context "/a"%go) "SERVER_PORT"%go
    ltac:(by_decision) (not_elem_of_nil _))).
Defined.

(** ** The actions answer *)

Section answering.
Context `{GoUnicode, GoText, !ActionEnv Wire Auth}.

(** The calls to the system and to the libraries end, and [http.ServeContent] sends
    a final status. *)
Class ActionEnvEnds := {
  view_Render_ends : forall name data (ctx : RequestContext Wire Auth), view_Render name data ctx <> OutOfFuel;
  os_Stat_ends : forall p, os_Stat (W := Wire) (A := Auth) p <> OutOfFuel;
  os_Open_ends : forall p, os_Open (W := Wire) (A := Auth) p <> OutOfFuel;
  os_ReadDir_ends : forall p, os_ReadDir (W := Wire) (A := Auth) p <> OutOfFuel;
  ServeContent_answers : forall name modTime content, answers (ServeContent name modTime content)
}.

(** A status of a configuration: 0 when it is not set, or a validated status. *)
Definition status_ok (status : Z) : Prop := status = 0 \/ 200 <= status <= 599.

Lemma silent_gets {B} (f : RequestContext Wire Auth -> B) : silent (gets f).
Proof. by intros ctx Hs. Qed.

Lemma silent_set_var name value : silent (modify (set_var (W := Wire) (A := Auth) name value)).
Proof. by intros ctx Hs. Qed.

Lemma silent_apply_header ops : silent (apply_header (W := Wire) (A := Auth) ops).
Proof. by intros ctx Hs. Qed.

Lemma answers_panic : answers (lift Panic).
Proof. intros ctx Hs. by left. Qed.

Lemma answers_error status : 400 <= status <= 599 -> answers (ReplyError status).
Proof. intros Hs. apply answers_ReplyError2. right. lia. Qed.

Create HintDb answers.
#[local] Hint Resolve silent_gets silent_set_var silent_apply_header silent_change_header answers_panic : answers.

Lemma answers_ReplyAction cfg : status_ok (ra_Status cfg) -> answers (ReplyAction_HandleRequest cfg).
Proof.
  intros Hs. unfold ReplyAction_HandleRequest. apply silent_bind; [auto with answers|]. intros [].
  apply silent_bind; [auto with answers|]. intros vs. apply answers_Reply.
  unfold status_ok, final_status in *. destruct (ra_Status cfg =? 0) eqn:E; bool_facts; simpl; lia.
Qed.

Lemma answers_redirect `{!ActionEnvEnds} status uri header body :
  status_ok status -> answers (redirect status uri header body).
Proof.
  intros Hs. unfold redirect.
  assert (final_status (if status =? 0 then 302 else status)) as Hf.
  { unfold status_ok, final_status in *. destruct (status =? 0) eqn:E; bool_facts; lia. }
  destruct (url_Parse uri) as [u|]; [|apply answers_error; lia].
  apply silent_bind; [auto with answers|intros []]. apply silent_bind; [auto with answers|intros []].
  apply silent_bind; [auto with answers|intros []]. apply silent_bind; [auto with answers|intros m].
  destruct (bool_decide _); [|by apply answers_Reply].
  destruct body as [fs|]; [apply silent_bind; [auto with answers|]; intros vs; by apply answers_Reply|].
  apply silent_bind; [auto with answers|intros []].
  intros ctx Hc. unfold mbind, st_bind, gets.
  destruct (view_Render _ _ ctx) as [data|e| |] eqn:E.
  - by apply answers_Reply.
  - apply answers_error; [lia|done].
  - by left.
  - by apply view_Render_ends in E.
Qed.

Lemma answers_serveIndexView `{!ActionEnvEnds} dirPath : answers (serveIndexView dirPath).
Proof.
  unfold serveIndexView, readIndexEntries. destruct (os_ReadDir dirPath) as [des|e| |] eqn:E.
  - apply silent_bind; [auto with answers|intros subpath]. intros ctx Hc. unfold mbind, st_bind, gets.
    destruct (view_Render _ _ ctx) as [data|e| |] eqn:Er.
    + apply answers_Reply; [right; lia|done].
    + apply answers_error; [lia|done].
    + by left.
    + by apply view_Render_ends in Er.
  - apply answers_error. lia.
  - apply answers_panic.
  - by apply os_ReadDir_ends in E.
Qed.

Lemma answers_index_files `{!ActionEnvEnds} filePath fs otherwise :
  answers otherwise -> answers (serve_index_files filePath fs otherwise).
Proof.
  intros Ho. induction fs as [|f fs IH]; cbn [serve_index_files]; [done|].
  destruct (os_Stat _) as [[mode t]|e| |]; try done. destruct (os_Open _); try done.
  apply ServeContent_answers.
Qed.

(** The built-in actions answer: with statuses as the configuration validates
    them, a fixed reply ([answers_ReplyAction]), a redirection and the service of a file
    send a final status, whatever the files of the system are and whatever errors there
    are, or panic before they send anything. *)
Lemma answers_RedirectAction `{!ActionEnvEnds} cfg : status_ok (rd_Status cfg) -> answers (RedirectAction_HandleRequest cfg).
Proof.
  intros Hs. unfold RedirectAction_HandleRequest. apply silent_bind; [auto with answers|].
  intros vs. by apply answers_redirect.
Qed.

Lemma answers_ServeAction `{!ActionEnvEnds} cfg spec :
  status_ok (IndexRedirectStatus cfg) -> (forall r, FileNotFoundReply cfg = Some r -> status_ok (ra_Status r)) ->
  answers (ServeAction_HandleRequest cfg spec).
Proof.
  intros Hs Hr. unfold ServeAction_HandleRequest.
  apply silent_bind; [auto with answers|]. intros filePath.
  destruct (os_Stat filePath) as [[mode modTime]|e| |] eqn:E.
  - destruct mode.
    + destruct (IndexRedirectURI cfg) as [uri|].
      { apply silent_bind; [auto with answers|]. intros vs. by apply answers_redirect. }
      apply answers_index_files. destruct (IndexView_Enabled cfg); [apply answers_serveIndexView|].
      apply answers_ReplyError2. right; lia.
    + destruct (os_Open filePath) as [body|e| |] eqn:Eo.
      * apply ServeContent_answers.
      * destruct (is_not_exist e); [apply answers_ReplyError2; right; lia|apply answers_error; lia].
      * apply answers_panic.
      * by apply os_Open_ends in Eo.
    + apply answers_ReplyError2. right; lia.
  - destruct (is_not_exist e); [|apply answers_error; lia].
    destruct (FileNotFoundReply cfg) as [r|] eqn:Ef; [apply answers_ReplyAction; by apply Hr|].
    apply answers_ReplyError2. right; lia.
  - apply answers_panic.
  - by apply os_Stat_ends in E.
Qed.
End answering.

(** An environment with one file. *)
#[local] Instance one_file : ActionEnv Wire Auth := {
  url_Parse s := Some (mkURL [] [] s []);
  view_Render _ _ _ := Ret "view"%go;
  os_Stat p := if bool_decide (p = "/srv/www/a"%go) then Ret (ModeRegular, 0) else Throw fs_ErrNotExist;
  os_Open p := Ret "content"%go;
  os_ReadDir p := Ret [];
  format_2f _ _ := [];
  ServeContent _ _ content := Reply 200 (Some [content])
}.

#[local] Instance one_file_ends : ActionEnvEnds.
Proof.
  split; try done.
  - intros p. simpl. by destruct (bool_decide _).
  - intros. apply answers_Reply. right; lia.
Qed.
