(* ===== verification/FcgiProtocol.v ===== *)
(** * FastCGI records (pkg/fastcgi/protocol.go)

    The enumerations of the protocol with their codes, name-value pairs with
    their one- or four-byte lengths, the discrete bodies as instances of the Go
    interface [DiscreteBody], and records with their eight-byte header. *)

From S2P Require Import Prelude GoStrings.

(** ** Big-endian integers ([encoding/binary]) *)

Definition PutUint16 (v : Z) : list ascii := [byte_of (v / 2 ^ 8); byte_of v].
Definition PutUint32 (v : Z) : list ascii :=
  [byte_of (v / 2 ^ 24); byte_of (v / 2 ^ 16); byte_of (v / 2 ^ 8); byte_of v].
Definition Uint16 (b0 b1 : byte) : Z := bval b0 * 2 ^ 8 + bval b1.
Definition Uint32 (b0 b1 b2 b3 : byte) : Z :=
  bval b0 * 2 ^ 24 + bval b1 * 2 ^ 16 + bval b2 * 2 ^ 8 + bval b3.

(** ** Enumerations *)

Inductive RecordType :=
  | RecordTypeBeginRequest
  | RecordTypeAbortRequest
  | RecordTypeEndRequest
  | RecordTypeParams
  | RecordTypeStdin
  | RecordTypeStdout
  | RecordTypeStderr
  | RecordTypeData
  | RecordTypeGetValues
  | RecordTypeGetValuesResult
  | RecordTypeUnknownType.

#[export] Instance RecordType_eq_dec : EqDecision RecordType.
Proof. solve_decision. Defined.

Definition RecordType_Encode (t : RecordType) : Z :=
  match t with
  | RecordTypeBeginRequest => 1
  | RecordTypeAbortRequest => 2
  | RecordTypeEndRequest => 3
  | RecordTypeParams => 4
  | RecordTypeStdin => 5
  | RecordTypeStdout => 6
  | RecordTypeStderr => 7
  | RecordTypeData => 8
  | RecordTypeGetValues => 9
  | RecordTypeGetValuesResult => 10
  | RecordTypeUnknownType => 11
  end.

Definition RecordType_Decode (value : Z) : outcome RecordType :=
  if value =? 1 then Ret RecordTypeBeginRequest
  else if value =? 2 then Ret RecordTypeAbortRequest
  else if value =? 3 then Ret RecordTypeEndRequest
  else if value =? 4 then Ret RecordTypeParams
  else if value =? 5 then Ret RecordTypeStdin
  else if value =? 6 then Ret RecordTypeStdout
  else if value =? 7 then Ret RecordTypeStderr
  else if value =? 8 then Ret RecordTypeData
  else if value =? 9 then Ret RecordTypeGetValues
  else if value =? 10 then Ret RecordTypeGetValuesResult
  else if value =? 11 then Ret RecordTypeUnknownType
  else Throw (Errorf "invalid record type"%go).

Inductive Role := RoleResponder | RoleAuthorizer | RoleFilter.

#[export] Instance Role_eq_dec : EqDecision Role.
Proof. solve_decision. Defined.

Definition Role_Encode (r : Role) : Z :=
  match r with
  | RoleResponder => 1
  | RoleAuthorizer => 2
  | RoleFilter => 3
  end.

Definition Role_Decode (value : Z) : outcome Role :=
  if value =? 1 then Ret RoleResponder
  else if value =? 2 then Ret RoleAuthorizer
  else if value =? 3 then Ret RoleFilter
  else Throw (Errorf "invalid role"%go).

Inductive ProtocolStatus :=
  | ProtocolStatusRequestComplete
  | ProtocolStatusCannotMultiplexConnection
  | ProtocolStatusOverloaded
  | ProtocolStatusUnknownRole.

#[export] Instance ProtocolStatus_eq_dec : EqDecision ProtocolStatus.
Proof. solve_decision. Defined.

Definition ProtocolStatus_Encode (p : ProtocolStatus) : Z :=
  match p with
  | ProtocolStatusRequestComplete => 0
  | ProtocolStatusCannotMultiplexConnection => 1
  | ProtocolStatusOverloaded => 2
  | ProtocolStatusUnknownRole => 3
  end.

Definition ProtocolStatus_Decode (value : Z) : outcome ProtocolStatus :=
  if value =? 0 then Ret ProtocolStatusRequestComplete
  else if value =? 1 then Ret ProtocolStatusCannotMultiplexConnection
  else if value =? 2 then Ret ProtocolStatusOverloaded
  else if value =? 3 then Ret ProtocolStatusUnknownRole
  else Throw (Errorf "invalid protocol status"%go).

(** ** Name-value pairs *)

Record NameValuePair := mkPair { Name : gostring; Value : gostring }.

#[export] Instance NameValuePair_eq_dec : EqDecision NameValuePair.
Proof. solve_decision. Defined.

Definition MaxUint32 : Z := 2 ^ 32 - 1.
Definition MaxUint16 : Z := 2 ^ 16 - 1.

(** [writeLength]: one byte below 128, else four with the top bit set. *)
Definition writeLength (n : Z) : outcome (list ascii) :=
  if MaxUint32 <? n then Throw (Errorf "cannot encode length"%go)
  else if n <? 128 then Ret [byte_of n]
  else match PutUint32 (u32 n) with
       | d0 :: ds => Ret (byte_of (Z.lor (bval d0) 128) :: ds)
       | [] => Panic
       end.

Definition NameValuePair_Encode (p : NameValuePair) : outcome (list ascii) :=
  l1 ← writeLength (len (Name p));
  l2 ← writeLength (len (Value p));
  Ret (l1 ++ l2 ++ Name p ++ Value p).

(** [readLength]: the length and the data after it. *)
Definition readLength (data : list ascii) : outcome (Z * list ascii) :=
  match data with
  | [] => Throw (Errorf "truncated length"%go)
  | d0 :: rest =>
      if Z.land (bval d0) 128 =? 0 then Ret (bval d0, rest)
      else match rest with
           | d1 :: d2 :: d3 :: rest' =>
               Ret (Uint32 (byte_of (Z.land (bval d0) 127)) d1 d2 d3, rest')
           | _ => Throw (Errorf "truncated 4-byte length"%go)
           end
  end.

(** [data[:n]] and [data[n:]], with Go's bounds check. *)
Definition slice_at (data : list ascii) (n : Z) : outcome (list ascii * list ascii) :=
  if n <=? len data then Ret (take (Z.to_nat n) data, drop (Z.to_nat n) data) else Panic.

Definition NameValuePair_Decode (data : list ascii) : outcome (NameValuePair * list ascii) :=
  '(nameLength, data) ← readLength data;
  '(valueLength, data) ← readLength data;
  if u32 (len data) <? nameLength then Throw (Errorf "truncated name"%go)
  else
    '(name, data) ← slice_at data nameLength;
    if u32 (len data) <? valueLength then Throw (Errorf "truncated value"%go)
    else
      '(value, data) ← slice_at data valueLength;
      Ret (mkPair name value, data).

Fixpoint NameValuePairs_Encode (ps : list NameValuePair) : outcome (list ascii) :=
  match ps with
  | [] => Ret []
  | p :: ps' =>
      buf ← NameValuePair_Encode p;
      rest ← NameValuePairs_Encode ps';
      Ret (buf ++ rest)
  end.

(** The loop of [NameValuePairs.Decode]; [ps] holds the pairs appended so far. *)
Fixpoint pairs_Decode_loop (fuel : nat) (ps : list NameValuePair) (data : list ascii)
  : outcome (list NameValuePair) :=
  match data with
  | [] => Ret ps
  | _ =>
      match fuel with
      | O => OutOfFuel
      | S fuel' =>
          '(p, data') ← NameValuePair_Decode data;
          pairs_Decode_loop fuel' (ps ++ [p]) data'
      end
  end.

Definition NameValuePairs_Decode (ps : list NameValuePair) (data : list ascii)
  : outcome (list NameValuePair) :=
  pairs_Decode_loop (length data) ps data.

(** ** Discrete bodies *)

(** The Go interface: [Decode] updates its receiver. *)
Class DiscreteBody (B : Type) := {
  Encode : B -> outcome (list ascii);
  Decode : B -> list ascii -> outcome B
}.

Record BeginRequestBody := mkBeginRequestBody { br_Role : Role; KeepConnection : bool }.
Record AbortRequestBody := mkAbortRequestBody { }.
Record EndRequestBody := mkEndRequestBody { AppStatus : Z; er_ProtocolStatus : ProtocolStatus }.
Record GetValuesBody := mkGetValuesBody { Names : list gostring }.
Record GetValuesResultBody := mkGetValuesResultBody { Pairs : list NameValuePair }.
Record UnknownTypeBody := mkUnknownTypeBody { ut_Type : Z }.

Definition BeginRequestBody_Encode (body : BeginRequestBody) : outcome (list ascii) :=
  let flags := if KeepConnection body then Z.lor 0 1 else 0 in
  Ret (PutUint16 (Role_Encode (br_Role body)) ++ [byte_of flags] ++ replicate 5 (byte_of 0)).

Definition BeginRequestBody_Decode (body : BeginRequestBody) (data : list ascii)
  : outcome BeginRequestBody :=
  match data with
  | [d0; d1; d2; _; _; _; _; _] =>
      role ← Role_Decode (Uint16 d0 d1);
      Ret (mkBeginRequestBody role
             (if negb (Z.land (bval d2) 1 =? 0) then true else KeepConnection body))
  | _ => Throw (Errorf "invalid body length"%go)
  end.

Definition AbortRequestBody_Encode (body : AbortRequestBody) : outcome (list ascii) := Ret [].
Definition AbortRequestBody_Decode (body : AbortRequestBody) (data : list ascii)
  : outcome AbortRequestBody := Ret body.

Definition EndRequestBody_Encode (body : EndRequestBody) : outcome (list ascii) :=
  Ret (PutUint32 (AppStatus body)
       ++ [byte_of (ProtocolStatus_Encode (er_ProtocolStatus body))] ++ replicate 3 (byte_of 0)).

Definition EndRequestBody_Decode (body : EndRequestBody) (data : list ascii)
  : outcome EndRequestBody :=
  match data with
  | [d0; d1; d2; d3; d4; _; _; _] =>
      status ← ProtocolStatus_Decode (bval d4);
      Ret (mkEndRequestBody (Uint32 d0 d1 d2 d3) status)
  | _ => Throw (Errorf "invalid body length"%go)
  end.

Definition GetValuesBody_Encode (body : GetValuesBody) : outcome (list ascii) :=
  NameValuePairs_Encode (map (fun name => mkPair name []) (Names body)).

Definition GetValuesBody_Decode (body : GetValuesBody) (data : list ascii)
  : outcome GetValuesBody :=
  pairs ← NameValuePairs_Decode [] data;
  Ret (mkGetValuesBody (map Name pairs)).

Definition GetValuesResultBody_Encode (body : GetValuesResultBody) : outcome (list ascii) :=
  NameValuePairs_Encode (Pairs body).

Definition GetValuesResultBody_Decode (body : GetValuesResultBody) (data : list ascii)
  : outcome GetValuesResultBody :=
  mkGetValuesResultBody <$> NameValuePairs_Decode (Pairs body) data.

Definition UnknownTypeBody_Encode (body : UnknownTypeBody) : outcome (list ascii) :=
  Ret (byte_of (ut_Type body) :: replicate 7 (byte_of 0)).

Definition UnknownTypeBody_Decode (body : UnknownTypeBody) (data : list ascii)
  : outcome UnknownTypeBody :=
  match data with
  | [d0; _; _; _; _; _; _; _] => Ret (mkUnknownTypeBody (bval d0))
  | _ => Throw (Errorf "invalid body length"%go)
  end.

#[export] Instance BeginRequest_discrete : DiscreteBody BeginRequestBody :=
  {| Encode := BeginRequestBody_Encode; Decode := BeginRequestBody_Decode |}.
#[export] Instance AbortRequest_discrete : DiscreteBody AbortRequestBody :=
  {| Encode := AbortRequestBody_Encode; Decode := AbortRequestBody_Decode |}.
#[export] Instance EndRequest_discrete : DiscreteBody EndRequestBody :=
  {| Encode := EndRequestBody_Encode; Decode := EndRequestBody_Decode |}.
#[export] Instance GetValues_discrete : DiscreteBody GetValuesBody :=
  {| Encode := GetValuesBody_Encode; Decode := GetValuesBody_Decode |}.
#[export] Instance GetValuesResult_discrete : DiscreteBody GetValuesResultBody :=
  {| Encode := GetValuesResultBody_Encode; Decode := GetValuesResultBody_Decode |}.
#[export] Instance UnknownType_discrete : DiscreteBody UnknownTypeBody :=
  {| Encode := UnknownTypeBody_Encode; Decode := UnknownTypeBody_Decode |}.

(** ** Records *)

(** [Record.Body any]: nil, a byte slice, or one of the discrete bodies. *)
Inductive Body :=
  | BodyNil
  | BodyBytes (data : list ascii)
  | BodyBeginRequest (body : BeginRequestBody)
  | BodyAbortRequest (body : AbortRequestBody)
  | BodyEndRequest (body : EndRequestBody)
  | BodyGetValues (body : GetValuesBody)
  | BodyGetValuesResult (body : GetValuesResultBody)
  | BodyUnknownType (body : UnknownTypeBody).

Record FcgiRecord := mkRecord {
  Version : Z;
  rec_Type : RecordType;
  RequestId : Z;
  rec_Body : Body
}.

(** The [case DiscreteBody] of [Record.Write]. *)
Definition discrete_data {B} `{DiscreteBody B} (body : B) : outcome (list ascii) :=
  data ← wrap_error "cannot encode body"%go (Encode body);
  if MaxUint16 <? len data then Throw (Errorf "body too large"%go) else Ret data.

Definition body_data (body : Body) : outcome (list ascii) :=
  match body with
  | BodyNil => Ret []
  | BodyBytes data => Ret data
  | BodyBeginRequest b => discrete_data b
  | BodyAbortRequest b => discrete_data b
  | BodyEndRequest b => discrete_data b
  | BodyGetValues b => discrete_data b
  | BodyGetValuesResult b => discrete_data b
  | BodyUnknownType b => discrete_data b
  end.

(** [Record.Write]: the bytes handed to the writer in one [net.Buffers]. *)
Definition Record_Write (r : FcgiRecord) : outcome (list ascii) :=
  bodyData ← body_data (rec_Body r);
  let header :=
    [byte_of (Version r); byte_of (RecordType_Encode (rec_Type r))]
    ++ PutUint16 (RequestId r)
    ++ PutUint16 (u16 (len bodyData))
    ++ [byte_of 0; byte_of 0] in
  Ret (header ++ bodyData).

(** The incoming half of a connection: the bytes the peer sends, then the error
    every later read returns ([io.EOF] when the peer closes). *)
Record Incoming := mkIncoming { in_data : list ascii; in_end : error }.

(** [io.ReadFull] of [n] bytes. *)
Definition ReadFull (n : nat) (r : Incoming) : outcome (list ascii * Incoming) :=
  if (n <=? length (in_data r))%nat then
    Ret (take n (in_data r), mkIncoming (drop n (in_data r)) (in_end r))
  else if bool_decide (in_data r <> []) && bool_decide (in_end r = io_EOF)
  then Throw io_ErrUnexpectedEOF
  else Throw (in_end r).

(** [netutils.UnwrapOpError] (pkg/netutils/misc.go): only the first [OpError]
    of the chain is looked at. *)
Fixpoint find_op_error (e : error) : option (gostring * error) :=
  match e with
  | OpError op e' => Some (op, e')
  | Wrapf _ e' | URLError e' => find_op_error e'
  | _ => None
  end.
Definition UnwrapOpError (err : error) (name : gostring) : error :=
  match find_op_error err with
  | Some (op, e) => if bool_decide (op = name) then e else err
  | None => err
  end.

Definition read_error {A} (msg : gostring) (m : outcome A) : outcome A :=
  match m with
  | Throw e => Throw (Wrapf msg (UnwrapOpError e "read"%go))
  | m => m
  end.

(** The body [Record.Read] allocates for a record type and fills by [Decode]. *)
Definition decode_body (t : RecordType) (data : list ascii) : outcome Body :=
  match t with
  | RecordTypeBeginRequest =>
      BodyBeginRequest <$> Decode (mkBeginRequestBody RoleResponder false) data
  | RecordTypeAbortRequest => BodyAbortRequest <$> Decode mkAbortRequestBody data
  | RecordTypeEndRequest =>
      BodyEndRequest <$> Decode (mkEndRequestBody 0 ProtocolStatusRequestComplete) data
  | RecordTypeParams | RecordTypeStdin | RecordTypeStdout | RecordTypeStderr
  | RecordTypeData => Ret (BodyBytes data)
  | RecordTypeGetValues => BodyGetValues <$> Decode (mkGetValuesBody []) data
  | RecordTypeGetValuesResult => BodyGetValuesResult <$> Decode (mkGetValuesResultBody []) data
  | RecordTypeUnknownType => BodyUnknownType <$> Decode (mkUnknownTypeBody 0) data
  end.

(** [Record.Read] *)
Definition Record_Read (reader : Incoming) : outcome (FcgiRecord * Incoming) :=
  '(header, reader) ← read_error "cannot read header"%go (ReadFull 8 reader);
  match header with
  | [h0; h1; h2; h3; h4; h5; h6; _] =>
      if negb (bval h0 =? 1) then Throw (Errorf "unhandled version"%go)
      else
        t ← RecordType_Decode (bval h1);
        let contentLength := Uint16 h4 h5 in
        let bodyLength := contentLength + bval h6 in
        '(bodyData, reader) ←
          read_error "cannot read body"%go (ReadFull (Z.to_nat bodyLength) reader);
        let bodyData := take (Z.to_nat contentLength) bodyData in
        body ← wrap_error "cannot decode body of record"%go (decode_body t bodyData);
        Ret (mkRecord (bval h0) t (Uint16 h2 h3) body, reader)
  | _ => Panic
  end.

(** ** Integers *)

Lemma Uint16_Put v : 0 <= v < 2 ^ 16 -> Uint16 (byte_of (v / 2 ^ 8)) (byte_of v) = v.
Proof.
  intros H. unfold Uint16. rewrite !bval_byte_of.
  rewrite (Z.mod_small (v / 2 ^ 8)) by (split; [apply Z.div_pos; lia | apply Z.div_lt_upper_bound; lia]).
  change 256 with (2 ^ 8). pose proof (Z.div_mod v (2 ^ 8)). lia.
Qed.

Lemma Uint16_range b0 b1 : 0 <= Uint16 b0 b1 < 2 ^ 16.
Proof. unfold Uint16. pose proof (bval_range b0). pose proof (bval_range b1). lia. Qed.

Lemma Uint32_Put v :
  0 <= v < 2 ^ 32 ->
  Uint32 (byte_of (v / 2 ^ 24)) (byte_of (v / 2 ^ 16)) (byte_of (v / 2 ^ 8)) (byte_of v) = v.
Proof.
  intros H. unfold Uint32. rewrite !bval_byte_of.
  rewrite (Z.mod_small (v / 2 ^ 24)) by (split; [apply Z.div_pos; lia | apply Z.div_lt_upper_bound; lia]).
  change (2 ^ 24) with (2 ^ 8 * (2 ^ 8 * 2 ^ 8)). change (2 ^ 16) with (2 ^ 8 * 2 ^ 8).
  rewrite <- !Z.div_div by lia. change 256 with (2 ^ 8).
  pose proof (Z.div_mod v (2 ^ 8)). pose proof (Z.div_mod (v / 2 ^ 8) (2 ^ 8)).
  pose proof (Z.div_mod (v / 2 ^ 8 / 2 ^ 8) (2 ^ 8)). lia.
Qed.

(** The flag bit of a length byte. *)
Lemma flag_test c : (Z.land (bval c) 128 =? 0) = (bval c <? 128).
Proof.
  all_bytes_fact (fun c => Bool.eqb (Z.land (bval c) 128 =? 0) (bval c <? 128)) c H.
  by apply eqb_prop in H.
Qed.

Lemma flag_set c :
  bval (byte_of (Z.lor (bval c) 128)) = bval c mod 128 + 128.
Proof.
  all_bytes_fact (fun c => bval (byte_of (Z.lor (bval c) 128)) =? bval c mod 128 + 128) c H.
  by apply Z.eqb_eq in H.
Qed.

Lemma flag_clear c : bval (byte_of (Z.land (bval c) 127)) = bval c mod 128.
Proof.
  all_bytes_fact (fun c => bval (byte_of (Z.land (bval c) 127)) =? bval c mod 128) c H.
  by apply Z.eqb_eq in H.
Qed.

(** ** Lengths and pairs *)

(** What [readLength] recovers of the [n] given to [writeLength]: the encoding
    keeps 31 bits, although [writeLength] takes up to 32. *)
Lemma readLength_writeLength n rest :
  0 <= n <= MaxUint32 ->
  exists l, writeLength n = Ret l /\ readLength (l ++ rest) = Ret (n mod 2 ^ 31, rest).
Proof.
  unfold MaxUint32. intros Hn. unfold writeLength, MaxUint32.
  rewrite (proj2 (Z.ltb_ge _ _)) by lia.
  destruct (Z.ltb_spec n 128) as [Hs|Hl].
  - eexists. split; [done|]. simpl. rewrite flag_test, bval_byte_of, Z.mod_small by lia.
    rewrite (proj2 (Z.ltb_lt _ _)) by lia. by rewrite Z.mod_small by lia.
  - unfold u32. rewrite Z.mod_small by lia. eexists. split; [reflexivity|].
    cbn [app readLength]. unfold Uint32. rewrite flag_test, flag_clear, !flag_set.
    pose proof (Z.mod_pos_bound (bval (byte_of (n / 2 ^ 24))) 128 ltac:(lia)).
    rewrite (proj2 (Z.ltb_ge _ _)) by lia. do 2 f_equal.
    pose proof (Uint32_Put n ltac:(lia)) as Hu. unfold Uint32 in Hu.
    assert (bval (byte_of (n / 2 ^ 24)) = n / 2 ^ 24) as Hq.
    { rewrite bval_byte_of, Z.mod_small; [done|].
      split; [apply Z.div_pos; lia | apply Z.div_lt_upper_bound; lia]. }
    rewrite Hq in *.
    rewrite <- Z.add_mod_idemp_r, Z.mod_same, Z.add_0_r, Z.mod_mod by lia.
    pose proof (bval_range (byte_of (n / 2 ^ 16))). pose proof (bval_range (byte_of (n / 2 ^ 8))).
    pose proof (bval_range (byte_of n)).
    remember (n / 2 ^ 24) as q.
    pose proof (Z.div_mod q 128). pose proof (Z.mod_pos_bound q 128).
    apply (Z.mod_unique _ _ (q / 128)); lia.
Qed.

Lemma writeLength_small n :
  0 <= n <= MaxUint32 -> is_ret (writeLength n) = true.
Proof. intros H. by destruct (readLength_writeLength n [] H) as (l & -> & _). Qed.

Definition pair_ok (p : NameValuePair) : Prop :=
  len (Name p) < 2 ^ 31 /\ len (Value p) < 2 ^ 31.

Lemma u32_le z : 0 <= z -> u32 z <= z.
Proof. intros H. unfold u32. apply Z.mod_le; lia. Qed.

Lemma readLength_completed data : completed (readLength data).
Proof. unfold readLength. repeat case_goal; done. Qed.

Lemma readLength_shrinks data n data' :
  readLength data = Ret (n, data') -> (length data' < length data)%nat.
Proof. unfold readLength. intros H. repeat case_hyp H; inv_ret; simpl in *; simplify_eq; simpl; lia. Qed.

Lemma slice_at_completed data n : n <= len data -> completed (slice_at data n).
Proof. intros H. unfold slice_at. by rewrite (proj2 (Z.leb_le _ _)). Qed.

Lemma slice_at_length data n a b :
  slice_at data n = Ret (a, b) -> (length b <= length data)%nat.
Proof.
  unfold slice_at. intros H. case_hyp H; [|done]. injection H as <- <-. rewrite length_drop. lia.
Qed.

Lemma slice_at_app a b : slice_at (a ++ b) (len a) = Ret (a, b).
Proof.
  unfold slice_at. rewrite len_app, (proj2 (Z.leb_le _ _)) by (pose proof (len_nonneg _ b); lia).
  by rewrite take_len_app, drop_len_app.
Qed.

Lemma NameValuePair_Decode_completed data : completed (NameValuePair_Decode data).
Proof.
  unfold NameValuePair_Decode.
  apply completed_bind; [apply readLength_completed|]. intros [n1 d1] _.
  apply completed_bind; [apply readLength_completed|]. intros [n2 d2] _.
  destruct (Z.ltb_spec (u32 (len d2)) n1) as [|H1]; [done|].
  pose proof (u32_le (len d2) (len_nonneg _ _)).
  apply completed_bind; [apply slice_at_completed; lia|]. intros [name d3] _.
  destruct (Z.ltb_spec (u32 (len d3)) n2) as [|H2]; [done|].
  pose proof (u32_le (len d3) (len_nonneg _ _)).
  apply completed_bind; [apply slice_at_completed; lia|]. by intros [? ?] _.
Qed.

Lemma NameValuePair_Decode_shrinks data p data' :
  NameValuePair_Decode data = Ret (p, data') -> (length data' + 2 <= length data)%nat.
Proof.
  unfold NameValuePair_Decode. intros H. inv_ret.
  destruct x as [n1 d1]. inv_ret. destruct x as [n2 d2].
  case_hyp H; [done|]. inv_ret. destruct x as [name d3].
  case_hyp H; [done|]. inv_ret. destruct x as [value d4]. inv_ret.
  repeat match goal with
  | Hr : readLength _ = Ret _ |- _ => apply readLength_shrinks in Hr
  | Hs : slice_at _ _ = Ret _ |- _ => apply slice_at_length in Hs
  end. simplify_eq. lia.
Qed.

(** The loop of [NameValuePairs.Decode] ends: every turn consumes data. *)
Lemma pairs_Decode_loop_completed fuel ps data :
  (length data <= fuel)%nat -> completed (pairs_Decode_loop fuel ps data).
Proof.
  revert ps data. induction fuel as [|fuel IH]; intros ps data Hf.
  { by destruct data; [|simpl in Hf; lia]. }
  destruct data as [|c data]; [done|]. cbn [pairs_Decode_loop].
  apply completed_bind; [apply NameValuePair_Decode_completed|].
  intros [p data'] Hd. apply NameValuePair_Decode_shrinks in Hd. apply IH. simpl in *. lia.
Qed.

Lemma NameValuePairs_Decode_completed ps data : completed (NameValuePairs_Decode ps data).
Proof. by apply pairs_Decode_loop_completed. Qed.

Lemma NameValuePair_Encode_ret p : pair_ok p -> is_ret (NameValuePair_Encode p) = true.
Proof.
  intros [Hn Hv]. unfold NameValuePair_Encode.
  destruct (readLength_writeLength (len (Name p)) []) as (l1 & -> & _);
    [unfold MaxUint32; pose proof (len_nonneg _ (Name p)); lia|].
  destruct (readLength_writeLength (len (Value p)) []) as (l2 & -> & _);
    [unfold MaxUint32; pose proof (len_nonneg _ (Value p)); lia|].
  done.
Qed.

Lemma writeLength_read n l rest :
  0 <= n < 2 ^ 31 -> writeLength n = Ret l -> readLength (l ++ rest) = Ret (n, rest).
Proof.
  intros Hn Hw. destruct (readLength_writeLength n rest) as (l' & Hl & Hr);
    [unfold MaxUint32; lia|].
  rewrite Hl in Hw. injection Hw as <-. by rewrite Hr, Z.mod_small.
Qed.

Lemma NameValuePair_Decode_Encode p l rest :
  pair_ok p -> NameValuePair_Encode p = Ret l -> len (l ++ rest) < 2 ^ 32 ->
  NameValuePair_Decode (l ++ rest) = Ret (p, rest).
Proof.
  intros [Hn Hv] He Hlen. unfold NameValuePair_Encode in He. inv_ret.
  destruct p as [name value]; simpl in *.
  pose proof (len_nonneg _ name). pose proof (len_nonneg _ value).
  unfold NameValuePair_Decode.
  rewrite <- !app_assoc. rewrite (writeLength_read (len name)) by (done || lia).
  cbn [mbind outcome_bind]. rewrite (writeLength_read (len value)) by (done || lia).
  cbn [mbind outcome_bind]. rewrite !len_app in Hlen.
  pose proof (len_nonneg _ x). pose proof (len_nonneg _ x0). pose proof (len_nonneg _ rest).
  unfold u32. rewrite !len_app. rewrite Z.mod_small by lia.
  rewrite (proj2 (Z.ltb_ge _ _)) by lia.
  rewrite slice_at_app. cbn [mbind outcome_bind]. rewrite len_app, Z.mod_small by lia.
  rewrite (proj2 (Z.ltb_ge _ _)) by lia. by rewrite slice_at_app.
Qed.

Lemma NameValuePair_Encode_length p l :
  NameValuePair_Encode p = Ret l -> (2 <= length l)%nat.
Proof.
  unfold NameValuePair_Encode. intros H. inv_ret.
  assert (forall n l, writeLength n = Ret l -> (1 <= length l)%nat) as Hw.
  { intros n l. unfold writeLength. intros Hw. repeat case_hyp Hw; inv_ret; simpl; try done; lia. }
  repeat match goal with H : writeLength _ = Ret _ |- _ => apply Hw in H end.
  rewrite !length_app. lia.
Qed.

Lemma pairs_Decode_loop_Encode fuel acc ps l :
  Forall pair_ok ps -> NameValuePairs_Encode ps = Ret l -> len l < 2 ^ 32 ->
  (length l <= fuel)%nat -> pairs_Decode_loop fuel acc l = Ret (acc ++ ps).
Proof.
  intros Hok. revert fuel acc l. induction Hok as [|p ps Hp Hok IH]; intros fuel acc l He Hlen Hf.
  { injection He as <-. rewrite app_nil_r. by destruct fuel. }
  cbn [NameValuePairs_Encode] in He. inv_ret.
  match goal with H : NameValuePair_Encode _ = Ret _ |- _ =>
    rename H into Hp1; pose proof (NameValuePair_Encode_length _ _ Hp1) as Hl end.
  destruct x as [|c x]; [simpl in Hl; lia|].
  destruct fuel as [|fuel]; [simpl in Hf; lia|].
  cbn [app pairs_Decode_loop].
  change (c :: x ++ x0) with ((c :: x) ++ x0).
  rewrite (NameValuePair_Decode_Encode p) by done. cbn [mbind outcome_bind].
  rewrite len_app in Hlen. pose proof (len_nonneg _ (c :: x)).
  rewrite IH; [by rewrite <- app_assoc | done | lia |].
  rewrite length_app in Hf. simpl in *. lia.
Qed.

(** ** Discrete bodies *)

(** What an implementation of [DiscreteBody] promises to the record layer: a
    body that encodes is decoded into the same body from the zero value Go
    allocates, and decoding always returns. *)
Class DiscreteBodyLaws (B : Type) `{DiscreteBody B} (zero : B) (ok : B -> Prop) := {
  Decode_Encode : forall b d, ok b -> len d < 2 ^ 32 -> Encode b = Ret d -> Decode zero d = Ret b;
  Decode_completed : forall b d, completed (Decode b d)
}.

Lemma Role_Decode_Encode r : Role_Decode (Role_Encode r) = Ret r.
Proof. by destruct r. Qed.

Lemma RecordType_Decode_Encode t : RecordType_Decode (RecordType_Encode t) = Ret t.
Proof. by destruct t. Qed.

Lemma ProtocolStatus_Decode_Encode p : ProtocolStatus_Decode (ProtocolStatus_Encode p) = Ret p.
Proof. by destruct p. Qed.

Lemma decoders_completed value :
  completed (Role_Decode value) /\ completed (RecordType_Decode value)
  /\ completed (ProtocolStatus_Decode value).
Proof.
  unfold Role_Decode, RecordType_Decode, ProtocolStatus_Decode.
  repeat split; repeat case_goal; done.
Qed.

Ltac eight_bytes d :=
  do 8 (destruct d as [|? d]; [done|]); destruct d; [|done].

#[export] Instance BeginRequest_laws :
  DiscreteBodyLaws BeginRequestBody (mkBeginRequestBody RoleResponder false) (fun _ => True).
Proof.
  split.
  - intros [role keep] d _ _ [= <-]. simpl.
    rewrite Uint16_Put by (destruct role; simpl; lia). rewrite Role_Decode_Encode.
    by destruct keep.
  - intros b d. unfold Decode, BeginRequest_discrete, BeginRequestBody_Decode. eight_bytes d.
    apply completed_bind; [apply decoders_completed | done].
Qed.

#[export] Instance AbortRequest_laws :
  DiscreteBodyLaws AbortRequestBody mkAbortRequestBody (fun _ => True).
Proof. split; [by intros [] d _ _ _ | done]. Qed.

#[export] Instance EndRequest_laws :
  DiscreteBodyLaws EndRequestBody (mkEndRequestBody 0 ProtocolStatusRequestComplete)
    (fun b => 0 <= AppStatus b < 2 ^ 32).
Proof.
  split.
  - intros [status ps] d Hb _ [= <-]. simpl in *.
    rewrite (bval_byte_of (ProtocolStatus_Encode ps)), Z.mod_small by (destruct ps; simpl; lia).
    rewrite ProtocolStatus_Decode_Encode. cbn [mbind outcome_bind].
    by rewrite Uint32_Put.
  - intros b d. unfold Decode, EndRequest_discrete, EndRequestBody_Decode. eight_bytes d.
    apply completed_bind; [apply decoders_completed | done].
Qed.

#[export] Instance GetValuesResult_laws :
  DiscreteBodyLaws GetValuesResultBody (mkGetValuesResultBody []) (fun b => Forall pair_ok (Pairs b)).
Proof.
  split.
  - intros [ps] d Hok Hd He. simpl in *.
    unfold GetValuesResultBody_Decode, NameValuePairs_Decode.
    by rewrite (pairs_Decode_loop_Encode _ [] ps) by done.
  - intros b d. simpl. unfold GetValuesResultBody_Decode.
    pose proof (NameValuePairs_Decode_completed (Pairs b) d) as Hc.
    by destruct (NameValuePairs_Decode (Pairs b) d).
Qed.

#[export] Instance GetValues_laws :
  DiscreteBodyLaws GetValuesBody (mkGetValuesBody [])
    (fun b => Forall (fun name => len name < 2 ^ 31) (Names b)).
Proof.
  split.
  - intros [names] d Hok Hd He. simpl in *.
    unfold GetValuesBody_Decode, NameValuePairs_Decode.
    rewrite (pairs_Decode_loop_Encode _ [] (map (fun name => mkPair name []) names)); try done.
    + simpl. f_equal. f_equal. rewrite map_map. apply map_id.
    + apply Forall_fmap. eapply Forall_impl; [done|]. intros name ?. by split.
  - intros b d. simpl. unfold GetValuesBody_Decode.
    apply completed_bind; [apply NameValuePairs_Decode_completed | done].
Qed.

#[export] Instance UnknownType_laws :
  DiscreteBodyLaws UnknownTypeBody (mkUnknownTypeBody 0) (fun b => 0 <= ut_Type b < 256).
Proof.
  split.
  - intros [t] d Hb _ [= <-]. simpl in *. by rewrite bval_byte_of, Z.mod_small.
  - intros b d. simpl. unfold UnknownTypeBody_Decode. repeat case_goal; done.
Qed.

(** ** Records *)

(** The bodies a record of a given type is read with. *)
Definition body_matches (t : RecordType) (b : Body) : bool :=
  match t, b with
  | RecordTypeBeginRequest, BodyBeginRequest _
  | RecordTypeAbortRequest, BodyAbortRequest _
  | RecordTypeEndRequest, BodyEndRequest _
  | RecordTypeGetValues, BodyGetValues _
  | RecordTypeGetValuesResult, BodyGetValuesResult _
  | RecordTypeUnknownType, BodyUnknownType _
  | (RecordTypeParams | RecordTypeStdin | RecordTypeStdout | RecordTypeStderr
     | RecordTypeData), BodyBytes _ => true
  | _, _ => false
  end.

(** The reader returns an empty slice where the writer was given nil. *)
Definition normalize_body (b : Body) : Body :=
  match b with BodyNil => BodyBytes [] | b => b end.

Definition body_ok (b : Body) : Prop :=
  match b with
  | BodyNil => True
  | BodyBytes d => len d <= MaxUint16
  | BodyBeginRequest _ | BodyAbortRequest _ => True
  | BodyEndRequest b => 0 <= AppStatus b < 2 ^ 32
  | BodyGetValues b => Forall (fun name => len name < 2 ^ 31) (Names b)
  | BodyGetValuesResult b => Forall pair_ok (Pairs b)
  | BodyUnknownType b => 0 <= ut_Type b < 256
  end.

Definition record_ok (r : FcgiRecord) : Prop :=
  Version r = 1 /\ 0 <= RequestId r < 2 ^ 16
  /\ body_matches (rec_Type r) (normalize_body (rec_Body r)) = true /\ body_ok (rec_Body r).

#[export] Instance pair_ok_dec p : Decision (pair_ok p).
Proof. unfold pair_ok. apply _. Defined.

#[export] Instance body_ok_dec b : Decision (body_ok b).
Proof. destruct b; unfold body_ok; apply _. Defined.

#[export] Instance record_ok_dec r : Decision (record_ok r).
Proof. unfold record_ok. apply _. Defined.

Lemma discrete_data_Ret {B} `{DiscreteBody B} (b : B) d :
  discrete_data b = Ret d -> Encode b = Ret d /\ len d <= MaxUint16.
Proof.
  unfold discrete_data. intros H1. inv_ret.
  case_hyp H1; [done|]. inv_ret. bool_facts. done.
Qed.

Lemma decode_body_data t b d :
  body_matches t (normalize_body b) = true -> body_ok b -> body_data b = Ret d ->
  len d <= MaxUint16 /\ decode_body t d = Ret (normalize_body b).
Proof.
  intros Hm Hok Hd.
  destruct b; cbn [body_data] in Hd; try (apply discrete_data_Ret in Hd as [Hd Hlen]).
  1-2: injection Hd as <-; split; [simpl in *; unfold MaxUint16; simpl; try lia; done|];
       by destruct t.
  all: (split; [done|]); destruct t; try discriminate Hm;
    unfold decode_body, normalize_body; erewrite Decode_Encode;
    [reflexivity | exact Hok || exact I | unfold MaxUint16 in *; lia | exact Hd].
Qed.

Lemma decode_body_completed t d : completed (decode_body t d).
Proof.
  destruct t; unfold decode_body; try done;
    match goal with
    | |- completed (_ <$> ?m) =>
        let Hc := fresh in assert (completed m) as Hc by (eapply Decode_completed);
        by destruct m
    end.
Qed.

Lemma decode_body_matches t d b : decode_body t d = Ret b -> body_matches t b = true.
Proof.
  destruct t; unfold decode_body; intros H; try (by injection H as <-);
    match type of H with
    | _ <$> ?m = _ => destruct m; try discriminate H; by injection H as <-
    end.
Qed.

Lemma ReadFull_app a b e :
  ReadFull (length a) (mkIncoming (a ++ b) e) = Ret (a, mkIncoming b e).
Proof.
  unfold ReadFull. simpl. rewrite (proj2 (Nat.leb_le _ _)) by (rewrite length_app; lia).
  by rewrite take_app_length, drop_app_length.
Qed.

Lemma ReadFull_header a b c d e f g h rest err :
  ReadFull 8 (mkIncoming (a :: b :: c :: d :: e :: f :: g :: h :: rest) err)
  = Ret ([a; b; c; d; e; f; g; h], mkIncoming rest err).
Proof. reflexivity. Qed.

Lemma ReadFull_completed n r : completed (ReadFull n r).
Proof. unfold ReadFull. repeat case_goal; done. Qed.

Lemma ReadFull_length n r d r' :
  ReadFull n r = Ret (d, r') -> length d = n /\ in_data r = d ++ in_data r' /\ in_end r' = in_end r.
Proof.
  unfold ReadFull. intros H. repeat case_hyp H; try done. injection H as <- <-. simpl.
  bool_facts. rewrite length_take, take_drop. repeat split. lia.
Qed.

Lemma read_error_Ret {A} msg (m : outcome A) a : read_error msg m = Ret a <-> m = Ret a.
Proof. by destruct m. Qed.
#[export] Hint Rewrite @read_error_Ret : outcome.

Lemma read_error_completed {A} msg (m : outcome A) : completed m -> completed (read_error msg m).
Proof. by destruct m. Qed.

(** Reading a written record gives it back and leaves the bytes that follow. *)
Lemma Record_Read_Write r d rest e :
  record_ok r -> Record_Write r = Ret d ->
  Record_Read (mkIncoming (d ++ rest) e)
  = Ret (mkRecord 1 (rec_Type r) (RequestId r) (normalize_body (rec_Body r)), mkIncoming rest e).
Proof.
  intros (Hv & Hid & Hm & Hok) Hw. unfold Record_Write in Hw.
  apply bind_Ret in Hw as (data & Hd & [= <-]).
  destruct (decode_body_data _ _ _ Hm Hok Hd) as [Hlen Hdec].
  pose proof (len_nonneg _ data). unfold MaxUint16 in Hlen.
  cbn [app]. unfold Record_Read. rewrite ReadFull_header.
  cbn [read_error mbind outcome_bind].
  rewrite Hv. change (negb (bval (byte_of 1) =? 1)) with false. cbv iota.
  rewrite (bval_byte_of (RecordType_Encode _)), (Z.mod_small (RecordType_Encode _)) by (destruct (rec_Type r); simpl; lia).
  rewrite RecordType_Decode_Encode. cbn [mbind outcome_bind].
  unfold u16. rewrite (Z.mod_small (len data)) by lia. rewrite !Uint16_Put by lia.
  change (bval (byte_of 0)) with 0. rewrite Z.add_0_r.
  assert (Z.to_nat (len data) = length data) as Hn by (unfold len; lia).
  rewrite Hn, ReadFull_app. cbn [read_error mbind outcome_bind].
  rewrite firstn_all. by rewrite Hdec.
Qed.

Lemma Record_Read_completed reader : completed (Record_Read reader).
Proof.
  unfold Record_Read.
  apply completed_bind; [apply read_error_completed, ReadFull_completed|].
  intros [header r] Hh. autorewrite with outcome in Hh. apply ReadFull_length in Hh as (Hl & _).
  do 8 (destruct header as [|? header]; [done|]). destruct header; [|done].
  case_goal; [done|].
  apply completed_bind; [apply decoders_completed|]. intros t _.
  apply completed_bind; [apply read_error_completed, ReadFull_completed|]. intros [bd r2] _.
  apply completed_bind; [|done]. apply completed_wrap, decode_body_completed.
Qed.

(** A record is at least its header long, carries version 1 and a body of the
    kind its type announces, and what is left is the rest of the stream. *)
Lemma Record_Read_Ret reader r reader' :
  Record_Read reader = Ret (r, reader') ->
  Version r = 1 /\ body_matches (rec_Type r) (rec_Body r) = true
  /\ 0 <= RequestId r < 2 ^ 16
  /\ (exists pre, in_data reader = pre ++ in_data reader' /\ (8 <= length pre)%nat)
  /\ in_end reader' = in_end reader.
Proof.
  unfold Record_Read. intros H.
  apply bind_Ret in H as ([header r1] & H1 & H). autorewrite with outcome in H1.
  destruct (ReadFull_length _ _ _ _ H1) as (Hl & Hin & Hend).
  do 8 (destruct header as [|? header]; [done|]). destruct header; [|done].
  case_hyp H; [done|]. apply bind_Ret in H as (t & _ & H).
  apply bind_Ret in H as ([bd r2] & H2 & H). autorewrite with outcome in H2.
  apply ReadFull_length in H2 as (Hl2 & Hin2 & Hend2).
  apply bind_Ret in H as (body & Hb & [= <- <-]). autorewrite with outcome in Hb.
  bool_facts. cbn [Version rec_Type rec_Body RequestId]. split; [done|].
  split; [by eapply decode_body_matches|]. split; [apply Uint16_range|].
  split; [|congruence].
  rewrite Hin, Hin2. eexists (_ ++ _). rewrite <- app_assoc. split; [reflexivity|].
  rewrite length_app. simpl. lia.
Qed.

(** ** Sequences of records *)

Fixpoint write_records (rs : list FcgiRecord) : outcome (list ascii) :=
  match rs with
  | [] => Ret []
  | r :: rs' => d ← Record_Write r; ds ← write_records rs'; Ret (d ++ ds)
  end.

Fixpoint read_records (n : nat) (reader : Incoming) : outcome (list FcgiRecord * Incoming) :=
  match n with
  | O => Ret ([], reader)
  | S n' =>
      '(r, reader) ← Record_Read reader;
      '(rs, reader) ← read_records n' reader;
      Ret (r :: rs, reader)
  end.

(** A record as the peer sees it. *)
Definition read_back (r : FcgiRecord) : FcgiRecord :=
  mkRecord 1 (rec_Type r) (RequestId r) (normalize_body (rec_Body r)).

Lemma read_records_write rs d rest e :
  Forall record_ok rs -> write_records rs = Ret d ->
  read_records (length rs) (mkIncoming (d ++ rest) e) = Ret (map read_back rs, mkIncoming rest e).
Proof.
  intros Hok. revert d. induction Hok as [|r rs Hr Hok IH]; intros d Hw; simpl in Hw.
  { by injection Hw as <-. }
  apply bind_Ret in Hw as (d1 & H1 & Hw). apply bind_Ret in Hw as (d2 & H2 & [= <-]).
  cbn [length read_records map]. rewrite <- app_assoc, (Record_Read_Write _ _ _ _ Hr H1).
  cbn [mbind outcome_bind]. by rewrite (IH _ H2).
Qed.

Lemma write_records_app rs1 rs2 d1 d2 :
  write_records rs1 = Ret d1 -> write_records rs2 = Ret d2 ->
  write_records (rs1 ++ rs2) = Ret (d1 ++ d2).
Proof.
  revert d1. induction rs1 as [|r rs1 IH]; intros d1 H1 H2; simpl in *.
  { by injection H1 as <-. }
  apply bind_Ret in H1 as (d & Hd & H1). apply bind_Ret in H1 as (ds & Hds & [= <-]).
  rewrite Hd, (IH ds) by done. cbn [mbind outcome_bind]. by rewrite app_assoc.
Qed.

Lemma write_records_one r d : Record_Write r = Ret d -> write_records [r] = Ret d.
Proof. intros H. simpl. rewrite H. cbn [mbind outcome_bind]. by rewrite app_nil_r. Qed.

Lemma Record_Write_length r d : Record_Write r = Ret d -> (8 <= length d)%nat.
Proof.
  unfold Record_Write. intros H. apply bind_Ret in H as (bd & _ & [= <-]).
  simpl. lia.
Qed.

Lemma write_records_length rs d :
  write_records rs = Ret d -> (8 * length rs <= length d)%nat.
Proof.
  revert d. induction rs as [|r rs IH]; intros d H; simpl in *; [lia|].
  apply bind_Ret in H as (d1 & H1 & H). apply bind_Ret in H as (d2 & H2 & [= <-]).
  apply Record_Write_length in H1. apply IH in H2. rewrite length_app. lia.
Qed.

(** ** Properties *)

(** [C35] Records written one after another are read back in order, whatever
    bytes follow them: the same type, request identifier and body (an empty
    body where the writer was given nil), version 1, and nothing more is taken
    from the stream. *)
Theorem Record_Write_Read_sequence rs d rest e :
  Forall record_ok rs -> write_records rs = Ret d ->
  read_records (length rs) (mkIncoming (d ++ rest) e) = Ret (map read_back rs, mkIncoming rest e)
  /\ (Forall (fun r => rec_Body r <> BodyNil) rs -> map read_back rs = rs).
Proof.
  intros Hok Hw. split; [by apply read_records_write|].
  intros Hn. clear Hw. induction Hok as [|[v t id b] rs (Hv & _) Hok IH]; [done|].
  apply Forall_cons in Hn as [Hb Hn]. simpl in *. subst v. f_equal; [by destruct b|by apply IH].
Qed.

Lemma Record_Write_Read_sequence_witness :
  let rs := [mkRecord 1 RecordTypeBeginRequest 1 (BodyBeginRequest (mkBeginRequestBody RoleFilter true));
             mkRecord 1 RecordTypeStdin 1 (BodyBytes "abc"%go)] in
  exists d, write_records rs = Ret d
    /\ read_records 2 (mkIncoming (d ++ "xyz"%go) io_EOF) = Ret (rs, mkIncoming "xyz"%go io_EOF).
Proof.
  intros rs. eexists. split; [reflexivity|].
  destruct (Record_Write_Read_sequence rs _ "xyz"%go io_EOF ltac:(by_decision) eq_refl) as [H _].
  exact H.
Defined.

(** [C36] [Record.Read] is total: on any bytes, however cut off, it returns or
    fails but does not panic; a record it returns has version 1, a 16-bit
    request identifier and the body its type calls for, so that the type
    assertions of its callers hold, and at least eight bytes were taken. *)
Theorem Record_Read_total reader :
  match Record_Read reader with
  | Ret (r, reader') =>
      Version r = 1 /\ body_matches (rec_Type r) (rec_Body r) = true /\ 0 <= RequestId r < 2 ^ 16
      /\ (exists pre, in_data reader = pre ++ in_data reader' /\ (8 <= length pre)%nat)
  | Throw _ => True
  | Panic | OutOfFuel => False
  end.
Proof.
  pose proof (Record_Read_completed reader) as Hc.
  destruct (Record_Read reader) as [[r reader']|e| |] eqn:Hr; try done.
  apply Record_Read_Ret in Hr. tauto.
Qed.

Lemma NameValuePairs_Encode_ret ps :
  Forall pair_ok ps -> exists d, NameValuePairs_Encode ps = Ret d.
Proof.
  intros Hok. induction Hok as [|p ps Hp Hok (d & IH)]; [by eexists|].
  pose proof (NameValuePair_Encode_ret p Hp). simpl. rewrite IH.
  destruct (NameValuePair_Encode p); try done. by eexists.
Qed.

(** Name-value pairs whose names and values are below 2^31 bytes always
    encode, and decoding an encoding below 2^32 bytes gives the pairs back, in
    order and with duplicates, behind those decoded before. *)
Theorem NameValuePairs_roundtrip acc ps :
  Forall pair_ok ps ->
  exists d, NameValuePairs_Encode ps = Ret d
            /\ (len d < 2 ^ 32 -> NameValuePairs_Decode acc d = Ret (acc ++ ps)).
Proof.
  intros Hok. destruct (NameValuePairs_Encode_ret ps Hok) as (d & He).
  exists d. split; [done|]. intros Hl. by apply pairs_Decode_loop_Encode.
Qed.

Lemma NameValuePairs_roundtrip_witness :
  let ps := [mkPair "REQUEST_METHOD"%go "GET"%go; mkPair "A"%go (repeat "x"%char 200)] in
  exists d, NameValuePairs_Encode ps = Ret d /\ NameValuePairs_Decode [] d = Ret ps.
Proof.
  intros ps. destruct (NameValuePairs_roundtrip [] ps ltac:(by_decision)) as (d & He & Hd).
  exists d. split; [exact He|]. apply Hd.
  assert (d = match NameValuePairs_Encode ps with Ret d => d | _ => [] end) as -> by (by rewrite He).
  by_decision.
Defined.

(** The lengths the encoder accepts are those up to [MaxUint32]; the
    format has 31 bits, so that a length survives exactly when it is below
    2^31 and comes back reduced modulo 2^31 otherwise. *)
Theorem writeLength_readLength n rest :
  0 <= n ->
  match writeLength n with
  | Ret l => n <= MaxUint32 /\ readLength (l ++ rest) = Ret (n mod 2 ^ 31, rest)
             /\ len l = (if n <? 128 then 1 else 4)
             /\ (readLength (l ++ rest) = Ret (n, rest) <-> n < 2 ^ 31)
  | Throw _ => MaxUint32 < n
  | _ => False
  end.
Proof.
  intros Hn. destruct (Z_le_gt_dec n MaxUint32) as [Hle|Hgt].
  - destruct (readLength_writeLength n rest (conj Hn Hle)) as (l & Hl & Hr). rewrite Hl, Hr.
    split; [done|]. split; [done|]. split.
    + unfold writeLength in Hl. rewrite (proj2 (Z.ltb_ge _ _)) in Hl by lia.
      destruct (n <? 128); by injection Hl as <-.
    + pose proof (Z.mod_pos_bound n (2 ^ 31)).
      split; [intros [= He]; lia|intros H1; by rewrite Z.mod_small by lia].
  - unfold writeLength. rewrite (proj2 (Z.ltb_lt _ _)) by lia. lia.
Qed.

Lemma writeLength_readLength_witness :
  0 <= 2 ^ 31 + 5 /\ match writeLength (2 ^ 31 + 5) with
                     | Ret l => readLength (l ++ []) = Ret (5, [])
                     | _ => False
                     end.
Proof.
  split; [lia|]. pose proof (writeLength_readLength (2 ^ 31 + 5) [] ltac:(lia)) as H.
  destruct (writeLength (2 ^ 31 + 5)); [|by vm_compute in H..]. destruct H as (_ & H & _). exact H.
Defined.
