(* ===== verification/FcgiHeader.v ===== *)
(** * Response headers of FastCGI applications (pkg/fastcgi/header.go)

    The incremental parser that is fed the stdout records of a response, the
    Status field, and the copy into an HTTP header. *)

From S2P Require Import Prelude GoStrings HttpHeader.

Record Field := mkField { f_Name : gostring; f_Value : gostring }.

#[export] Instance Field_eq_dec : EqDecision Field.
Proof. solve_decision. Defined.

(** [Header]: the fields parsed so far and the data of the unfinished line. *)
Record FHeader := mkFHeader { Fields : list Field; h_data : list ascii }.

Definition empty_header : FHeader := mkFHeader [] [].

Definition LF : byte := "010"%char.
Definition CR : byte := "013"%char.
Definition blanks : list ascii := [" "%char; "009"%char].

Definition nonHTTPHeaderFields : list gostring := ["status"%go].

Definition skipEOL (data : list ascii) : list ascii * bool :=
  match data with
  | [] => (data, false)
  | c :: rest =>
      if bool_decide (c = LF) then (rest, true)
      else if bool_decide (c = CR) then
        match rest with
        | d :: rest' => if bool_decide (d = LF) then (rest', true) else (data, false)
        | [] => (data, false)
        end
      else (data, false)
  end.

Definition Field_Parse (data : list ascii) : outcome Field :=
  match IndexByte data ":"%char with
  | None => Throw (Errorf "missing ':' separator"%go)
  | Some colon =>
      let name := take colon data in
      if (length name =? 0)%nat then Throw (Errorf "empty name"%go)
      else Ret (mkField name (Trim (drop (S colon) data) blanks))
  end.

(** The line without its line feed, less one carriage return. *)
Definition strip_cr (fieldData : list ascii) : list ascii :=
  match last fieldData with
  | Some c => if bool_decide (c = CR) then take (length fieldData - 1) fieldData else fieldData
  | None => fieldData
  end.

(** The loop of [Header.Parse]: the header, whether its end was found, and the
    data that follows it. *)
Fixpoint Header_Parse_loop (fuel : nat) (h : FHeader) : outcome (FHeader * bool * list ascii) :=
  match h_data h with
  | [] => Ret (h, false, [])
  | _ =>
      match fuel with
      | O => OutOfFuel
      | S fuel' =>
          let '(data2, found) := skipEOL (h_data h) in
          if found then Ret (mkFHeader (Fields h) [], true, data2)
          else match IndexByte (h_data h) LF with
               | None => Ret (h, false, [])
               | Some eol =>
                   let fieldData := strip_cr (take eol (h_data h)) in
                   field ← wrap_error "cannot parse field"%go (Field_Parse fieldData);
                   Header_Parse_loop fuel'
                     (mkFHeader (Fields h ++ [field]) (drop (S eol) (h_data h)))
               end
      end
  end.

Definition Header_Parse (h : FHeader) (data : list ascii) : outcome (FHeader * bool * list ascii) :=
  let h := mkFHeader (Fields h) (h_data h ++ data) in
  Header_Parse_loop (length (h_data h)) h.

Section unicode.
Context `{GoUnicode}.

(** [Header.Field] *)
Definition Header_Field (h : FHeader) (name : gostring) : gostring :=
  match find (fun field => EqualFold name (f_Name field)) (Fields h) with
  | Some field => f_Value field
  | None => []
  end.

(** [Header.Status] *)
Definition Header_Status (h : FHeader) : Z * gostring :=
  let s := Header_Field h "Status"%go in
  if bool_decide (s = []) then (200, "OK"%go)
  else
    let '(codeString, reason, _) := Cut s " "%char in
    match ParseInt codeString with
    | Some i64 => if (i64 <? 1) || (999 <? i64) then (200, "OK"%go) else (i64, reason)
    | None => (200, "OK"%go)
    end.

(** [Header.CopyToHTTPHeader] *)
Definition CopyToHTTPHeader (h : FHeader) (hh : Header) : Header :=
  fold_left (fun hh field =>
    if bool_decide (ToLower (f_Name field) ∈ nonHTTPHeaderFields) then hh
    else Header_Add hh (f_Name field) (f_Value field)) (Fields h) hh.
End unicode.

(** ** The parser *)

Lemma Header_Parse_loop_enough fuel fuel' h :
  (length (h_data h) <= fuel)%nat -> (length (h_data h) <= fuel')%nat ->
  Header_Parse_loop fuel h = Header_Parse_loop fuel' h.
Proof.
  revert fuel' h. induction fuel as [|fuel IH]; intros fuel' [fs d]; simpl; intros H1 H2.
  { destruct d; [by destruct fuel'|simpl in H1; lia]. }
  destruct d as [|c d]; [by destruct fuel'|].
  destruct fuel' as [|fuel']; [simpl in H2; lia|].
  cbn [Header_Parse_loop h_data Fields].
  destruct (skipEOL (c :: d)) as [d2 found]. destruct found; [done|].
  destruct (IndexByte (c :: d) LF) as [eol|]; [|done].
  destruct (wrap_error _ _) as [f| | |]; cbn [mbind outcome_bind]; try done.
  apply IH; cbn [h_data]; rewrite length_drop; simpl in *; lia.
Qed.

Lemma Header_Parse_loop_completed fuel h :
  (length (h_data h) <= fuel)%nat -> completed (Header_Parse_loop fuel h).
Proof.
  revert h. induction fuel as [|fuel IH]; intros [fs d]; simpl; intros H1.
  { destruct d; [done|simpl in H1; lia]. }
  destruct d as [|c d]; [done|]. cbn [h_data Fields].
  destruct (skipEOL (c :: d)) as [d2 found]. destruct found; [done|].
  destruct (IndexByte (c :: d) LF) as [eol|]; [|done].
  apply completed_bind.
  - apply completed_wrap. unfold Field_Parse. repeat case_goal; done.
  - intros f _. apply IH. cbn [h_data]. rewrite length_drop. simpl in *. lia.
Qed.

Lemma skipEOL_app d b d2 : skipEOL d = (d2, true) -> skipEOL (d ++ b) = (d2 ++ b, true).
Proof.
  destruct d as [|c d]; [done|]. simpl. case_bool_decide; [congruence|].
  case_bool_decide; [|done]. destruct d as [|e d]; [done|]. simpl.
  case_bool_decide; congruence.
Qed.

(** A line end that is not at hand yet can only appear after a lone CR. *)
Lemma skipEOL_app_false d b i :
  skipEOL d = (d, false) -> IndexByte d LF = Some i -> skipEOL (d ++ b) = (d ++ b, false).
Proof.
  destruct d as [|c d]; [done|]. simpl.
  case_bool_decide; [done|].
  case_bool_decide; [|done]. destruct d as [|e d]; [done|]. simpl.
  by case_bool_decide.
Qed.

Lemma skipEOL_false d d2 : skipEOL d = (d2, false) -> d2 = d.
Proof.
  unfold skipEOL. intros H. repeat case_hyp H; by simplify_eq.
Qed.

Lemma IndexByte_app_l s t c i : IndexByte s c = Some i -> IndexByte (s ++ t) c = Some i.
Proof.
  intros Hs. apply IndexByte_Some in Hs as (s1 & s2 & -> & <- & Hn).
  rewrite <- app_assoc. by apply IndexByte_app.
Qed.

Lemma IndexByte_lt s c i : IndexByte s c = Some i -> (i < length s)%nat.
Proof.
  intros Hs. apply IndexByte_Some in Hs as (s1 & s2 & -> & <- & _).
  rewrite length_app. simpl. lia.
Qed.

(** How a run of the loop extends when more data follows. *)
Definition extended (r : outcome (FHeader * bool * list ascii)) (b : list ascii)
  : outcome (FHeader * bool * list ascii) :=
  match r with
  | Ret (h, true, rest) => Ret (h, true, rest ++ b)
  | Ret (h, false, _) => Header_Parse h b
  | r => r
  end.

Lemma Header_Parse_loop_extend fuel fs d b :
  (length d <= fuel)%nat ->
  Header_Parse_loop (length (d ++ b)) (mkFHeader fs (d ++ b))
  = extended (Header_Parse_loop fuel (mkFHeader fs d)) b.
Proof.
  revert fs d. induction fuel as [|fuel IH]; intros fs d Hf.
  { by destruct d; [|simpl in Hf; lia]. }
  destruct d as [|c d]; [done|].
  cbn [Header_Parse_loop h_data Fields].
  destruct (skipEOL (c :: d)) as [d2 found] eqn:Hs. destruct found.
  { cbn [app length Header_Parse_loop h_data Fields].
    apply (skipEOL_app _ b) in Hs. cbn [app] in Hs. by rewrite Hs. }
  pose proof (skipEOL_false _ _ Hs) as ->.
  destruct (IndexByte (c :: d) LF) as [eol|] eqn:He; [|done].
  cbn [app length Header_Parse_loop h_data Fields].
  pose proof (skipEOL_app_false _ b _ Hs He) as Hs'. cbn [app] in Hs'. rewrite Hs'.
  pose proof (IndexByte_app_l _ b _ _ He) as He'. cbn [app] in He'. rewrite He'.
  pose proof (IndexByte_lt _ _ _ He) as Hlt.
  change (c :: d ++ b) with ((c :: d) ++ b).
  rewrite take_app_le, drop_app_le by lia.
  destruct (wrap_error _ _) as [f| | |]; cbn [mbind outcome_bind]; try done.
  rewrite <- (IH (fs ++ [f]) (drop (S eol) (c :: d))) by (rewrite length_drop; simpl in *; lia).
  apply Header_Parse_loop_enough; cbn [h_data]; [|done].
  rewrite !length_app, length_drop. simpl. lia.
Qed.

Lemma Header_Parse_completed h data : completed (Header_Parse h data).
Proof. by apply Header_Parse_loop_completed. Qed.

Lemma Header_Parse_extend h a b :
  Header_Parse h (a ++ b) = extended (Header_Parse h a) b.
Proof.
  unfold Header_Parse at 1. cbn [h_data Fields]. rewrite app_assoc.
  rewrite (Header_Parse_loop_extend (length (h_data h ++ a))) by done. done.
Qed.

(** ** Serialized fields *)

Definition serialize_field (f : Field) : list ascii :=
  f_Name f ++ ": "%go ++ f_Value f ++ [CR; LF].

Definition field_ok (f : Field) : Prop :=
  f_Name f <> [] /\ (":"%char ∉ f_Name f) /\ (LF ∉ f_Name f) /\ (LF ∉ f_Value f)
  /\ trimmed (f_Value f) blanks.

#[export] Instance field_ok_dec f : Decision (field_ok f).
Proof. unfold field_ok. apply _. Defined.

Lemma trim_leading s : trimmed s blanks -> Trim (" "%char :: s) blanks = s.
Proof.
  intros Ht. unfold Trim. change (TrimLeft (" "%char :: s) blanks) with (TrimLeft s blanks).
  by apply Trim_id.
Qed.

Lemma Field_Parse_serialize f :
  field_ok f -> Field_Parse (f_Name f ++ ": "%go ++ f_Value f) = Ret f.
Proof.
  intros (Hn & Hc & _ & _ & Ht). destruct f as [n v]; simpl in *.
  unfold Field_Parse. change (":"%char :: " "%char :: v) with ([":"%char] ++ " "%char :: v).
  cbn [app]. rewrite IndexByte_app by done. rewrite take_app_length.
  destruct n as [|c n]; [done|].
  by rewrite drop_past, trim_leading.
Qed.

Lemma strip_cr_snoc s : strip_cr (s ++ [CR]) = s.
Proof.
  unfold strip_cr. rewrite last_snoc, bool_decide_true by done.
  rewrite length_app, Nat.add_sub. apply take_app_length.
Qed.

(** One serialized line is one turn of the loop. *)
Lemma Header_Parse_line acc f tail :
  field_ok f ->
  Header_Parse (mkFHeader acc []) (serialize_field f ++ tail)
  = Header_Parse (mkFHeader (acc ++ [f]) []) tail.
Proof.
  intros Hf. pose proof (Field_Parse_serialize f Hf) as Hp.
  destruct Hf as (Hn & Hc & Hl1 & Hl2 & Ht).
  unfold Header_Parse. cbn [h_data Fields app]. unfold serialize_field.
  replace ((f_Name f ++ ": "%go ++ f_Value f ++ [CR; LF]) ++ tail)
    with (((f_Name f ++ ": "%go ++ f_Value f) ++ [CR]) ++ LF :: tail)
    by (rewrite <- !app_assoc; done).
  assert (LF ∉ (f_Name f ++ ": "%go ++ f_Value f) ++ [CR]) as Hlf.
  { rewrite !not_elem_of_app. repeat split; try done;
      rewrite ?not_elem_of_cons; repeat split; try done; apply not_elem_of_nil. }
  remember (((f_Name f ++ ": "%go ++ f_Value f) ++ [CR]) ++ LF :: tail) as d eqn:Hd.
  assert (skipEOL d = (d, false)) as Hs.
  { destruct (f_Name f) as [|c n]; [done|]. subst d. cbn [app skipEOL].
    rewrite not_elem_of_cons in Hl1. rewrite bool_decide_false by (intros ->; tauto).
    case_bool_decide; [|done]. destruct n as [|e n]; cbn [app]; [done|].
    rewrite not_elem_of_cons in Hl1. rewrite bool_decide_false by (intros ->; tauto). done. }
  destruct d as [|c d']; [destruct (f_Name f); discriminate Hd|].
  cbn [length Header_Parse_loop h_data Fields]. rewrite Hs, Hd.
  rewrite IndexByte_app by done. rewrite take_app_length, strip_cr_snoc, Hp.
  cbn [wrap_error mbind outcome_bind]. rewrite drop_past.
  apply Header_Parse_loop_enough; cbn [h_data]; [|done].
  apply (f_equal length) in Hd. cbn [length] in Hd. rewrite length_app in Hd. simpl in Hd. lia.
Qed.

Lemma Header_Parse_serialized fs rest acc :
  Forall field_ok fs ->
  Header_Parse (mkFHeader acc []) ((fs ≫= serialize_field) ++ [CR; LF] ++ rest)
  = Ret (mkFHeader (acc ++ fs) [], true, rest).
Proof.
  intros Hok. revert acc. induction Hok as [|f fs Hf Hok IH]; intros acc.
  { by rewrite app_nil_r. }
  cbn [mbind list_bind]. rewrite <- app_assoc, Header_Parse_line by done.
  by rewrite IH, <- app_assoc.
Qed.

(** ** Properties *)

(** [readResponse]'s use of the parser: the pieces of standard output are
    handed over until the end of the header is found. *)
Fixpoint feed (h : FHeader) (cs : list (list ascii)) : outcome (FHeader * bool * list ascii) :=
  match cs with
  | [] => Ret (h, false, [])
  | c :: cs' =>
      '(h, found, rest) ← Header_Parse h c;
      if (found : bool) then Ret (h, true, rest ++ concat cs') else feed h cs'
  end.

Lemma Header_Parse_loop_unfinished n h h' rest :
  Header_Parse_loop n h = Ret (h', false, rest) -> rest = [].
Proof.
  revert h. induction n as [|n IH]; intros [fs d] H; destruct d as [|c d];
    cbn [Header_Parse_loop h_data Fields] in H; try congruence.
  destruct (skipEOL (c :: d)) as [d2 []]; [congruence|].
  destruct (IndexByte (c :: d) LF); [|congruence].
  apply bind_Ret in H as (f & _ & H). by apply IH in H.
Qed.

Lemma feed_concat h c cs : feed h (c :: cs) = Header_Parse h (c ++ concat cs).
Proof.
  revert h c. induction cs as [|c' cs IH]; intros h c.
  - cbn [concat]. rewrite app_nil_r. cbn [feed].
    destruct (Header_Parse h c) as [[[h' []] rest]|e| |] eqn:Hp; cbn [mbind outcome_bind]; try done.
    + by rewrite app_nil_r.
    + by rewrite (Header_Parse_loop_unfinished _ _ _ _ Hp).
  - cbn [concat]. rewrite Header_Parse_extend.
    change (feed h (c :: c' :: cs)) with
      ('(h, found, rest) ← Header_Parse h c;
       if (found : bool) then Ret (h, true, rest ++ concat (c' :: cs)) else feed h (c' :: cs)).
    destruct (Header_Parse h c) as [[[h' []] rest]|e| |]; cbn [mbind outcome_bind extended]; try done.
Qed.

(** [C39] The parser does not depend on how the standard output of the
    application is cut into records: handing it any pieces one after another
    gives the same fields, verdict, rest and errors as handing it the whole. *)
Theorem Header_Parse_pieces h cs :
  feed h cs = if decide (cs = []) then Ret (h, false, []) else Header_Parse h (concat cs).
Proof.
  destruct cs as [|c cs]; [done|]. apply feed_concat.
Qed.

(** A header block is parsed back from any pieces: the fields in order,
    values without surrounding blanks, and the data that follows untouched. *)
Theorem Header_Parse_block fs rest cs :
  Forall field_ok fs -> concat cs = (fs ≫= serialize_field) ++ [CR; LF] ++ rest ->
  feed empty_header cs = Ret (mkFHeader fs [], true, rest).
Proof.
  intros Hfs Hcs. destruct cs as [|c cs].
  { by destruct (fs ≫= serialize_field) in Hcs. }
  rewrite feed_concat. cbn [concat] in Hcs. rewrite Hcs.
  by apply (Header_Parse_serialized fs rest []).
Qed.

Lemma Header_Parse_block_witness :
  let fs := [mkField "Status"%go "302 Found"%go; mkField "Location"%go "/x"%go] in
  let block := (fs ≫= serialize_field) ++ [CR; LF] ++ "body"%go in
  feed empty_header [take 20 block; []; drop 20 block] = Ret (mkFHeader fs [], true, "body"%go).
Proof.
  intros fs block. apply (Header_Parse_block fs "body"%go); [by_decision|].
  cbn [concat]. rewrite app_nil_r. apply take_drop.
Defined.

Section unicode_properties.
Context `{GoUnicode}.

(** The status of a response is always one HTTP can express, between 1
    and 999: a missing, malformed or out of range status is 200. *)
Theorem Header_Status_bounds h :
  1 <= fst (Header_Status h) <= 999
  /\ (Header_Field h "Status"%go = [] -> Header_Status h = (200, "OK"%go)).
Proof.
  unfold Header_Status. split.
  - case_bool_decide; [simpl; lia|]. destruct (Cut _ _) as [[code reason] found].
    destruct (ParseInt code) as [n|]; [|simpl; lia].
    destruct ((n <? 1) || (999 <? n)) eqn:Hn; simpl; [lia|]. bool_facts. lia.
  - intros ->. by rewrite bool_decide_true.
Qed.
End unicode_properties.
