(* ===== verification/FcgiConnection.v ===== *)
(** * FastCGI connections (pkg/fastcgi/connection.go)

    One connection to a FastCGI application: what is written for a request,
    and the loop that reads its response.  The peer is the bytes it sends and
    how much it accepts; the request streams and the response writer are the Go
    interfaces [io.Reader] and [io.Writer]. *)

From S2P Require Import Prelude GoStrings FcgiProtocol FcgiHeader.

(** ** The interfaces of package [io] *)

(** [Read] into a buffer of the given size: the bytes read and the error. *)
Class io_Reader (R : Type) := {
  Reader_Read : R -> nat -> list ascii * option error * R
}.

Class io_Writer (W : Type) := {
  Writer_Write : W -> list ascii -> Z * option error * W
}.

(** [bytes.Reader] *)
Record bytes_Reader := NewReader { br_rest : list ascii }.
#[export] Instance bytes_Reader_reader : io_Reader bytes_Reader := {|
  Reader_Read r n :=
    match br_rest r with
    | [] => ([], Some io_EOF, r)
    | s => (take n s, None, NewReader (drop n s))
    end
|}.

(** [bytes.Buffer] *)
Record bytes_Buffer := mkBuffer { buf_Bytes : list ascii }.
#[export] Instance bytes_Buffer_writer : io_Writer bytes_Buffer := {|
  Writer_Write b data := (len data, None, mkBuffer (buf_Bytes b ++ data))
|}.

(** ** The connection *)

(** The end of the context of a request closes its connection while a goroutine uses it:
    between two of its calls, or during one, which had written some bytes. *)
Inductive Interruption := BetweenCalls | DuringCall (partial : nat).

(** [Connection]: [c_open] says that [conn] is not nil; [c_sent] is what the
    peer was sent; [c_room] bounds what it accepts before writes fail.  When [c_cut] is
    [Some (n, i)], [Connection.Close] is called elsewhere after [n] more calls on [conn]. *)
Record FcgiConn := mkConn {
  c_open : bool;
  c_in : Incoming;
  c_sent : list ascii;
  c_room : option (nat * error);
  c_values : list NameValuePair;
  c_cut : option (nat * Interruption)
}.

Definition set_in (i : Incoming) (c : FcgiConn) : FcgiConn :=
  mkConn (c_open c) i (c_sent c) (c_room c) (c_values c) (c_cut c).
Definition set_values (vs : list NameValuePair) (c : FcgiConn) : FcgiConn :=
  mkConn (c_open c) (c_in c) (c_sent c) (c_room c) vs (c_cut c).
Definition set_sent (d : list ascii) (room : option (nat * error)) (c : FcgiConn) : FcgiConn :=
  mkConn (c_open c) (c_in c) d room (c_values c) (c_cut c).
Definition set_cut (cut : option (nat * Interruption)) (c : FcgiConn) : FcgiConn :=
  mkConn (c_open c) (c_in c) (c_sent c) (c_room c) (c_values c) cut.

(** [Connection.Close] *)
Definition Connection_Close (c : FcgiConn) : FcgiConn :=
  mkConn false (c_in c) (c_sent c) (c_room c) (c_values c) (c_cut c).

(** [Connection.Values] *)
Definition Connection_Values (c : FcgiConn) : list NameValuePair := c_values c.

(** A call on the underlying [net.Conn]: a nil one is a nil dereference, and one that is
    closed during the call interrupts it; [part] is what the call had done. *)
Definition conn_call {A} (part : nat -> FcgiConn -> FcgiConn) (m : ST FcgiConn A) : ST FcgiConn A := fun c =>
  if negb (c_open c) then (Panic, c)
  else match c_cut c with
       | None => m c
       | Some (S n, i) => m (set_cut (Some (n, i)) c)
       | Some (O, BetweenCalls) => (Panic, Connection_Close c)
       | Some (O, DuringCall partial) => (Throw net_ErrClosed, Connection_Close (part partial c))
       end.

Definition conn_write (data : list ascii) : ST FcgiConn unit :=
  conn_call (fun n c => set_sent (c_sent c ++ take n data) (c_room c) c) (fun c =>
    match c_room c with
    | None => (Ret tt, set_sent (c_sent c ++ data) None c)
    | Some (n, e) =>
        if (length data <=? n)%nat then (Ret tt, set_sent (c_sent c ++ data) (Some ((n - length data)%nat, e)) c)
        else (Throw e, set_sent (c_sent c ++ take n data) (Some (O, e)) c)
    end).

(** A record read from the underlying [net.Conn]. *)
Definition conn_read : ST FcgiConn FcgiRecord :=
  conn_call (fun _ c => c) (fun c =>
    match Record_Read (c_in c) with
    | Ret (r, i) => (Ret r, set_in i c)
    | Throw e => (Throw e, c)
    | Panic => (Panic, c)
    | OutOfFuel => (OutOfFuel, c)
    end).

Definition writeRecord (rtype : RecordType) (id : Z) (body : Body) : ST FcgiConn unit := fun c =>
  let record := mkRecord 1 rtype id body in
  let '(r, c) := (data ← lift (Record_Write record); conn_write data) c in
  match r with
  | Throw err => (Throw (UnwrapOpError (UnwrapOpError err "writev"%go) "write"%go), c)
  | r => (r, c)
  end.

Definition processValues (body : GetValuesResultBody) : ST FcgiConn unit :=
  modify (set_values (Pairs body)).

Definition fetchValues : ST FcgiConn unit :=
  let names := ["FCGI_MAX_CONNS"%go; "FCGI_MAX_REQS"%go; "FCGI_MPXS_CONNS"%go] in
  let body := mkGetValuesBody names in
  _ ← wrapST "cannot write record"%go (writeRecord RecordTypeGetValues 0 (BodyGetValues body));
  r ← wrapST "cannot read record"%go conn_read;
  if bool_decide (rec_Type r <> RecordTypeGetValuesResult) then
    throw (Errorf "received unexpected record"%go)
  else match rec_Body r with
       | BodyGetValuesResult b => wrapST "cannot process values"%go (processValues b)
       | _ => lift Panic
       end.

(** [NewConnection], given the connection [dial] returns. *)
Definition NewConnection (dial : outcome FcgiConn) : outcome FcgiConn :=
  match dial with
  | Ret c =>
      match fetchValues c with
      | (Ret _, c) => Ret c
      | (Throw e, _) => Throw (Wrapf "cannot fetch values"%go e)
      | (Panic, _) => Panic
      | (OutOfFuel, _) => OutOfFuel
      end
  | Throw _ => Throw (Errorf "cannot connect"%go)
  | Panic => Panic
  | OutOfFuel => OutOfFuel
  end.

(** ** Requests *)

Definition bufSize : nat := Z.to_nat (16 * 1024).
#[global] Opaque bufSize.

Section request.
Context {R : Type} `{io_Reader R}.

(** The loop of [writeStream]: the connection and the stream it reads. *)
Fixpoint writeStream_loop (fuel : nat) (rtype : RecordType) (id : Z) : ST (FcgiConn * R) unit :=
  match fuel with
  | O => lift OutOfFuel
  | S fuel' =>
      '(data, err) ← (fun '(c, stream) =>
         let '(data, err, stream) := Reader_Read stream bufSize in (Ret (data, err), (c, stream)));
      match err with
      | Some e =>
          if bool_decide (e = io_EOF) then mret tt
          else throw (Wrapf "cannot read stream"%go e)
      | None =>
          _ ← wrapST "cannot write record"%go
                (zoom fst (fun c s => (c, snd s)) (writeRecord rtype id (BodyBytes data)));
          writeStream_loop fuel' rtype id
      end
  end.

Definition writeStream (fuel : nat) (rtype : RecordType) (id : Z) : ST (FcgiConn * R) unit :=
  _ ← writeStream_loop fuel rtype id;
  wrapST "cannot write record"%go
    (zoom fst (fun c s => (c, snd s)) (writeRecord rtype id BodyNil)).
End request.

(** [writeStream] of a stream made on the spot from a byte slice. *)
Definition writeStream_bytes (fuel : nat) (rtype : RecordType) (id : Z) (data : list ascii)
  : ST FcgiConn unit := fun c =>
  let '(r, (c, _)) := writeStream fuel rtype id (c, NewReader data) in (r, c).

(** The connection and the two streams of a request; [None] is a nil reader. *)
Record ReqState (R : Type) := mkReq {
  q_conn : FcgiConn;
  q_stdin : option R;
  q_data : option R
}.
Arguments mkReq {R} _ _ _.
Arguments q_conn {R} _.
Arguments q_stdin {R} _.
Arguments q_data {R} _.

Section write_request.
Context {R : Type} `{io_Reader R}.

Definition on_conn {A} (m : ST FcgiConn A) : ST (ReqState R) A :=
  zoom q_conn (fun c s => mkReq c (q_stdin s) (q_data s)) m.

(** An optional stream: an empty one in place of nil when the role needs it. *)
Definition write_optional (fuel : nat) (rtype : RecordType) (id : Z) (required : bool)
    (get : ReqState R -> option R) (set : option R -> ReqState R -> ReqState R)
  : ST (ReqState R) unit := fun s =>
  match get s with
  | Some r =>
      let '(res, (c, r)) := writeStream fuel rtype id (q_conn s, r) in
      (res, set (Some r) (mkReq c (q_stdin s) (q_data s)))
  | None => if required then on_conn (writeStream_bytes fuel rtype id []) s else (Ret tt, s)
  end.

Definition writeRequest (fuel : nat) (role : Role) (params : list NameValuePair) (reqId : Z)
  : ST (ReqState R) unit :=
  let beginReq := mkBeginRequestBody role true in
  _ ← wrapST "cannot write record"%go
        (on_conn (writeRecord RecordTypeBeginRequest reqId (BodyBeginRequest beginReq)));
  paramData ← wrapST "cannot encode parameters"%go (lift (NameValuePairs_Encode params));
  _ ← wrapST "cannot write parameter stream"%go
        (on_conn (writeStream_bytes fuel RecordTypeParams reqId paramData));
  _ ← wrapST "cannot write stdin stream"%go
        (write_optional fuel RecordTypeStdin reqId
           (bool_decide (role = RoleResponder) || bool_decide (role = RoleFilter))
           q_stdin (fun r s => mkReq (q_conn s) r (q_data s)));
  wrapST "cannot write data stream"%go
    (write_optional fuel RecordTypeData reqId (bool_decide (role = RoleFilter))
       q_data (fun r s => mkReq (q_conn s) (q_stdin s) r)).
End write_request.

(** ** Responses *)

Definition ErrServerOverloaded := ErrVar "fastcgi.ErrServerOverloaded"%go.
Definition ErrRequestCancelled := ErrVar "fastcgi.ErrRequestCancelled"%go.
Definition ErrRequestTimeout := ErrVar "fastcgi.ErrRequestTimeout"%go.

(** The connection, the response writer and the standard error buffer. *)
Record RespState (W : Type) := mkResp {
  p_conn : FcgiConn;
  p_stdout : W;
  p_stderr : list ascii
}.
Arguments mkResp {W} _ _ _.
Arguments p_conn {W} _.
Arguments p_stdout {W} _.
Arguments p_stderr {W} _.

Section response.
Context {W : Type} `{io_Writer W}.

Definition resp_conn {A} (m : ST FcgiConn A) : ST (RespState W) A :=
  zoom p_conn (fun c s => mkResp c (p_stdout s) (p_stderr s)) m.

Definition stdout_write (data : list ascii) : ST (RespState W) unit := fun s =>
  let '(_, err, w) := Writer_Write (p_stdout s) data in
  (match err with None => Ret tt | Some e => Throw e end, mkResp (p_conn s) w (p_stderr s)).

(** The error an EndRequest record stands for. *)
Definition end_error (body : EndRequestBody) (stderr : list ascii) (headerRead : bool)
  : option error :=
  match er_ProtocolStatus body with
  | ProtocolStatusCannotMultiplexConnection => Some ErrServerOverloaded
  | ProtocolStatusOverloaded => Some ErrServerOverloaded
  | ProtocolStatusUnknownRole => Some (Errorf "unknown request role"%go)
  | ProtocolStatusRequestComplete =>
      if negb (AppStatus body =? 0) then Some (AppError (AppStatus body) stderr)
      else if negb headerRead then Some (Errorf "request ended without response"%go)
      else None
  end.

(** The loop of [readResponse], with the header parsed so far. *)
Fixpoint readResponse_loop (fuel : nat) (header : FHeader) (headerRead : bool)
  : ST (RespState W) FHeader :=
  match fuel with
  | O => lift OutOfFuel
  | S fuel' =>
      r ← wrapST "cannot read record"%go (resp_conn conn_read);
      match rec_Type r with
      | RecordTypeGetValuesResult =>
          match rec_Body r with
          | BodyGetValuesResult b =>
              _ ← wrapST "cannot process values"%go (resp_conn (processValues b));
              readResponse_loop fuel' header headerRead
          | _ => lift Panic
          end
      | RecordTypeUnknownType =>
          match rec_Body r with
          | BodyUnknownType _ => throw (Errorf "server does not support record type"%go)
          | _ => lift Panic
          end
      | RecordTypeEndRequest =>
          match rec_Body r with
          | BodyEndRequest b =>
              stderr ← gets p_stderr;
              match end_error b stderr headerRead with
              | Some err => throw err
              | None => mret header
              end
          | _ => lift Panic
          end
      | RecordTypeStdout =>
          match rec_Body r with
          | BodyBytes body =>
              '(header, headerRead, body) ←
                (if headerRead then mret (header, true, body)
                 else
                   '(header, headerEnd, rest) ←
                     wrapST "cannot parse response header"%go (lift (Header_Parse header body));
                   mret (header, headerEnd, if (headerEnd : bool) then rest else body));
              _ ← wrapST "cannot write stdout"%go (stdout_write body);
              readResponse_loop fuel' header headerRead
          | _ => lift Panic
          end
      | RecordTypeStderr =>
          match rec_Body r with
          | BodyBytes data =>
              _ ← modify (fun s => mkResp (p_conn s) (p_stdout s) (p_stderr s ++ data));
              readResponse_loop fuel' header headerRead
          | _ => lift Panic
          end
      | _ => throw (Errorf "unhandled record type"%go)
      end
  end.

(** Every record takes at least eight bytes of what the peer sends. *)
Definition readResponse : ST (RespState W) FHeader := fun s =>
  readResponse_loop (S (length (in_data (c_in (p_conn s))))) empty_header false s.
End response.

(** ** A request and its response *)

(** What the [select] of [Connection.SendRequest] sees first: the result of the goroutine,
    or the end of the context, which closes the connection during the call number [calls]
    of the goroutine, that had written [partial] bytes of its data.  The other case, when
    the goroutine is between two calls, is that of [FcgiInterrupt]. *)
Inductive select_case := Finished | CtxDone (ctxErr : error) (calls partial : nat).

Definition ctx_error (err : error) : error :=
  if bool_decide (err = context_Canceled) then ErrRequestCancelled
  else if bool_decide (err = context_DeadlineExceeded) then ErrRequestTimeout
  else err.

Section send.
Context {R W : Type} `{io_Reader R} `{io_Writer W}.

(** The goroutine of [SendRequest]. *)
Definition exchange (fuel : nat) (role : Role) (params : list NameValuePair)
    (q : ReqState R) (stdout : W) (stderr : list ascii)
  : outcome FHeader * (ReqState R * RespState W) :=
  match wrapST "cannot write request"%go (writeRequest fuel role params 1) q with
  | (Ret _, q) =>
      let '(r, p) :=
        wrapST "cannot read response"%go readResponse (mkResp (q_conn q) stdout stderr) in
      (r, (mkReq (p_conn p) (q_stdin q) (q_data q), p))
  | (Throw e, q) => (Throw e, (q, mkResp (q_conn q) stdout stderr))
  | (Panic, q) => (Panic, (q, mkResp (q_conn q) stdout stderr))
  | (OutOfFuel, q) => (OutOfFuel, (q, mkResp (q_conn q) stdout stderr))
  end.

(** What [SendRequest] returns when the context ends: it waits for the goroutine. *)
Definition interrupted (ctxErr : error) (x : outcome FHeader * (ReqState R * RespState W))
  : outcome FHeader * (ReqState R * RespState W) :=
  let '(r, (q, p)) := x in
  let c := Connection_Close (q_conn q) in
  (match r with Panic => Panic | OutOfFuel => OutOfFuel | _ => Throw (ctx_error ctxErr) end,
   (mkReq c (q_stdin q) (q_data q), mkResp c (p_stdout p) (p_stderr p))).

(** The request while the connection is closed after [n] calls of the goroutine. *)
Definition cut_exchange (n : nat) (i : Interruption) (fuel : nat) (role : Role) (params : list NameValuePair)
    (q : ReqState R) (stdout : W) (stderr : list ascii) : outcome FHeader * (ReqState R * RespState W) :=
  exchange fuel role params (mkReq (set_cut (Some (n, i)) (q_conn q)) (q_stdin q) (q_data q)) stdout stderr.

Definition Connection_SendRequest (sel : select_case) (fuel : nat) (role : Role)
    (params : list NameValuePair) (q : ReqState R) (stdout : W) (stderr : list ascii)
  : outcome FHeader * (ReqState R * RespState W) :=
  match sel with
  | Finished => exchange fuel role params q stdout stderr
  | CtxDone ctxErr calls partial =>
      interrupted ctxErr (cut_exchange calls (DuringCall partial) fuel role params q stdout stderr)
  end.
End send.

(** ** Writers that keep what they are given *)

(** What a response body writer promises: every write succeeds and appends. *)
Class CollectingWriter (W : Type) `{io_Writer W} := {
  Collected : W -> list ascii;
  Writer_inv : W -> Prop;
  Write_collects : forall w d, Writer_inv w ->
    exists w', Writer_Write w d = (len d, None, w') /\ Writer_inv w'
               /\ Collected w' = Collected w ++ d
}.

#[export] Instance bytes_Buffer_collects : CollectingWriter bytes_Buffer.
Proof.
  refine {| Collected := buf_Bytes; Writer_inv := fun _ => True |}.
  intros w d _. by eexists.
Defined.

(** ** The connection *)

(** A connection nobody else closes. *)
Definition live (c : FcgiConn) : Prop := c_open c = true /\ c_cut c = None.

Lemma conn_call_live {A} part (m : ST FcgiConn A) c : live c -> conn_call part m c = m c.
Proof. intros [Ho Hc]. unfold conn_call. by rewrite Ho, Hc. Qed.

Lemma conn_read_open c :
  live c ->
  conn_read c = match Record_Read (c_in c) with
                | Ret (r, i) => (Ret r, set_in i c)
                | Throw e => (Throw e, c)
                | Panic => (Panic, c)
                | OutOfFuel => (OutOfFuel, c)
                end.
Proof. intros Hc. unfold conn_read. by rewrite conn_call_live. Qed.

Lemma conn_read_record c r d rest e :
  live c -> c_in c = mkIncoming (d ++ rest) e -> record_ok r -> Record_Write r = Ret d ->
  conn_read c = (Ret (read_back r), set_in (mkIncoming rest e) c).
Proof.
  intros Ho Hi Hok Hw. rewrite conn_read_open, Hi by done.
  by rewrite (Record_Read_Write _ _ _ _ Hok Hw).
Qed.

(** ** Reading responses *)

(** What may follow the header of a response, up to its end. *)
Inductive RespPart :=
  | Out (data : list ascii)
  | Err (data : list ascii)
  | Vals (pairs : list NameValuePair).

Definition part_record (id : Z) (p : RespPart) : FcgiRecord :=
  match p with
  | Out d => mkRecord 1 RecordTypeStdout id (BodyBytes d)
  | Err d => mkRecord 1 RecordTypeStderr id (BodyBytes d)
  | Vals ps => mkRecord 1 RecordTypeGetValuesResult id (BodyGetValuesResult (mkGetValuesResultBody ps))
  end.

Definition part_out (p : RespPart) : list ascii := match p with Out d => d | _ => [] end.
Definition part_err (p : RespPart) : list ascii := match p with Err d => d | _ => [] end.

Definition end_record (id : Z) (status : Z) (p : ProtocolStatus) : FcgiRecord :=
  mkRecord 1 RecordTypeEndRequest id (BodyEndRequest (mkEndRequestBody status p)).

Section response_lemmas.
Context {W : Type} `{CollectingWriter W}.

(** The state is ready to read [data] and has collected [out] and [err]. *)
Definition reading (data : list ascii) (e : error) (out err : list ascii) (s : RespState W) : Prop :=
  live (p_conn s) /\ c_in (p_conn s) = mkIncoming data e
  /\ Writer_inv (p_stdout s) /\ Collected (p_stdout s) = out /\ p_stderr s = err.

Lemma resp_read_record r d rest e out err s :
  reading (d ++ rest) e out err s -> record_ok r -> Record_Write r = Ret d ->
  exists s', wrapST "cannot read record"%go (resp_conn conn_read) s = (Ret (read_back r), s')
             /\ reading rest e out err s'.
Proof.
  intros (Ho & Hi & Hinv & Hout & Herr) Hok Hw. unfold wrapST, resp_conn, zoom.
  rewrite (conn_read_record _ _ _ _ _ Ho Hi Hok Hw). eexists. split; [reflexivity|]. done.
Qed.

Lemma stdout_write_collects data e out err body s :
  reading data e out err s ->
  exists s', wrapST "cannot write stdout"%go (stdout_write body) s = (Ret tt, s')
             /\ reading data e (out ++ body) err s'.
Proof.
  intros (Ho & Hi & Hinv & Hout & Herr). unfold wrapST, stdout_write.
  destruct (Write_collects (p_stdout s) body Hinv) as (w' & -> & Hinv' & Hc).
  eexists. split; [reflexivity|]. unfold reading. cbn. by rewrite Hc, Hout.
Qed.

(** One turn of the loop. *)
Lemma readResponse_turn r d rest e out err s fuel h hr :
  reading (d ++ rest) e out err s -> record_ok r -> Record_Write r = Ret d ->
  match r with
  | mkRecord _ RecordTypeStdout _ (BodyBytes b) =>
      forall h' he tl, (if hr : bool then Ret (h, true, b) else Header_Parse h b) = Ret (h', he, tl) ->
      exists s', readResponse_loop (S fuel) h hr s = readResponse_loop fuel h' he s'
                 /\ reading rest e (out ++ if he then tl else b) err s'
  | mkRecord _ RecordTypeStderr _ (BodyBytes b) =>
      exists s', readResponse_loop (S fuel) h hr s = readResponse_loop fuel h hr s'
                 /\ reading rest e out (err ++ b) s'
  | mkRecord _ RecordTypeGetValuesResult _ (BodyGetValuesResult b) =>
      exists s', readResponse_loop (S fuel) h hr s = readResponse_loop fuel h hr s'
                 /\ reading rest e out err s'
  | mkRecord _ RecordTypeEndRequest _ (BodyEndRequest b) =>
      exists s', readResponse_loop (S fuel) h hr s
                 = (match end_error b err hr with Some er => Throw er | None => Ret h end, s')
                 /\ reading rest e out err s'
  | _ => True
  end.
Proof.
  intros Hs Hok Hw. destruct (resp_read_record _ _ _ _ _ _ _ Hs Hok Hw) as (s1 & Hrd & Hs1).
  destruct r as [v t id b]. destruct t; try done; destruct b; try done.
  - cbn [readResponse_loop]. rewrite (st_bind_ret _ _ _ _ _ Hrd). cbn [read_back rec_Type rec_Body normalize_body].
    rewrite (st_bind_ret (gets p_stderr) _ s1 (p_stderr s1) s1) by done.
    destruct Hs1 as (? & ? & ? & ? & Herr). rewrite Herr.
    destruct (end_error body err hr); eexists; (split; [reflexivity|]); done.
  - intros h' he tl Hp. cbn [readResponse_loop]. rewrite (st_bind_ret _ _ _ _ _ Hrd).
    cbn [read_back rec_Type rec_Body normalize_body].
    rewrite (st_bind_ret _ _ s1 (h', he, if he then tl else data) s1).
    2:{ destruct hr; [by simplify_eq|]. unfold wrapST, lift. unfold mbind, st_bind. by rewrite Hp. }
    cbv iota beta.
    destruct (stdout_write_collects _ _ _ _ (if he then tl else data) _ Hs1) as (s2 & Hwr & Hs2).
    rewrite (st_bind_ret _ _ _ _ _ Hwr). eauto.
  - cbn [readResponse_loop]. rewrite (st_bind_ret _ _ _ _ _ Hrd). cbn [read_back rec_Type rec_Body normalize_body].
    eexists. split; [unfold modify; unfold mbind at 1; unfold st_bind; reflexivity|].
    destruct Hs1 as (? & ? & ? & ? & Herr). unfold reading. cbn. by rewrite Herr.
  - cbn [readResponse_loop]. rewrite (st_bind_ret _ _ _ _ _ Hrd). cbn [read_back rec_Type rec_Body normalize_body].
    eexists. split; [unfold wrapST, resp_conn, zoom, processValues, modify; unfold mbind at 1; unfold st_bind; reflexivity|].
    destruct Hs1 as (? & ? & ? & ? & Herr). done.
Qed.

Definition part_ok (id : Z) (p : RespPart) : Prop := record_ok (part_record id p).

Lemma readResponse_parts id parts d rest e out err s fuel h :
  reading (d ++ rest) e out err s ->
  Forall (part_ok id) parts -> write_records (map (part_record id) parts) = Ret d ->
  exists s', readResponse_loop (length parts + fuel) h true s = readResponse_loop fuel h true s'
             /\ reading rest e (out ++ (parts ≫= part_out)) (err ++ (parts ≫= part_err)) s'.
Proof.
  intros Hs Hok. revert d out err s Hs. induction Hok as [|p parts Hp Hok IH]; intros d out err s Hs Hw.
  { injection Hw as <-. exists s. by rewrite !app_nil_r. }
  cbn [map write_records] in Hw.
  apply bind_Ret in Hw as (d1 & H1 & Hw). apply bind_Ret in Hw as (d2 & H2 & [= <-]).
  rewrite <- app_assoc in Hs. cbn [length plus mbind list_bind].
  pose proof (readResponse_turn _ _ _ _ _ _ _ (length parts + fuel) h true Hs Hp H1) as Ht.
  destruct p as [b|b|ps]; cbn [part_record part_out part_err] in *.
  - destruct (Ht h true b eq_refl) as (s1 & -> & Hs1).
    destruct (IH _ _ _ _ Hs1 H2) as (s2 & -> & Hs2). exists s2. by rewrite <- app_assoc in Hs2.
  - destruct Ht as (s1 & -> & Hs1).
    destruct (IH _ _ _ _ Hs1 H2) as (s2 & -> & Hs2). exists s2. by rewrite <- app_assoc in Hs2.
  - destruct Ht as (s1 & -> & Hs1).
    destruct (IH _ _ _ _ Hs1 H2) as (s2 & -> & Hs2). exists s2. done.
Qed.

(** A response: pieces of the header, the record that holds its end, and the
    records that follow. *)
Definition response_records (id : Z) (pre : list (list ascii)) (b : list ascii)
    (parts : list RespPart) (status : Z) (p : ProtocolStatus) : list FcgiRecord :=
  map (part_record id) (map Out pre) ++ part_record id (Out b)
    :: map (part_record id) parts ++ [end_record id status p].

Lemma readResponse_tail id b parts status p d rest e out err s fuel h h' tl :
  reading (d ++ rest) e out err s ->
  Forall record_ok (response_records id [] b parts status p) ->
  write_records (response_records id [] b parts status p) = Ret d ->
  Header_Parse h b = Ret (h', true, tl) ->
  exists s', readResponse_loop (S (length parts + S fuel)) h false s
             = (match end_error (mkEndRequestBody status p) (err ++ (parts ≫= part_err)) true with
                | Some er => Throw er | None => Ret h' end, s')
             /\ reading rest e (out ++ tl ++ (parts ≫= part_out)) (err ++ (parts ≫= part_err)) s'.
Proof.
  intros Hs Hok Hw Hp. cbn [response_records map app] in *.
  apply Forall_cons in Hok as [Hb Hok]. apply Forall_app in Hok as [Hparts Hend].
  apply Forall_cons in Hend as [Hend _].
  cbn [write_records] in Hw. apply bind_Ret in Hw as (d1 & H1 & Hw).
  apply bind_Ret in Hw as (d2 & H2 & [= <-]). rewrite <- app_assoc in Hs.
  pose proof (readResponse_turn _ _ _ _ _ _ _ (length parts + S fuel) h false Hs Hb H1 h' true tl Hp)
    as (s1 & -> & Hs1).
  assert (exists dp de, write_records (map (part_record id) parts) = Ret dp
                        /\ Record_Write (end_record id status p) = Ret de /\ d2 = dp ++ de)
    as (dp & de & Hdp & Hde & ->).
  { clear -H2. revert d2 H2. induction parts as [|q parts IH]; intros d2 H2; cbn [map app write_records] in *.
    - apply bind_Ret in H2 as (de & Hde & [= <-]). exists [], de. by rewrite app_nil_r.
    - apply bind_Ret in H2 as (dq & Hq & H2). apply bind_Ret in H2 as (d3 & H3 & [= <-]).
      destruct (IH _ H3) as (dp & de & Hdp & Hde & ->). rewrite Hq, Hdp. exists (dq ++ dp), de.
      by rewrite app_assoc. }
  rewrite <- app_assoc in Hs1.
  destruct (readResponse_parts id parts dp _ _ _ _ _ (S fuel) h' Hs1) as (s2 & -> & Hs2).
  { rewrite Forall_map in Hparts. done. }
  { done. }
  pose proof (readResponse_turn _ _ _ _ _ _ _ fuel h' true Hs2 Hend Hde) as Ht.
  cbn [end_record] in Ht. destruct Ht as (s3 & -> & Hs3). exists s3. split; [done|].
  by rewrite <- app_assoc in Hs3.
Qed.

(** Completion: no input makes the reader panic, and its fuel suffices. *)
Lemma conn_read_completed c :
  live c ->
  completed (fst (conn_read c)) /\
  (forall r c', conn_read c = (Ret r, c') ->
    live c' /\ body_matches (rec_Type r) (rec_Body r) = true
    /\ (length (in_data (c_in c')) < length (in_data (c_in c)))%nat).
Proof.
  intros Ho. rewrite conn_read_open by done.
  pose proof (Record_Read_completed (c_in c)) as Hc.
  destruct (Record_Read (c_in c)) as [[r i]|e| |] eqn:Hr; try done.
  split; [done|]. intros r' c' [= <- <-].
  destruct (Record_Read_Ret _ _ _ Hr) as (_ & Hm & _ & (pre & Hpre & Hl) & _).
  split; [done|]. split; [done|]. cbn. rewrite Hpre, length_app. lia.
Qed.

Lemma readResponse_loop_completed fuel h hr s :
  live (p_conn s) -> (length (in_data (c_in (p_conn s))) < fuel)%nat ->
  completed (fst (readResponse_loop fuel h hr s)).
Proof using W H.
  revert h hr s. induction fuel as [|fuel IH]; intros h hr s Ho Hf; [lia|].
  cbn [readResponse_loop].
  destruct (conn_read_completed (p_conn s) Ho) as [Hc Hret].
  apply st_completed_bind.
  { apply wrapST_completed. unfold resp_conn, zoom. by destruct (conn_read (p_conn s)). }
  intros r s1 Hr. unfold wrapST, resp_conn, zoom in Hr.
  destruct (conn_read (p_conn s)) as [[r'|e| |] c] eqn:Hcr; try discriminate Hr.
  injection Hr as <- <-. destruct (Hret _ _ eq_refl) as (Ho1 & Hm & Hl).
  destruct (rec_Type r') eqn:Ht; destruct (rec_Body r') eqn:Hb; try discriminate Hm; try done.
  - apply st_completed_bind; [done|]. intros err s2 [= <- <-]. by case_goal.
  - apply st_completed_bind.
    { destruct hr; [done|]. apply st_completed_bind.
      - apply wrapST_completed. apply Header_Parse_completed.
      - by intros [[? ?] ?] s' _. }
    intros [[h' hr'] b] s2 Hs2.
    assert (s2 = mkResp c (p_stdout s) (p_stderr s)) as ->.
    { destruct hr; [by injection Hs2 as <-|].
      unfold wrapST, lift, mbind, st_bind, mret, st_ret in Hs2.
      destruct (Header_Parse h data) as [[[? ?] ?]| | |]; simpl in Hs2; simplify_eq; done. }
    apply st_completed_bind.
    { apply wrapST_completed. unfold stdout_write.
      by destruct (Writer_Write _ _) as [[? [?|]] ?]. }
    intros [] s3 Hs3. unfold wrapST, stdout_write in Hs3.
    destruct (Writer_Write _ _) as [[? [?|]] w]; simplify_eq/=. apply IH; cbn; [done|lia].
  - apply st_completed_bind; [done|]. intros [] s2 [= <-]. apply IH; cbn; [done|lia].
  - apply st_completed_bind; [done|]. intros [] s2 [= <-]. apply IH; cbn; [done|lia].
Qed.
End response_lemmas.

(** ** Writing requests *)

(** The connection after the peer was sent [d]. *)
Definition sent (c : FcgiConn) (d : list ascii) : FcgiConn :=
  mkConn true (c_in c) (c_sent c ++ d) None (c_values c) None.

Definition writable (c : FcgiConn) : Prop := live c /\ c_room c = None.

Lemma sent_writable c d : writable (sent c d).
Proof. done. Qed.

Lemma sent_sent c d1 d2 : sent (sent c d1) d2 = sent c (d1 ++ d2).
Proof. unfold sent. cbn. by rewrite app_assoc. Qed.

Lemma sent_nil c : writable c -> sent c [] = c.
Proof. intros [[Ho Hc] Hr]. unfold sent. rewrite app_nil_r. destruct c; simpl in *. by subst. Qed.

Lemma writeRecord_sent t id b c d :
  writable c -> Record_Write (mkRecord 1 t id b) = Ret d -> writeRecord t id b c = (Ret tt, sent c d).
Proof.
  intros [Hl Hr] Hw. unfold writeRecord. rewrite Hw. unfold lift, mbind, st_bind, conn_write.
  rewrite conn_call_live, Hr by done. unfold set_sent, sent. destruct Hl as [-> ->]. done.
Qed.

(** What a reader gives to a caller that asks for [bufSize] bytes at a time. *)
Inductive provides {R} `{io_Reader R} : R -> list (list ascii) -> R -> Prop :=
  | provides_end r d r' :
      Reader_Read r bufSize = (d, Some io_EOF, r') -> provides r [] r'
  | provides_data r d r1 ds r' :
      Reader_Read r bufSize = (d, None, r1) -> (length d <= bufSize)%nat ->
      provides r1 ds r' -> provides r (d :: ds) r'.

Lemma bufSize_value : Z.of_nat bufSize = 16384.
Proof. Transparent bufSize. unfold bufSize. by rewrite Z2Nat.id. Opaque bufSize. Qed.

Fixpoint chunks (fuel : nat) (l : list ascii) : list (list ascii) :=
  match fuel, l with
  | S fuel', _ :: _ => take bufSize l :: chunks fuel' (drop bufSize l)
  | _, _ => []
  end.

Definition stream_chunks (l : list ascii) : list (list ascii) := chunks (length l) l.

Lemma provides_nothing : provides (NewReader []) [] (NewReader []).
Proof. exact (provides_end (NewReader []) [] (NewReader []) eq_refl). Qed.

Lemma chunks_facts fuel l :
  (length l <= fuel)%nat ->
  provides (NewReader l) (chunks fuel l) (NewReader []) /\ concat (chunks fuel l) = l
  /\ (length (chunks fuel l) <= length l)%nat.
Proof.
  revert l. induction fuel as [|fuel IH]; intros [|c l] Hf; simpl in Hf; try lia.
  1-2: (split; [exact provides_nothing|done]).
  destruct (IH (drop bufSize (c :: l))) as (IH1 & IH2 & IH3).
  { pose proof bufSize_value. rewrite length_drop. simpl. lia. }
  pose proof bufSize_value as Hb. cbn [chunks concat]. split.
  { eapply provides_data; [reflexivity| |exact IH1]. rewrite length_take. lia. }
  split; [rewrite IH2; apply take_drop|].
  cbn [length]. rewrite length_drop in IH3. simpl length in *. lia.
Qed.

(** The records of a stream: one for each read, then an empty one. *)
Definition stream_records (t : RecordType) (id : Z) (ds : list (list ascii)) : list FcgiRecord :=
  map (fun d => mkRecord 1 t id (BodyBytes d)) ds ++ [mkRecord 1 t id BodyNil].

Lemma Record_Write_bytes t id d : exists w, Record_Write (mkRecord 1 t id (BodyBytes d)) = Ret w.
Proof. by eexists. Qed.

Section request_lemmas.
Context {R : Type} `{io_Reader R}.

Lemma stream_write (r : R) t id b c d :
  writable c -> Record_Write (mkRecord 1 t id b) = Ret d ->
  wrapST "cannot write record"%go
    (zoom fst (fun c (s : FcgiConn * R) => (c, snd s)) (writeRecord t id b)) (c, r)
  = (Ret tt, (sent c d, r)).
Proof. intros Hw Hd. unfold wrapST, zoom. cbn [fst]. by rewrite (writeRecord_sent _ _ _ _ _ Hw Hd). Qed.

Lemma writeStream_provides (r r' : R) ds t id fuel c :
  provides r ds r' -> (length ds < fuel)%nat -> writable c ->
  exists d, write_records (stream_records t id ds) = Ret d
            /\ writeStream fuel t id (c, r) = (Ret tt, (sent c d, r')).
Proof.
  intros Hp. revert fuel c. induction Hp as [r d r' Hr|r d r1 ds r' Hr Hd Hp IH]; intros fuel c Hf Hw.
  - destruct fuel as [|fuel]; [lia|]. cbn. eexists. split; [reflexivity|].
    unfold writeStream. cbn [writeStream_loop]. unfold mbind, st_bind. rewrite Hr.
    rewrite bool_decide_true by done. unfold mret, st_ret.
    by erewrite stream_write by done.
  - destruct fuel as [|fuel]; [simpl in Hf; lia|].
    destruct (Record_Write_bytes t id d) as (w & Hwd).
    destruct (IH fuel (sent c w)) as (d2 & H2 & Hs); [simpl in Hf; lia|done|].
    exists (w ++ d2). split.
    { unfold stream_records in *. cbn [map app write_records]. by rewrite Hwd, H2. }
    rewrite <- sent_sent, <- Hs. unfold writeStream. cbn [writeStream_loop].
    unfold mbind, st_bind. rewrite Hr. by rewrite (stream_write _ _ _ _ _ _ Hw Hwd).
Qed.

Lemma stream_records_ok t id ds :
  0 <= id < 2 ^ 16 -> body_matches t (BodyBytes []) = true ->
  Forall (fun d => (length d <= bufSize)%nat) ds -> Forall record_ok (stream_records t id ds).
Proof.
  intros Hid Ht Hds. unfold stream_records. apply Forall_app. split.
  - apply Forall_map. eapply Forall_impl; [exact Hds|]. intros d Hd.
    split; [done|]. split; [done|]. split; [by destruct t|].
    cbn [rec_Body body_ok]. unfold len, MaxUint16. pose proof bufSize_value. simpl in Hd. lia.
  - apply Forall_singleton. unfold record_ok. cbn. repeat split; try lia; by destruct t.
Qed.

Lemma provides_bounded (r r' : R) ds :
  provides r ds r' -> Forall (fun d => (length d <= bufSize)%nat) ds.
Proof. induction 1; constructor; done. Qed.
End request_lemmas.

Lemma writeStream_bytes_sent fuel t id l c :
  writable c -> (length l < fuel)%nat ->
  exists d, write_records (stream_records t id (stream_chunks l)) = Ret d
            /\ writeStream_bytes fuel t id l c = (Ret tt, sent c d).
Proof.
  intros Hw Hf. destruct (chunks_facts (length l) l (le_n _)) as (Hp & _ & Hl).
  destruct (writeStream_provides _ _ _ t id fuel c Hp) as (d & Hd & Hs); [lia|done|].
  exists d. split; [done|]. unfold writeStream_bytes. by rewrite Hs.
Qed.

(** ** Requests *)

(** What a reader passed as [stdin] or [data] provides; [None] is a nil one. *)
Definition provides_opt {R} `{io_Reader R} (r : option R) (ds : option (list (list ascii))) : Prop :=
  match r, ds with
  | None, None => True
  | Some r, Some ds => exists r', provides r ds r'
  | _, _ => False
  end.

Definition opt_stream (t : RecordType) (id : Z) (required : bool) (ds : option (list (list ascii)))
  : list FcgiRecord :=
  match ds with
  | Some ds => stream_records t id ds
  | None => if required then stream_records t id [] else []
  end.

Definition has_stdin (role : Role) : bool :=
  bool_decide (role = RoleResponder) || bool_decide (role = RoleFilter).
Definition has_data (role : Role) : bool := bool_decide (role = RoleFilter).

(** The records that make up a request. *)
Definition request_records (role : Role) (id : Z) (pdata : list ascii)
    (ins dat : option (list (list ascii))) : list FcgiRecord :=
  [mkRecord 1 RecordTypeBeginRequest id (BodyBeginRequest (mkBeginRequestBody role true))]
  ++ stream_records RecordTypeParams id (stream_chunks pdata)
  ++ opt_stream RecordTypeStdin id (has_stdin role) ins
  ++ opt_stream RecordTypeData id (has_data role) dat.

Definition chunk_count (ds : option (list (list ascii))) : nat := length (default [] ds).

Section write_request_lemmas.
Context {R : Type} `{io_Reader R}.

Lemma write_optional_sent (s : ReqState R) fuel t id required get set ds :
  provides_opt (get s) ds -> (chunk_count ds < fuel)%nat -> writable (q_conn s) ->
  (forall r s, q_conn (set r s) = q_conn s) ->
  exists d s', write_records (opt_stream t id required ds) = Ret d
    /\ write_optional fuel t id required get set s = (Ret tt, s')
    /\ q_conn s' = sent (q_conn s) d
    /\ (get s = None -> q_stdin s' = q_stdin s /\ q_data s' = q_data s)
    /\ (forall r, get s = Some r -> exists r',
           s' = set (Some r') (mkReq (q_conn s') (q_stdin s) (q_data s))).
Proof.
  intros Hp Hf Hw Hset. unfold write_optional. destruct (get s) as [r|] eqn:Hg; destruct ds as [ds|]; try done.
  - destruct Hp as (r' & Hp).
    destruct (writeStream_provides _ _ _ t id fuel _ Hp Hf Hw) as (d & Hd & ->).
    exists d. eexists. split; [done|]. split; [reflexivity|]. rewrite Hset.
    split; [done|]. split; [done|]. intros ? _. eexists. reflexivity.
  - destruct required.
    + destruct (writeStream_bytes_sent fuel t id [] (q_conn s) Hw) as (d & Hd & He); [simpl; lia|].
      exists d. eexists. split; [done|]. unfold on_conn, zoom. rewrite He. split; [reflexivity|].
      split; [done|]. split; done.
    + exists [], s. split; [done|]. split; [done|]. split; [by rewrite sent_nil|]. split; done.
Qed.

Lemma writeRequest_sent (q : ReqState R) fuel role params id pdata ins dat :
  writable (q_conn q) -> NameValuePairs_Encode params = Ret pdata ->
  provides_opt (q_stdin q) ins -> provides_opt (q_data q) dat ->
  (length pdata < fuel)%nat -> (chunk_count ins < fuel)%nat -> (chunk_count dat < fuel)%nat ->
  exists d q', write_records (request_records role id pdata ins dat) = Ret d
    /\ writeRequest fuel role params id q = (Ret tt, q') /\ q_conn q' = sent (q_conn q) d.
Proof.
  intros Hw Hpar Hin Hdat Hf1 Hf2 Hf3.
  set (b := BodyBeginRequest (mkBeginRequestBody role true)).
  assert (exists d0, Record_Write (mkRecord 1 RecordTypeBeginRequest id b) = Ret d0)
    as (d0 & H0) by (by eexists).
  destruct (writeStream_bytes_sent fuel RecordTypeParams id pdata (sent (q_conn q) d0)
              (sent_writable _ _) Hf1) as (d1 & H1 & He1).
  rewrite sent_sent in He1.
  set (q1 := mkReq (sent (q_conn q) (d0 ++ d1)) (q_stdin q) (q_data q)).
  destruct (write_optional_sent q1 fuel RecordTypeStdin id (has_stdin role) q_stdin
              (fun r s => mkReq (q_conn s) r (q_data s)) ins Hin Hf2 (sent_writable _ _)
              (fun _ _ => eq_refl)) as (d2 & q2 & H2 & He2 & Hc2 & Hn2 & Hs2).
  assert (q_data q2 = q_data q) as Hd2.
  { destruct (q_stdin q1) as [r|] eqn:Hr; [|by apply Hn2].
    destruct (Hs2 r eq_refl) as (r' & ->). done. }
  destruct (write_optional_sent q2 fuel RecordTypeData id (has_data role) q_data
              (fun r s => mkReq (q_conn s) (q_stdin s) r) dat) as (d3 & q3 & H3 & He3 & Hc3 & _);
    [by rewrite Hd2|done|by rewrite Hc2|done|].
  exists (d0 ++ (d1 ++ (d2 ++ d3))), q3. split.
  { unfold request_records. apply write_records_app.
    - by apply write_records_one.
    - apply write_records_app; [done|]. by apply write_records_app. }
  split.
  - unfold writeRequest.
    rewrite (st_bind_ret _ _ _ tt (mkReq (sent (q_conn q) d0) (q_stdin q) (q_data q)))
      by (apply wrapST_ret; unfold on_conn, zoom; by erewrite writeRecord_sent by done).
    rewrite Hpar. cbn [lift].
    rewrite (st_bind_ret _ _ _ pdata (mkReq (sent (q_conn q) d0) (q_stdin q) (q_data q))) by done.
    rewrite (st_bind_ret _ _ _ tt q1) by (apply wrapST_ret; unfold on_conn, zoom; cbn [q_conn]; by rewrite He1).
    rewrite (st_bind_ret _ _ _ tt q2) by (by apply wrapST_ret).
    by apply wrapST_ret.
  - rewrite Hc3, Hc2. unfold q1. cbn [q_conn]. by rewrite !sent_sent, <- !app_assoc.
Qed.

Lemma request_records_ok role id pdata ins dat (q : ReqState R) :
  0 <= id < 2 ^ 16 -> provides_opt (q_stdin q) ins -> provides_opt (q_data q) dat ->
  Forall record_ok (request_records role id pdata ins dat).
Proof.
  intros Hid Hin Hdat.
  assert (forall t required (r : option R) ds, provides_opt r ds ->
    body_matches t (BodyBytes []) = true -> Forall record_ok (opt_stream t id required ds)) as Ho.
  { intros t required [r|] [ds|] Hp Ht; try done; unfold opt_stream.
    - destruct Hp as (r' & Hp). apply stream_records_ok; [done..|]. exact (provides_bounded _ _ _ Hp).
    - destruct required; [|done]. apply stream_records_ok; done. }
  unfold request_records. apply Forall_app. split.
  { apply Forall_singleton. done. }
  apply Forall_app. split; [|apply Forall_app; split].
  - apply stream_records_ok; [done..|].
    destruct (chunks_facts (length pdata) pdata (le_n _)) as (Hp & _).
    exact (provides_bounded _ _ _ Hp).
  - by eapply (Ho _ _ (q_stdin q)).
  - by eapply (Ho _ _ (q_data q)).
Qed.
End write_request_lemmas.

(** ** Properties *)

Lemma header_prefix_unfinished fs a b body :
  Forall field_ok fs ->
  (fs ≫= serialize_field) ++ [CR; LF] ++ body = a ++ b -> (length body < length b)%nat ->
  exists h rest, Header_Parse empty_header a = Ret (h, false, rest)
                 /\ Header_Parse h b = Ret (mkFHeader fs [], true, body).
Proof.
  intros Hfs Heq Hl. pose proof (Header_Parse_serialized fs body [] Hfs) as Hp.
  rewrite Heq in Hp. change (mkFHeader [] []) with empty_header in Hp.
  rewrite Header_Parse_extend in Hp.
  destruct (Header_Parse empty_header a) as [[[h f] rest]|e| |]; try discriminate Hp.
  destruct f; [|by exists h, rest]. simpl in Hp. injection Hp as -> Hb.
  apply (f_equal length) in Hb. rewrite length_app in Hb. lia.
Qed.

Lemma response_tail_fuel id b parts status p d :
  write_records (response_records id [] b parts status p) = Ret d ->
  exists fuel, length d = (length parts + S fuel)%nat.
Proof.
  intros Hw. pose proof (write_records_length _ _ Hw) as Hl. cbn [response_records map app length] in Hl.
  rewrite length_app, length_map in Hl. simpl in Hl. exists (length d - length parts - 1)%nat. lia.
Qed.

Section response_properties.
Context {W : Type} `{CollectingWriter W}.

(** [C1] When the first standard output record of a response holds the whole
    header, [readResponse] returns exactly the fields the application sent,
    hands the writer exactly the rest of the standard output and collects the
    standard error; the protocol and application status decide the error. *)
Theorem readResponse_correct (s : RespState W) id fs body parts status p d e out :
  Forall field_ok fs ->
  let records := response_records id [] ((fs ≫= serialize_field) ++ [CR; LF] ++ body) parts status p in
  Forall record_ok records -> write_records records = Ret d -> reading d e out [] s ->
  exists s', readResponse s
             = (match end_error (mkEndRequestBody status p) (parts ≫= part_err) true with
                | Some er => Throw er
                | None => Ret (mkFHeader fs [])
                end, s')
             /\ reading [] e (out ++ body ++ (parts ≫= part_out)) (parts ≫= part_err) s'.
Proof.
  intros Hfs records Hok Hw Hs. unfold readResponse.
  destruct Hs as (Ho & Hi & Hs'). rewrite Hi. cbn [in_data].
  destruct (response_tail_fuel _ _ _ _ _ _ Hw) as (fuel & ->).
  eapply (readResponse_tail id _ parts status p d [] e out []); rewrite ?app_nil_r; try done.
  by apply (Header_Parse_serialized fs body []).
Qed.

(** When the header is split over two standard output records, the
    bytes [a] of the first one are handed to the response writer in front of
    the body although they are part of the header. *)
Theorem readResponse_split_header (s : RespState W) id fs body a b parts d0 d e out :
  Forall field_ok fs ->
  (fs ≫= serialize_field) ++ [CR; LF] ++ body = a ++ b -> (length body < length b)%nat ->
  let r0 := part_record id (Out a) in
  let records := response_records id [] b parts 0 ProtocolStatusRequestComplete in
  Forall record_ok (r0 :: records) -> Record_Write r0 = Ret d0 -> write_records records = Ret d ->
  reading (d0 ++ d) e out [] s ->
  exists s', readResponse s = (Ret (mkFHeader fs []), s')
             /\ reading [] e (out ++ a ++ body ++ (parts ≫= part_out)) (parts ≫= part_err) s'.
Proof.
  intros Hfs Heq Hl r0 records Hok Hd0 Hw Hs. apply Forall_cons in Hok as [Hok0 Hok].
  destruct (header_prefix_unfinished _ _ _ _ Hfs Heq Hl) as (h & rest & Ha & Hb).
  unfold readResponse. pose proof Hs as (Ho & Hi & _). rewrite Hi. cbn [in_data].
  destruct (readResponse_turn _ _ _ _ _ _ _ (length (d0 ++ d)) empty_header false Hs Hok0 Hd0
              h false rest Ha) as (s1 & -> & Hs1).
  destruct (response_tail_fuel _ _ _ _ _ _ Hw) as (fuel & Hf).
  replace (length (d0 ++ d)) with (S (length parts + S (pred (length d0) + fuel)))%nat
    by (apply Record_Write_length in Hd0; rewrite length_app; lia).
  destruct (readResponse_tail id b parts 0 ProtocolStatusRequestComplete d [] e (out ++ a) [] s1
              (pred (length d0) + fuel) h (mkFHeader fs []) body) as (s2 & Hr & Hs2);
    rewrite ?app_nil_r; try done.
  rewrite <- app_assoc in Hs2. exists s2. by rewrite Hr.
Qed.

(** Whatever bytes the application sends, cut where they may be and
    ended by any error, and however the response writer fails, the loop of
    [readResponse] neither panics nor runs forever. *)
Theorem readResponse_completed {W'} `{io_Writer W'} (s : RespState W') :
  live (p_conn s) -> completed (fst (readResponse s)).
Proof. intros Ho. apply readResponse_loop_completed; [done|lia]. Qed.
End response_properties.

(** [C6] Reading a request back record by record off the wire gives the
    BeginRequest record, the parameter stream, whose content decodes to the
    parameters, then the streams: each has one record for each read and ends
    with an empty one, so that a stream the role calls for is never left out
    (section 6.1 of the protocol), even when its reader is nil. *)
Theorem writeRequest_read_back {R} `{io_Reader R} (q : ReqState R) fuel role params id pdata ins dat e :
  writable (q_conn q) -> 0 <= id < 2 ^ 16 -> Forall pair_ok params ->
  NameValuePairs_Encode params = Ret pdata -> len pdata < 2 ^ 32 ->
  provides_opt (q_stdin q) ins -> provides_opt (q_data q) dat ->
  (length pdata < fuel)%nat -> (chunk_count ins < fuel)%nat -> (chunk_count dat < fuel)%nat ->
  let records := request_records role id pdata ins dat in
  (exists d q', writeRequest fuel role params id q = (Ret tt, q')
     /\ c_sent (q_conn q') = c_sent (q_conn q) ++ d
     /\ read_records (length records) (mkIncoming d e) = Ret (map read_back records, mkIncoming [] e))
  /\ NameValuePairs_Decode [] (concat (stream_chunks pdata)) = Ret params
  /\ (has_stdin role = true -> mkRecord 1 RecordTypeStdin id BodyNil ∈ records)
  /\ (has_data role = true -> mkRecord 1 RecordTypeData id BodyNil ∈ records).
Proof.
  intros Hw Hid Hpar Henc Hlen Hin Hdat Hf1 Hf2 Hf3 records.
  assert (forall t ds, mkRecord 1 t id BodyNil ∈ opt_stream t id true ds) as Hend.
  { intros t [ds|]; simpl; unfold stream_records; [|by left].
    apply elem_of_app. right. by left. }
  split_and!.
  - destruct (writeRequest_sent q fuel role params id pdata ins dat) as (d & q' & Hd & He & Hc); try done.
    exists d, q'. split; [done|]. split; [by rewrite Hc|].
    rewrite <- (app_nil_r d). apply read_records_write; [|done].
    by eapply request_records_ok.
  - unfold stream_chunks. destruct (chunks_facts (length pdata) pdata (le_n _)) as (_ & -> & _).
    unfold NameValuePairs_Decode. by apply (pairs_Decode_loop_Encode (length pdata) [] params).
  - intros Hr. unfold records, request_records. rewrite Hr, !elem_of_app. auto.
  - intros Hr. unfold records, request_records. rewrite Hr, !elem_of_app. auto.
Qed.

(** ** Witnesses *)

Definition example_fields : list Field :=
  [mkField "Status"%go "404 Not found"%go; mkField "Content-Type"%go "text/plain"%go].

Lemma example_fields_ok : Forall field_ok example_fields.
Proof. by_decision. Qed.

(** The state in which [records] are about to be read. *)
Definition awaiting (records : list FcgiRecord) : RespState bytes_Buffer :=
  mkResp (mkConn true (mkIncoming (match write_records records with Ret d => d | _ => [] end) io_EOF)
            [] None [] None) (mkBuffer []) [].

Definition example_parts : list RespPart := [Err "oops"%go; Out "lo"%go; Out []].

Lemma readResponse_correct_witness :
  let records := response_records 1 [] ((example_fields ≫= serialize_field) ++ [CR; LF] ++ "hel"%go)
                   example_parts 0 ProtocolStatusRequestComplete in
  exists s', readResponse (awaiting records) = (Ret (mkFHeader example_fields []), s')
             /\ reading [] io_EOF "hello"%go "oops"%go s'.
Proof.
  intros records.
  assert (Forall record_ok records) as Hok by by_decision.
  destruct (write_records records) as [d|e| |] eqn:Hd; [|by vm_compute in Hd..].
  assert (reading d io_EOF [] [] (awaiting records)) as Hs by (unfold awaiting; rewrite Hd; done).
  destruct (readResponse_correct (awaiting records) 1 example_fields "hel"%go example_parts 0
              ProtocolStatusRequestComplete d io_EOF [] example_fields_ok Hok Hd Hs) as (s' & Hr & Hs').
  exists s'. split; [exact Hr | exact Hs'].
Defined.

Lemma readResponse_split_header_witness :
  let block := (example_fields ≫= serialize_field) ++ [CR; LF] ++ "hel"%go in
  let r0 := part_record 1 (Out (take 14 block)) in
  let records := response_records 1 [] (drop 14 block) example_parts 0 ProtocolStatusRequestComplete in
  exists s', readResponse (awaiting (r0 :: records)) = (Ret (mkFHeader example_fields []), s')
             /\ buf_Bytes (p_stdout s') = "Status: 404 Nohello"%go.
Proof.
  intros block r0 records.
  assert (Forall record_ok (r0 :: records)) as Hok by by_decision.
  destruct (Record_Write r0) as [d0|e| |] eqn:H0; [|by vm_compute in H0..].
  destruct (write_records records) as [d|e| |] eqn:Hd; [|by vm_compute in Hd..].
  assert (reading (d0 ++ d) io_EOF [] [] (awaiting (r0 :: records))) as Hs
    by (unfold awaiting; cbn [write_records]; rewrite H0, Hd; done).
  assert (length "hel"%go < length (drop 14 block))%nat as Hl by by_decision.
  assert (block = take 14 block ++ drop 14 block) as Heq by (symmetry; apply take_drop).
  destruct (readResponse_split_header (awaiting (r0 :: records)) 1 example_fields "hel"%go
              (take 14 block) (drop 14 block) example_parts d0 d io_EOF [] example_fields_ok
              Heq Hl Hok H0 Hd Hs) as (s' & Hr & Hs').
  exists s'. split; [exact Hr|]. destruct Hs' as (_ & _ & _ & Hout & _). exact Hout.
Defined.

Lemma writeRequest_read_back_witness :
  let conn := mkConn true (mkIncoming [] io_EOF) [] None [] None in
  let params := [mkPair "REQUEST_METHOD"%go "POST"%go] in
  let ins := Some (stream_chunks "body"%go) in
  exists pdata d q', writeRequest 100 RoleFilter params 1 (mkReq conn (Some (NewReader "body"%go)) None)
                     = (Ret tt, q')
    /\ c_sent (q_conn q') = d
    /\ read_records 6 (mkIncoming d io_EOF)
       = Ret (map read_back (request_records RoleFilter 1 pdata ins None), mkIncoming [] io_EOF).
Proof.
  intros conn params ins.
  destruct (NameValuePairs_Encode params) as [pdata|e| |] eqn:Henc; [|by vm_compute in Henc..].
  assert (pdata = match NameValuePairs_Encode params with Ret d => d | _ => [] end) as Hp
    by (by rewrite Henc).
  assert (Forall pair_ok params) as Hok by by_decision.
  assert (len pdata < 2 ^ 32) as Hlen by (rewrite Hp; by_decision).
  assert (length pdata < 100)%nat as Hf1 by (rewrite Hp; by_decision).
  assert (provides_opt (Some (NewReader "body"%go)) ins) as Hins
    by (exists (NewReader []); apply chunks_facts, le_n).
  assert (chunk_count ins < 100)%nat as Hf2
    by (unfold chunk_count, ins, stream_chunks; cbn [default from_option]; by_decision).
  assert (chunk_count None < 100)%nat as Hf3 by by_decision.
  destruct (writeRequest_read_back (mkReq conn (Some (NewReader "body"%go)) None) 100 RoleFilter params 1
              pdata ins None io_EOF (conj (conj eq_refl eq_refl) eq_refl) ltac:(lia) Hok Henc Hlen Hins I Hf1 Hf2 Hf3)
    as ((d & q' & Hw & Hc & Hr) & _).
  exists pdata, d, q'. split; [exact Hw|]. split; [exact Hc|].
  assert (length (request_records RoleFilter 1 pdata ins None) = 6%nat) as Hl.
  { rewrite Hp. vm_compute. reflexivity. }
  rewrite <- Hl. exact Hr.
Defined.
