(* ===== verification/FcgiInterrupt.v ===== *)
(** * The end of the context of a FastCGI request (pkg/fastcgi/connection.go)

    [Connection.SendRequest] runs the exchange in a goroutine; when the context of the
    request ends first, it closes the connection under the goroutine and waits for it.
    Everything the two share is the connection, so an interleaving is the number of calls
    on the connection the goroutine has made when it is closed, and whether it is in a call
    or between two.  A computation is [Interruptible] when it stops at that point and is
    unchanged when it comes after its last call; [SendRequest] is composed of such ones. *)

From S2P Require Import Prelude GoStrings FcgiProtocol FcgiHeader FcgiConnection.

(** ** States with a connection *)

Class HasConn (S : Type) := {
  conn_of : S -> FcgiConn;
  with_conn : FcgiConn -> S -> S;
  conn_of_with : forall c s, conn_of (with_conn c s) = c;
  with_conn_with : forall c c' s, with_conn c (with_conn c' s) = with_conn c s;
  with_conn_of : forall s, with_conn (conn_of s) s = s
}.

#[export] Instance conn_has : HasConn FcgiConn.
Proof. by refine {| conn_of := fun c => c; with_conn := fun c _ => c |}. Defined.

#[export] Instance stream_has {R} : HasConn (FcgiConn * R).
Proof. refine {| conn_of := fst; with_conn := fun c s => (c, snd s) |}; [done|done|by intros []]. Defined.

#[export] Instance req_has {R} : HasConn (ReqState R).
Proof.
  refine {| conn_of := q_conn; with_conn := fun c s => mkReq c (q_stdin s) (q_data s) |}; [done|done|by intros []].
Defined.

#[export] Instance resp_has {W} : HasConn (RespState W).
Proof.
  refine {| conn_of := p_conn; with_conn := fun c s => mkResp c (p_stdout s) (p_stderr s) |}; [done|done|by intros []].
Defined.

(** The connection is closed after [k] more calls. *)
Definition cut {S} `{HasConn S} (k : nat) (i : Interruption) (s : S) : S :=
  with_conn (set_cut (Some (k, i)) (conn_of s)) s.

(** How a goroutine stops: a nil connection is a panic, a closed one an error. *)
Definition stopped {A} (i : Interruption) (r : outcome A) : Prop :=
  match i with BetweenCalls => r = Panic | DuringCall _ => exists e, r = Throw e end.

(** ** Computations that are interrupted *)

Section interruptible.
Context {S : Type} `{HasConn S}.

(** [m] makes [n] calls from [s]: a close after them changes nothing; one before stops [m],
    and the peer was sent a part of what [m] sends. *)
Record interrupts {A} (m : ST S A) (s : S) (n : nat) : Prop := {
  in_writable : writable (conn_of (m s).2);
  in_sent : c_sent (conn_of s) `prefix_of` c_sent (conn_of (m s).2);
  in_late : forall k i, (n <= k)%nat -> m (cut k i s) = ((m s).1, cut (k - n) i (m s).2);
  in_early : forall k i, (k < n)%nat ->
    let x := m (cut k i s) in
    stopped i x.1 /\ c_open (conn_of x.2) = false /\ c_sent (conn_of x.2) `prefix_of` c_sent (conn_of (m s).2)
}.

Definition Interruptible {A} (m : ST S A) : Prop :=
  forall s, writable (conn_of s) -> exists n, interrupts m s n.

(** A computation that does not use the connection. *)
Lemma Interruptible_local {A} (m : ST S A) :
  (forall c s, m (with_conn c s) = ((m s).1, with_conn c (m s).2)) -> Interruptible m.
Proof.
  intros Hm s Hw. assert (conn_of (m s).2 = conn_of s) as Hc.
  { rewrite <- (with_conn_of s) at 1. rewrite Hm. cbn. by rewrite conn_of_with. }
  exists 0%nat. constructor; rewrite ?Hc; [done|reflexivity| |lia].
  intros k i _. unfold cut. rewrite Hm, Nat.sub_0_r. by rewrite Hc.
Qed.

Lemma Interruptible_bind {A B} (m : ST S A) (f : A -> ST S B) :
  Interruptible m -> (forall a, Interruptible (f a)) -> Interruptible (m ≫= f).
Proof.
  intros Hm Hf s Hw. destruct (Hm s Hw) as [n1 [Hw1 Hs1 Hl1 He1]].
  assert (forall k i, (k < n1)%nat -> (m ≫= f) (cut k i s)
            = (match (m (cut k i s)).1 with Throw e => Throw e | _ => Panic end, (m (cut k i s)).2)) as Hstop.
  { intros k i Hk. destruct (He1 k i Hk) as (Hst & _). unfold mbind, st_bind.
    destruct (m (cut k i s)) as [r s']. cbn [fst snd] in *.
    destruct i; cbn [stopped] in Hst; [by rewrite Hst|by destruct Hst as [e ->]]. }
  assert (forall k i, (k < n1)%nat -> stopped (A := B) i (match (m (cut k i s)).1 with Throw e => Throw e | _ => Panic end))
    as Hst.
  { intros k i Hk. destruct (He1 k i Hk) as (Hst & _). destruct i; cbn [stopped] in *; [by rewrite Hst|].
    destruct Hst as [e ->]. by exists e. }
  destruct (m s) as [[a|e| |] s1] eqn:E; cbn [fst snd] in *.
  2-4: assert (exists r, (m ≫= f) s = (r, s1) /\ forall k i, (n1 <= k)%nat -> (m ≫= f) (cut k i s) = (r, cut (k - n1) i s1))
         as (r & Er & Hlate) by (eexists; split; [unfold mbind, st_bind; by rewrite E|];
                                 intros k i Hk; unfold mbind, st_bind; by rewrite (Hl1 k i Hk)).
  2-4: exists n1; constructor; rewrite ?Er; cbn [fst snd]; try done;
       intros k i Hk; rewrite (Hstop k i Hk); cbn [fst snd];
       destruct (He1 k i Hk) as (_ & Ho & Hp); split; [by apply Hst|done].
  destruct (Hf a s1 Hw1) as [n2 [Hw2 Hs2 Hl2 He2]].
  assert ((m ≫= f) s = f a s1) as Ef by (unfold mbind, st_bind; by rewrite E).
  assert (forall k i, (n1 <= k)%nat -> (m ≫= f) (cut k i s) = f a (cut (k - n1) i s1)) as Hlate.
  { intros k i Hk. unfold mbind, st_bind. by rewrite (Hl1 k i Hk). }
  exists (n1 + n2)%nat. constructor; rewrite ?Ef; [done|by etrans|..].
  - intros k i Hk. rewrite Hlate, Hl2 by lia. do 2 f_equal. lia.
  - intros k i Hk. destruct (decide (k < n1)%nat) as [Hlt|Hge].
    + rewrite (Hstop k i Hlt). cbn [fst snd]. destruct (He1 k i Hlt) as (_ & Ho & Hp).
      split; [by apply Hst|]. split; [done|by etrans].
    + rewrite Hlate by lia. apply He2. lia.
Qed.

Lemma Interruptible_wrap {A} msg (m : ST S A) : Interruptible m -> Interruptible (wrapST msg m).
Proof.
  intros Hm s Hw. destruct (Hm s Hw) as [n [Hw1 Hs1 Hl1 He1]].
  assert (forall s, (wrapST msg m s).1 = wrap_error msg (m s).1 /\ (wrapST msg m s).2 = (m s).2) as Hwrap.
  { intros s'. unfold wrapST. by destruct (m s'). }
  destruct (Hwrap s) as [E1 E2]. exists n. constructor; rewrite ?E1, ?E2; [done|done|..].
  - intros k i Hk. rewrite (surjective_pairing (wrapST msg m _)). destruct (Hwrap (cut k i s)) as [-> ->].
    by rewrite (Hl1 k i Hk).
  - intros k i Hk. cbn zeta. destruct (Hwrap (cut k i s)) as [-> ->]. destruct (He1 k i Hk) as (Hst & Ho & Hp).
    split; [|done]. destruct i; cbn [stopped] in *; [by rewrite Hst|]. destruct Hst as [e ->]. by eexists.
Qed.

End interruptible.

#[local] Arguments Interruptible : simpl never.

Section parts.
Context {S T : Type} `{!HasConn S, !HasConn T}.

(** A computation on a part of the state that has the connection. *)
Lemma interrupts_along {A} (m : ST S A) (m' : ST T A) (put : T -> S) s t n :
  interrupts m' t n -> conn_of t = conn_of s ->
  (forall c, m (with_conn c s) = ((m' (with_conn c t)).1, put (m' (with_conn c t)).2)) ->
  (forall t', conn_of (put t') = conn_of t') -> (forall c t', put (with_conn c t') = with_conn c (put t')) ->
  interrupts m s n.
Proof.
  intros [Hw Hs Hl He] Hc Hm Hput1 Hput2.
  assert (m s = ((m' t).1, put (m' t).2)) as E.
  { rewrite <- (with_conn_of s), <- Hc, Hm at 1. by rewrite with_conn_of. }
  assert (forall k i, m (cut k i s) = ((m' (cut k i t)).1, put (m' (cut k i t)).2)) as Ecut.
  { intros k i. unfold cut. by rewrite Hm, Hc. }
  constructor; rewrite ?E; cbn [fst snd]; rewrite ?Hput1; [done|by rewrite <- Hc|..].
  - intros k i Hk. rewrite Ecut, (Hl k i Hk). cbn [fst snd]. unfold cut. by rewrite Hput2, Hput1.
  - intros k i Hk. rewrite Ecut. cbn [fst snd]. rewrite Hput1. by apply He.
Qed.

Lemma Interruptible_zoom {A} (get : S -> T) (set : T -> S -> S) (m : ST T A) :
  (forall s, conn_of (get s) = conn_of s) -> (forall c s, get (with_conn c s) = with_conn c (get s)) ->
  (forall c t s, set t (with_conn c s) = set t s) -> (forall t s, conn_of (set t s) = conn_of t) ->
  (forall c t s, set (with_conn c t) s = with_conn c (set t s)) ->
  Interruptible m -> Interruptible (zoom get set m).
Proof.
  intros Hg Hgc Hsc Hs Hcs Hm s Hw. destruct (Hm (get s)) as [n Hn]; [by rewrite Hg|].
  exists n. apply (interrupts_along _ m (fun t => set t s) s (get s)); try done.
  intros c. unfold zoom. rewrite Hgc. destruct (m _) as [r t]. by rewrite Hsc.
Qed.
End parts.

(** ** The calls on the connection *)

Lemma conn_call_interruptible {A} (part : nat -> FcgiConn -> FcgiConn) (m : ST FcgiConn A) :
  (forall c cut, m (set_cut cut c) = ((m c).1, set_cut cut (m c).2)) ->
  (forall c, writable c -> writable (m c).2 /\ c_sent c `prefix_of` c_sent (m c).2
             /\ forall n, c_sent (part n c) `prefix_of` c_sent (m c).2) ->
  (forall n c, c_sent (part n c) = c_sent (part n (set_cut None c))) ->
  Interruptible (conn_call part m).
Proof.
  intros Hcut Hm Hpart c Hw. change (writable c) in Hw. pose proof Hw as [[Ho Hc] Hr]. exists 1%nat.
  destruct (Hm c Hw) as (Hw' & Hs & Hp).
  assert (conn_call part m c = m c) as E by (by apply conn_call_live).
  assert (forall k i, conn_call part m (cut k i c)
    = match k with
      | S n => ((m c).1, set_cut (Some (n, i)) (m c).2)
      | O => match i with
             | BetweenCalls => (Panic, Connection_Close (cut k i c))
             | DuringCall p => (Throw net_ErrClosed, Connection_Close (part p (cut k i c)))
             end
      end) as Ecut.
  { intros k i. unfold conn_call, cut. cbn [conn_of with_conn conn_has set_cut c_open c_cut]. rewrite Ho. cbn [negb].
    destruct k; [by destruct i|]. rewrite <- Hcut. done. }
  constructor; cbn [conn_of conn_has]; rewrite ?E; [done|done|..].
  - intros k i Hk. rewrite Ecut. destruct k; [lia|]. unfold cut. cbn. by rewrite Nat.sub_0_r.
  - intros k i Hk. cbn zeta. rewrite Ecut. destruct k; [|lia]. destruct i; cbn [fst snd stopped].
    + split; [done|]. split; [done|exact Hs].
    + split; [by eexists|]. split; [done|].
      change (c_sent (part partial (cut 0 (DuringCall partial) c)) `prefix_of` c_sent (m c).2).
      rewrite Hpart. replace (set_cut None (cut 0 (DuringCall partial) c)) with c; [apply Hp|].
      unfold cut. cbn. by destruct c; simpl in *; subst.
Qed.

Lemma conn_write_interruptible data : Interruptible (conn_write data).
Proof.
  apply conn_call_interruptible.
  - intros c k. cbn [c_room set_cut]. destruct (c_room c) as [[n e]|]; [|done]. by destruct (length data <=? n)%nat.
  - intros c [[Ho Hc] Hr]. rewrite Hr. split; [done|]. cbn [snd set_sent c_sent].
    split; [by apply prefix_app_r|]. intros n. apply prefix_app. exists (drop n data). by rewrite take_drop.
  - done.
Qed.

Lemma conn_read_interruptible : Interruptible conn_read.
Proof.
  apply conn_call_interruptible.
  - intros c k. cbn [c_in set_cut]. by destruct (Record_Read (c_in c)) as [[r i]|e| |].
  - intros c Hw. by destruct (Record_Read (c_in c)) as [[r i]|e| |].
  - done.
Qed.

(** ** What the goroutine runs *)

Lemma Interruptible_const {S A} `{HasConn S} (r : outcome A) : Interruptible (fun s : S => (r, s)).
Proof. by apply Interruptible_local. Qed.

(** The computations above, under the operators of the program. *)
Ltac interruptible :=
  repeat first
    [ apply Interruptible_const
    | apply conn_write_interruptible | apply conn_read_interruptible
    | apply Interruptible_wrap
    | apply Interruptible_bind; [|intros]
    | (by apply Interruptible_local)
    | case_goal
    | progress intros ].

Lemma writeRecord_interruptible t id b : Interruptible (writeRecord t id b).
Proof.
  intros c Hw. unfold writeRecord.
  assert (Interruptible (S := FcgiConn) (data ← lift (Record_Write (mkRecord 1 t id b)); conn_write data)) as Hm
    by interruptible.
  destruct (Hm c Hw) as [n [Hw1 Hs Hl He]]. exists n. revert Hw1 Hs Hl He.
  set (m := (data ← lift (Record_Write (mkRecord 1 t id b)); conn_write data)). intros Hw1 Hs Hl He.
  assert (forall c, (let '(r, c) := m c in
                     match r with
                     | Throw err => (Throw (UnwrapOpError (UnwrapOpError err "writev"%go) "write"%go), c)
                     | r => (r, c)
                     end).2 = (m c).2) as E2.
  { intros c'. destruct (m c') as [[]]; done. }
  constructor; rewrite ?E2; [done|done|..].
  - intros k i Hk. rewrite (Hl k i Hk). destruct (m c) as [[] c1]; done.
  - intros k i Hk. cbn zeta. rewrite E2. destruct (He k i Hk) as (Hst & Ho & Hp).
    split; [|done]. destruct (m (cut k i c)) as [r c1]. cbn [fst snd] in Hst.
    destruct i; cbn [stopped] in *; [by subst|]. destruct Hst as [e ->]. by eexists.
Qed.

Section stream.
Context {R : Type} `{io_Reader R}.

Lemma stream_record_interruptible t id b :
  Interruptible (S := FcgiConn * R) (wrapST "cannot write record"%go (zoom fst (fun c s => (c, snd s)) (writeRecord t id b))).
Proof using Type.
  apply Interruptible_wrap. apply Interruptible_zoom; try done. apply writeRecord_interruptible.
Qed.

Lemma writeStream_interruptible fuel t id : Interruptible (S := FcgiConn * R) (writeStream fuel t id).
Proof using Type.
  unfold writeStream. apply Interruptible_bind; [|intros _; apply stream_record_interruptible].
  induction fuel as [|fuel IH]; cbn [writeStream_loop]; [apply Interruptible_const|].
  apply Interruptible_bind.
  - apply Interruptible_local. intros c [c' r]. cbn. by destruct (Reader_Read r bufSize) as [[d e] r'].
  - intros [data [e|]]; [case_goal; apply Interruptible_const|].
    apply Interruptible_bind; [apply stream_record_interruptible|done].
Qed.
End stream.

Section goroutine.
Context {R W : Type} `{io_Reader R, io_Writer W}.

(** A stream that is read into a connection from a state that keeps the rest of it. *)
Lemma writeStream_bytes_interruptible fuel t id data : Interruptible (writeStream_bytes fuel t id data).
Proof using Type.
  intros c Hw. destruct (writeStream_interruptible (R := bytes_Reader) fuel t id (c, NewReader data) Hw) as [n Hn].
  exists n. apply (interrupts_along _ _ fst c (c, NewReader data) n Hn); [done| |done|done].
  intros c'. unfold writeStream_bytes. cbn [with_conn conn_has stream_has snd].
  by destruct (writeStream fuel t id (c', NewReader data)) as [r [c1 r1]].
Qed.

Lemma on_conn_interruptible {A} (m : ST FcgiConn A) : Interruptible m -> Interruptible (on_conn (R := R) m).
Proof using Type. intros Hm. by apply Interruptible_zoom. Qed.

Lemma resp_conn_interruptible {A} (m : ST FcgiConn A) : Interruptible m -> Interruptible (resp_conn (W := W) m).
Proof using Type. intros Hm. by apply Interruptible_zoom. Qed.

Lemma write_optional_interruptible fuel t id required (get : ReqState R -> option R) set :
  (forall c s, get (with_conn c s) = get s) ->
  (forall r c s, set r (with_conn c s) = with_conn c (set r s)) ->
  Interruptible (write_optional fuel t id required get set).
Proof using Type.
  intros Hget Hset s Hw. destruct (get s) as [r|] eqn:Hr.
  - destruct (writeStream_interruptible fuel t id (q_conn s, r) Hw) as [n Hn]. exists n.
    apply (interrupts_along _ _ (fun '(c, r) => with_conn c (set (Some r) s)) s (q_conn s, r) n Hn); [done|..].
    + intros c. unfold write_optional. rewrite Hget, Hr. cbn [with_conn req_has stream_has q_conn snd].
      destruct (writeStream fuel t id (c, r)) as [res [c1 r1]]. cbn [fst snd].
      pose proof (Hset (Some r1) c1 s) as Hs. cbn in Hs |- *. by rewrite Hs.
    + intros [c r']. by rewrite conn_of_with.
    + intros c [c' r']. by rewrite with_conn_with.
  - destruct required.
    + destruct (on_conn_interruptible _ (writeStream_bytes_interruptible fuel t id []) s Hw) as [n Hn].
      exists n. apply (interrupts_along _ _ (fun x => x) s s n Hn); [done| |done|done].
      intros c. unfold write_optional. rewrite Hget, Hr. by destruct (on_conn _ _).
    + exists 0%nat. apply (interrupts_along _ (fun x => (Ret tt, x)) (fun x => x) s s 0); [|done| |done|done].
      * destruct (Interruptible_const (S := ReqState R) (Ret tt) s Hw) as [n Hn].
        constructor; [done|done| |lia]. intros k i _. by rewrite Nat.sub_0_r.
      * intros c. unfold write_optional. by rewrite Hget, Hr.
Qed.

Lemma writeRequest_interruptible fuel role params id : Interruptible (writeRequest (R := R) fuel role params id).
Proof using Type.
  unfold writeRequest.
  apply Interruptible_bind; [apply Interruptible_wrap, on_conn_interruptible, writeRecord_interruptible|intros _].
  apply Interruptible_bind; [apply Interruptible_wrap; by apply Interruptible_local|intros paramData].
  apply Interruptible_bind; [apply Interruptible_wrap, on_conn_interruptible, writeStream_bytes_interruptible|intros _].
  apply Interruptible_bind; [|intros _]; apply Interruptible_wrap; by apply write_optional_interruptible.
Qed.

Lemma stdout_write_interruptible data : Interruptible (stdout_write (W := W) data).
Proof using Type.
  apply Interruptible_local. intros c s. unfold stdout_write. cbn.
  by destruct (Writer_Write (p_stdout s) data) as [[n e] w].
Qed.

Lemma processValues_interruptible b : Interruptible (processValues b).
Proof using Type.
  intros c Hw. exists 0%nat. constructor; [done|reflexivity| |lia].
  intros k i _. by rewrite Nat.sub_0_r.
Qed.

Lemma readResponse_loop_interruptible fuel h hr : Interruptible (readResponse_loop (W := W) fuel h hr).
Proof using Type.
  revert h hr. induction fuel as [|fuel IH]; intros h hr; cbn [readResponse_loop];
    repeat first
      [ apply IH | apply stdout_write_interruptible | apply resp_conn_interruptible | apply conn_read_interruptible
      | apply processValues_interruptible
      | apply Interruptible_wrap | apply Interruptible_bind; [|intros] | (by apply Interruptible_local) | case_goal ].
Qed.

Lemma readResponse_interruptible : Interruptible (readResponse (W := W)).
Proof using Type.
  intros s Hw.
  destruct (readResponse_loop_interruptible (S (length (in_data (c_in (p_conn s))))) empty_header false s Hw) as [n [? ? ? ?]].
  exists n. by constructor.
Qed.
End goroutine.

(** ** The exchange *)

Section exchange.
Context {R W : Type} `{io_Reader R, io_Writer W}.

#[local] Instance exchange_has : HasConn (ReqState R * (W * list ascii)).
Proof using Type.
  refine {| conn_of := fun s => q_conn s.1; with_conn := fun c s => (with_conn c s.1, s.2) |}; [done|done|by intros [[] []]].
Defined.

(** The goroutine over one state: it writes the request, then reads the response. *)
Let goroutine fuel role params : ST (ReqState R * (W * list ascii)) FHeader :=
  _ ← zoom fst (fun q s => (q, s.2)) (wrapST "cannot write request"%go (writeRequest fuel role params 1));
  zoom (fun s => mkResp (q_conn s.1) s.2.1 s.2.2) (fun p s => (with_conn (p_conn p) s.1, (p_stdout p, p_stderr p)))
    (wrapST "cannot read response"%go readResponse).

Lemma exchange_goroutine fuel role params q stdout stderr :
  exchange fuel role params q stdout stderr
  = let '(r, (q, (o, e))) := goroutine fuel role params (q, (stdout, stderr)) in (r, (q, mkResp (q_conn q) o e)).
Proof using Type.
  unfold exchange, goroutine, zoom, mbind, st_bind. cbn [fst snd].
  destruct (wrapST _ (writeRequest fuel role params 1) q) as [[[]|e| |] q1]; try done. cbn [fst snd].
  destruct (wrapST _ readResponse (mkResp (q_conn q1) stdout stderr)) as [r [c o e]]. done.
Qed.

Lemma goroutine_interruptible fuel role params : Interruptible (goroutine fuel role params).
Proof using Type.
  apply Interruptible_bind; [|intros _]; (apply Interruptible_zoom; [done..|]); apply Interruptible_wrap;
    [apply writeRequest_interruptible|apply readResponse_interruptible].
Qed.

Lemma exchange_interrupted fuel role params q stdout stderr :
  writable (q_conn q) ->
  let x := exchange fuel role params q stdout stderr in
  exists n,
    c_sent (q_conn q) `prefix_of` c_sent (q_conn x.2.1)
    /\ (forall k i, (n <= k)%nat ->
          cut_exchange k i fuel role params q stdout stderr = (x.1, (cut (k - n) i x.2.1, cut (k - n) i x.2.2)))
    /\ forall k i, (k < n)%nat ->
         let y := cut_exchange k i fuel role params q stdout stderr in
         stopped i y.1 /\ c_open (q_conn y.2.1) = false /\ c_sent (q_conn y.2.1) `prefix_of` c_sent (q_conn x.2.1).
Proof using Type.
  intros Hw. destruct (goroutine_interruptible fuel role params (q, (stdout, stderr)) Hw) as [n [_ Hs Hl He]].
  exists n. unfold cut_exchange. rewrite !exchange_goroutine.
  assert (forall k i, (mkReq (set_cut (Some (k, i)) (q_conn q)) (q_stdin q) (q_data q), (stdout, stderr))
            = cut k i (q, (stdout, stderr))) as Ecut by done.
  split; [|split].
  - by destruct (goroutine _ _ _ _) as [r [q1 [o e]]].
  - intros k i Hk. rewrite exchange_goroutine, Ecut, (Hl k i Hk).
    by destruct (goroutine _ _ _ _) as [r [q1 [o e]]].
  - intros k i Hk. rewrite exchange_goroutine, Ecut. destruct (He k i Hk) as (Hst & Ho & Hp).
    destruct (goroutine fuel role params (cut _ _ _)) as [r' [q' [o' e']]].
    by destruct (goroutine fuel role params (q, _)) as [r [q1 [o e]]].
Qed.
End exchange.

(** ** [SendRequest] *)

Section send_request.
Context {R W : Type} `{io_Reader R, io_Writer W}.
Context (q : ReqState R) (fuel : nat) (role : Role) (params : list NameValuePair).
Context (pdata : list ascii) (ins dat : option (list (list ascii))).

(** A request that can be sent: its parameters are encoded, its streams end. *)
Definition sendable : Prop :=
  writable (q_conn q) /\ NameValuePairs_Encode params = Ret pdata
  /\ provides_opt (q_stdin q) ins /\ provides_opt (q_data q) dat
  /\ (length pdata < fuel /\ chunk_count ins < fuel /\ chunk_count dat < fuel)%nat.

Lemma exchange_completed stdout stderr :
  sendable -> completed (exchange fuel role params q stdout stderr).1.
Proof using Type.
  intros (Hw & Hpar & Hin & Hdat & Hf1 & Hf2 & Hf3).
  destruct (writeRequest_sent q fuel role params 1 pdata ins dat) as (d & q' & _ & He & Hc); try done.
  unfold exchange. rewrite (wrapST_ret _ _ _ _ _ He).
  assert (live (q_conn q')) as Hl by (rewrite Hc; done).
  pose proof (readResponse_loop_completed (S (length (in_data (c_in (q_conn q'))))) empty_header false
                (mkResp (q_conn q') stdout stderr) Hl ltac:(cbn [p_conn]; lia)) as Hr.
  unfold readResponse, wrapST in *. destruct (readResponse_loop _ _ _ _) as [[] p]; done.
Qed.

(** The goroutine starts with a call on the connection. *)
Lemma cut_at_once stdout stderr :
  c_open (q_conn q) = true -> (cut_exchange 0 BetweenCalls fuel role params q stdout stderr).1 = Panic.
Proof using Type.
  intros Ho. set (c := set_cut (Some (0%nat, BetweenCalls)) (q_conn q)).
  assert (writeRecord RecordTypeBeginRequest 1 (BodyBeginRequest (mkBeginRequestBody role true)) c
          = (Panic, Connection_Close c)) as Hw.
  { assert (exists d, Record_Write (mkRecord 1 RecordTypeBeginRequest 1 (BodyBeginRequest (mkBeginRequestBody role true)))
                      = Ret d) as [d Hd] by (by eexists).
    unfold writeRecord. rewrite Hd. unfold mbind, st_bind, lift, conn_write, conn_call. cbn [c set_cut c_open c_cut].
    by rewrite Ho. }
  unfold cut_exchange, exchange, writeRequest, wrapST, mbind, st_bind, on_conn, zoom. cbn [q_conn]. fold c.
  by rewrite Hw.
Qed.

(** When the context ends during a call, [SendRequest] returns its error. *)
Lemma SendRequest_interrupted ctxErr k partial stdout stderr :
  sendable ->
  let y := Connection_SendRequest (CtxDone ctxErr k partial) fuel role params q stdout stderr in
  y.1 = Throw (ctx_error ctxErr) /\ c_open (q_conn y.2.1) = false.
Proof using Type.
  intros Hs. pose proof (exchange_completed stdout stderr Hs) as Hx.
  destruct (exchange_interrupted fuel role params q stdout stderr (proj1 Hs)) as (n & _ & Hl & He).
  cbn [Connection_SendRequest]. destruct (decide (k < n)%nat) as [Hk|Hk].
  - destruct (He k (DuringCall partial) Hk) as ([e Hst] & _).
    destruct (cut_exchange _ _ _ _ _ _ _ _) as [r [q1 p1]]. cbn [fst snd] in *. by subst r.
  - rewrite Hl by lia. by destruct (exchange _ _ _ _ _ _) as [[] [q1 p1]].
Qed.

(** [C21] The end of the context of a request.  A request makes a number of calls on its
    connection, and the context may end before, during or between any of them.  Without it
    the request always returns.  When it ends during a call, [SendRequest] returns the error
    of the context and leaves the connection closed; the application was sent a beginning of
    the request, all of it if its calls were over.  When it ends between two calls,
    [Connection.Close] has set the connection to nil and the next call is a nil dereference
    in a goroutine nothing recovers: the process dies, whichever two calls these are. *)
Theorem SendRequest_context stdout stderr :
  sendable ->
  let x := exchange fuel role params q stdout stderr in
  completed x.1 /\ exists calls,
    (forall ctxErr k partial,
       let y := Connection_SendRequest (CtxDone ctxErr k partial) fuel role params q stdout stderr in
       y.1 = Throw (ctx_error ctxErr) /\ c_open (q_conn y.2.1) = false
       /\ c_sent (q_conn y.2.1) `prefix_of` c_sent (q_conn x.2.1)
       /\ ((calls <= k)%nat -> c_sent (q_conn y.2.1) = c_sent (q_conn x.2.1) /\ p_stdout y.2.2 = p_stdout x.2.2))
    /\ (0 < calls)%nat /\ forall k, let y := cut_exchange k BetweenCalls fuel role params q stdout stderr in
         y.1 = if (k <? calls)%nat then Panic else x.1.
Proof using Type.
  intros Hs x. pose proof (exchange_completed stdout stderr Hs) as Hx. split; [done|].
  destruct (exchange_interrupted fuel role params q stdout stderr (proj1 Hs)) as (n & _ & Hl & He).
  exists n. split.
  - intros ctxErr k partial. cbn [Connection_SendRequest].
    destruct (SendRequest_interrupted ctxErr k partial stdout stderr Hs) as [Hr Ho]. split; [done|]. split; [done|].
    cbn [Connection_SendRequest] in *. clear Hr Ho. destruct (decide (k < n)%nat) as [Hk|Hk].
    + destruct (He k (DuringCall partial) Hk) as (_ & _ & Hp).
      destruct (cut_exchange _ _ _ _ _ _ _ _) as [r [q1 p1]]. split; [done|lia].
    + rewrite Hl by lia. fold x in Hx |- *. clearbody x. clear Hl He. destruct x as [r [q1 p1]]; cbn; by eauto.
  - split.
    + destruct n; [|lia]. specialize (Hl 0%nat BetweenCalls ltac:(lia)). fold x in Hl.
      pose proof (cut_at_once stdout stderr (proj1 (proj1 (proj1 Hs)))) as Hcut. rewrite Hl in Hcut.
      cbn [fst] in Hcut. change (completed x.1) in Hx. by rewrite Hcut in Hx.
    + intros k y. subst y. destruct (Nat.ltb_spec k n) as [E|E]; [by destruct (He k BetweenCalls E) as [Hst _]|].
      by rewrite Hl by lia.
Qed.
End send_request.

(** ** Witnesses *)

Definition example_conn : FcgiConn :=
  let records := response_records 1 [] (example_fields ≫= serialize_field) [] 0 ProtocolStatusRequestComplete in
  mkConn true (mkIncoming (match write_records records with Ret d => d | _ => [] end) io_EOF) [] None [] None.
Definition example_req : ReqState bytes_Reader := mkReq example_conn (Some (NewReader "body"%go)) None.
Definition example_params : list NameValuePair := [mkPair "REQUEST_METHOD"%go "POST"%go].

Lemma example_sendable :
  sendable example_req 100 example_params (match NameValuePairs_Encode example_params with Ret d => d | _ => [] end)
    (Some (stream_chunks "body"%go)) None.
Proof.
  split; [by split|]. split; [by vm_compute|].
  split; [exists (NewReader []); apply chunks_facts, le_n|]. split; [done|].
  split_and!; unfold chunk_count, stream_chunks; cbn [default from_option]; by_decision.
Qed.

Lemma SendRequest_context_witness :
  (Connection_SendRequest (CtxDone context_Canceled 3 5) 100 RoleResponder example_params example_req (mkBuffer []) []).1
    = Throw ErrRequestCancelled
  /\ completed (exchange 100 RoleResponder example_params example_req (mkBuffer []) []).1.
Proof.
  destruct (SendRequest_context example_req 100 RoleResponder example_params _ _ None (mkBuffer []) [] example_sendable)
    as (Hc & n & Hn & _).
  split; [exact (proj1 (Hn context_Canceled 3%nat 5%nat))|exact Hc].
Defined.

(** Seven calls: five records are written, two are read. *)
Example SendRequest_calls :
  map (fun k => match (cut_exchange k BetweenCalls 100 RoleResponder example_params example_req (mkBuffer []) []).1 with
                | Panic => true | _ => false end) (seq 0 9)
  = [true; true; true; true; true; true; true; false; false].
Proof. by vm_compute. Qed.
