(* ===== verification/FcgiClient.v ===== *)
(** * The FastCGI client (pkg/fastcgi/client.go)

    The pool of connections shared by the goroutines that send requests, one
    definition for each critical section of the code, and the request with its
    single retry.  A [*Connection] is a key of a store. *)

From stdpp Require Import relations.
From S2P Require Import Prelude GoStrings FcgiProtocol FcgiHeader FcgiConnection.

Definition ErrConnectionLimitReached := ErrVar "fastcgi.ErrConnectionLimitReached"%go.

(** A Go [map[*Connection]struct{}]; [None] is a nil map: reading it, deleting
    from it and taking its length work, writing to it panics. *)
Abbreviation ConnSet := (option (gset nat)) (only parsing).

Definition set_len (m : ConnSet) : Z := Z.of_nat (size (default ∅ m)).
Definition set_delete (c : nat) (m : ConnSet) : ConnSet := (fun s => s ∖ {[c]}) <$> m.
Definition set_add (c : nat) (m : ConnSet) : outcome ConnSet :=
  match m with
  | Some s => Ret (Some (s ∪ {[c]}))
  | None => Panic
  end.

(** [Client], the connection objects, and what the next dials give. *)
Record Client := mkClient {
  usedConns : ConnSet;
  idleConns : ConnSet;
  releasedClosed : bool;
  store : gmap nat FcgiConn;
  dials : list (outcome FcgiConn)
}.

(** [NewClient] *)
Definition NewClient (ds : list (outcome FcgiConn)) : Client :=
  mkClient (Some ∅) (Some ∅) false ∅ ds.

Definition set_used (m : ConnSet) (c : Client) : Client :=
  mkClient m (idleConns c) (releasedClosed c) (store c) (dials c).
Definition set_idle (m : ConnSet) (c : Client) : Client :=
  mkClient (usedConns c) m (releasedClosed c) (store c) (dials c).
Definition set_store (m : gmap nat FcgiConn) (c : Client) : Client :=
  mkClient (usedConns c) (idleConns c) (releasedClosed c) m (dials c).

Definition insert_used (conn : nat) : ST Client unit := fun c =>
  match set_add conn (usedConns c) with
  | Ret m => (Ret tt, set_used m c)
  | _ => (Panic, c)
  end.
Definition insert_idle (conn : nat) : ST Client unit := fun c =>
  match set_add conn (idleConns c) with
  | Ret m => (Ret tt, set_idle m c)
  | _ => (Panic, c)
  end.

(** [Client.Close] *)
Definition Client_Close : ST Client unit := fun c =>
  let conns := default ∅ (usedConns c) ∪ default ∅ (idleConns c) in
  let closed := set_fold (fun conn m => alter Connection_Close conn m) (store c) conns in
  if releasedClosed c then (Panic, mkClient None None true closed (dials c))
  else (Ret tt, mkClient None None true closed (dials c)).

(** ** Acquiring a connection *)

(** What the first critical section of [acquireConnection] decides: a
    connection ([None] is a nil one), the limit, or a new connection. *)
Inductive Acquired := AcqConn (conn : option nat) | AcqLimit | AcqDial.

(** [first] is the first key of the range over the idle connections.  The
    channel has no buffer and no sender ever waits on it, since the only send
    has a default case: a receive succeeds when the channel is closed, and then
    gives nil, unless the end of the context is [preferred]. *)
Definition acquire_locked (max : option Z) (first : option nat) (preferred : bool)
  : ST Client Acquired :=
  match first with
  | Some conn =>
      _ ← modify (fun c => set_idle (set_delete conn (idleConns c)) c);
      _ ← insert_used conn;
      mret (AcqConn (Some conn))
  | None => fun c =>
      if releasedClosed c && negb preferred then (Ret (AcqConn None), c)
      else match max with
           | Some maxConns =>
               if maxConns <? set_len (usedConns c) + set_len (idleConns c)
               then (Ret AcqLimit, c) else (Ret AcqDial, c)
           | None => (Ret AcqDial, c)
           end
  end.

(** [NewConnection] outside of the lock. *)
Definition dial : ST Client nat := fun c =>
  match dials c with
  | [] => (Throw (Errorf "no peer"%go), c)
  | d :: ds =>
      let c := mkClient (usedConns c) (idleConns c) (releasedClosed c) (store c) ds in
      match NewConnection d with
      | Ret conn =>
          let k := fresh (dom (store c)) in (Ret k, set_store (<[k := conn]> (store c)) c)
      | Throw e => (Throw e, c)
      | Panic => (Panic, c)
      | OutOfFuel => (OutOfFuel, c)
      end
  end.

(** A range over a map starts with any of its keys. *)
Class MapRange := {
  range_first : gset nat -> option nat;
  range_first_elem : forall s,
    match range_first s with Some c => c ∈ s | None => s = ∅ end
}.

Section acquire.
Context `{MapRange}.

(** [acquireConnection] without interruption. *)
Definition acquireConnection (max : option Z) : ST Client (option nat) := fun c =>
  (r ← acquire_locked max (range_first (default ∅ (idleConns c))) false;
   match r with
   | AcqConn conn => mret conn
   | AcqLimit => throw ErrConnectionLimitReached
   | AcqDial =>
       conn ← wrapST "cannot create connection"%go dial;
       _ ← insert_used conn;
       mret (Some conn)
   end) c.

(** ** Releasing a connection *)

(** The first critical section of [releaseConnection] and the test of
    [conn.conn]: whether the connection is to be kept. *)
Definition release_locked (conn : nat) : ST Client bool :=
  _ ← modify (fun c => set_used (set_delete conn (usedConns c)) c);
  gets (fun c => match store c !! conn with Some k => c_open k | None => false end).

(** The send, which panics on a closed channel, and the rest. *)
Definition release_idle (conn : nat) : ST Client unit := fun c =>
  if releasedClosed c then (Panic, c) else insert_idle conn c.

Definition releaseConnection (conn : option nat) : ST Client unit :=
  match conn with
  | None => lift Panic
  | Some conn =>
      keep ← release_locked conn;
      if (keep : bool) then release_idle conn else mret tt
  end.

(** ** Requests *)

(** [Client.FetchValues] *)
Definition FetchValues (max : option Z) : ST Client (list NameValuePair) :=
  conn ← acquireConnection max;
  match conn with
  | None => lift Panic
  | Some k =>
      values ← gets (fun c => match store c !! k with Some conn => Connection_Values conn | None => [] end);
      _ ← releaseConnection (Some k);
      mret values
  end.

(** [isConnectionClosedWriteError]; [EPIPE] is 32. *)
Fixpoint isConnectionClosedWriteError (err : error) : bool :=
  match err with
  | SyscallError errno => errno =? 32
  | Wrapf _ e | OpError _ e | URLError e => isConnectionClosedWriteError e
  | _ => false
  end.

Section send.
Context {R W : Type} `{io_Reader R} `{io_Writer W}.

(** The client and the streams of a request, which the caller shares with
    every attempt. *)
Record SendState := mkSend {
  s_client : Client;
  s_stdin : option R;
  s_data : option R;
  s_stdout : W;
  s_stderr : list ascii
}.

Definition on_client {A} (m : ST Client A) : ST SendState A :=
  zoom s_client (fun c s => mkSend c (s_stdin s) (s_data s) (s_stdout s) (s_stderr s)) m.

(** [conn.SendRequest] on a connection of the store. *)
Definition use_connection (sel : select_case) (fuel : nat) (role : Role)
    (params : list NameValuePair) (k : nat) : ST SendState FHeader := fun s =>
  match store (s_client s) !! k with
  | None => (Panic, s)
  | Some conn =>
      let '(r, (q, p)) :=
        Connection_SendRequest sel fuel role params (mkReq conn (s_stdin s) (s_data s))
          (s_stdout s) (s_stderr s) in
      (r, mkSend (set_store (<[k := q_conn q]> (store (s_client s))) (s_client s))
            (q_stdin q) (q_data q) (p_stdout p) (p_stderr p))
  end.

Definition close_connection (k : nat) : ST SendState unit :=
  on_client (modify (fun c => set_store (alter Connection_Close k (store c)) c)).

(** The request on an acquired connection, and the deferred release. *)
Definition use_and_release (sel : select_case) (fuel : nat) (role : Role)
    (params : list NameValuePair) (k : nat) : ST SendState FHeader := fun s =>
  match use_connection sel fuel role params k s with
  | (Ret header, s) => (_ ← on_client (releaseConnection (Some k)); mret header) s
  | (Throw err, s) =>
      (_ ← close_connection k; _ ← on_client (releaseConnection (Some k)); throw err) s
  | r => r
  end.

(** [Client.sendRequest] *)
Definition Client_sendRequest (max : option Z) (sel : select_case) (fuel : nat) (role : Role)
    (params : list NameValuePair) : ST SendState FHeader :=
  conn ← on_client (acquireConnection max);
  match conn with
  | None => lift Panic
  | Some k => use_and_release sel fuel role params k
  end.

(** [Client.SendRequest]: the second turn of the [goto] cannot retry. *)
Definition SendRequest (max : option Z) (sel1 sel2 : select_case) (fuel : nat) (role : Role)
    (params : list NameValuePair) : ST SendState FHeader := fun s =>
  match Client_sendRequest max sel1 fuel role params s with
  | (Throw err, s') =>
      if isConnectionClosedWriteError err
      then Client_sendRequest max sel2 fuel role params s'
      else (Throw err, s')
  | r => r
  end.
End send.
End acquire.

(** ** Goroutines sharing the pool *)

(** Where a goroutine is between two critical sections: dialing, using a
    connection, or between the two halves of [releaseConnection]. *)
Inductive Phase := Connecting | Holding (conn : nat) | Releasing (conn : nat).

Definition PoolState : Type := Client * gmap nat Phase.

Definition first_ok (first : option nat) (idle : gset nat) : Prop :=
  match first with Some c => c ∈ idle | None => idle = ∅ end.

(** The critical sections of the goroutines that use a client, and what they do to their
    connections between them; closing the client, which empties both sets, is not a
    step. *)
Inductive pool_step (max : option Z) : PoolState -> PoolState -> Prop :=
  | step_idle tid first p conn cl cl' ths :
      ths !! tid = None -> first_ok first (default ∅ (idleConns cl)) ->
      acquire_locked max first p cl = (Ret (AcqConn (Some conn)), cl') ->
      pool_step max (cl, ths) (cl', <[tid := Holding conn]> ths)
  | step_dial tid first p cl cl' ths :
      ths !! tid = None -> first_ok first (default ∅ (idleConns cl)) ->
      acquire_locked max first p cl = (Ret AcqDial, cl') ->
      pool_step max (cl, ths) (cl', <[tid := Connecting]> ths)
  | step_connected tid k cl cl1 cl2 ths :
      ths !! tid = Some Connecting -> dial cl = (Ret k, cl1) -> insert_used k cl1 = (Ret tt, cl2) ->
      pool_step max (cl, ths) (cl2, <[tid := Holding k]> ths)
  | step_failed tid e cl cl1 ths :
      ths !! tid = Some Connecting -> dial cl = (Throw e, cl1) ->
      pool_step max (cl, ths) (cl1, delete tid ths)
  | step_use tid k conn cl ths :
      ths !! tid = Some (Holding k) ->
      pool_step max (cl, ths) (set_store (<[k := conn]> (store cl)) cl, ths)
  | step_release tid k cl cl' ths :
      ths !! tid = Some (Holding k) -> release_locked k cl = (Ret true, cl') ->
      pool_step max (cl, ths) (cl', <[tid := Releasing k]> ths)
  | step_drop tid k cl cl' ths :
      ths !! tid = Some (Holding k) -> release_locked k cl = (Ret false, cl') ->
      pool_step max (cl, ths) (cl', delete tid ths)
  | step_released tid k cl cl' ths :
      ths !! tid = Some (Releasing k) -> release_idle k cl = (Ret tt, cl') ->
      pool_step max (cl, ths) (cl', delete tid ths).

(** The connection a goroutine owns. *)
Definition owned (ph : Phase) : option nat :=
  match ph with Connecting => None | Holding k | Releasing k => Some k end.

Definition conn_open (st : gmap nat FcgiConn) (k : nat) : Prop :=
  exists c, st !! k = Some c /\ c_open c = true.

(** The pool with used connections [u] and idle ones [i]. *)
Record pool_inv (u i : gset nat) (st : gmap nat FcgiConn) (ths : gmap nat Phase) : Prop := {
  inv_owner : forall t1 t2 p1 p2 k, ths !! t1 = Some p1 -> ths !! t2 = Some p2 ->
    owned p1 = Some k -> owned p2 = Some k -> t1 = t2;
  inv_stored : forall t p k, ths !! t = Some p -> owned p = Some k -> k ∈ dom st /\ (k ∉ i);
  inv_holding : forall t k, ths !! t = Some (Holding k) -> k ∈ u;
  inv_releasing : forall t k, ths !! t = Some (Releasing k) -> conn_open st k;
  inv_held : forall k, k ∈ u -> (exists t, ths !! t = Some (Holding k));
  inv_idle : forall k, k ∈ i -> conn_open st k
}.

Definition pool_ok (s : PoolState) : Prop :=
  exists u i, usedConns (fst s) = Some u /\ idleConns (fst s) = Some i
              /\ pool_inv u i (store (fst s)) (snd s).

(** The effect of each critical section that succeeds. *)
Lemma acquire_locked_conn max first p cl conn cl' :
  acquire_locked max first p cl = (Ret (AcqConn (Some conn)), cl') ->
  exists u, first = Some conn /\ usedConns cl = Some u
    /\ cl' = set_used (Some (u ∪ {[conn]})) (set_idle (set_delete conn (idleConns cl)) cl).
Proof.
  unfold acquire_locked. destruct first as [k|].
  - unfold insert_used, mbind, st_bind, modify, mret, st_ret. cbn.
    destruct (usedConns cl) as [u|]; cbn; [|done]. intros [= <- <-]. by exists u.
  - repeat case_match; intros [=].
Qed.

Lemma acquire_locked_same max p cl r cl' :
  acquire_locked max None p cl = (r, cl') -> cl' = cl.
Proof. unfold acquire_locked. repeat case_match; congruence. Qed.

Lemma acquire_locked_dial max first p cl cl' :
  acquire_locked max first p cl = (Ret AcqDial, cl') ->
  first = None /\ cl' = cl
  /\ match max with Some m => set_len (usedConns cl) + set_len (idleConns cl) <= m | None => True end.
Proof.
  destruct first as [k|].
  - unfold acquire_locked, insert_used, mbind, st_bind, modify, mret, st_ret. cbn.
    by destruct (usedConns cl).
  - intros H. pose proof (acquire_locked_same _ _ _ _ _ H) as ->. revert H.
    unfold acquire_locked. repeat case_match; intros [=]; subst; bool_facts; repeat split; lia.
Qed.

Lemma dial_spec cl r cl' :
  dial cl = (r, cl') ->
  usedConns cl' = usedConns cl /\ idleConns cl' = idleConns cl
  /\ releasedClosed cl' = releasedClosed cl
  /\ match r with
     | Ret k => (k ∉ dom (store cl)) /\ exists c, store cl' = <[k := c]> (store cl)
     | _ => store cl' = store cl
     end.
Proof.
  unfold dial. destruct (dials cl) as [|d ds]; [by intros [= <- <-]|]. cbn.
  destruct (NewConnection d) as [c|e| |]; intros [= <- <-]; cbn; repeat split; eauto.
  apply is_fresh.
Qed.

Lemma insert_used_spec k cl r cl' :
  insert_used k cl = (r, cl') ->
  match usedConns cl with
  | Some u => r = Ret tt /\ cl' = set_used (Some (u ∪ {[k]})) cl
  | None => r = Panic /\ cl' = cl
  end.
Proof. unfold insert_used. by destruct (usedConns cl); intros [= <- <-]. Qed.

Lemma release_locked_spec k cl r cl' :
  release_locked k cl = (r, cl') ->
  cl' = set_used (set_delete k (usedConns cl)) cl
  /\ r = Ret match store cl !! k with Some c => c_open c | None => false end.
Proof. by intros [= <- <-]. Qed.

Lemma release_idle_spec k cl cl' :
  release_idle k cl = (Ret tt, cl') ->
  exists i, idleConns cl = Some i /\ cl' = set_idle (Some (i ∪ {[k]})) cl.
Proof.
  unfold release_idle, insert_idle. destruct (releasedClosed cl); [done|].
  destruct (idleConns cl) as [i|]; intros [= <-]. by exists i.
Qed.

Lemma conn_open_stored st k : conn_open st k -> k ∈ dom st.
Proof. intros (c & Hc & _). apply elem_of_dom. by exists c. Qed.

(** The goroutine [tid] owns nothing. *)
Definition free (ths : gmap nat Phase) (tid : nat) : Prop :=
  forall p, ths !! tid = Some p -> owned p = None.

Ltac lookups :=
  repeat match goal with
  | H : <[?a := _]> _ !! ?b = Some _ |- _ =>
      apply lookup_insert_Some in H as [[? ?]|[? ?]]; simplify_eq/=
  | H : delete _ _ !! _ = Some _ |- _ => apply lookup_delete_Some in H as [? ?]
  end.

Section invariant.
Context (u i : gset nat) (st : gmap nat FcgiConn) (ths : gmap nat Phase).
Context (Hinv : pool_inv u i st ths).
#[local] Set Default Proof Using "All".

Lemma pool_inv_take tid k st' :
  free ths tid -> (forall t p, ths !! t = Some p -> owned p <> Some k) ->
  dom st ⊆ dom st' -> k ∈ dom st' -> (forall j, j <> k -> st' !! j = st !! j) ->
  pool_inv (u ∪ {[k]}) (i ∖ {[k]}) st' (<[tid := Holding k]> ths).
Proof.
  intros Hfree Hk Hdom Hkd Hst. destruct Hinv as [Ho Hs Hh Hr Hu Hi]. unfold free in Hfree. constructor.
  - intros t1 t2 p1 p2 j H1 H2 Hp1 Hp2. lookups; try done; try (by edestruct Hk); eauto.
  - intros t p j H1 Hp. lookups; [set_solver|]. destruct (Hs _ _ _ H0 Hp). set_solver.
  - intros t j H1. lookups; [set_solver|]. apply Hh in H0. set_solver.
  - intros t j H1. lookups. assert (j <> k) as Hj by (intros ->; by eapply Hk).
    destruct (Hr _ _ H0) as (c & Hc & ?). exists c. by rewrite Hst.
  - intros j Hj. apply elem_of_union in Hj as [Hj|Hj%elem_of_singleton].
    + destruct (Hu _ Hj) as (t & Ht). exists t. rewrite lookup_insert_ne; [done|].
      intros ->. by apply Hfree in Ht.
    + subst. exists tid. by rewrite lookup_insert_eq.
  - intros j Hj. assert (j <> k /\ j ∈ i) as [Hne Hji] by set_solver.
    destruct (Hi _ Hji) as (c & Hc & ?). exists c. by rewrite Hst.
Qed.

Lemma pool_inv_idle_thread tid (ph : option Phase) :
  free ths tid -> from_option owned None ph = None ->
  pool_inv u i st (partial_alter (fun _ => ph) tid ths).
Proof.
  intros Hfree Hph. destruct Hinv as [Ho Hs Hh Hr Hu Hi].
  assert (forall t p k, partial_alter (fun _ => ph) tid ths !! t = Some p -> owned p = Some k ->
            ths !! t = Some p) as Hback.
  { intros t p k Ht Hp. destruct (decide (t = tid)) as [->|Hne].
    - rewrite lookup_partial_alter_eq in Ht. subst ph. simpl in Hph. congruence.
    - by rewrite lookup_partial_alter_ne in Ht. }
  constructor.
  - intros t1 t2 p1 p2 k H1 H2 Hp1 Hp2. eapply Ho; eauto.
  - intros t p k H1 Hp. eapply Hs; eauto.
  - intros t k H1. eapply Hh, Hback; [exact H1|reflexivity].
  - intros t k H1. eapply Hr, Hback; [exact H1|reflexivity].
  - intros k Hk. destruct (Hu _ Hk) as (t & Ht). exists t. rewrite lookup_partial_alter_ne; [done|].
    intros ->. by apply Hfree in Ht.
  - done.
Qed.

Lemma pool_inv_use tid k c :
  ths !! tid = Some (Holding k) -> pool_inv u i (<[k := c]> st) ths.
Proof.
  intros Ht. destruct Hinv as [Ho Hs Hh Hr Hu Hi]. constructor; eauto.
  - intros t p j H1 Hp. destruct (Hs _ _ _ H1 Hp). rewrite dom_insert. set_solver.
  - intros t j H1. destruct (decide (j = k)) as [->|Hne].
    + pose proof (Ho _ _ _ _ _ Ht H1 eq_refl eq_refl). congruence.
    + destruct (Hr _ _ H1) as (c' & Hc & ?). exists c'. by rewrite lookup_insert_ne.
  - intros j Hj. destruct (decide (j = k)) as [->|Hne].
    + by destruct (Hs _ _ _ Ht eq_refl).
    + destruct (Hi _ Hj) as (c' & Hc & ?). exists c'. by rewrite lookup_insert_ne.
Qed.

(** The holder gives the connection up, to release it or to forget it. *)
Lemma pool_inv_give_up tid k (ph : option Phase) :
  ths !! tid = Some (Holding k) ->
  ph = None \/ (ph = Some (Releasing k) /\ conn_open st k) ->
  pool_inv (u ∖ {[k]}) i st (partial_alter (fun _ => ph) tid ths).
Proof.
  intros Ht Hph. destruct Hinv as [Ho Hs Hh Hr Hu Hi].
  assert (forall t p, partial_alter (fun _ => ph) tid ths !! t = Some p ->
            (t <> tid /\ ths !! t = Some p) \/ (t = tid /\ p = Releasing k /\ conn_open st k)) as Hback.
  { intros t p H1. destruct (decide (t = tid)) as [->|Hne].
    - rewrite lookup_partial_alter_eq in H1. destruct Hph as [->|[-> Hc]]; [done|].
      injection H1 as <-. by right.
    - rewrite lookup_partial_alter_ne in H1 by done. by left. }
  constructor.
  - intros t1 t2 p1 p2 j H1 H2 Hp1 Hp2.
    destruct (Hback _ _ H1) as [[Hn1 Hq1]|(-> & -> & _)], (Hback _ _ H2) as [[Hn2 Hq2]|(-> & -> & _)];
      simplify_eq/=; eauto.
  - intros t p j H1 Hp. destruct (Hback _ _ H1) as [[_ Hq]|(-> & -> & _)]; [eauto|].
    simplify_eq/=. by apply (Hs _ _ _ Ht).
  - intros t j H1. destruct (Hback _ _ H1) as [[Hn Hq]|(_ & [=] & _)].
    assert (j <> k) by (intros ->; apply Hn; eapply Ho; eauto; done).
    apply Hh in Hq. set_solver.
  - intros t j H1. destruct (Hback _ _ H1) as [[Hn Hq]|(_ & [= ->] & Hc)]; [eauto|done].
  - intros j Hj. assert (j ∈ u /\ j <> k) as [Hju Hne] by set_solver.
    destruct (Hu _ Hju) as (t & Htj). exists t. rewrite lookup_partial_alter_ne; [done|].
    intros ->. congruence.
  - done.
Qed.

Lemma pool_inv_released tid k :
  ths !! tid = Some (Releasing k) -> pool_inv u (i ∪ {[k]}) st (delete tid ths).
Proof.
  intros Ht. destruct Hinv as [Ho Hs Hh Hr Hu Hi]. constructor.
  - intros t1 t2 p1 p2 j H1 H2 Hp1 Hp2. lookups. eauto.
  - intros t p j H1 Hp. lookups. destruct (Hs _ _ _ H0 Hp) as [? ?].
    assert (j <> k) by (intros ->; apply H; symmetry; eapply Ho; eauto; done). set_solver.
  - intros t j H1. lookups. eauto.
  - intros t j H1. lookups. eauto.
  - intros j Hj. destruct (Hu _ Hj) as (t & Htj). exists t.
    rewrite lookup_delete_ne; [done|congruence].
  - intros j Hj. apply elem_of_union in Hj as [Hj|Hj%elem_of_singleton]; [eauto|]. subst. eauto.
Qed.
End invariant.

Lemma pool_ok_step max st st' : pool_ok st -> pool_step max st st' -> pool_ok st'.
Proof.
  intros (u & i & Hu & Hi & Hinv) Hstep.
  destruct Hstep as [tid first p k cl cl' ths Ht Hf Ha|tid first p cl cl' ths Ht Hf Ha
    |tid k cl cl1 cl2 ths Ht Hd Hin|tid e cl cl1 ths Ht Hd|tid k c cl ths Ht
    |tid k cl cl' ths Ht Ha|tid k cl cl' ths Ht Ha|tid k cl cl' ths Ht Ha];
    cbn [fst snd] in *.
  - apply acquire_locked_conn in Ha as (u' & -> & Hu' & ->). rewrite Hi in Hf. simpl in Hf.
    exists (u ∪ {[k]}), (i ∖ {[k]}). cbn. rewrite Hi. split; [congruence|]. split; [done|].
    apply pool_inv_take with (st := store cl); try done.
    + intros q Hq. congruence.
    + intros t q Hq Hk. by destruct (inv_stored _ _ _ _ Hinv _ _ _ Hq Hk).
    + by eapply conn_open_stored, inv_idle.
  - apply acquire_locked_dial in Ha as (-> & -> & _). exists u, i. split; [done|]. split; [done|].
    apply (pool_inv_idle_thread _ _ _ _ Hinv tid (Some Connecting)); [|done]. intros q Hq. congruence.
  - apply dial_spec in Hd as (Hu1 & Hi1 & _ & Hk & c & Hst).
    apply insert_used_spec in Hin. rewrite Hu1, Hu in Hin. destruct Hin as [_ ->].
    exists (u ∪ {[k]}), i. cbn. split; [done|]. split; [congruence|].
    assert (k ∉ i) as Hki by (intros Hki; by apply Hk, conn_open_stored, (inv_idle _ _ _ _ Hinv)).
    replace i with (i ∖ {[k]}) by set_solver.
    apply pool_inv_take with (st := store cl); rewrite ?Hst.
    + done.
    + intros q Hq. rewrite Ht in Hq. by injection Hq as <-.
    + intros t q Hq Ho. by destruct (inv_stored _ _ _ _ Hinv _ _ _ Hq Ho).
    + rewrite dom_insert. set_solver.
    + rewrite dom_insert. set_solver.
    + intros j Hj. by rewrite lookup_insert_ne.
  - apply dial_spec in Hd as (Hu1 & Hi1 & _ & Hst). exists u, i.
    cbn [fst snd]. split; [congruence|]. split; [congruence|]. rewrite Hst.
    apply (pool_inv_idle_thread _ _ _ _ Hinv tid None); [|done].
    intros q Hq. rewrite Ht in Hq. by injection Hq as <-.
  - exists u, i. split; [done|]. split; [done|]. by eapply pool_inv_use.
  - apply release_locked_spec in Ha as [-> [= Hop]]. exists (u ∖ {[k]}), i. cbn. rewrite Hu.
    split; [done|]. split; [done|].
    apply (pool_inv_give_up _ _ _ _ Hinv tid k (Some (Releasing k))); [done|]. right. split; [done|].
    destruct (store cl !! k) as [c|] eqn:Hc; [|done]. by exists c.
  - apply release_locked_spec in Ha as [-> _]. exists (u ∖ {[k]}), i. cbn. rewrite Hu.
    split; [done|]. split; [done|].
    apply (pool_inv_give_up _ _ _ _ Hinv tid k None); [done|]. by left.
  - apply release_idle_spec in Ha as (i' & Hi' & ->). exists u, (i ∪ {[k]}). cbn.
    split; [done|]. split; [congruence|]. by apply pool_inv_released.
Qed.

Lemma pool_ok_initial ds : pool_ok (NewClient ds, ∅).
Proof. exists ∅, ∅. split; [done|]. split; [done|]. constructor; set_solver. Qed.

(** ** Sequential use *)

(** Acquisitions and releases that do not overlap. *)
Inductive seq_step `{MapRange} (max : option Z) : Client -> Client -> Prop :=
  | seq_acquire r cl cl' : acquireConnection max cl = (r, cl') -> seq_step max cl cl'
  | seq_release r k cl cl' : k ∈ default ∅ (usedConns cl) ->
      releaseConnection (Some k) cl = (r, cl') -> seq_step max cl cl'
  | seq_use k conn cl : seq_step max cl (set_store (<[k := conn]> (store cl)) cl).

Definition pool_size (cl : Client) : Z := set_len (usedConns cl) + set_len (idleConns cl).

Lemma set_len_add s k : set_len (Some (s ∪ {[k]})) <= set_len (Some s) + 1.
Proof.
  unfold set_len. cbn. rewrite size_union_alt.
  assert (size ({[k]} ∖ s) <= 1)%nat; [|lia].
  rewrite <- (size_singleton (C := gset nat) k). apply subseteq_size. set_solver.
Qed.

Lemma set_len_new s k : (k ∉ s) -> set_len (Some (s ∪ {[k]})) = set_len (Some s) + 1.
Proof. unfold set_len. cbn. intros Hk. rewrite size_union, size_singleton by set_solver. lia. Qed.

Lemma set_len_delete m k : set_len (set_delete k m) <= set_len m.
Proof.
  destruct m as [s|]; [|done]. unfold set_len. cbn.
  assert (size (s ∖ {[k]}) <= size s)%nat; [|lia]. apply subseteq_size. set_solver.
Qed.

Lemma set_len_delete_elem m k : k ∈ default ∅ m -> set_len (set_delete k m) = set_len m - 1.
Proof.
  destruct m as [s|]; simpl; [|set_solver]. intros Hk. unfold set_len. cbn.
  assert (size s = size ({[k]} : gset nat) + size (s ∖ {[k]}))%nat as ->.
  { rewrite <- size_union by set_solver. f_equal. apply leibniz_equiv, union_difference. set_solver. }
  rewrite size_singleton. lia.
Qed.

#[local] Arguments set_len : simpl never.
#[local] Arguments set_delete : simpl never.

Section sequential.
Context `{MapRange}.

(** What [acquireConnection] does to the pool. *)
Lemma acquireConnection_size m cl r cl' :
  acquireConnection (Some m) cl = (r, cl') ->
  pool_size cl' <= pool_size cl \/ pool_size cl <= m /\ pool_size cl' <= pool_size cl + 1.
Proof using Type.
  unfold acquireConnection, pool_size.
  pose proof (range_first_elem (default ∅ (idleConns cl))) as Hf.
  destruct (range_first (default ∅ (idleConns cl))) as [k|].
  - unfold acquire_locked, insert_used, mbind, st_bind, modify, mret, st_ret. cbn [usedConns set_idle].
    pose proof (set_len_delete_elem _ _ Hf) as Hd.
    destruct (usedConns cl) as [u|] eqn:Hu; cbn; intros [= <- <-]; left; cbn; rewrite ?Hu.
    + pose proof (set_len_add u k). lia.
    + lia.
  - intros Ha. unfold mbind at 1, st_bind at 1 in Ha.
    destruct (acquire_locked (Some m) None false cl) as [[a|e| |] cl1] eqn:Hl;
      pose proof (acquire_locked_same _ _ _ _ _ Hl) as ->; try (injection Ha as <- <-; left; lia).
    destruct a as [c| |]; try (injection Ha as <- <-; left; lia).
    apply acquire_locked_dial in Hl as (_ & _ & Hm). right. split; [done|].
    unfold mbind, st_bind in Ha. unfold wrapST in Ha.
    destruct (dial cl) as [rd cl1] eqn:Hd. apply dial_spec in Hd as (Hu1 & Hi1 & _).
    destruct rd as [k|e| |]; cbn in Ha; try (injection Ha as <- <-; rewrite Hu1, Hi1; lia).
    destruct (insert_used k cl1) as [ri cl2] eqn:Hi. apply insert_used_spec in Hi.
    rewrite Hu1 in Hi. destruct (usedConns cl) as [u|]; destruct Hi as [-> ->]; cbn in Ha;
      injection Ha as <- <-; cbn; rewrite ?Hi1, ?Hu1; [|lia].
    pose proof (set_len_add u k). lia.
Qed.

Lemma releaseConnection_size k cl r cl' :
  k ∈ default ∅ (usedConns cl) -> releaseConnection (Some k) cl = (r, cl') ->
  pool_size cl' <= pool_size cl.
Proof using Type.
  intros Hk. unfold releaseConnection, release_locked, mbind, st_bind, modify, gets, mret, st_ret, pool_size.
  pose proof (set_len_delete_elem _ _ Hk) as Hd.
  destruct (match store _ !! k with Some _ => _ | None => _ end).
  - unfold release_idle, insert_idle. cbn.
    destruct (releasedClosed cl); [intros [= <- <-]; cbn; lia|].
    destruct (idleConns cl) as [i|] eqn:Hi; intros [= <- <-]; cbn; rewrite ?Hi; [|lia].
    pose proof (set_len_add i k). lia.
  - intros [= <- <-]. cbn. lia.
Qed.
End sequential.

(** ** Properties *)

(** [C14] Until the client is closed and however the critical sections of goroutines
    interleave, no connection is ever owned by two goroutines, a connection in use is
    recorded as used and never idle, every used one has a user, and idle connections are
    open. *)
Theorem pool_exclusive max ds st :
  rtc (pool_step max) (NewClient ds, ∅) st ->
  exists u i, usedConns (fst st) = Some u /\ idleConns (fst st) = Some i
              /\ pool_inv u i (store (fst st)) (snd st) /\ u ## i.
Proof.
  intros Hrun. assert (pool_ok st) as (u & i & Hu & Hi & Hinv).
  { assert (pool_ok (NewClient ds, ∅)) as H0 by apply pool_ok_initial. revert H0.
    induction Hrun as [|s1 s2 s3 Hs _ IH]; [done|]. intros Hok. by apply IH, (pool_ok_step max s1). }
  exists u, i. split; [done|]. split; [done|]. split; [done|].
  intros k Hku Hki. destruct (inv_held _ _ _ _ Hinv k Hku) as (t & Ht).
  by destruct (inv_stored _ _ _ _ Hinv _ _ k Ht eq_refl).
Qed.

(** When no two calls overlap, the pool holds at most [MaxConnections] + 1
    connections; and it does get there: with every connection in use and the
    limit already reached, a request still opens one more. *)
Theorem pool_limit_sequential `{MapRange} m ds cl :
  0 <= m -> rtc (seq_step (Some m)) (NewClient ds) cl ->
  pool_size cl <= m + 1
  /\ (forall u conn d ds',
        usedConns cl = Some u -> idleConns cl = Some ∅ -> u ⊆ dom (store cl) -> releasedClosed cl = false ->
        pool_size cl = m -> dials cl = d :: ds' -> NewConnection d = Ret conn ->
        exists k cl', acquireConnection (Some m) cl = (Ret (Some k), cl') /\ pool_size cl' = m + 1).
Proof.
  intros Hm Hrun. split.
  - assert (pool_size (NewClient ds) <= m + 1) as H0 by (change (pool_size (NewClient ds)) with 0; lia).
    revert H0. induction Hrun as [|c1 c2 c3 Hs _ IH]; [done|]. intros Hc. apply IH. clear IH.
    destruct Hs as [r c c' Ha|r k c c' Hk Hr|k conn c].
    + destruct (acquireConnection_size _ _ _ _ Ha); lia.
    + pose proof (releaseConnection_size _ _ _ _ Hk Hr). lia.
    + done.
  - intros u conn d ds' Hu Hi Hdom Hrel Hsize Hds Hconn. unfold pool_size in Hsize. rewrite Hu, Hi in Hsize.
    unfold acquireConnection. rewrite Hi. change (default ∅ (Some ∅)) with (∅ : gset nat).
    pose proof (range_first_elem ∅) as Hf. destruct (range_first ∅) as [k|]; [set_solver|].
    exists (fresh (dom (store cl))). eexists.
    unfold acquire_locked, mbind, st_bind. cbv beta iota. rewrite Hrel. cbn [andb]. rewrite Hu, Hi.
    rewrite (proj2 (Z.ltb_ge _ _)) by lia. unfold wrapST, dial. rewrite Hds, Hconn. cbn [wrap_error].
    unfold insert_used, set_store. cbn [usedConns]. rewrite Hu. cbn [set_add]. split; [reflexivity|].
    unfold pool_size. cbn [usedConns idleConns set_used]. rewrite Hi, set_len_new; [lia|].
    intros Hin. apply (is_fresh (dom (store cl))). by apply Hdom.
Qed.

(** ** Witnesses and examples *)

#[local] Instance first_of_elements : MapRange.
Proof.
  refine {| range_first s := head (elements s) |}.
  intros s. destruct (elements s) as [|k l] eqn:He; simpl.
  - by apply leibniz_equiv, elements_empty_iff.
  - apply elem_of_elements. rewrite He. by left.
Defined.

(** A peer that answers the values of a new connection, then [records]. *)
Definition peer (room : option (nat * error)) (records : list FcgiRecord) : FcgiConn :=
  mkConn true
    (mkIncoming
       (match write_records (mkRecord 1 RecordTypeGetValuesResult 0
                               (BodyGetValuesResult (mkGetValuesResultBody []))
                             :: records)
        with Ret d => d | _ => [] end) io_EOF) [] room [] None.

Lemma pool_exclusive_witness :
  exists st, rtc (pool_step None) (NewClient [Ret (peer None [])], ∅) st
             /\ snd st = {[ 7%nat := Holding 0 ]}
             /\ exists u i, usedConns (fst st) = Some u /\ idleConns (fst st) = Some i /\ u ## i.
Proof.
  destruct (dial (NewClient [Ret (peer None [])])) as [r cl1] eqn:Hd.
  assert (r = Ret 0%nat) as -> by (change r with (fst (r, cl1)); rewrite <- Hd; reflexivity).
  destruct (insert_used 0 cl1) as [r2 cl2] eqn:Hin.
  pose proof (dial_spec _ _ _ Hd) as (Hu1 & _). pose proof (insert_used_spec _ _ _ _ Hin) as Hin2.
  rewrite Hu1 in Hin2. destruct Hin2 as [-> _].
  exists (cl2, {[ 7%nat := Holding 0 ]}).
  assert (rtc (pool_step None) (NewClient [Ret (peer None [])], ∅) (cl2, {[ 7%nat := Holding 0 ]})) as Hrun.
  { eapply rtc_l.
    - apply (step_dial None 7 None false); [done|done|reflexivity].
    - apply rtc_once. replace {[ 7%nat := Holding 0 ]} with (<[7%nat := Holding 0]> (<[7%nat := Connecting]> (∅ : gmap nat Phase)))
        by reflexivity.
      apply (step_connected None 7 0 (NewClient [Ret (peer None [])]) cl1 cl2); [reflexivity|exact Hd|exact Hin]. }
  split; [exact Hrun|]. split; [reflexivity|].
  destruct (pool_exclusive _ _ _ Hrun) as (u & i & Hu & Hi & _ & Hdisj).
  exists u, i. split; [exact Hu|]. split; [exact Hi|exact Hdisj].
Defined.

Lemma pool_limit_sequential_witness :
  exists k cl', acquireConnection (Some 0) (NewClient [Ret (peer None [])]) = (Ret (Some k), cl')
                /\ pool_size cl' = 0 + 1.
Proof.
  destruct (pool_limit_sequential 0 [Ret (peer None [])] (NewClient [Ret (peer None [])]) ltac:(lia)
              (rtc_refl _ _)) as [_ H].
  destruct (NewConnection (Ret (peer None []))) as [conn| | |] eqn:Hc; [|by vm_compute in Hc..].
  exact (H ∅ conn _ [] eq_refl eq_refl (empty_subseteq _) eq_refl eq_refl eq_refl Hc).
Defined.

(** A request with a body on an idle connection that the application closes
    while the body is written, and the retry: the second connection is sent an
    empty standard input. *)
Example retry_drops_stdin :
  let dead := mkConn true (mkIncoming [] io_EOF) [] (Some (40%nat, OpError "write"%go (SyscallError 32))) [] None in
  let response := [mkRecord 1 RecordTypeStdout 1 (BodyBytes ([CR; LF] ++ "ok"%go));
                   end_record 1 0 ProtocolStatusRequestComplete] in
  let client := mkClient (Some ∅) (Some {[ 0%nat ]}) false {[ 0%nat := dead ]} [Ret (peer None response)] in
  let '(r, s) := SendRequest None Finished Finished 100 RoleResponder []
                   (mkSend client (Some (NewReader "the body"%go)) (None : option bytes_Reader)
                      (mkBuffer []) []) in
  is_ret r = true /\ buf_Bytes (s_stdout s) = "ok"%go /\
  match store (s_client s) !! 1%nat with
  | Some conn =>
      Ret (drop 56 (c_sent conn)) = write_records (request_records RoleResponder 1 [] (Some []) None)
  | None => False
  end.
Proof. vm_compute. repeat split. Qed.
