(* ===== verification/SpillBuffer.v ===== *)
(** * Spill buffers (pkg/boulevard/spill_buffer.go)

    The body of a FastCGI response: kept in memory up to a size, in a file
    beyond it, and bounded.  The file is part of the state, with the errors the
    operating system has in store for it. *)

From S2P Require Import Prelude GoStrings FcgiProtocol FcgiConnection.

Definition ErrSpillBufferFull := ErrVar "boulevard.ErrSpillBufferFull"%go.

(** The file at [filePath], and the errors of the calls on it: opening,
    writing past some room, closing and removing. *)
Record Disk := mkDisk {
  d_file : option (list ascii);
  d_open_error : option error;
  d_room : option (nat * error);
  d_close_error : option error;
  d_remove_error : option error
}.

Definition set_file (f : option (list ascii)) (d : Disk) : Disk :=
  mkDisk f (d_open_error d) (d_room d) (d_close_error d) (d_remove_error d).

(** [SpillBuffer]; [sb_file] says that [file] is not nil. *)
Record SpillBuffer := mkSpill {
  sb_buffer : list ascii;
  sb_file : bool;
  sb_size : Z;
  maxMemorySize : Z;
  maxBufferSize : Z;
  sb_disk : Disk
}.

Definition NewSpillBuffer (disk : Disk) (maxMemorySize maxBufferSize : Z) : SpillBuffer :=
  mkSpill [] false 0 maxMemorySize maxBufferSize disk.

Definition set_disk (d : Disk) (b : SpillBuffer) : SpillBuffer :=
  mkSpill (sb_buffer b) (sb_file b) (sb_size b) (maxMemorySize b) (maxBufferSize b) d.
Definition set_file_open (o : bool) (b : SpillBuffer) : SpillBuffer :=
  mkSpill (sb_buffer b) o (sb_size b) (maxMemorySize b) (maxBufferSize b) (sb_disk b).
Definition set_buffer (l : list ascii) (b : SpillBuffer) : SpillBuffer :=
  mkSpill l (sb_file b) (sb_size b) (maxMemorySize b) (maxBufferSize b) (sb_disk b).
Definition add_size (n : Z) (b : SpillBuffer) : SpillBuffer :=
  mkSpill (sb_buffer b) (sb_file b) (i64 (sb_size b + n)) (maxMemorySize b) (maxBufferSize b) (sb_disk b).

Definition Size (b : SpillBuffer) : Z := sb_size b.

(** [SpillBuffer.Close] *)
Definition Close : ST SpillBuffer unit := fun b =>
  if sb_file b then
    match d_close_error (sb_disk b) with
    | Some e => (Throw e, b)
    | None =>
        let b := set_file_open false b in
        match d_file (sb_disk b), d_remove_error (sb_disk b) with
        | None, _ => (Ret tt, b)
        | Some _, Some e =>
            if errors_Is e fs_ErrNotExist then (Ret tt, b) else (Throw (Wrapf "cannot delete"%go e), b)
        | Some _, None => (Ret tt, set_disk (set_file None (sb_disk b)) b)
        end
    end
  else (Ret tt, b).

(** [SpillBuffer.Reader]: what reading it to the end gives. *)
Definition Reader (b : SpillBuffer) : outcome (list ascii) :=
  if negb (sb_file b) then Ret (sb_buffer b)
  else match d_file (sb_disk b), d_open_error (sb_disk b) with
       | _, Some e => Throw (Wrapf "cannot open"%go (UnwrapOpError e "open"%go))
       | None, None => Throw (Wrapf "cannot open"%go fs_ErrNotExist)
       | Some data, None => Ret data
       end.

(** [buf.file.Write]: the bytes written and the error. *)
Definition file_write (data : list ascii) (d : Disk) : Z * option error * Disk :=
  let content := default [] (d_file d) in
  match d_room d with
  | None => (len data, None, set_file (Some (content ++ data)) d)
  | Some (n, e) =>
      if (length data <=? n)%nat then
        (len data, None, mkDisk (Some (content ++ data)) (d_open_error d)
                           (Some ((n - length data)%nat, e)) (d_close_error d) (d_remove_error d))
      else (Z.of_nat n, Some e, mkDisk (Some (content ++ take n data)) (d_open_error d)
                                  (Some (O, e)) (d_close_error d) (d_remove_error d))
  end.

(** The last part of [Write], on the open file. *)
Definition write_to_file (data : list ascii) (b : SpillBuffer) : Z * option error * SpillBuffer :=
  let '(n, err, d) := file_write data (sb_disk b) in
  let b := set_disk d b in
  match err with
  | Some e => (n, Some (Wrapf "cannot write"%go (UnwrapOpError e "write"%go)), b)
  | None => (n, None, add_size n b)
  end.

(** [SpillBuffer.Write] *)
Definition SpillBuffer_Write (b : SpillBuffer) (data : list ascii) : Z * option error * SpillBuffer :=
  if maxBufferSize b <? i64 (sb_size b + len data) then (0, Some ErrSpillBufferFull, b)
  else if negb (sb_file b) then
    if i64 (len (sb_buffer b) + len data) <=? maxMemorySize b then
      (len data, None, add_size (len data) (set_buffer (sb_buffer b ++ data) b))
    else
      match d_open_error (sb_disk b) with
      | Some e => (0, Some (Wrapf "cannot open"%go (UnwrapOpError e "open"%go)), b)
      | None =>
          let b := set_file_open true (set_disk (set_file (Some []) (sb_disk b)) b) in
          let '(_, err, d) := file_write (sb_buffer b) (sb_disk b) in
          let b := set_disk d b in
          match err with
          | Some e => (0, Some (Wrapf "cannot write"%go (UnwrapOpError e "write"%go)), b)
          | None => write_to_file data (set_buffer [] b)
          end
      end
  else write_to_file data b.

#[export] Instance SpillBuffer_writer : io_Writer SpillBuffer := {|
  Writer_Write := SpillBuffer_Write
|}.

(** ** Specification: a bounded byte buffer *)

(** The buffer of at most [max] bytes the spill buffer stands for. *)
Definition bounded_write (max : Z) (content data : list ascii) : option error * list ascii :=
  if max <? len content + len data then (Some ErrSpillBufferFull, content)
  else (None, content ++ data).

Fixpoint bounded_writes (max : Z) (content : list ascii) (ds : list (list ascii))
  : list (option error) * list ascii :=
  match ds with
  | [] => ([], content)
  | d :: ds' =>
      let '(err, content) := bounded_write max content d in
      let '(errs, content) := bounded_writes max content ds' in (err :: errs, content)
  end.

Fixpoint spill_writes (b : SpillBuffer) (ds : list (list ascii)) : list (option error) * SpillBuffer :=
  match ds with
  | [] => ([], b)
  | d :: ds' =>
      let '(_, err, b) := Writer_Write b d in
      let '(errs, b) := spill_writes b ds' in (err :: errs, b)
  end.

(** A disk without errors. *)
Definition disk_ok (d : Disk) : Prop := d_open_error d = None /\ d_room d = None.

(** The simulation relation: the spill buffer holds [content]. *)
Record holds (b : SpillBuffer) (content : list ascii) : Prop := {
  h_disk : disk_ok (sb_disk b);
  h_size : sb_size b = len content;
  h_bound : len content <= maxBufferSize b < 2 ^ 62;
  h_memory : sb_file b = false -> sb_buffer b = content /\ len content <= Z.max 0 (maxMemorySize b);
  h_file : sb_file b = true -> d_file (sb_disk b) = Some content /\ sb_buffer b = []
}.

Lemma file_write_ok data d content :
  disk_ok d -> default [] (d_file d) = content ->
  file_write data d = (len data, None, set_file (Some (content ++ data)) d).
Proof. intros [_ Hr] <-. unfold file_write. by rewrite Hr. Qed.

Lemma write_to_file_holds b content data :
  disk_ok (sb_disk b) -> d_file (sb_disk b) = Some content /\ sb_buffer b = [] -> sb_file b = true ->
  sb_size b = len content -> len content + len data <= maxBufferSize b < 2 ^ 62 ->
  exists b', write_to_file data b = (len data, None, b') /\ holds b' (content ++ data)
             /\ maxMemorySize b' = maxMemorySize b /\ maxBufferSize b' = maxBufferSize b.
Proof.
  intros Hd [Hf He] Ho Hs Hb. unfold write_to_file.
  rewrite (file_write_ok _ _ content) by (done || by rewrite Hf).
  eexists. split; [reflexivity|]. split; [|done].
  pose proof (len_nonneg _ content). pose proof (len_nonneg _ data).
  constructor; cbn; try done.
  - rewrite Hs, i64_small, len_app by lia. done.
  - rewrite len_app. lia.
  - congruence.
Qed.

(** One write of the spill buffer is one write of the bounded buffer. *)
Lemma Write_simulates b content data :
  holds b content -> len data < 2 ^ 62 ->
  exists n b', SpillBuffer_Write b data = (n, fst (bounded_write (maxBufferSize b) content data), b')
    /\ holds b' (snd (bounded_write (maxBufferSize b) content data))
    /\ maxBufferSize b' = maxBufferSize b /\ maxMemorySize b' = maxMemorySize b
    /\ n = (if maxBufferSize b <? len content + len data then 0 else len data).
Proof.
  intros Hh Hdata. pose proof Hh as [Hd Hs Hb Hm Hf].
  pose proof (len_nonneg _ content). pose proof (len_nonneg _ data).
  unfold SpillBuffer_Write, bounded_write. rewrite Hs, i64_small by lia.
  destruct (Z.ltb_spec (maxBufferSize b) (len content + len data)) as [Hfull|Hfits].
  { by exists 0, b. }
  destruct (sb_file b) eqn:Ho; cbn [negb].
  - destruct (write_to_file_holds b content data Hd (Hf eq_refl) Ho Hs ltac:(lia))
      as (b' & -> & Hh' & Hmem & Hmax). by exists (len data), b'.
  - destruct (Hm eq_refl) as [Hbuf Hmem]. rewrite Hbuf, i64_small by lia.
    destruct (Z.leb_spec (len content + len data) (maxMemorySize b)).
    + eexists _, _. split; [reflexivity|]. split; [|done]. constructor; cbn; try done.
      * rewrite Hs, i64_small, len_app by lia. done.
      * rewrite len_app. lia.
      * intros _. rewrite len_app. split; [done|lia].
      * congruence.
    + pose proof Hd as [Ho' Hr]. rewrite Ho'.
      cbn [set_file_open set_disk sb_buffer sb_disk]. rewrite Hbuf.
      rewrite (file_write_ok _ _ []) by done. cbn [app].
      match goal with |- context [write_to_file data ?b2] =>
        destruct (write_to_file_holds b2 content data) as (b' & -> & Hh' & Hmem' & Hmax) end;
        [done|done|done|done|
         cbn [maxBufferSize set_buffer set_disk set_file_open]; lia|].
      by exists (len data), b'.
Qed.

Lemma Reader_holds b content : holds b content -> Reader b = Ret content.
Proof.
  intros [[Ho _] _ _ Hm Hf]. unfold Reader. destruct (sb_file b); cbn [negb].
  - destruct (Hf eq_refl) as [-> _]. by rewrite Ho.
  - by destruct (Hm eq_refl) as [-> _].
Qed.

(** ** Properties *)

(** [C40] A spill buffer on a working disk refines a byte buffer of at most
    [maxBufferSize] bytes: after any writes the same ones were accepted or
    refused as full, reading it gives the accepted data in order wherever it is
    kept, the size is its length and never exceeds the bound, and at most
    [maxMemorySize] bytes are kept in memory. *)
Theorem SpillBuffer_refines disk maxMem maxBuf ds :
  disk_ok disk -> 0 <= maxBuf < 2 ^ 62 -> Forall (fun d => len d < 2 ^ 62) ds ->
  let '(errs, b) := spill_writes (NewSpillBuffer disk maxMem maxBuf) ds in
  let '(errs', content) := bounded_writes maxBuf [] ds in
  errs = errs' /\ Reader b = Ret content /\ Size b = len content /\ len content <= maxBuf
  /\ len (sb_buffer b) <= Z.max 0 maxMem.
Proof.
  intros Hd Hb Hds.
  assert (forall b content, holds b content -> maxBufferSize b = maxBuf -> maxMemorySize b = maxMem ->
    let '(errs, b') := spill_writes b ds in
    let '(errs', content') := bounded_writes maxBuf content ds in
    errs = errs' /\ holds b' content' /\ maxBufferSize b' = maxBuf /\ maxMemorySize b' = maxMem) as Hrun.
  { induction Hds as [|d ds Hdl Hds IH]; intros b content Hh Hmax Hmem; [done|].
    cbn [spill_writes bounded_writes Writer_Write SpillBuffer_writer].
    destruct (Write_simulates b content d Hh Hdl) as (n & b1 & He & Hh1 & Hmax1 & Hmem1 & _).
    rewrite He. rewrite Hmax in *. destruct (bounded_write maxBuf content d) as [err content1].
    cbn [fst snd] in *. specialize (IH b1 content1 Hh1 Hmax1 ltac:(congruence)).
    destruct (spill_writes b1 ds) as [errs b2]. destruct (bounded_writes maxBuf content1 ds) as [errs' c2].
    destruct IH as (-> & ?). done. }
  specialize (Hrun (NewSpillBuffer disk maxMem maxBuf) []).
  destruct (spill_writes _ ds) as [errs b]. destruct (bounded_writes maxBuf [] ds) as [errs' content].
  destruct Hrun as (-> & Hh & Hmax & Hmem); [|done..|].
  { constructor; [done|done|rewrite len_nil; cbn; lia| |done]. intros _. split; [done|rewrite len_nil; lia]. }
  split; [done|]. split; [by apply Reader_holds|]. destruct Hh as [_ Hs Hbd Hm Hf].
  split; [done|]. split; [lia|]. destruct (sb_file b).
  - destruct (Hf eq_refl) as [_ ->]. unfold len. simpl. lia.
  - destruct (Hm eq_refl) as [-> Hl]. lia.
Qed.

Lemma SpillBuffer_refines_witness :
  let disk := mkDisk None None None None None in
  let '(errs, b) := spill_writes (NewSpillBuffer disk 4 8) ["abc"%go; "def"%go; "ghi"%go; "gh"%go] in
  errs = [None; None; Some ErrSpillBufferFull; None] /\ Reader b = Ret "abcdefgh"%go.
Proof.
  intros disk.
  pose proof (SpillBuffer_refines disk 4 8 ["abc"%go; "def"%go; "ghi"%go; "gh"%go]
                (conj eq_refl eq_refl) ltac:(lia) ltac:(by_decision)) as H.
  destruct (spill_writes _ _) as [errs b].
  destruct H as (He & Hr & _). split; [rewrite He; reflexivity|rewrite Hr; reflexivity].
Defined.

(** When the copy of the memory part to the file fails, the buffer still counts
    as spilled: the memory part is lost, later writes are accepted, and reading
    gives a body with a hole. *)
Example failed_spill_loses_data :
  let disk := mkDisk None None (Some (1%nat, SyscallError 28)) None None in
  let '(_, err1, b1) := SpillBuffer_Write (mkSpill "abc"%go false 3 4 100 disk) "de"%go in
  let repaired := set_disk (mkDisk (d_file (sb_disk b1)) None None None None) b1 in
  let '(_, err2, b2) := SpillBuffer_Write repaired "fg"%go in
  err1 = Some (Wrapf "cannot write"%go (SyscallError 28)) /\ err2 = None /\ Reader b2 = Ret "afg"%go.
Proof. vm_compute. repeat split. Qed.
