(* ===== verification/LoadBalancer.v ===== *)
(** * Load balancers and health probes (pkg/boulevard/load_balancer.go,
    health_probe.go)

    The probe of a server as a state machine over the results of its tests, and
    the rotation over the servers the probes consider healthy. *)

From stdpp Require Import relations.
From S2P Require Import Prelude GoStrings NetIP NetAddresses FcgiProtocol.

(** ** Health tests *)

(** What the network answers at one moment: to a TCP connection, and to an HTTP
    request (method, host, path) with a status. *)
Class Network := {
  net_Dial : gostring -> option error;
  http_NewRequest : gostring -> gostring -> gostring -> option error;
  http_Do : gostring -> gostring -> gostring -> outcome Z
}.

Record HTTPHealthTestCfg := mkHTTPTest { Method : gostring; Path : gostring; SuccessStatus : Z }.

Record HealthProbeCfg := mkProbeCfg {
  pc_Period : Z;                  (** seconds *)
  SuccessThreshold : Z;
  FailureThreshold : Z;
  cfg_TCP : bool;
  cfg_HTTP : option HTTPHealthTestCfg
}.

Inductive HealthTest := TCPHealthTest | HTTPHealthTest (cfg : HTTPHealthTestCfg).

Definition TCPHealthTest_Execute `{Network} (address : gostring) : option error :=
  (fun err => Wrapf "cannot connect"%go (UnwrapOpError err "dial"%go)) <$> net_Dial address.

(** [httputils.UnwrapUrlError]: what the first [*url.Error] of the chain is about. *)
Fixpoint find_url_error (e : error) : option error :=
  match e with
  | URLError e' => Some e'
  | Wrapf _ e' | OpError _ e' => find_url_error e'
  | _ => None
  end.
Definition UnwrapUrlError (err : error) : error := default err (find_url_error err).

Definition HTTPHealthTest_Execute `{Network} (cfg : HTTPHealthTestCfg) (address : gostring)
  : option error :=
  match http_NewRequest (Method cfg) address (Path cfg) with
  | Some err => Some (Wrapf "cannot create HTTP request"%go err)
  | None =>
      match http_Do (Method cfg) address (Path cfg) with
      | Ret status =>
          if negb (status =? SuccessStatus cfg)
          then Some (Errorf "HTTP request failed with unexpected status"%go) else None
      | Throw err => Some (Wrapf "cannot send HTTP request"%go (UnwrapUrlError err))
      | _ => Some (Errorf "no response"%go)
      end
  end.

Definition HealthTest_Execute `{Network} (t : HealthTest) (address : gostring) : option error :=
  match t with
  | TCPHealthTest => TCPHealthTest_Execute address
  | HTTPHealthTest cfg => HTTPHealthTest_Execute cfg address
  end.

(** ** Health probes *)

Inductive HealthProbeState :=
  | HealthProbeStateSuccessful
  | HealthProbeStateFailing
  | HealthProbeStateFailed
  | HealthProbeStateRecovering.

#[export] Instance HealthProbeState_eq_dec : EqDecision HealthProbeState.
Proof. solve_decision. Defined.

Record HealthProbe := mkProbe {
  hp_Cfg : HealthProbeCfg;
  hp_address : gostring;
  tests : list HealthTest;
  hp_state : HealthProbeState;
  hp_count : Z
}.

Definition NewHealthProbe (address : gostring) (cfg : HealthProbeCfg) : HealthProbe :=
  mkProbe cfg address
    ((if cfg_TCP cfg then [TCPHealthTest] else [])
     ++ match cfg_HTTP cfg with Some c => [HTTPHealthTest c] | None => [] end)
    HealthProbeStateSuccessful 0.

Definition set_state (st : HealthProbeState) (count : Z) (p : HealthProbe) : HealthProbe :=
  mkProbe (hp_Cfg p) (hp_address p) (tests p) st count.

(** The loop over the tests: the first error ends it. *)
Fixpoint run_tests `{Network} (ts : list HealthTest) (address : gostring) : option error :=
  match ts with
  | [] => None
  | t :: ts' =>
      match HealthTest_Execute t address with
      | Some err => Some err
      | None => run_tests ts' address
      end
  end.

(** The [switch] of [HealthProbe.Execute]. *)
Definition probe_step (successful : bool) (p : HealthProbe) : HealthProbe :=
  match hp_state p with
  | HealthProbeStateSuccessful =>
      if negb successful then set_state HealthProbeStateFailing 1 p else p
  | HealthProbeStateFailing =>
      if successful then set_state HealthProbeStateSuccessful 0 p
      else
        let count := hp_count p + 1 in
        if FailureThreshold (hp_Cfg p) <=? count then set_state HealthProbeStateFailed count p
        else set_state HealthProbeStateFailing count p
  | HealthProbeStateFailed =>
      if successful then set_state HealthProbeStateRecovering 1 p else p
  | HealthProbeStateRecovering =>
      if successful then
        let count := hp_count p + 1 in
        if SuccessThreshold (hp_Cfg p) <=? count then set_state HealthProbeStateSuccessful count p
        else set_state HealthProbeStateRecovering count p
      else set_state HealthProbeStateFailed 0 p
  end.

Definition probe_healthy (p : HealthProbe) : bool :=
  bool_decide (hp_state p = HealthProbeStateSuccessful)
  || bool_decide (hp_state p = HealthProbeStateFailing).

(** [HealthProbe.Execute] *)
Definition HealthProbe_Execute `{Network} (p : HealthProbe) : bool * option error * HealthProbe :=
  let err := run_tests (tests p) (hp_address p) in
  let p := probe_step (bool_decide (err = None)) p in
  (probe_healthy p, err, p).

(** ** Load balancers *)

Record LoadBalancerServer := mkServer {
  lbs_Address : HostAddress;
  healthy : bool;
  healthProbe : option HealthProbe
}.

Record LoadBalancer := mkBalancer {
  Servers : list LoadBalancerServer;
  nextServerIndex : nat
}.

(** [StartLoadBalancer] *)
Definition StartLoadBalancer (servers : list HostAddress) (probe : option HealthProbeCfg) : LoadBalancer :=
  mkBalancer
    ((fun address =>
        mkServer address true (NewHealthProbe (HostAddress_String address) <$> probe)) <$> servers) 0.

(** The ticker of [watchServerHealth]: [time.NewTicker] panics for a period that is not
    positive. *)
Definition probe_ticker (cfg : HealthProbeCfg) : outcome Z :=
  let period := i64 (pc_Period cfg * 1000000000) in
  if period <=? 0 then Panic else Ret period.

(** One tick of [watchServerHealth] for the server number [i]. *)
Definition watch_tick `{Network} (i : nat) (lb : LoadBalancer) : LoadBalancer :=
  match Servers lb !! i with
  | Some s =>
      match healthProbe s with
      | Some probe =>
          let '(isHealthy, err, probe) := HealthProbe_Execute probe in
          let flag :=
            if healthy s && negb isHealthy then false
            else if negb (healthy s) && isHealthy then true
            else healthy s in
          mkBalancer (<[i := mkServer (lbs_Address s) flag (Some probe)]> (Servers lb)) (nextServerIndex lb)
      | None => lb
      end
  | None => lb
  end.

(** The loop of [LoadBalancer.Address], from the index it started at. *)
Fixpoint Address_loop (fuel : nat) (firstIndex : nat) (lb : LoadBalancer) : outcome gostring * LoadBalancer :=
  match fuel with
  | O => (OutOfFuel, lb)
  | S fuel' =>
      match Servers lb !! nextServerIndex lb with
      | None => (Panic, lb)
      | Some server =>
          let lb := mkBalancer (Servers lb) (S (nextServerIndex lb) mod length (Servers lb)) in
          if healthy server then (Ret (HostAddress_String (lbs_Address server)), lb)
          else if (nextServerIndex lb =? firstIndex)%nat then (Ret [], lb)
          else Address_loop fuel' firstIndex lb
      end
  end.

(** [LoadBalancer.Address], as one step: a call that no other one overlaps.  No
    server is looked at twice.  The code does not hold a lock over the accesses to
    [nextServerIndex]; overlapping calls are [callers_run] below. *)
Definition LoadBalancer_Address : ST LoadBalancer gostring := fun lb =>
  Address_loop (S (length (Servers lb))) (nextServerIndex lb) lb.

(** ** Probes: lemmas *)

(** The health a probe is meant to follow: the verdict changes when the current
    run of equal results that contradict it is long enough. *)
Record Verdict := mkVerdict { v_healthy : bool; v_against : Z }.

Definition verdict_step (cfg : HealthProbeCfg) (successful : bool) (v : Verdict) : Verdict :=
  if Bool.eqb successful (v_healthy v) then mkVerdict (v_healthy v) 0
  else
    let against := v_against v + 1 in
    let threshold := Z.max 2 (if v_healthy v then FailureThreshold cfg else SuccessThreshold cfg) in
    if threshold <=? against then mkVerdict successful 0 else mkVerdict (v_healthy v) against.

(** The verdict a state of the probe stands for. *)
Definition verdict_of (p : HealthProbe) : Verdict :=
  match hp_state p with
  | HealthProbeStateSuccessful => mkVerdict true 0
  | HealthProbeStateFailing => mkVerdict true (hp_count p)
  | HealthProbeStateFailed => mkVerdict false 0
  | HealthProbeStateRecovering => mkVerdict false (hp_count p)
  end.

Definition probe_ok (p : HealthProbe) : Prop :=
  match hp_state p with
  | HealthProbeStateFailing | HealthProbeStateRecovering => 1 <= hp_count p
  | _ => True
  end.

Lemma probe_step_cfg r p : hp_Cfg (probe_step r p) = hp_Cfg p.
Proof. unfold probe_step. repeat case_goal; done. Qed.

Lemma probe_step_ok r p : probe_ok p -> probe_ok (probe_step r p).
Proof.
  destruct p as [cfg a ts st count]. unfold probe_ok, probe_step, set_state.
  cbn [hp_state hp_count hp_Cfg hp_address tests]. intros Hok.
  destruct st, r; cbn [negb hp_state hp_count]; try done; try lia;
    destruct (_ <=? _); cbn [hp_state hp_count]; (done || lia).
Qed.

Lemma probe_step_verdict r p :
  probe_ok p -> verdict_of (probe_step r p) = verdict_step (hp_Cfg p) r (verdict_of p).
Proof.
  destruct p as [cfg a ts st count]. unfold probe_ok, probe_step, verdict_step, verdict_of, set_state.
  cbn [hp_state hp_count hp_Cfg hp_address tests]. intros Hok.
  destruct st, r; cbn [negb hp_state hp_count v_healthy v_against Bool.eqb]; try done.
  - destruct (Z.leb_spec (Z.max 2 (FailureThreshold cfg)) (0 + 1)); [lia|done].
  - destruct (Z.leb_spec (FailureThreshold cfg) (count + 1)),
      (Z.leb_spec (Z.max 2 (FailureThreshold cfg)) (count + 1)); (lia || done).
  - destruct (Z.leb_spec (Z.max 2 (SuccessThreshold cfg)) (0 + 1)); [lia|done].
  - destruct (Z.leb_spec (SuccessThreshold cfg) (count + 1)),
      (Z.leb_spec (Z.max 2 (SuccessThreshold cfg)) (count + 1)); (lia || done).
Qed.

Lemma verdict_healthy p : v_healthy (verdict_of p) = probe_healthy p.
Proof. unfold verdict_of, probe_healthy. by destruct (hp_state p). Qed.

(** ** Rotation: lemmas *)

(** The servers in the order in which they are looked at from index [i]. *)
Definition rotation (i : nat) (l : list LoadBalancerServer) : list LoadBalancerServer :=
  drop i l ++ take i l.

(** The position of the first healthy server in that order. *)
Fixpoint first_healthy (l : list LoadBalancerServer) : option nat :=
  match l with
  | [] => None
  | s :: l' => if healthy s then Some O else S <$> first_healthy l'
  end.

Lemma rotation_cons l i s :
  l !! i = Some s ->
  exists tl, rotation i l = s :: tl /\ rotation (S i mod length l) l = tl ++ [s].
Proof.
  intros Hi. pose proof (lookup_lt_Some _ _ _ Hi) as Hlt. unfold rotation.
  rewrite (drop_S l s i Hi). exists (drop (S i) l ++ take i l). split; [done|].
  destruct (decide (S i = length l)) as [He|Hne].
  - rewrite He, Nat.Div0.mod_same, drop_0, take_0, app_nil_r, drop_all. cbn [app].
    rewrite <- (take_S_r l i s Hi), He. by rewrite firstn_all.
  - rewrite Nat.mod_small by lia. rewrite (take_S_r l i s Hi). by rewrite app_assoc.
Qed.

Lemma first_healthy_snoc l s :
  healthy s = false -> first_healthy (l ++ [s]) = first_healthy l.
Proof.
  intros Hs. induction l as [|t l IH]; simpl; [by rewrite Hs|]. destruct (healthy t); [done|]. by rewrite IH.
Qed.

(** The index [k] places after [i]. *)
Definition index_after (n i k : nat) : nat := (i + k) mod n.

Lemma index_after_S n i k :
  (i < n)%nat -> index_after n (S i mod n) k = index_after n i (S k).
Proof.
  intros Hi. unfold index_after. rewrite Nat.Div0.add_mod_idemp_l. f_equal. lia.
Qed.

Definition no_server : LoadBalancerServer := mkServer (mkHostAddress [] [] 0) false None.

(** The loop with [j] servers left to look at before it is back at [first]. *)
Lemma Address_loop_spec fuel servers first i j :
  (i < length servers)%nat -> (1 <= j <= length servers)%nat -> (j <= fuel)%nat ->
  index_after (length servers) i j = first ->
  (forall k, (1 <= k < j)%nat -> index_after (length servers) i k <> first) ->
  Address_loop fuel first (mkBalancer servers i)
  = match first_healthy (take j (rotation i servers)) with
    | Some k =>
        (Ret (HostAddress_String (lbs_Address
                (nth (index_after (length servers) i k) servers no_server))),
         mkBalancer servers (index_after (length servers) i (S k)))
    | None => (Ret [], mkBalancer servers first)
    end.
Proof.
  revert i j. induction fuel as [|fuel IH]; intros i j Hi Hj Hf Hfirst Hbefore; [lia|].
  destruct (lookup_lt_is_Some_2 servers i Hi) as [s Hs]. cbn [Address_loop Servers nextServerIndex]. rewrite Hs.
  destruct (rotation_cons _ _ _ Hs) as (tl & Hrot & Hrot').
  assert (index_after (length servers) i 0 = i) as H0
    by (unfold index_after; rewrite Nat.add_0_r; by apply Nat.mod_small).
  destruct j as [|j]; [lia|]. rewrite Hrot. cbn [take first_healthy].
  destruct (healthy s) eqn:Hh.
  { rewrite H0, (nth_lookup_Some _ _ _ _ Hs). unfold index_after. by rewrite Nat.add_1_r. }
  assert (S i mod length servers < length servers)%nat as Hi' by (apply Nat.mod_upper_bound; lia).
  assert (index_after (length servers) i 1 = S i mod length servers)%nat as H1
    by (unfold index_after; by rewrite Nat.add_1_r).
  destruct j as [|j].
  - rewrite <- Hfirst, H1, Nat.eqb_refl. cbn [take first_healthy fmap option_fmap option_map]. by rewrite <- H1.
  - rewrite (proj2 (Nat.eqb_neq _ _)).
    2:{ rewrite <- H1. apply Hbefore. lia. }
    rewrite (IH _ (S j) Hi'); try lia.
    2:{ by rewrite index_after_S. }
    2:{ intros k Hk. rewrite index_after_S by done. apply Hbefore. lia. }
    rewrite Hrot'. assert (length tl = length servers - 1)%nat as Hl.
    { apply (f_equal length) in Hrot. unfold rotation in Hrot.
      rewrite length_app, length_drop, length_take in Hrot. cbn [length] in Hrot. lia. }
    rewrite take_app_le by lia.
    destruct (first_healthy (take (S j) tl)) as [k|]; cbn [fmap option_fmap option_map]; [|done].
    by rewrite !index_after_S.
Qed.

(** ** The balancer and its watchers *)

(** A tick of the goroutine of a server, whatever the network answers, or a
    request that asks for an address. *)
Inductive lb_step : LoadBalancer -> LoadBalancer -> Prop :=
  | lb_tick (net : Network) i lb : lb_step lb (@watch_tick net i lb)
  | lb_address r lb lb' : LoadBalancer_Address lb = (r, lb') -> lb_step lb lb'.

(** The flag of a server is the verdict of its probe. *)
Definition server_ok (s : LoadBalancerServer) : Prop :=
  match healthProbe s with
  | Some p => healthy s = probe_healthy p /\ probe_ok p
  | None => healthy s = true
  end.

Definition balancer_ok (addrs : list HostAddress) (lb : LoadBalancer) : Prop :=
  (nextServerIndex lb < length (Servers lb))%nat /\ Forall server_ok (Servers lb)
  /\ lbs_Address <$> Servers lb = addrs.

Lemma LoadBalancer_Address_spec lb :
  (nextServerIndex lb < length (Servers lb))%nat ->
  LoadBalancer_Address lb
  = match first_healthy (rotation (nextServerIndex lb) (Servers lb)) with
    | Some k =>
        (Ret (HostAddress_String (lbs_Address
                (nth (index_after (length (Servers lb)) (nextServerIndex lb) k) (Servers lb) no_server))),
         mkBalancer (Servers lb) (index_after (length (Servers lb)) (nextServerIndex lb) (S k)))
    | None => (Ret [], lb)
    end.
Proof.
  destruct lb as [servers i]. cbn [Servers nextServerIndex]. intros Hi. unfold LoadBalancer_Address.
  cbn [Servers nextServerIndex].
  rewrite (Address_loop_spec _ servers i i (length servers)); try lia.
  - rewrite take_ge; [done|]. unfold rotation. rewrite length_app, length_drop, length_take. lia.
  - unfold index_after. rewrite <- Nat.Div0.add_mod_idemp_r, Nat.Div0.mod_same, Nat.add_0_r.
    by apply Nat.mod_small.
  - intros k Hk. unfold index_after. intros He.
    destruct (Nat.lt_ge_cases (i + k) (length servers)).
    + rewrite Nat.mod_small in He by done. lia.
    + replace (i + k)%nat with ((i + k - length servers) + 1 * length servers)%nat in He by lia.
      rewrite Nat.Div0.mod_add, Nat.mod_small in He by lia. lia.
Qed.

Lemma LoadBalancer_Address_cases lb :
  (nextServerIndex lb < length (Servers lb))%nat ->
  match first_healthy (rotation (nextServerIndex lb) (Servers lb)) with
  | Some k =>
      exists s, Servers lb !! index_after (length (Servers lb)) (nextServerIndex lb) k = Some s
        /\ healthy s = true
        /\ LoadBalancer_Address lb
           = (Ret (HostAddress_String (lbs_Address s)),
              mkBalancer (Servers lb) (index_after (length (Servers lb)) (nextServerIndex lb) (S k)))
  | None => LoadBalancer_Address lb = (Ret [], lb) /\ Forall (fun s => healthy s = false) (Servers lb)
  end.
Proof.
  intros Hi. rewrite LoadBalancer_Address_spec by done.
  assert (forall l, match first_healthy l with
                    | Some k => exists s, l !! k = Some s /\ healthy s = true
                    | None => Forall (fun s => healthy s = false) l
                    end) as Hf.
  { induction l as [|s l IH]; simpl; [done|]. destruct (healthy s) eqn:Hh; [by exists s|].
    destruct (first_healthy l); simpl; [done|]. by constructor. }
  specialize (Hf (rotation (nextServerIndex lb) (Servers lb))).
  destruct (first_healthy _) as [k|].
  - destruct Hf as (s & Hk & Hh). exists s.
    assert (Servers lb !! index_after (length (Servers lb)) (nextServerIndex lb) k = Some s) as Hs.
    { unfold rotation, index_after in *. pose proof (lookup_lt_Some _ _ _ Hk) as Hlt.
      rewrite length_app, length_drop, length_take in Hlt.
      destruct (Nat.lt_ge_cases (nextServerIndex lb + k) (length (Servers lb))) as [Hl|Hl].
      - rewrite Nat.mod_small by done. rewrite lookup_app_l in Hk by (rewrite length_drop; lia).
        by rewrite lookup_drop in Hk.
      - rewrite lookup_app_r in Hk by (rewrite length_drop; lia). rewrite length_drop in Hk.
        apply lookup_take_Some in Hk as [Hk _].
        replace (nextServerIndex lb + k)%nat
          with ((k - (length (Servers lb) - nextServerIndex lb)) + 1 * length (Servers lb))%nat by lia.
        by rewrite Nat.Div0.mod_add, Nat.mod_small by lia. }
    split; [done|]. split; [done|]. by rewrite (nth_lookup_Some _ _ _ _ Hs).
  - split; [done|]. unfold rotation in Hf. apply Forall_app in Hf as [H1 H2].
    rewrite <- (take_drop (nextServerIndex lb) (Servers lb)). by apply Forall_app.
Qed.

(** ** Rounds *)

Lemma rotation_after l i j :
  (i < length l)%nat -> (j <= length l)%nat ->
  rotation (index_after (length l) i j) l = drop j (rotation i l) ++ take j (rotation i l).
Proof.
  intros Hi. induction j as [|j IH]; intros Hj.
  { unfold index_after. rewrite Nat.add_0_r, Nat.mod_small by done. by rewrite drop_0, take_0, app_nil_r. }
  specialize (IH ltac:(lia)). set (m := index_after (length l) i j) in *.
  assert (m < length l)%nat as Hm by (apply Nat.mod_upper_bound; lia).
  assert (index_after (length l) i (S j) = S m mod length l)%nat as ->.
  { unfold m, index_after. change (S ((i + j) mod length l)) with (1 + (i + j) mod length l)%nat.
    rewrite Nat.Div0.add_mod_idemp_r. f_equal. lia. }
  destruct (lookup_lt_is_Some_2 l m Hm) as [s Hs]. destruct (rotation_cons _ _ _ Hs) as (tl & Hr & Hr').
  rewrite Hr'. assert (length (rotation i l) = length l) as Hlen
    by (unfold rotation; rewrite length_app, length_drop, length_take; lia).
  destruct (lookup_lt_is_Some_2 (rotation i l) j ltac:(lia)) as [s' Hs'].
  rewrite (drop_S _ _ _ Hs'), Hr in IH. cbn [app] in IH. injection IH as -> ->.
  by rewrite (take_S_r _ _ _ Hs'), app_assoc.
Qed.

(** The healthy servers in the order of the next rounds. *)
Definition healthy_rotation (lb : LoadBalancer) : list LoadBalancerServer :=
  List.filter healthy (rotation (nextServerIndex lb) (Servers lb)).

Lemma first_healthy_filter l :
  match first_healthy l with
  | Some k => exists s, l !! k = Some s /\ List.filter healthy l = s :: List.filter healthy (drop (S k) l)
                        /\ List.filter healthy (take (S k) l) = [s]
  | None => List.filter healthy l = []
  end.
Proof.
  induction l as [|s l IH]; [done|]. cbn. destruct (healthy s) eqn:Hs.
  - exists s. by rewrite drop_0, take_0.
  - destruct (first_healthy l) as [k|]; [|done]. destruct IH as (s' & ? & ? & ?). exists s'. done.
Qed.

Lemma Address_next lb :
  (nextServerIndex lb < length (Servers lb))%nat ->
  match healthy_rotation lb with
  | [] => LoadBalancer_Address lb = (Ret [], lb)
  | s :: rest => exists lb', LoadBalancer_Address lb = (Ret (HostAddress_String (lbs_Address s)), lb')
      /\ Servers lb' = Servers lb /\ (nextServerIndex lb' < length (Servers lb'))%nat
      /\ healthy_rotation lb' = rest ++ [s]
  end.
Proof.
  intros Hi. pose proof (LoadBalancer_Address_cases lb Hi) as Hc. unfold healthy_rotation.
  set (n := length (Servers lb)) in *. set (R := rotation (nextServerIndex lb) (Servers lb)) in *.
  pose proof (first_healthy_filter R) as Hf. destruct (first_healthy R) as [k|]; [|rewrite Hf; apply Hc].
  destruct Hf as (s & Hk & Hfl & Hft). destruct Hc as (s' & Hs' & _ & Ha).
  assert (length R = n) as Hlen by (unfold R, rotation; rewrite length_app, length_drop, length_take; fold n; lia).
  pose proof (lookup_lt_Some _ _ _ Hk) as Hlt.
  pose proof (rotation_after (Servers lb) (nextServerIndex lb) k Hi ltac:(fold n; lia)) as Hrot. fold n R in Hrot.
  destruct (rotation_cons _ _ _ Hs') as (tl & Hr & _). fold n in Hr. rewrite Hrot, (drop_S _ _ _ Hk) in Hr.
  injection Hr as <- _. rewrite Hfl. eexists. split; [exact Ha|]. split; [done|].
  split; [cbn; unfold index_after; apply Nat.mod_upper_bound; unfold n in *; lia|]. cbn [nextServerIndex Servers].
  pose proof (rotation_after (Servers lb) (nextServerIndex lb) (S k) Hi ltac:(fold n; lia)) as Hrot2.
  fold n R in Hrot2. rewrite Hrot2.
  by rewrite List.filter_app, Hft.
Qed.

(** What [n] requests in a row get. *)
Fixpoint addresses (n : nat) (lb : LoadBalancer) : list (outcome gostring) * LoadBalancer :=
  match n with
  | O => ([], lb)
  | S n => let '(r, lb) := LoadBalancer_Address lb in let '(rs, lb) := addresses n lb in (r :: rs, lb)
  end.

Lemma addresses_round l rest lb :
  (nextServerIndex lb < length (Servers lb))%nat -> healthy_rotation lb = l ++ rest ->
  exists lb', addresses (length l) lb = (map (fun s => Ret (HostAddress_String (lbs_Address s))) l, lb')
    /\ Servers lb' = Servers lb /\ healthy_rotation lb' = rest ++ l.
Proof.
  revert rest lb. induction l as [|s l IH]; intros rest lb Hi Hh; cbn [addresses length map].
  { exists lb. by rewrite app_nil_r. }
  pose proof (Address_next lb Hi) as Hn. rewrite Hh in Hn. destruct Hn as (lb1 & -> & Hs1 & Hi1 & Hh1).
  rewrite <- app_assoc in Hh1. destruct (IH _ lb1 Hi1 Hh1) as (lb2 & -> & Hs2 & Hh2).
  exists lb2. split; [done|]. split; [by rewrite Hs2|]. by rewrite Hh2, <- app_assoc.
Qed.

Lemma watch_tick_ok (net : Network) i addrs lb : balancer_ok addrs lb -> balancer_ok addrs (@watch_tick net i lb).
Proof.
  intros (Hi & Hs & Ha). unfold watch_tick. destruct (Servers lb !! i) as [s|] eqn:He; [|done].
  destruct (healthProbe s) as [p|] eqn:Hp; [|done].
  pose proof (Forall_lookup_1 _ _ _ _ Hs He) as Hok. unfold server_ok in Hok. rewrite Hp in Hok.
  destruct Hok as [Hh Hpok]. unfold HealthProbe_Execute. set (p' := probe_step _ p).
  split; [|split]; cbn [Servers nextServerIndex].
  - by rewrite length_insert.
  - apply Forall_insert; [done|]. unfold server_ok. cbn. split; [|by apply probe_step_ok].
    by destruct (healthy s), (probe_healthy p').
  - rewrite <- Ha, list_fmap_insert. cbn [lbs_Address]. apply list_insert_id.
    by rewrite list_lookup_fmap, He.
Qed.

Lemma balancer_ok_step addrs lb lb' : balancer_ok addrs lb -> lb_step lb lb' -> balancer_ok addrs lb'.
Proof.
  intros Hok Hstep. destruct Hstep as [net i lb|r lb lb' Ha]; [by apply watch_tick_ok|].
  pose proof Hok as (Hi & Hs & Haddr). rewrite LoadBalancer_Address_spec in Ha by done.
  destruct (first_healthy _); injection Ha as _ <-; [|done].
  split; [|done]. cbn. apply Nat.mod_upper_bound. lia.
Qed.

Lemma reachable_ok addrs probe lb :
  addrs <> [] -> rtc lb_step (StartLoadBalancer addrs probe) lb -> balancer_ok addrs lb.
Proof.
  intros Hne Hrun. assert (balancer_ok addrs (StartLoadBalancer addrs probe)) as H0.
  { unfold StartLoadBalancer. split; [|split]; cbn [Servers nextServerIndex].
    - rewrite length_fmap. destruct addrs; [done|simpl; lia].
    - apply Forall_fmap, Forall_forall. intros a _. unfold server_ok. cbn. by destruct probe.
    - rewrite <- list_fmap_compose. apply list_fmap_id. }
  clear Hne. induction Hrun as [|l1 l2 l3 Hstep _ IH]; [done|]. by apply IH, (balancer_ok_step addrs l1).
Qed.

(** ** Properties *)

(** A probe follows its reference: the verdict changes when the current run
    of contrary results reaches the threshold, but never before the second one:
    a threshold of 1, the default, acts as 2, so that a fresh probe stays
    healthy for as long as fewer than max(2, FailureThreshold) tests failed. *)
Theorem probe_follows_verdict address cfg rs :
  let p := fold_left (fun p r => probe_step r p) rs (NewHealthProbe address cfg) in
  let v := fold_left (fun v r => verdict_step cfg r v) rs (mkVerdict true 0) in
  verdict_of p = v /\ probe_healthy p = v_healthy v
  /\ (forall k, probe_healthy (fold_left (fun p r => probe_step r p) (replicate k false)
                                (NewHealthProbe address cfg))
                = (Z.of_nat k <? Z.max 2 (FailureThreshold cfg))).
Proof.
  assert (forall rs p, probe_ok p -> hp_Cfg p = cfg ->
    verdict_of (fold_left (fun p r => probe_step r p) rs p)
    = fold_left (fun v r => verdict_step cfg r v) rs (verdict_of p)) as Hrun.
  { clear rs. intros rs. induction rs as [|r rs IH]; intros p Hok Hc; [done|]. cbn [fold_left].
    rewrite IH; [|by apply probe_step_ok|by rewrite probe_step_cfg].
    by rewrite probe_step_verdict, Hc. }
  cbn zeta. split; [by apply Hrun|]. split; [by rewrite <- verdict_healthy, Hrun|].
  intros k. rewrite <- verdict_healthy, Hrun by done. change (verdict_of _) with (mkVerdict true 0).
  set (T := Z.max 2 (FailureThreshold cfg)).
  assert (forall n a, 0 <= a < T -> fold_left (fun v r => verdict_step cfg r v) (replicate n false) (mkVerdict true a)
            = if Z.of_nat n + a <? T then mkVerdict true (Z.of_nat n + a) else mkVerdict false 0) as Hn.
  { induction n as [|n IH]; intros a Ha.
    - cbn. by rewrite (proj2 (Z.ltb_lt _ _)) by lia.
    - cbn [replicate fold_left]. unfold verdict_step at 2. cbn [Bool.eqb v_healthy v_against]. fold T.
      destruct (Z.leb_spec T (a + 1)).
      + rewrite (proj2 (Z.ltb_ge _ _)) by lia. clear. induction n as [|n IH]; [done|]. exact IH.
      + rewrite IH by lia. replace (Z.of_nat n + (a + 1)) with (Z.of_nat (S n) + a) by lia. done. }
  rewrite Hn by lia. rewrite Z.add_0_r. by destruct (_ <? _).
Qed.

(** [Address] never panics or loops forever on a balancer with servers: it
    returns the first healthy server at or after the current index, in cyclic
    order, and moves the index just past it; it returns the empty string, and
    leaves the index, exactly when no server is healthy. *)
Theorem LoadBalancer_Address_rotation lb :
  (nextServerIndex lb < length (Servers lb))%nat ->
  match first_healthy (rotation (nextServerIndex lb) (Servers lb)) with
  | Some k =>
      exists s, Servers lb !! index_after (length (Servers lb)) (nextServerIndex lb) k = Some s
        /\ healthy s = true
        /\ LoadBalancer_Address lb
           = (Ret (HostAddress_String (lbs_Address s)),
              mkBalancer (Servers lb) (index_after (length (Servers lb)) (nextServerIndex lb) (S k)))
  | None => LoadBalancer_Address lb = (Ret [], lb) /\ Forall (fun s => healthy s = false) (Servers lb)
  end.
Proof. apply LoadBalancer_Address_cases. Qed.

Lemma LoadBalancer_Address_rotation_witness :
  let server name ok := mkServer (mkHostAddress name [] 80) ok None in
  let lb := mkBalancer [server "a"%go true; server "b"%go false; server "c"%go true] 1 in
  fst (LoadBalancer_Address lb) = Ret "c:80"%go.
Proof.
  intros server lb. assert (nextServerIndex lb < length (Servers lb))%nat as Hi by (simpl; lia).
  pose proof (LoadBalancer_Address_rotation lb Hi) as H.
  assert (first_healthy (rotation (nextServerIndex lb) (Servers lb)) = Some 1%nat) as E by reflexivity.
  rewrite E in H. destruct H as (s & Hs & _ & He). rewrite He. injection Hs as <-. reflexivity.
Defined.

(** However the ticks of the watchers and the requests interleave, and
    whatever the network answers, the health of every server is the verdict of
    its probe, the index stays valid, and an address is only ever that of a
    configured server that is healthy or has no probe. *)
Theorem LoadBalancer_invariant addrs probe lb :
  addrs <> [] -> rtc lb_step (StartLoadBalancer addrs probe) lb ->
  Forall server_ok (Servers lb) /\ lbs_Address <$> Servers lb = addrs
  /\ exists addr lb', LoadBalancer_Address lb = (Ret addr, lb')
       /\ (addr = [] \/ exists s, s ∈ Servers lb /\ addr = HostAddress_String (lbs_Address s)
                                  /\ lbs_Address s ∈ addrs
                                  /\ match healthProbe s with Some p => probe_healthy p = true | None => True end).
Proof.
  intros Hne Hrun. destruct (reachable_ok _ _ _ Hne Hrun) as (Hi & Hs & Ha).
  split; [done|]. split; [done|]. pose proof (LoadBalancer_Address_cases lb Hi) as Hc.
  destruct (first_healthy _) as [k|].
  - destruct Hc as (s & Hk & Hh & ->). eexists _, _. split; [reflexivity|]. right. exists s.
    pose proof (list_elem_of_lookup_2 _ _ _ Hk) as Hin. split; [done|]. split; [done|]. split.
    + rewrite <- Ha. apply list_elem_of_fmap. by exists s.
    + rewrite Forall_forall in Hs. specialize (Hs s Hin). unfold server_ok in Hs.
      destruct (healthProbe s); [|done]. destruct Hs as [<- _]. done.
  - destruct Hc as [-> _]. eexists _, _. split; [reflexivity|]. by left.
Qed.

Lemma LoadBalancer_invariant_witness :
  let addrs := [mkHostAddress "a"%go [] 80; mkHostAddress "b"%go [] 80] in
  let net := {| net_Dial := fun _ => Some (Errorf "refused"%go); http_NewRequest := fun _ _ _ => None;
                http_Do := fun _ _ _ => Ret 200 |} in
  let lb := @watch_tick net 0 (@watch_tick net 0 (StartLoadBalancer addrs (Some (mkProbeCfg 5 1 1 true None)))) in
  map healthy (Servers lb) = [false; true] /\ Forall server_ok (Servers lb).
Proof.
  intros addrs net lb. split; [reflexivity|].
  assert (addrs <> []) as Hne by done.
  refine (proj1 (LoadBalancer_invariant addrs (Some (mkProbeCfg 5 1 1 true None)) lb Hne _)).
  eapply rtc_l; [apply (lb_tick net 0)|]. eapply rtc_l; [apply (lb_tick net 0)|]. apply rtc_refl.
Defined.

(** [C27] The rotation is fair.  However the ticks of the watchers and the requests
    interleaved before, and whatever the network answered, the flag of each server is the
    verdict of its probe; when some servers are healthy, as many requests in a row as there
    are healthy servers get each of them exactly once, in cyclic order, and the next ones
    the same servers in the same order; when none is, a request gets the empty address.  No
    request panics or loops forever.  A request is one step here: requests that overlap
    share the index without a lock, and [overlapping_requests_refused] shows what they lose. *)
Theorem LoadBalancer_round_robin addrs probe lb :
  addrs <> [] -> rtc lb_step (StartLoadBalancer addrs probe) lb ->
  let round := healthy_rotation lb in
  Forall server_ok (Servers lb) /\ lbs_Address <$> Servers lb = addrs
  /\ round ≡ₚ List.filter healthy (Servers lb)
  /\ (round = [] -> LoadBalancer_Address lb = (Ret [], lb))
  /\ exists lb', addresses (length round) lb = (map (fun s => Ret (HostAddress_String (lbs_Address s))) round, lb')
       /\ Servers lb' = Servers lb /\ healthy_rotation lb' = round.
Proof.
  intros Hne Hrun round. destruct (reachable_ok _ _ _ Hne Hrun) as (Hi & Hs & Ha).
  split; [done|]. split; [done|]. split; [|split].
  - unfold round, healthy_rotation, rotation. rewrite List.filter_app.
    rewrite Permutation_app_comm, <- List.filter_app. by rewrite take_drop.
  - intros Hr. pose proof (Address_next lb Hi) as Hn. fold round in Hn. by rewrite Hr in Hn.
  - destruct (addresses_round round [] lb Hi) as (lb' & He & Hs' & Hh); [by rewrite app_nil_r|]. by exists lb'.
Qed.

Lemma LoadBalancer_round_robin_witness :
  let addr name := mkHostAddress name [] 80 in
  let probe := Some (mkProbeCfg 5 1 1 true None) in
  let net := {| net_Dial := fun _ => Some (Errorf "refused"%go); http_NewRequest := fun _ _ _ => None;
                http_Do := fun _ _ _ => Ret 200 |} in
  let lb := @watch_tick net 1 (@watch_tick net 1 (StartLoadBalancer [addr "a"%go; addr "b"%go; addr "c"%go] probe)) in
  (addresses 2 (LoadBalancer_Address lb).2).1 = [Ret "c:80"%go; Ret "a:80"%go].
Proof.
  intros addr probe net lb. set (lb1 := (LoadBalancer_Address lb).2).
  assert (rtc lb_step (StartLoadBalancer [addr "a"%go; addr "b"%go; addr "c"%go] probe) lb1) as Hrun.
  { eapply rtc_l; [apply (lb_tick net 1)|]. eapply rtc_l; [apply (lb_tick net 1)|].
    eapply rtc_l; [|apply rtc_refl]. apply (lb_address (LoadBalancer_Address lb).1). reflexivity. }
  assert ([addr "a"%go; addr "b"%go; addr "c"%go] <> []) as Hne by done.
  destruct (LoadBalancer_round_robin _ probe lb1 Hne Hrun) as (_ & _ & _ & _ & lb' & He & _).
  exact (f_equal fst He).
Defined.

(** ** Overlapping requests *)

(** Where a call of [LoadBalancer.Address] is between two accesses to
    [nextServerIndex]. *)
Inductive Caller :=
  | Entered
  | Looping (firstIndex : nat)
  | Picked (firstIndex : nat) (server : LoadBalancerServer)
  | Loaded (firstIndex : nat) (server : LoadBalancerServer) (index : nat)
  | Stored (firstIndex : nat) (server : LoadBalancerServer)
  | Returned (r : outcome gostring).

Definition caller_step (c : Caller) (lb : LoadBalancer) : Caller * LoadBalancer :=
  match c with
  | Entered => (Looping (nextServerIndex lb), lb)
  | Looping firstIndex =>
      match Servers lb !! nextServerIndex lb with
      | None => (Returned Panic, lb)
      | Some server => (Picked firstIndex server, lb)
      end
  | Picked firstIndex server => (Loaded firstIndex server (nextServerIndex lb), lb)
  | Loaded firstIndex server index =>
      (Stored firstIndex server, mkBalancer (Servers lb) (S index mod length (Servers lb)))
  | Stored firstIndex server =>
      if healthy server then (Returned (Ret (HostAddress_String (lbs_Address server))), lb)
      else if (nextServerIndex lb =? firstIndex)%nat then (Returned (Ret []), lb)
      else (Looping firstIndex, lb)
  | Returned r => (Returned r, lb)
  end.

(** The callers take their steps in the order of the schedule. *)
Fixpoint callers_run (schedule : list nat) (cs : list Caller) (lb : LoadBalancer) : list Caller * LoadBalancer :=
  match schedule with
  | [] => (cs, lb)
  | i :: schedule' =>
      match cs !! i with
      | None => callers_run schedule' cs lb
      | Some c => let '(c, lb) := caller_step c lb in callers_run schedule' (<[i := c]> cs) lb
      end
  end.

Fixpoint alone (n : nat) (c : Caller) (lb : LoadBalancer) : Caller * LoadBalancer :=
  match n with
  | O => (c, lb)
  | S n => let '(c, lb) := caller_step c lb in alone n c lb
  end.

Lemma alone_loop fuel f lb r lb' :
  Address_loop fuel f lb = (r, lb') -> r <> OutOfFuel ->
  exists n, alone n (Looping f) lb = (Returned r, lb').
Proof.
  revert lb. induction fuel as [|fuel IH]; intros lb Hl Hr; cbn [Address_loop] in Hl; [by simplify_eq|].
  destruct (Servers lb !! nextServerIndex lb) as [s|] eqn:Hs.
  - cbv zeta in Hl. cbn [nextServerIndex] in Hl.
    set (lb1 := mkBalancer (Servers lb) (S (nextServerIndex lb) mod length (Servers lb))) in Hl.
    assert (alone 3 (Looping f) lb = (Stored f s, lb1)) as H3 by (cbn; by rewrite Hs).
    assert (forall n, alone (3 + n) (Looping f) lb = alone n (Stored f s) lb1) as Ha.
    { intros n. cbn [Nat.add alone caller_step]. by rewrite Hs. }
    destruct (healthy s) eqn:Hh; [|destruct (nextServerIndex lb1 =? f)%nat eqn:Ef].
    + exists (3 + 1)%nat. rewrite Ha. cbn [alone caller_step]. rewrite Hh. by simplify_eq.
    + exists (3 + 1)%nat. rewrite Ha. cbn [alone caller_step]. rewrite Hh, Ef.
      subst lb1. cbn [nextServerIndex] in Ef. rewrite Ef in Hl. by simplify_eq.
    + subst lb1. cbn [nextServerIndex] in Ef. rewrite Ef in Hl. destruct (IH _ Hl Hr) as [n Hn].
      exists (3 + S n)%nat. rewrite Ha. cbn [alone caller_step]. rewrite Hh. cbn [nextServerIndex].
      by rewrite Ef.
  - exists 1%nat. cbn. rewrite Hs. by simplify_eq.
Qed.

(** A call that nothing overlaps is the one step of [LoadBalancer_Address]. *)
Lemma alone_Address lb r lb' :
  LoadBalancer_Address lb = (r, lb') -> r <> OutOfFuel -> exists n, alone n Entered lb = (Returned r, lb').
Proof.
  intros Ha Hr. destruct (alone_loop _ _ _ _ _ Ha Hr) as [n Hn]. by exists (S n).
Qed.

Definition caller_ok (c : Caller) : Prop := c <> Returned Panic.

(** However calls overlap, the index stays inside the table: none panics. *)
Theorem overlapping_requests_safe schedule cs lb :
  (nextServerIndex lb < length (Servers lb))%nat -> Forall caller_ok cs ->
  Forall caller_ok (fst (callers_run schedule cs lb))
  /\ Servers (snd (callers_run schedule cs lb)) = Servers lb
  /\ (nextServerIndex (snd (callers_run schedule cs lb)) < length (Servers lb))%nat.
Proof.
  revert cs lb. induction schedule as [|i schedule IH]; intros cs lb Hi Hcs; cbn [callers_run]; [done|].
  destruct (cs !! i) as [c|] eqn:Hc; [|by apply IH].
  pose proof (proj1 (Forall_lookup _ _) Hcs _ _ Hc) as Hok.
  destruct (caller_step c lb) as [c' lb'] eqn:Hs.
  assert (caller_ok c' /\ Servers lb' = Servers lb /\ (nextServerIndex lb' < length (Servers lb))%nat) as (H1 & H2 & H3).
  { destruct c; cbn [caller_step] in Hs; try (simplify_eq; done).
    - destruct (lookup_lt_is_Some_2 (Servers lb) (nextServerIndex lb) Hi) as [s Hl]. rewrite Hl in Hs.
      by simplify_eq.
    - simplify_eq. cbn. repeat split; [done|]. apply Nat.mod_upper_bound. lia.
    - destruct (healthy server); [by simplify_eq|]. destruct (_ =? _)%nat; by simplify_eq. }
  rewrite <- H2. apply IH; [by rewrite H2|]. by apply Forall_insert.
Qed.

(** With one server down and one up, a request that looks at the first while
    another one takes the second sees the index back where it started: it gets no
    address although a server is healthy.  And two requests that read the index
    together get the same server. *)
Example overlapping_requests_refused :
  let server name up := mkServer (mkHostAddress name [] 80) up None in
  fst (callers_run [0; 0; 0; 0; 1; 1; 1; 1; 1; 0] [Entered; Entered]
         (mkBalancer [server "a"%go false; server "b"%go true] 0))%nat
  = [Returned (Ret []); Returned (Ret "b:80"%go)]
  /\ fst (callers_run [0; 1; 0; 1; 0; 1; 0; 1; 0; 1] [Entered; Entered]
            (mkBalancer [server "a"%go true; server "b"%go true] 0))%nat
     = [Returned (Ret "a:80"%go); Returned (Ret "a:80"%go)].
Proof. by vm_compute. Qed.
