(* ===== verification/HttpClient.v ===== *)
(** * The HTTP client pool (pkg/httputils/client.go)

    The pool of connections to an upstream server, one definition for each part of
    the code that runs without interruption, [AcquireConn] as their sequence, and the
    goroutines that share a pool as a step relation.  A [*ClientConn] is a key of a
    store; the connections themselves are a parameter. *)

From stdpp Require Import relations.
From S2P Require Import Prelude GoStrings HttpHeader HttpContext.

Definition ErrClientStopping := ErrVar "httputils.ErrClientStopping"%go.
Definition ErrNoConnectionAvailable := ErrVar "httputils.ErrNoConnectionAvailable"%go.

(** The wrap-around of [int32]. *)
Definition i32 (z : Z) : Z := (z + 2 ^ 31) mod 2 ^ 32 - 2 ^ 31.

Definition Second : Z := 1000000000.

(** [ClientCfg], without the TLS configuration, which only the dialer reads. *)
Record ClientCfg := mkClientCfg {
  Scheme : gostring;
  Address : gostring;
  MaxConnections : Z;
  ConnectionTimeout : Z;
  ConnectionAcquisitionTimeout : Z;
  IdleConnectionTimeout : Z
}.

(** [http.Response]: the fields of its header in the order a range over the map gives
    them, the pieces reading its body gives, and the error that ends them if any. *)
Record Response := mkResponse {
  StatusCode : Z;
  Res_Header : list (gostring * list gostring);
  Res_Body : list gostring;
  Res_BodyError : option error
}.

(** What net/http does with a connection: [Request.Write], [ReadResponse] on its
    buffered reader, reading the body of a response, and closing it. *)
Class Upstream (C : Type) := {
  Request_Write : Request -> C -> outcome unit * C;
  ReadResponse : Request -> C -> outcome Response * C;
  Body_Read : Response -> C -> C;
  Body_Close : Response -> C -> C
}.

(** [ClientConn]: [None] is a nil [Conn] and a nil pointer to a time. *)
Record ClientConn (C : Type) := mkConn { cc_Conn : option C; cc_lastActivity : option Z }.
Arguments mkConn {C}.
Arguments cc_Conn {C}.
Arguments cc_lastActivity {C}.

(** [Client]; the timer is the time it fires at. *)
Record Client (C : Type) := mkClient {
  Cfg : ClientCfg;
  c_tls : bool;
  nbConns : Z;
  idleConns : list nat;
  idleConnTimer : Z;
  releasedClosed : bool;
  stopClosed : bool;
  store : gmap nat (ClientConn C)
}.
Arguments mkClient {C}.
Arguments Cfg {C}.
Arguments c_tls {C}.
Arguments nbConns {C}.
Arguments idleConns {C}.
Arguments idleConnTimer {C}.
Arguments releasedClosed {C}.
Arguments stopClosed {C}.
Arguments store {C}.

(** The defaults of [NewClient]. *)
Definition default_cfg (cfg : ClientCfg) : ClientCfg :=
  mkClientCfg (Scheme cfg) (Address cfg)
    (if MaxConnections cfg =? 0 then 10 else MaxConnections cfg)
    (if ConnectionTimeout cfg =? 0 then 10 * Second else ConnectionTimeout cfg)
    (if ConnectionAcquisitionTimeout cfg =? 0 then 5 * Second else ConnectionAcquisitionTimeout cfg)
    (if IdleConnectionTimeout cfg =? 0 then 600 * Second else IdleConnectionTimeout cfg).

Section client.
Context {C : Type}.

(** [NewClient], and the timer [watchConnections] starts at the time [now]. *)
Definition NewClient `{GoUnicode} (now : Z) (cfg : ClientCfg) : outcome (Client C) :=
  let cfg := default_cfg cfg in
  let new tls := mkClient cfg tls 0 [] (now + IdleConnectionTimeout cfg) false false ∅ in
  let scheme := ToLower (Scheme cfg) in
  if bool_decide (scheme = "http"%go) then Ret (new false)
  else if bool_decide (scheme = "https"%go) then Ret (new true)
  else Throw (Errorf "unsupported scheme"%go).

Definition set_nb (n : Z) (c : Client C) : Client C :=
  mkClient (Cfg c) (c_tls c) n (idleConns c) (idleConnTimer c) (releasedClosed c) (stopClosed c) (store c).
Definition set_idle (l : list nat) (c : Client C) : Client C :=
  mkClient (Cfg c) (c_tls c) (nbConns c) l (idleConnTimer c) (releasedClosed c) (stopClosed c) (store c).
Definition set_timer (t : Z) (c : Client C) : Client C :=
  mkClient (Cfg c) (c_tls c) (nbConns c) (idleConns c) t (releasedClosed c) (stopClosed c) (store c).
Definition set_store (m : gmap nat (ClientConn C)) (c : Client C) : Client C :=
  mkClient (Cfg c) (c_tls c) (nbConns c) (idleConns c) (idleConnTimer c) (releasedClosed c) (stopClosed c) m.
Definition set_closed (released stop : bool) (c : Client C) : Client C :=
  mkClient (Cfg c) (c_tls c) (nbConns c) (idleConns c) (idleConnTimer c) released stop (store c).

(** [c.nbConns.Add(n)] *)
Definition add_nb (n : Z) : ST (Client C) unit := modify (fun c => set_nb (i32 (nbConns c + n)) c).

(** [ClientConn.Close] *)
Definition ClientConn_Close (cc : ClientConn C) : ClientConn C := mkConn None (cc_lastActivity cc).

Definition close_conn (conn : nat) : ST (Client C) unit :=
  modify (fun c => set_store (alter ClientConn_Close conn (store c)) c).

(** ** Stopping

    [Stop]: the three things it does once the goroutine watching the connections is
    gone.  Closing a closed channel panics. *)
Definition Stop : ST (Client C) unit := fun c =>
  if stopClosed c then (Panic, c)
  else
    let c := set_closed (releasedClosed c) true c in
    let c := set_store (foldl (fun m conn => alter ClientConn_Close conn m) (store c) (idleConns c)) c in
    if releasedClosed c then (Panic, c)
    else (Ret tt, set_nb 0 (set_closed true true c)).

(** ** Acquiring a connection *)

(** The critical section: the first idle connection. *)
Definition take_idle : ST (Client C) (option nat) := fun c =>
  match idleConns c with
  | conn :: idle => (Ret (Some conn), set_idle idle c)
  | [] => (Ret None, c)
  end.

(** [int(c.nbConns.Load()) < c.Cfg.MaxConnections] *)
Definition below_limit (c : Client C) : bool := nbConns c <? MaxConnections (Cfg c).

(** [connect]: [dialer] is given the kind of connection, the timeout and the address. *)
Definition connect (dialer : bool -> Z -> gostring -> outcome C) : ST (Client C) nat := fun c =>
  let timeout := ConnectionTimeout (Cfg c) in
  let timeout := if timeout =? 0 then 30 * Second else timeout in
  match dialer (c_tls c) timeout (Address (Cfg c)) with
  | Ret conn =>
      let k := fresh (dom (store c)) in (Ret k, set_store (<[k := mkConn (Some conn) None]> (store c)) c)
  | Throw e => (Throw e, c)
  | Panic => (Panic, c)
  | OutOfFuel => (OutOfFuel, c)
  end.

(** What the [select] of [AcquireConn] takes. *)
Inductive Selected := Received (conn : option nat) | TimedOut | StopReceived.

(** [AcquireConn] without interruption; [None] is a nil connection. *)
Definition AcquireConn (dialer : bool -> Z -> gostring -> outcome C) (sel : Selected)
  : ST (Client C) (option nat) :=
  idle ← take_idle;
  match idle with
  | Some conn => mret (Some conn)
  | None =>
      below ← gets below_limit;
      if (below : bool) then
        conn ← wrapST "cannot connect"%go (connect dialer);
        _ ← add_nb 1;
        mret (Some conn)
      else
        match sel with
        | Received conn => mret conn
        | TimedOut => throw ErrNoConnectionAvailable
        | StopReceived => throw ErrClientStopping
        end
  end.

(** ** Giving a connection back *)

(** [HijackConn] *)
Definition HijackConn : ST (Client C) unit := add_nb (-1).

Definition conn_open (c : Client C) (conn : nat) : bool :=
  match store c !! conn with Some cc => bool_decide (cc_Conn cc <> None) | None => false end.

(** [c.idleConns = append(c.idleConns, conn)] *)
Definition append_idle (conn : nat) : ST (Client C) unit :=
  modify (fun c => set_idle (idleConns c ++ [conn]) c).

(** The first part of [ReleaseConn]: the connection is dropped when it is closed;
    otherwise the [select] gives it to a goroutine that waits for one, if there is
    one, and its default case keeps it.  A send on a closed channel panics, in a
    [select] too. *)
Inductive Release := Dropped | HandedOver | Kept.

Definition release (waiter : bool) (conn : nat) : ST (Client C) Release := fun c =>
  if negb (conn_open c conn) then (Ret Dropped, set_nb (i32 (nbConns c + -1)) c)
  else if releasedClosed c then (Panic, c)
  else if waiter then (Ret HandedOver, c)
  else (Ret Kept, c).

(** [ReleaseConn] without interruption. *)
Definition ReleaseConn (waiter : bool) (conn : nat) : ST (Client C) unit :=
  r ← release waiter conn;
  match r with
  | Kept => append_idle conn
  | Dropped | HandedOver => mret tt
  end.

(** ** Idle connections *)

(** The loop of [closeIdleConnections]: the idle connections kept, the next timeout.
    The last activity of a connection that was never used is a nil pointer. *)
Fixpoint close_idle_loop (timeout now : Z) (conns : list nat) (idle : list nat) (nextTimeout : Z)
  : ST (Client C) (list nat * Z) :=
  match conns with
  | [] => mret (idle, nextTimeout)
  | conn :: conns' =>
      cc ← gets (fun c => store c !! conn);
      match cc ≫= cc_lastActivity with
      | None => lift Panic
      | Some lastActivity =>
          let connTimeout := lastActivity + timeout in
          if connTimeout <? now then
            _ ← close_conn conn;
            _ ← add_nb (-1);
            close_idle_loop timeout now conns' idle nextTimeout
          else
            close_idle_loop timeout now conns' (idle ++ [conn])
              (if connTimeout <? nextTimeout then connTimeout else nextTimeout)
      end
  end.

(** [closeIdleConnections] at the time [now]; the timer is reset to
    [nextTimeout.Sub(now)] from then. *)
Definition closeIdleConnections (now : Z) : ST (Client C) unit := fun c =>
  let timeout := IdleConnectionTimeout (Cfg c) in
  ('(idle, nextTimeout) ← close_idle_loop timeout now (idleConns c) [] (now + timeout);
   _ ← modify (set_idle idle);
   modify (set_timer nextTimeout)) c.

(** ** Requests *)

(** [ClientConn.SendRequest]; a nil connection is called, which panics. *)
Definition SendRequest `{Upstream C} (now : Z) (req : Request) : ST (ClientConn C) Response := fun cc =>
  match cc_Conn cc with
  | None => (Panic, mkConn None (Some now))
  | Some conn =>
      let '(r, conn) := Request_Write req conn in
      match wrap_error "cannot write request"%go r with
      | Ret _ =>
          let '(r, conn) := ReadResponse req conn in
          (wrap_error "cannot read response"%go r, mkConn (Some conn) (Some now))
      | Throw e => (Throw e, mkConn (Some conn) (Some now))
      | Panic => (Panic, mkConn (Some conn) (Some now))
      | OutOfFuel => (OutOfFuel, mkConn (Some conn) (Some now))
      end
  end.

(** A method of a connection of the store; a nil pointer panics. *)
Definition on_conn {B} (conn : option nat) (m : ST (ClientConn C) B) : ST (Client C) B := fun c =>
  match conn with
  | None => (Panic, c)
  | Some k =>
      match store c !! k with
      | None => (Panic, c)
      | Some cc => let '(r, cc) := m cc in (r, set_store (<[k := cc]> (store c)) c)
      end
  end.
End client.

(** ** Goroutines sharing a client

    Where a goroutine that serves a request is: it found no idle connection, it
    dials, its connection is not counted yet, it waits for a connection, it holds one
    it has not used, one it has used, or it is about to add one to the idle ones. *)
Inductive Phase :=
  | Checking | Connecting | Connected (conn : nat) | Waiting
  | Holding (conn : nat) | Used (conn : nat) | Releasing (conn : nat).

Definition owned (ph : Phase) : option nat :=
  match ph with
  | Connected k | Holding k | Used k | Releasing k => Some k
  | Checking | Connecting | Waiting => None
  end.

(** Whether the connection of a goroutine is in [nbConns], or is being established. *)
Definition counted (ph : Phase) : Z :=
  match ph with Holding _ | Used _ | Releasing _ => 1 | _ => 0 end.
Definition connecting (ph : Phase) : Z :=
  match ph with Connecting | Connected _ => 1 | _ => 0 end.

Section pool.
Context {C : Type} `{Upstream C}.

Definition PoolState : Type := Client C * gmap nat Phase.

(** The steps of the goroutines running [ReverseProxyAction.HandleRequest], which use
    a connection before giving it back, and of the goroutine of the client.  [Stop],
    which closes the idle connections and the channel of the released ones, is not a
    step: the pool is that of a client in use (what its end does is in Lifecycle). *)
Inductive pool_step : PoolState -> PoolState -> Prop :=
  | step_idle t k cl cl' ths :
      ths !! t = None -> take_idle cl = (Ret (Some k), cl') ->
      pool_step (cl, ths) (cl', <[t := Holding k]> ths)
  | step_no_idle t cl cl' ths :
      ths !! t = None -> take_idle cl = (Ret None, cl') ->
      pool_step (cl, ths) (cl', <[t := Checking]> ths)
  | step_check t cl ths :
      ths !! t = Some Checking ->
      pool_step (cl, ths) (cl, <[t := if below_limit cl then Connecting else Waiting]> ths)
  | step_connect t dialer k cl cl' ths :
      ths !! t = Some Connecting -> connect dialer cl = (Ret k, cl') ->
      pool_step (cl, ths) (cl', <[t := Connected k]> ths)
  | step_connect_error t dialer e cl cl' ths :
      ths !! t = Some Connecting -> connect dialer cl = (Throw e, cl') ->
      pool_step (cl, ths) (cl', delete t ths)
  | step_count t k cl cl' ths :
      ths !! t = Some (Connected k) -> add_nb 1 cl = (Ret tt, cl') ->
      pool_step (cl, ths) (cl', <[t := Holding k]> ths)
  | step_timeout t cl ths :
      ths !! t = Some Waiting -> pool_step (cl, ths) (cl, delete t ths)
  | step_send t k now req r cl cl' ths :
      ths !! t = Some (Holding k) -> on_conn (Some k) (SendRequest now req) cl = (r, cl') ->
      pool_step (cl, ths) (cl', <[t := Used k]> ths)
  | step_close t k cl cl' ths :
      ths !! t = Some (Used k) -> close_conn k cl = (Ret tt, cl') ->
      pool_step (cl, ths) (cl', ths)
  | step_body t k (f : C -> C) cl ths :
      ths !! t = Some (Used k) ->
      pool_step (cl, ths)
        (set_store (alter (fun cc => mkConn (f <$> cc_Conn cc) (cc_lastActivity cc)) k (store cl)) cl, ths)
  | step_hijack t k cl cl' ths :
      ths !! t = Some (Used k) -> HijackConn cl = (Ret tt, cl') ->
      pool_step (cl, ths) (cl', delete t ths)
  | step_drop t k w cl cl' ths :
      ths !! t = Some (Used k) -> release w k cl = (Ret Dropped, cl') ->
      pool_step (cl, ths) (cl', delete t ths)
  | step_hand_over t t' k cl cl' ths :
      ths !! t = Some (Used k) -> ths !! t' = Some Waiting ->
      release true k cl = (Ret HandedOver, cl') ->
      pool_step (cl, ths) (cl', <[t' := Holding k]> (delete t ths))
  | step_keep t k cl cl' ths :
      ths !! t = Some (Used k) -> (forall t', ths !! t' <> Some Waiting) ->
      release false k cl = (Ret Kept, cl') ->
      pool_step (cl, ths) (cl', <[t := Releasing k]> ths)
  | step_append t k cl cl' ths :
      ths !! t = Some (Releasing k) -> append_idle k cl = (Ret tt, cl') ->
      pool_step (cl, ths) (cl', delete t ths)
  | step_watch now cl cl' ths :
      closeIdleConnections now cl = (Ret tt, cl') -> pool_step (cl, ths) (cl', ths).

(** The connections of the goroutines, and a sum over them. *)
Definition owned_list (ths : gmap nat Phase) : list nat :=
  omap (fun p => owned (snd p)) (map_to_list ths).
Definition count (f : Phase -> Z) (ths : gmap nat Phase) : Z :=
  map_fold (fun _ ph n => f ph + n) 0 ths.

(** A connection that can be given to a request, and what is known of the connection
    of a goroutine. *)
Definition usable (st : gmap nat (ClientConn C)) (k : nat) : Prop :=
  exists conn time, st !! k = Some (mkConn (Some conn) (Some time)).

Definition phase_ok (st : gmap nat (ClientConn C)) (ph : Phase) : Prop :=
  match ph with
  | Connected k | Holding k => exists conn time, st !! k = Some (mkConn (Some conn) time)
  | Used k => exists conn time, st !! k = Some (mkConn conn (Some time))
  | Releasing k => usable st k
  | Checking | Connecting | Waiting => True
  end.

Record pool_inv (cl : Client C) (ths : gmap nat Phase) : Prop := {
  inv_nodup : NoDup (idleConns cl ++ owned_list ths);
  inv_count : nbConns cl = i32 (len (idleConns cl) + count counted ths);
  inv_idle : Forall (usable (store cl)) (idleConns cl);
  inv_phase : map_Forall (fun _ => phase_ok (store cl)) ths
}.

(** *** One goroutine and the others *)

Definition own (o : option Phase) : list nat := option_list (o ≫= owned).
Definition weight (f : Phase -> Z) (o : option Phase) : Z := match o with Some ph => f ph | None => 0 end.

Lemma owned_list_delete ths t :
  owned_list ths ≡ₚ own (ths !! t) ++ owned_list (delete t ths).
Proof.
  unfold owned_list, own. destruct (ths !! t) as [ph|] eqn:E.
  - rewrite <- (map_to_list_delete ths t ph E). cbn. by destruct (owned ph).
  - by rewrite delete_id.
Qed.

Lemma count_delete f ths t : count f ths = weight f (ths !! t) + count f (delete t ths).
Proof.
  unfold count. destruct (ths !! t) as [ph|] eqn:E; cbn.
  - rewrite (map_fold_delete_L _ _ t ph); [done| |done]. intros. lia.
  - by rewrite delete_id.
Qed.

(** The invariant, for a goroutine in the state [o] and the [rest] of them. *)
Record inv_at (cl : Client C) (o : option Phase) (rest : gmap nat Phase) : Prop := {
  at_nodup : NoDup (idleConns cl ++ own o ++ owned_list rest);
  at_count : nbConns cl = i32 (len (idleConns cl) + (weight counted o + count counted rest));
  at_idle : Forall (usable (store cl)) (idleConns cl);
  at_phase : match o with Some ph => phase_ok (store cl) ph | None => True end;
  at_rest : map_Forall (fun _ => phase_ok (store cl)) rest
}.

Lemma inv_split cl ths t : pool_inv cl ths <-> inv_at cl (ths !! t) (delete t ths).
Proof.
  split.
  - intros [Hn Hc Hi Hp]. split; try done.
    + by rewrite <- (owned_list_delete ths t).
    + by rewrite <- (count_delete counted ths t).
    + destruct (ths !! t) eqn:E; [|done]. by apply (Hp t).
    + by apply map_Forall_delete.
  - intros [Hn Hc Hi Ho Hp]. split; try done.
    + by rewrite (owned_list_delete ths t).
    + by rewrite (count_delete counted ths t).
    + intros u ph Hu. destruct (decide (u = t)) as [->|Hne].
      * by rewrite Hu in Ho.
      * apply (Hp u). by rewrite lookup_delete_ne.
Qed.

(** A step that changes one goroutine is a step between the two forms. *)
Lemma inv_update cl cl' ths t o :
  pool_inv cl ths ->
  (forall rest, inv_at cl (ths !! t) rest -> inv_at cl' o rest) ->
  pool_inv cl' (partial_alter (fun _ => o) t ths).
Proof.
  intros Hinv Hstep. apply (inv_split _ _ t). rewrite lookup_partial_alter_eq.
  rewrite delete_partial_alter_eq. by apply Hstep, inv_split.
Qed.

Lemma phase_ok_frame st st' ph :
  (forall k, owned ph = Some k -> st' !! k = st !! k) -> phase_ok st ph -> phase_ok st' ph.
Proof. destruct ph; cbn; intros Hk; try done; unfold usable; by rewrite Hk. Qed.

(** The store may change at the connection [k] of a goroutine, for the others. *)
Lemma at_frame cl cl' k o o' rest :
  inv_at cl o rest -> idleConns cl' = idleConns cl ->
  NoDup (k :: idleConns cl ++ owned_list rest) ->
  (forall k', k' <> k -> store cl' !! k' = store cl !! k') ->
  nbConns cl' = i32 (len (idleConns cl) + (weight counted o' + count counted rest)) ->
  own o' = [k] \/ own o' = [] ->
  match o' with Some ph => phase_ok (store cl') ph | None => True end ->
  inv_at cl' o' rest.
Proof.
  intros [_ _ Hi _ Hr] Hidle Hnd Hst Hnb Ho Hp. apply NoDup_cons in Hnd as [Hk Hnd].
  rewrite not_elem_of_app in Hk. destruct Hk as [Hk1 Hk2].
  assert (forall u ph, rest !! u = Some ph -> owned ph <> Some k) as Hown.
  { intros u ph Hu Hph. apply Hk2. unfold owned_list. apply list_elem_of_omap.
    exists (u, ph). by rewrite elem_of_map_to_list. }
  split; rewrite ?Hidle; try done.
  - destruct Ho as [-> | ->]; cbn; [|done].
    rewrite <- Permutation_middle. by apply NoDup_cons; rewrite not_elem_of_app.
  - apply Forall_forall. intros k' Hk'. unfold usable. rewrite Hst by (by intros ->).
    rewrite Forall_forall in Hi. by apply Hi.
  - intros u ph Hu. apply (phase_ok_frame (store cl)); [|by apply (Hr u)].
    intros k' Hk'. apply Hst. intros ->. by apply (Hown u ph).
Qed.

Lemma i32_add a b : i32 (i32 a + b) = i32 (a + b).
Proof.
  unfold i32.
  replace ((a + 2 ^ 31) mod 2 ^ 32 - 2 ^ 31 + b + 2 ^ 31) with ((a + 2 ^ 31) mod 2 ^ 32 + b) by lia.
  rewrite Zplus_mod_idemp_l. f_equal. f_equal. lia.
Qed.

Lemma i32_small z : - 2 ^ 31 <= z < 2 ^ 31 -> i32 z = z.
Proof. intros Hz. unfold i32. rewrite Z.mod_small; lia. Qed.

(** *** Idle connections *)

(** Whether an idle connection is past its timeout at the time [now]. *)
Definition deadline (cl : Client C) (k : nat) : Z :=
  default 0 (store cl !! k ≫= cc_lastActivity) + IdleConnectionTimeout (Cfg cl).
Definition expired (now : Z) (cl : Client C) (k : nat) : Prop := deadline cl k < now.

#[local] Instance expired_dec now cl k : Decision (expired now cl k).
Proof. unfold expired. apply _. Defined.

Definition close_all (ks : list nat) (st : gmap nat (ClientConn C)) : gmap nat (ClientConn C) :=
  foldl (fun st k => alter ClientConn_Close k st) st ks.

(** What the loop does to the client; [cl0] is the one it started with. *)
Lemma close_idle_loop_spec now cl0 ks : forall kept next m cl,
  nbConns cl = i32 m -> NoDup ks -> Forall (usable (store cl0)) ks ->
  (forall k, k ∈ ks -> store cl !! k = store cl0 !! k) ->
  exists cl',
    close_idle_loop (IdleConnectionTimeout (Cfg cl0)) now ks kept next cl
    = (Ret (kept ++ filter (fun k => ~ expired now cl0 k) ks,
            foldl Z.min next (map (deadline cl0) (filter (fun k => ~ expired now cl0 k) ks))), cl')
    /\ cl' = set_nb (i32 (m - len (filter (expired now cl0) ks)))
               (set_store (close_all (filter (expired now cl0) ks) (store cl)) cl).
Proof.
  induction ks as [|k ks IH]; intros kept next m cl Hm Hnd Hus Hst.
  - exists cl. cbn. rewrite app_nil_r, Z.sub_0_r, <- Hm. split; [done|]. by destruct cl.
  - apply NoDup_cons in Hnd as [Hk Hnd]. apply Forall_cons in Hus as [(conn & time & Hus1) Hus].
    cbn [close_idle_loop]. unfold mbind at 1, st_bind at 1, gets at 1.
    rewrite (Hst k), Hus1 by apply list_elem_of_here. cbn [mbind option_bind cc_lastActivity].
    assert (deadline cl0 k = time + IdleConnectionTimeout (Cfg cl0)) as Hd
      by (unfold deadline; by rewrite Hus1).
    rewrite <- Hd. destruct (deadline cl0 k <? now) eqn:E; bool_facts.
    + destruct (IH kept next (m - 1) (set_nb (i32 (nbConns cl + -1))
                                (set_store (alter ClientConn_Close k (store cl)) cl)))
        as (cl' & Hrun & ->); [cbn; rewrite Hm; apply i32_add|done|done| |].
      { intros k' Hk'. cbn. rewrite lookup_alter_ne by (by intros ->). by apply Hst, list_elem_of_further. }
      eexists. split.
      { rewrite (filter_cons_False (fun k => ~ expired now cl0 k)) by (unfold expired; lia).
        rewrite (st_bind_ret _ _ _ tt (set_store (alter ClientConn_Close k (store cl)) cl)) by done.
        rewrite (st_bind_ret _ _ _ tt _) by done. exact Hrun. }
      rewrite (filter_cons_True (expired now cl0)), len_cons by done.
      unfold set_nb, set_store. cbn. f_equal. f_equal. lia.
    + destruct (IH (kept ++ [k]) (Z.min next (deadline cl0 k)) m cl) as (cl' & Hrun & ->); [done|done|done| |].
      { intros k' Hk'. by apply Hst, list_elem_of_further. }
      eexists. split.
      { rewrite (filter_cons_True (fun k => ~ expired now cl0 k)) by (unfold expired; lia).
        cbn [map foldl]. rewrite <- (assoc_L (++)) in Hrun. cbn [app] in Hrun.
        replace (if deadline cl0 k <? next then deadline cl0 k else next)
          with (Z.min next (deadline cl0 k)); [exact Hrun|].
        destruct (deadline cl0 k <? next) eqn:E2; bool_facts; lia. }
      by rewrite (filter_cons_False (expired now cl0)) by (unfold expired; lia).
Qed.

Lemma close_all_lookup ks st k : k ∉ ks -> close_all ks st !! k = st !! k.
Proof.
  revert st. induction ks as [|k' ks IH]; intros st Hk; cbn; [done|].
  apply not_elem_of_cons in Hk as [Hne Hk]. unfold close_all in IH.
  by rewrite IH, lookup_alter_ne by done.
Qed.

Lemma close_all_closed ks st k cc :
  k ∈ ks -> close_all ks st !! k = Some cc -> cc_Conn cc = None.
Proof.
  revert st. induction ks as [|k' ks IH]; intros st Hk; [by apply elem_of_nil in Hk|].
  cbn. destruct (decide (k ∈ ks)) as [Hin|Hnin]; [by apply IH|].
  apply elem_of_cons in Hk as [-> | Hk]; [|done].
  fold (close_all ks (alter ClientConn_Close k' st)). rewrite close_all_lookup by done.
  rewrite lookup_alter_eq. by destruct (st !! k'); intros [= <-].
Qed.

Lemma filter_len {X} (P : X -> Prop) `{forall x, Decision (P x)} (l : list X) :
  len l = len (filter P l) + len (filter (fun x => ~ P x) l).
Proof.
  induction l as [|x l IH]; [done|]. rewrite !filter_cons.
  destruct (decide (P x)), (decide (~ P x)); try done; rewrite !len_cons; lia.
Qed.

(** The client after [closeIdleConnections]. *)
Definition swept (now : Z) (cl : Client C) : Client C :=
  let closed := filter (expired now cl) (idleConns cl) in
  let kept := filter (fun k => ~ expired now cl k) (idleConns cl) in
  mkClient (Cfg cl) (c_tls cl) (i32 (nbConns cl - len closed)) kept
    (foldl Z.min (now + IdleConnectionTimeout (Cfg cl)) (map (deadline cl) kept))
    (releasedClosed cl) (stopClosed cl) (close_all closed (store cl)).

Lemma closeIdleConnections_swept now cl ths :
  pool_inv cl ths -> closeIdleConnections now cl = (Ret tt, swept now cl).
Proof.
  intros [Hn Hc Hi _]. apply NoDup_app in Hn as [Hn _].
  destruct (close_idle_loop_spec now cl (idleConns cl) [] (now + IdleConnectionTimeout (Cfg cl))
              (len (idleConns cl) + count counted ths) cl) as (cl' & Hrun & ->); [done..|].
  unfold closeIdleConnections. rewrite (st_bind_ret _ _ _ _ _ Hrun).
  unfold swept. rewrite Hc. unfold Z.sub. by rewrite i32_add.
Qed.

Lemma swept_inv now cl ths : pool_inv cl ths -> pool_inv (swept now cl) ths.
Proof.
  intros [Hn Hc Hi Hp]. apply NoDup_app in Hn as (Hn1 & Hn12 & Hn2). split; unfold swept; cbn.
  - apply NoDup_app. split_and!; [by apply NoDup_filter| |done].
    intros k Hk. apply list_elem_of_filter in Hk as [_ Hk]. by apply Hn12.
  - rewrite Hc. unfold Z.sub. rewrite i32_add. f_equal.
    rewrite (filter_len (expired now cl) (idleConns cl)). lia.
  - apply Forall_forall. intros k Hk. apply list_elem_of_filter in Hk as [Hex Hk]. unfold usable.
    rewrite close_all_lookup by (intros Hin; by apply list_elem_of_filter in Hin as [? _]).
    rewrite Forall_forall in Hi. by apply Hi.
  - intros t ph Ht. apply (phase_ok_frame (store cl)); [|by apply (Hp t)].
    intros k Hk. apply close_all_lookup. intros Hin. apply list_elem_of_filter in Hin as [_ Hin].
    apply (Hn12 k Hin). unfold owned_list. apply list_elem_of_omap. exists (t, ph).
    by rewrite elem_of_map_to_list.
Qed.

(** *** Every step keeps the invariant *)

Lemma at_rest_nodup cl o rest k :
  inv_at cl o rest -> own o = [k] -> NoDup (k :: idleConns cl ++ owned_list rest).
Proof.
  intros [Hn _ _ _ _] Ho. rewrite Ho in Hn. cbn in Hn. by rewrite <- Permutation_middle in Hn.
Qed.

(** A goroutine that owns nothing before and after. *)
Lemma at_same cl o o' rest :
  inv_at cl o rest -> own o = [] -> own o' = [] -> weight counted o = 0 -> weight counted o' = 0 ->
  match o' with Some ph => phase_ok (store cl) ph | None => True end ->
  inv_at cl o' rest.
Proof.
  intros [Hn Hc Hi _ Hr] Ho Ho' Hw Hw' Hp. rewrite Ho in Hn. rewrite Hw in Hc.
  split; rewrite ?Ho', ?Hw'; done.
Qed.

Lemma inv_initial cl : idleConns cl = [] -> nbConns cl = 0 -> pool_inv cl ∅.
Proof.
  intros Hi Hn. split; rewrite ?Hi, ?Hn; cbn; [constructor|done|constructor|].
  by intros ? ? ?.
Qed.

Lemma inv_take cl cl' ths t k :
  pool_inv cl ths -> ths !! t = None -> take_idle cl = (Ret (Some k), cl') ->
  pool_inv cl' (<[t := Holding k]> ths).
Proof.
  intros Hinv Ht Htake. apply (inv_update cl _ _ _ (Some (Holding k))); [done|]. intros rest.
  unfold take_idle in Htake. destruct (idleConns cl) as [|k' idle] eqn:E; [done|].
  injection Htake as <- <-. rewrite Ht. intros [Hn Hc Hi _ Hr]. rewrite E in *. cbn in Hn, Hc.
  apply Forall_cons in Hi as [(conn & time & Hk) Hi].
  split; cbn; [|rewrite Hc; f_equal; unfold len; cbn; lia|done|by exists conn, (Some time)|done].
  by rewrite <- Permutation_middle.
Qed.

Lemma inv_connect cl cl' ths t dialer k :
  pool_inv cl ths -> ths !! t = Some Connecting -> connect dialer cl = (Ret k, cl') ->
  pool_inv cl' (<[t := Connected k]> ths).
Proof.
  intros Hinv Ht Hcon. apply (inv_update cl _ _ _ (Some (Connected k))); [done|]. intros rest Hat.
  unfold connect in Hcon. destruct (dialer _ _ _) as [conn| | |]; [|done..].
  injection Hcon as <- <-. set (k := fresh (dom (store cl))).
  assert (store cl !! k = None) as Hk by apply not_elem_of_dom, is_fresh.
  assert (forall ph, phase_ok (store cl) ph -> owned ph <> Some k) as Hph.
  { intros ph Hok Ho. destruct ph; cbn in Ho, Hok; try done; injection Ho as ->;
      unfold usable in Hok; destruct Hok as (? & ? & Hok); by rewrite Hk in Hok. }
  rewrite Ht in Hat. pose proof (at_idle _ _ _ Hat) as Hi. rewrite Forall_forall in Hi.
  apply (at_frame cl _ k (Some Connecting) _ _ Hat); cbn; try done.
  - apply NoDup_cons. split; [|by apply (at_nodup _ _ _ Hat)]. rewrite not_elem_of_app. split.
    + intros Hin. destruct (Hi k Hin) as (? & ? & Hst). by rewrite Hk in Hst.
    + unfold owned_list. rewrite list_elem_of_omap. intros ([u ph] & Hu & Ho).
      apply elem_of_map_to_list in Hu. by apply (Hph ph); [apply (at_rest _ _ _ Hat u)|].
  - intros k' Hne. by rewrite lookup_insert_ne.
  - apply (at_count _ _ _ Hat).
  - by left.
  - exists conn, None. by rewrite lookup_insert_eq.
Qed.

Lemma inv_send cl cl' ths t now req k r :
  pool_inv cl ths -> ths !! t = Some (Holding k) ->
  on_conn (Some k) (SendRequest now req) cl = (r, cl') ->
  pool_inv cl' (<[t := Used k]> ths).
Proof.
  intros Hinv Ht Hsend. apply (inv_update cl _ _ _ (Some (Used k))); [done|]. rewrite Ht. intros rest Hat.
  destruct (at_phase _ _ _ Hat) as (conn & time & Hk). unfold on_conn in Hsend. rewrite Hk in Hsend.
  assert (exists conn', SendRequest now req (mkConn (Some conn) time)
          = (fst (SendRequest now req (mkConn (Some conn) time)), mkConn conn' (Some now)))
    as (conn' & Hs).
  { unfold SendRequest. cbn. destruct (Request_Write req conn) as [w c1]. cbn.
    destruct (wrap_error _ w); cbn; try by eexists.
    destruct (ReadResponse req c1) as [rr c2]. by eexists. }
  rewrite Hs in Hsend. injection Hsend as _ <-.
  apply (at_frame cl _ k _ _ _ Hat); cbn; try done.
  - by apply (at_rest_nodup _ _ _ _ Hat).
  - intros k' Hne. by rewrite lookup_insert_ne.
  - apply (at_count _ _ _ Hat).
  - by left.
  - exists conn', now. by rewrite lookup_insert_eq.
Qed.

(** A goroutine does something with its connection. *)
Lemma inv_alter f cl ths t k :
  pool_inv cl ths -> ths !! t = Some (Used k) ->
  (forall cc, cc_lastActivity (f cc) = cc_lastActivity cc) ->
  pool_inv (set_store (alter f k (store cl)) cl) ths.
Proof.
  intros Hinv Ht Hf. rewrite <- (partial_alter_self ths t).
  apply (inv_update cl); [done|]. rewrite Ht. intros rest Hat.
  destruct (at_phase _ _ _ Hat) as (conn & time & Hk).
  apply (at_frame cl _ k _ _ _ Hat); cbn; try done.
  - by apply (at_rest_nodup _ _ _ _ Hat).
  - intros k' Hne. by rewrite lookup_alter_ne.
  - apply (at_count _ _ _ Hat).
  - by left.
  - specialize (Hf (mkConn conn (Some time))). exists (cc_Conn (f (mkConn conn (Some time)))), time.
    rewrite lookup_alter_eq, Hk. cbn in *. destruct (f _). cbn in *. by subst.
Qed.

(** A connection leaves the pool. *)
Lemma inv_leave cl ths t k :
  pool_inv cl ths -> ths !! t = Some (Used k) ->
  pool_inv (set_nb (i32 (nbConns cl + -1)) cl) (delete t ths).
Proof.
  intros Hinv Ht. apply (inv_update cl _ _ _ None); [done|]. rewrite Ht. intros rest Hat.
  apply (at_frame cl _ k _ _ _ Hat); cbn; try done.
  - by apply (at_rest_nodup _ _ _ _ Hat).
  - rewrite (at_count _ _ _ Hat), i32_add. f_equal. cbn. lia.
  - by right.
Qed.

Lemma release_dropped w k (cl cl' : Client C) :
  release w k cl = (Ret Dropped, cl') -> cl' = set_nb (i32 (nbConns cl + -1)) cl.
Proof.
  unfold release. destruct (negb _); [by intros [= <-]|].
  destruct (releasedClosed cl); [done|]. by destruct w.
Qed.

Lemma release_open w k (cl cl' : Client C) r :
  release w k cl = (Ret r, cl') -> r <> Dropped -> conn_open cl k = true /\ cl' = cl.
Proof.
  unfold release. destruct (conn_open cl k); cbn; [|by intros [= <- <-]].
  destruct (releasedClosed cl); [done|]. by destruct w; intros [= <- <-].
Qed.

Lemma used_usable (cl : Client C) k :
  phase_ok (store cl) (Used k) -> conn_open cl k = true -> usable (store cl) k.
Proof.
  intros (conn & time & Hk) Ho. unfold conn_open in Ho. rewrite Hk in Ho. cbn in Ho.
  destruct conn as [conn|]; [|done]. by exists conn, time.
Qed.

Lemma inv_hand_over cl ths t t' k :
  pool_inv cl ths -> ths !! t = Some (Used k) -> ths !! t' = Some Waiting -> conn_open cl k = true ->
  pool_inv cl (<[t' := Holding k]> (delete t ths)).
Proof.
  intros Hinv Ht Ht' Ho. assert (t <> t') as Hne by (intros ->; by rewrite Ht in Ht').
  apply (inv_split _ _ t) in Hinv. rewrite Ht in Hinv. destruct Hinv as [Hn Hc Hi Hp Hr].
  destruct (used_usable _ _ Hp Ho) as (conn & time & Hk).
  assert (delete t ths !! t' = Some Waiting) as Hd by by rewrite lookup_delete_ne.
  rewrite (owned_list_delete (delete t ths) t'), Hd in Hn.
  rewrite (count_delete counted (delete t ths) t'), Hd in Hc.
  apply (inv_split _ _ t'). rewrite lookup_insert_eq, delete_insert_eq. split; try done.
  - by exists conn, (Some time).
  - by apply map_Forall_delete.
Qed.

Lemma inv_keep cl ths t k :
  pool_inv cl ths -> ths !! t = Some (Used k) -> conn_open cl k = true ->
  pool_inv cl (<[t := Releasing k]> ths).
Proof.
  intros Hinv Ht Ho. apply (inv_update cl _ _ _ (Some (Releasing k))); [done|]. rewrite Ht. intros rest Hat.
  destruct Hat as [Hn Hc Hi Hp Hr]. split; try done. by apply used_usable.
Qed.

Lemma inv_append cl ths t k :
  pool_inv cl ths -> ths !! t = Some (Releasing k) ->
  pool_inv (set_idle (idleConns cl ++ [k]) cl) (delete t ths).
Proof.
  intros Hinv Ht. apply (inv_update cl _ _ _ None); [done|]. rewrite Ht. intros rest [Hn Hc Hi Hp Hr].
  split; cbn in *; try done.
  - by rewrite <- (assoc_L (++)).
  - rewrite Hc, len_app. f_equal. change (len [k]) with 1. lia.
  - apply Forall_app. split; [done|]. by constructor.
Qed.

Lemma pool_inv_step s s' : pool_inv s.1 s.2 -> pool_step s s' -> pool_inv s'.1 s'.2.
Proof.
  intros Hinv Hstep. destruct Hstep; cbn in *.
  - by eapply inv_take.
  - apply (inv_update cl _ _ _ (Some Checking)); [done|]. rewrite H0. intros rest Hat.
    assert (cl' = cl) as -> by (unfold take_idle in H1; destruct (idleConns cl); congruence).
    by apply (at_same cl None).
  - apply (inv_update cl _ _ _ (Some (if below_limit cl then Connecting else Waiting))); [done|].
    rewrite H0. intros rest Hat. by apply (at_same cl (Some Checking)); destruct (below_limit cl).
  - by eapply inv_connect.
  - apply (inv_update cl _ _ _ None); [done|]. rewrite H0. intros rest Hat.
    assert (cl' = cl) as -> by (unfold connect in H1; destruct (dialer _ _ _); congruence).
    by apply (at_same cl (Some Connecting)).
  - injection H1 as <-. apply (inv_update cl _ _ _ (Some (Holding k))); [done|]. rewrite H0.
    intros rest [Hn Hc Hi Hp Hr]. split; cbn in *; try done.
    rewrite Hc, i32_add. f_equal. lia.
  - apply (inv_update cl _ _ _ None); [done|]. rewrite H0. intros rest Hat.
    by apply (at_same cl (Some Waiting)).
  - by eapply inv_send.
  - injection H1 as <-. by eapply inv_alter.
  - by apply inv_alter with (t := t).
  - injection H1 as <-. by eapply inv_leave.
  - rewrite (release_dropped _ _ _ _ H1). by eapply inv_leave.
  - destruct (release_open _ _ _ _ _ H2) as [Ho ->]; [done|]. by eapply inv_hand_over.
  - destruct (release_open _ _ _ _ _ H2) as [Ho ->]; [done|]. by eapply inv_keep.
  - injection H1 as <-. by eapply inv_append.
  - rewrite (closeIdleConnections_swept now cl ths Hinv) in H0. injection H0 as <-. by apply swept_inv.
Qed.

Lemma pool_inv_reachable s s' : pool_inv s.1 s.2 -> rtc pool_step s s' -> pool_inv s'.1 s'.2.
Proof. intros Hinv Hrun. induction Hrun; [done|]. eauto using pool_inv_step. Qed.

(** *** What the invariant says *)

Lemma owned_list_elem ths t ph k : ths !! t = Some ph -> owned ph = Some k -> k ∈ owned_list ths.
Proof.
  intros Ht Ho. unfold owned_list. apply list_elem_of_omap. exists (t, ph).
  by rewrite elem_of_map_to_list.
Qed.

Lemma inv_owner cl ths t1 t2 p1 p2 k :
  pool_inv cl ths -> ths !! t1 = Some p1 -> ths !! t2 = Some p2 ->
  owned p1 = Some k -> owned p2 = Some k -> t1 = t2.
Proof.
  intros Hinv H1 H2 Ho1 Ho2. destruct (decide (t1 = t2)) as [|Hne]; [done|].
  apply (inv_split _ _ t1) in Hinv. rewrite H1 in Hinv.
  assert (own (Some p1) = [k]) as Hown by (unfold own; cbn; by rewrite Ho1).
  pose proof (at_rest_nodup _ _ _ k Hinv Hown) as Hnd. apply NoDup_cons in Hnd as [Hnd _]. contradict Hnd.
  apply elem_of_app. right. apply (owned_list_elem _ t2 p2); [by rewrite lookup_delete_ne|done].
Qed.

Lemma count_nonneg f ths : (forall ph, 0 <= f ph) -> 0 <= count f ths.
Proof.
  intros Hf. unfold count. apply (map_fold_weak_ind (fun n _ => 0 <= n)); [done|].
  intros t ph m n _ Hn. specialize (Hf ph). lia.
Qed.

Lemma NewClient_initial `{GoUnicode} now cfg (cl : Client C) :
  NewClient now cfg = Ret cl -> pool_inv cl ∅ /\ Cfg cl = default_cfg cfg /\ idleConns cl = [].
Proof.
  unfold NewClient. destruct (bool_decide _); [|destruct (bool_decide _); [|done]];
    intros [= <-]; (split; [by apply inv_initial|done]).
Qed.

(** [C9] Until the client is stopped, whatever the goroutines that use it do and however
    their steps interleave: a connection belongs to at most one goroutine and is then not idle,
    it is idle at most once, an idle connection is open and has been used, a
    goroutine is only ever given an open connection, the counter is the number of
    connections idle or in use (as an [int32]), and closing the idle connections
    never dereferences a nil pointer. *)
Theorem http_pool_exclusive `{GoUnicode} now cfg cl0 cl ths :
  NewClient now cfg = Ret cl0 -> rtc pool_step (cl0, ∅) (cl, ths) ->
  (forall t1 t2 p1 p2 k, ths !! t1 = Some p1 -> ths !! t2 = Some p2 ->
     owned p1 = Some k -> owned p2 = Some k -> t1 = t2)
  /\ (forall t ph k, ths !! t = Some ph -> owned ph = Some k -> k ∉ idleConns cl)
  /\ NoDup (idleConns cl)
  /\ (forall k, k ∈ idleConns cl -> usable (store cl) k)
  /\ (forall t k, ths !! t = Some (Holding k) -> conn_open cl k = true)
  /\ nbConns cl = i32 (len (idleConns cl) + count counted ths)
  /\ (forall now', exists cl', closeIdleConnections now' cl = (Ret tt, cl')).
Proof.
  intros Hnew Hrun. apply NewClient_initial in Hnew as (Hi0 & _ & _).
  apply (pool_inv_reachable (cl0, ∅) (cl, ths) Hi0) in Hrun. cbn in Hrun.
  destruct (Hrun) as [Hn Hc Hi Hp]. apply NoDup_app in Hn as (Hn1 & Hn12 & _). split_and!; try done.
  - intros. by eapply (inv_owner cl ths).
  - intros t ph k Ht Ho Hin. by apply (Hn12 k), (owned_list_elem _ t ph).
  - by apply Forall_forall.
  - intros t k Ht. apply Hp in Ht as (conn & time & Hk). unfold conn_open. by rewrite Hk.
  - intros now'. eexists. by apply (closeIdleConnections_swept now' cl ths).
Qed.

(** ** The limit *)

(** A step that leaves at most [n] goroutines establishing a connection. *)
Definition bounded_step (n : Z) (s s' : PoolState) : Prop :=
  pool_step s s' /\ count connecting s'.2 <= n.

(** The connections of the pool: idle, in use, or being established. *)
Definition total (s : PoolState) : Z :=
  len (idleConns s.1) + count counted s.2 + count connecting s.2.

Lemma count_update f ths t o :
  count f (partial_alter (fun _ => o) t ths) = count f ths - weight f (ths !! t) + weight f o.
Proof.
  rewrite (count_delete f (partial_alter _ _ _) t), (count_delete f ths t).
  rewrite lookup_partial_alter_eq, delete_partial_alter_eq. lia.
Qed.

Lemma count_insert f ths t ph :
  count f (<[t := ph]> ths) = count f ths - weight f (ths !! t) + f ph.
Proof. apply (count_update f ths t (Some ph)). Qed.

Lemma count_empty f : count f ∅ = 0.
Proof. apply map_fold_empty. Qed.

Lemma count_remove f ths t : count f (delete t ths) = count f ths - weight f (ths !! t).
Proof. pose proof (count_update f ths t None) as Hu. cbn in Hu. unfold delete, map_delete. lia. Qed.

(** Only the test of the limit lets the number of connections grow. *)
Lemma total_step s s' :
  pool_inv s.1 s.2 -> pool_step s s' ->
  Cfg s'.1 = Cfg s.1 /\
  (total s' <= total s \/ (below_limit s.1 = true /\ idleConns s'.1 = idleConns s.1
     /\ count counted s'.2 = count counted s.2 /\ count connecting s'.2 = count connecting s.2 + 1)).
Proof.
  intros Hinv Hstep. unfold total.
  destruct Hstep as [t k cl cl' ths Ht Hs|t cl cl' ths Ht Hs|t cl ths Ht|t dialer k cl cl' ths Ht Hs
    |t dialer e cl cl' ths Ht Hs|t k cl cl' ths Ht Hs|t cl ths Ht|t k now req r cl cl' ths Ht Hs
    |t k cl cl' ths Ht Hs|t k f cl ths Ht|t k cl cl' ths Ht Hs|t k w cl cl' ths Ht Hs
    |t t' k cl cl' ths Ht Ht' Hs|t k cl cl' ths Ht Hw Hs|t k cl cl' ths Ht Hs|now cl cl' ths Hs]; cbn in *.
  - unfold take_idle in Hs. destruct (idleConns cl) as [|k' l] eqn:E; [done|]. injection Hs as <- <-.
    rewrite !count_insert, Ht. cbn. split; [done|]. left. rewrite len_cons. lia.
  - unfold take_idle in Hs. destruct (idleConns cl) as [|k' l] eqn:E; [|done]. injection Hs as <-.
    rewrite !count_insert, Ht, E. cbn. split; [done|]. left. lia.
  - split; [done|]. rewrite !count_insert, Ht. destruct (below_limit cl); cbn; [right|left; lia].
    split_and!; try done; lia.
  - unfold connect in Hs. destruct (dialer _ _ _); [|done..]. injection Hs as <- <-.
    rewrite !count_insert, Ht. cbn. split; [done|]. left. lia.
  - unfold connect in Hs. destruct (dialer _ _ _); [done| |done..]. injection Hs as <- <-.
    rewrite !count_remove, Ht. cbn. split; [done|]. left. lia.
  - injection Hs as <-. rewrite !count_insert, Ht. cbn. split; [done|]. left. lia.
  - rewrite !count_remove, Ht. cbn. split; [done|]. left. lia.
  - rewrite !count_insert, Ht. destruct (store cl !! k); [|injection Hs as _ <-; cbn; split; [done|left; lia]].
    destruct (SendRequest _ _ _). injection Hs as _ <-. cbn. split; [done|]. left. lia.
  - injection Hs as <-. cbn. split; [done|]. left. lia.
  - split; [done|]. left. lia.
  - injection Hs as <-. rewrite !count_remove, Ht. cbn. split; [done|]. left. lia.
  - rewrite (release_dropped _ _ _ _ Hs), !count_remove, Ht. cbn. split; [done|]. left. lia.
  - destruct (release_open _ _ _ _ _ Hs) as [_ ->]; [done|]. split; [done|]. left.
    rewrite !count_insert, !count_remove, Ht, lookup_delete_ne, Ht' by (intros ->; by rewrite Ht in Ht').
    cbn. lia.
  - destruct (release_open _ _ _ _ _ Hs) as [_ ->]; [done|]. split; [done|]. left.
    rewrite !count_insert, Ht. cbn. lia.
  - injection Hs as <-. cbn. rewrite !count_remove, Ht, len_app. cbn. split; [done|]. left.
    change (len [k]) with 1. lia.
  - rewrite (closeIdleConnections_swept now cl ths Hinv) in Hs. injection Hs as <-. cbn.
    split; [done|]. left. pose proof (filter_len (expired now cl) (idleConns cl)).
    pose proof (len_nonneg _ (filter (expired now cl) (idleConns cl))). lia.
Qed.

Lemma counts_nonneg ths : 0 <= count counted ths /\ 0 <= count connecting ths.
Proof. split; apply count_nonneg; by intros []. Qed.

(** [C26] The limit of a client is exceeded only by the goroutines that establish a
    connection at the same time: when at most [n] do in any state of a run, the pool
    never has more than [MaxConnections + n - 1] connections, established or not, and
    the counter is exact and never negative.  So when connections are established one
    at a time, the limit holds. *)
Theorem http_pool_bound `{GoUnicode} now cfg n cl0 cl ths :
  NewClient now cfg = Ret cl0 -> 1 <= n -> 1 <= MaxConnections (default_cfg cfg) ->
  MaxConnections (default_cfg cfg) + n <= 2 ^ 31 ->
  rtc (bounded_step n) (cl0, ∅) (cl, ths) ->
  0 <= len (idleConns cl) + count counted ths + count connecting ths
    <= MaxConnections (default_cfg cfg) + n - 1
  /\ nbConns cl = len (idleConns cl) + count counted ths.
Proof.
  intros Hnew Hn Hmax Hw Hrun. apply NewClient_initial in Hnew as (Hi0 & Hcfg & Hidle).
  assert (pool_inv cl ths /\ Cfg cl = default_cfg cfg
          /\ total (cl, ths) <= MaxConnections (default_cfg cfg) + n - 1) as (Hinv & _ & Ht).
  { assert (total (cl0, ∅) <= MaxConnections (default_cfg cfg) + n - 1) as Ht0
      by (unfold total; cbn [fst snd]; rewrite Hidle, !count_empty, len_nil; lia).
    revert Hi0 Hcfg Ht0. clear Hidle.
    change (pool_inv (cl0, ∅ : gmap nat Phase).1 (cl0, ∅).2 ->
            Cfg (cl0, ∅ : gmap nat Phase).1 = default_cfg cfg ->
            total (cl0, ∅) <= MaxConnections (default_cfg cfg) + n - 1 ->
            pool_inv (cl, ths).1 (cl, ths).2 /\ Cfg (cl, ths).1 = default_cfg cfg
            /\ total (cl, ths) <= MaxConnections (default_cfg cfg) + n - 1).
    induction Hrun as [s|s1 s2 s3 [Hstep Hb] _ IH]; [done|]. intros Hi Hc Ht.
    destruct (total_step s1 s2 Hi Hstep) as [Hc' Hg].
    apply IH; [by apply (pool_inv_step s1)|congruence|].
    destruct Hg as [Hg|(Hlim & Hi' & Hc1 & Hc2)]; [lia|]. unfold total in *.
    unfold below_limit in Hlim. rewrite (inv_count _ _ Hi) in Hlim. rewrite Hi', Hc1. bool_facts.
    pose proof (counts_nonneg s1.2) as [? ?]. pose proof (len_nonneg _ (idleConns s1.1)).
    rewrite i32_small in Hlim by lia. rewrite Hc in Hlim. lia. }
  unfold total in Ht. cbn [fst snd] in Ht. pose proof (counts_nonneg ths) as [? ?]. pose proof (len_nonneg _ (idleConns cl)).
  split; [lia|]. rewrite (inv_count _ _ Hinv). apply i32_small. lia.
Qed.

(** ** Closing idle connections *)

Lemma foldl_min_le l x : foldl Z.min x l <= x.
Proof.
  revert x. induction l as [|y l IH]; intros x; cbn; [lia|]. specialize (IH (Z.min x y)). lia.
Qed.

Lemma foldl_min_elem l x y : y ∈ l -> foldl Z.min x l <= y.
Proof.
  revert x. induction l as [|z l IH]; intros x Hy; [by apply elem_of_nil in Hy|].
  apply elem_of_cons in Hy as [-> | Hy]; cbn; [|by apply IH].
  pose proof (foldl_min_le l (Z.min x z)). lia.
Qed.

Lemma foldl_min_in l x : foldl Z.min x l = x \/ foldl Z.min x l ∈ l.
Proof.
  revert x. induction l as [|y l IH]; intros x; cbn; [by left|].
  destruct (IH (Z.min x y)) as [E|E]; [|right; by apply list_elem_of_further].
  rewrite E. destruct (Z.min_spec x y) as [[_ ->] | [_ ->]]; [by left|right; apply list_elem_of_here].
Qed.

(** What [closeIdleConnections] does in any reachable state: it closes exactly
    the idle connections past their timeout, keeps the others in order, and takes the
    closed ones off the counter; the timer is reset to the first deadline of a kept
    connection, at most one timeout later and never in the past, so that no deadline
    is skipped. *)
Theorem closeIdleConnections_spec now cl ths :
  pool_inv cl ths -> 0 <= IdleConnectionTimeout (Cfg cl) ->
  exists cl', closeIdleConnections now cl = (Ret tt, cl')
    /\ idleConns cl' = filter (fun k => now <= deadline cl k) (idleConns cl)
    /\ (forall k, k ∈ idleConns cl -> deadline cl k < now -> conn_open cl' k = false)
    /\ (forall k, k ∉ idleConns cl \/ now <= deadline cl k -> store cl' !! k = store cl !! k)
    /\ nbConns cl' = i32 (nbConns cl - (len (idleConns cl) - len (idleConns cl')))
    /\ now <= idleConnTimer cl' <= now + IdleConnectionTimeout (Cfg cl)
    /\ (forall k, k ∈ idleConns cl' -> idleConnTimer cl' <= deadline cl k).
Proof.
  intros Hinv HT. exists (swept now cl). split; [by apply (closeIdleConnections_swept now cl ths)|].
  unfold swept. cbn. split_and!.
  - apply list_filter_iff. intros k. unfold expired. lia.
  - intros k Hk Hex. unfold conn_open. cbn. destruct (close_all _ _ !! k) as [cc|] eqn:E; [|done].
    apply close_all_closed in E; [by rewrite E|]. by apply list_elem_of_filter.
  - intros k Hk. apply close_all_lookup. rewrite list_elem_of_filter. unfold expired. intros [? ?].
    destruct Hk; [done|lia].
  - f_equal. pose proof (filter_len (expired now cl) (idleConns cl)). lia.
  - destruct (foldl_min_in (map (deadline cl) (filter (fun k => ~ expired now cl k) (idleConns cl)))
                (now + IdleConnectionTimeout (Cfg cl))) as [-> | Hin]; [lia|].
    apply list_elem_of_In, in_map_iff in Hin as (k & <- & Hk).
    apply list_elem_of_In, list_elem_of_filter in Hk as [Hk _]. unfold expired in Hk. lia.
  - apply foldl_min_le.
  - intros k Hk. apply foldl_min_elem, list_elem_of_In, in_map, list_elem_of_In. done.
Qed.

(** ** After [Stop]

    A goroutine that still has an open connection when its client is stopped panics
    when it gives it back: the channel is closed. *)
Lemma release_after_Stop_panics w k (cl cl' : Client C) :
  Stop cl = (Ret tt, cl') -> conn_open cl' k = true -> fst (ReleaseConn w k cl') = Panic.
Proof.
  unfold Stop. destruct (stopClosed cl); [done|]. cbn. destruct (releasedClosed cl); [done|].
  intros [= <-] Ho. unfold ReleaseConn, mbind, st_bind, release.
  rewrite Ho. done.
Qed.
End pool.

(** ** Examples *)

(** An upstream server that answers every request with the same response. *)
Definition constant_upstream (res : Response) : Upstream unit := {|
  Request_Write _ c := (Ret tt, c);
  ReadResponse _ c := (Ret res, c);
  Body_Read _ c := c;
  Body_Close _ c := c
|}.

Definition ok_response : Response := mkResponse 200 [] ["hi"%go] None.
Definition one_connection : ClientCfg := mkClientCfg "http"%go "a:80"%go 1 0 0 0.
Definition a_request : Request :=
  mkRequest "GET"%go (mkURL [] [] "/"%go []) "HTTP/1.1"%go 1 1 ∅ "a"%go "1.2.3.4:5"%go false.

Definition fresh_client : Client unit :=
  mkClient (default_cfg one_connection) false 0 [] (600 * Second) false false ∅.

Lemma NewClient_example : NewClient (H := ascii_only) 0 one_connection = Ret fresh_client.
Proof. reflexivity. Qed.

(** The client after one connection, used at the time 5. *)
Definition used_client : Client unit :=
  mkClient (default_cfg one_connection) false 1 [] (600 * Second) false false
    {[ 0%nat := mkConn (Some tt) (Some 5) ]}.
Definition with_idle (cl : Client unit) : Client unit := set_idle [0%nat] cl.

Section examples.
#[local] Instance example_upstream : Upstream unit := constant_upstream ok_response.

Lemma bounded_intro n s s' : pool_step s s' -> (count connecting s'.2 <=? n) = true -> bounded_step n s s'.
Proof. intros Hs Hc. split; [done|]. by apply Z.leb_le. Qed.

(** One goroutine connects and sends its request. *)
Lemma example_run ths :
  ths !! 1%nat = None -> count connecting ths = 0 ->
  rtc (bounded_step 1) (fresh_client, ths) (used_client, <[1%nat := Used 0]> ths).
Proof.
  intros Ht Hc.
  assert (forall ph, (count connecting (<[1%nat := ph]> ths) <=? 1) = true) as Hb.
  { intros ph. rewrite (count_insert connecting ths), Ht, Hc. cbn. destruct ph; done. }
  eapply rtc_l; [apply bounded_intro; [by apply (step_no_idle 1)|apply Hb]|].
  eapply rtc_l; [apply bounded_intro; [apply (step_check 1), lookup_insert_eq|]; rewrite insert_insert_eq; apply Hb|].
  rewrite insert_insert_eq. cbn [below_limit].
  eapply rtc_l; [apply bounded_intro;
    [by eapply (step_connect 1 (fun _ _ _ => Ret tt) 0); [apply lookup_insert_eq|vm_compute]|];
    rewrite insert_insert_eq; apply Hb|]. rewrite insert_insert_eq.
  eapply rtc_l; [apply bounded_intro;
    [by eapply (step_count 1 0); [apply lookup_insert_eq|]|]; rewrite insert_insert_eq; apply Hb|].
  rewrite insert_insert_eq.
  eapply rtc_l; [apply bounded_intro;
    [by eapply (step_send 1 0 5 a_request); [apply lookup_insert_eq|vm_compute]|];
    rewrite insert_insert_eq; apply Hb|].
  rewrite insert_insert_eq. apply rtc_refl.
Qed.

Lemma example_reached : rtc (bounded_step 1) (fresh_client, ∅) (used_client, <[1%nat := Used 0]> ∅).
Proof. by apply example_run. Qed.

Lemma bounded_rtc n s s' : rtc (bounded_step n) s s' -> rtc pool_step s s'.
Proof. intros Hrun. apply (rtc_subrel (bounded_step n)); [|done]. by intros ? ? [? _]. Qed.

(** A goroutine waits although a connection is idle: the connection was released
    between the two tests the goroutine makes, while nothing waited for it.  Nobody
    will give it to the goroutine, which leaves with [ErrNoConnectionAvailable] after
    [ConnectionAcquisitionTimeout]. *)
Lemma idle_connection_missed :
  rtc pool_step (fresh_client, ∅) (with_idle used_client, {[ 2%nat := Waiting ]})
  /\ idleConns (with_idle used_client) = [0%nat].
Proof.
  split; [|done].
  eapply rtc_l; [by apply (step_no_idle 2)|].
  etransitivity; [by apply (bounded_rtc 1), (example_run (<[2%nat := Checking]> ∅))|].
  eapply rtc_l; [eapply (step_keep 1 0 used_client); [done| |by vm_compute]|].
  { intros t'. rewrite !lookup_insert, lookup_empty. by repeat case_decide. }
  eapply rtc_l; [by eapply (step_append 1 0); [apply lookup_insert_eq|]|].
  eapply rtc_l; [by apply (step_check 2)|]. cbn [below_limit].
  apply rtc_refl.
Qed.

Lemma http_pool_exclusive_witness :
  nbConns used_client = i32 (len (idleConns used_client) + count counted (<[1%nat := Used 0]> ∅))
  /\ NoDup (idleConns used_client).
Proof.
  destruct (http_pool_exclusive (H0 := ascii_only) 0 one_connection fresh_client used_client _
              NewClient_example (bounded_rtc _ _ _ example_reached))
    as (_ & _ & Hnd & _ & _ & Hc & _).
  split; [exact Hc | exact Hnd].
Defined.

Lemma http_pool_bound_witness :
  nbConns used_client = len (idleConns used_client) + count counted (<[1%nat := Used 0]> ∅).
Proof.
  destruct (http_pool_bound (H0 := ascii_only) 0 one_connection 1 fresh_client used_client _
              NewClient_example ltac:(lia) ltac:(vm_compute; done) ltac:(vm_compute; done) example_reached)
    as [_ Hc].
  exact Hc.
Defined.

Lemma idle_example_inv : pool_inv (with_idle used_client) ∅.
Proof.
  split; cbn.
  - by_decision.
  - by vm_compute.
  - constructor; [|constructor]. by exists tt, 5.
  - by intros ? ? ?.
Qed.

Lemma closeIdleConnections_spec_witness :
  exists cl', closeIdleConnections (600 * Second + 6) (with_idle used_client) = (Ret tt, cl')
    /\ idleConns cl' = [].
Proof.
  destruct (closeIdleConnections_spec (600 * Second + 6) (with_idle used_client) ∅ idle_example_inv
              ltac:(vm_compute; done)) as (cl' & Hrun & Hidle & _).
  exists cl'. split; [exact Hrun | rewrite Hidle; vm_compute; reflexivity].
Defined.
End examples.
