(* ===== verification/HttpProxy.v ===== *)
(** * The reverse proxy action (pkg/protocols/http/action_reverse_proxy.go)

    The creation of the action and of its clients, and the exchange with the upstream
    server: a connection is acquired, the request sent, the response relayed or the
    connection upgraded, and the connection given back.  The header of the request is
    in [HttpActions]. *)

From stdpp Require Import relations.
From S2P Require Import Prelude GoStrings NetIP HttpHeader NetAddresses FormatString.
From S2P Require Import LoadBalancer.
From S2P Require Import HttpContext HttpAuth HttpHandler HttpServer HttpActions HttpClient.

(** ** URIs of the standard library *)

(** [url.validOptionalPort] and [url.splitHostPort], which [Hostname] and [Port] call. *)
Definition validOptionalPort (port : gostring) : bool :=
  match port with
  | [] => true
  | c :: digits => bool_decide (c = ":"%char) && forallb is_digit digits
  end.

Definition url_splitHostPort (hostPort : gostring) : gostring * gostring :=
  let '(host, port) :=
    match LastIndexByte hostPort ":"%char with
    | Some i =>
        if validOptionalPort (drop i hostPort) then (take i hostPort, drop (S i) hostPort)
        else (hostPort, [])
    | None => (hostPort, [])
    end in
  let host :=
    if bool_decide (head host = Some "["%char) && bool_decide (last host = Some "]"%char)
    then drop 1 (take (length host - 1) host) else host in
  (host, port).

(** ** The action *)

Record ReverseProxyActionCfg := mkProxyCfg {
  rp_URI : gostring;
  LoadBalancerName : gostring;
  RequestHeader : list HeaderOp;
  ResponseHeader : list HeaderOp
}.

(** [ReverseProxyAction]; [rp_clients] and [loadBalancer] are used when [rp_client] is
    nil. *)
Record ReverseProxyAction (C : Type) := mkProxy {
  rp_Cfg : ReverseProxyActionCfg;
  rp_uri : URL;
  rp_client : option (Client C);
  loadBalancer : LoadBalancer;
  rp_clients : gmap gostring (Client C)
}.
Arguments mkProxy {C}.
Arguments rp_Cfg {C}.
Arguments rp_uri {C}.
Arguments rp_client {C}.
Arguments loadBalancer {C}.
Arguments rp_clients {C}.

Definition no_url : URL := mkURL [] [] [] [].
Definition no_balancer : LoadBalancer := mkBalancer [] 0.

Section creation.
Context {C : Type} `{GoUnicode}.

(** The URI the action keeps: the scheme and the host have defaults. *)
Definition proxy_uri (uri : URL) : URL :=
  mkURL (if bool_decide (u_Scheme uri = []) then "http"%go else u_Scheme uri)
    (if bool_decide (u_Host uri = []) then "localhost"%go else u_Host uri)
    [] (u_RawQuery uri).

(** The address its client connects to. *)
Definition proxy_address (uri : URL) : gostring :=
  let '(hostname, port) := url_splitHostPort (u_Host uri) in
  let port :=
    if bool_decide (port = []) then
      if bool_decide (ToLower (u_Scheme uri) = "http"%go) then "80"%go else "443"%go
    else port in
  JoinHostPort hostname port.

Definition proxy_client_cfg (scheme address : gostring) : ClientCfg := mkClientCfg scheme address 0 0 0 0.

(** The loop over the servers of the load balancer. *)
Fixpoint create_clients (now : Z) (servers : list LoadBalancerServer) (clients : gmap gostring (Client C))
  : outcome (gmap gostring (Client C)) :=
  match servers with
  | [] => Ret clients
  | srv :: servers' =>
      let address := HostAddress_String (lbs_Address srv) in
      client ← wrap_error "cannot create client"%go (NewClient now (proxy_client_cfg "http"%go address));
      create_clients now servers' (<[address := client]> clients)
  end.

(** [NewReverseProxyAction]; [parse] is [url.Parse] and [lbs] the load balancers of the
    server. *)
Definition NewReverseProxyAction (parse : gostring -> outcome URL) (lbs : gmap gostring LoadBalancer)
  (now : Z) (cfg : ReverseProxyActionCfg) : outcome (ReverseProxyAction C) :=
  if bool_decide (rp_URI cfg <> []) then
    uri ← wrap_error "cannot parse URI"%go (parse (rp_URI cfg));
    let uri := proxy_uri uri in
    client ← wrap_error "cannot create client"%go
      (NewClient now (proxy_client_cfg (u_Scheme uri) (proxy_address uri)));
    Ret (mkProxy cfg uri (Some client) no_balancer ∅)
  else
    match lbs !! LoadBalancerName cfg with
    | None => Throw (Errorf "unknown load balancer"%go)
    | Some lb =>
        clients ← create_clients now (Servers lb) ∅;
        Ret (mkProxy cfg no_url None lb clients)
    end.

(** [ReverseProxyAction.Stop]; [order] is the order of a range over the clients. *)
Fixpoint stop_clients (order : list gostring) (clients : gmap gostring (Client C))
  : outcome unit * gmap gostring (Client C) :=
  match order with
  | [] => (Ret tt, clients)
  | addr :: order' =>
      match clients !! addr with
      | None => (Panic, clients)
      | Some client =>
          let '(r, client) := Stop client in
          match r with
          | Ret _ => stop_clients order' (<[addr := client]> clients)
          | _ => (r, <[addr := client]> clients)
          end
      end
  end.

Definition ReverseProxyAction_Stop (order : list gostring) : ST (ReverseProxyAction C) unit := fun a =>
  match rp_client a with
  | Some client =>
      let '(r, client) := Stop client in
      (r, mkProxy (rp_Cfg a) (rp_uri a) (Some client) (loadBalancer a) (rp_clients a))
  | None =>
      let '(r, clients) := stop_clients order (rp_clients a) in
      (r, mkProxy (rp_Cfg a) (rp_uri a) None (loadBalancer a) clients)
  end.
End creation.

(** ** Requests *)

(** What [Hijack] gives: the connection of the client, what its buffered reader holds,
    and [Writer.Buffered()]. *)
Record HijackedConn (N : Type) := mkHijacked {
  hj_conn : N; hj_reader : gostring; hj_writer_Buffered : Z
}.
Arguments mkHijacked {N}.
Arguments hj_conn {N}.
Arguments hj_reader {N}.
Arguments hj_writer_Buffered {N}.

(** [ResponseWriter.Hijack] and the [io.CopyN] to an upstream connection. *)
Class Hijacker (W N C : Type) := {
  w_Hijack : W -> outcome (HijackedConn N) * W;
  io_CopyN : C -> HijackedConn N -> Z -> outcome unit * C
}.

(** [TCPConnection]: its two ends; the upstream one is the [net.Conn] of a connection of
    the client, which has that key in the store. *)
Record TCPConnection (N : Type) := mkTCP { tc_conn : N; tc_upstreamConn : nat }.
Arguments mkTCP {N}.
Arguments tc_conn {N}.
Arguments tc_upstreamConn {N}.

(** What [HandleRequest] reaches: the context, the action, and of the protocol the TCP
    connections it registers, the number of connections, and those it closes. *)
Record ProxyState (W A N C : Type) := mkPS {
  ps_ctx : RequestContext W A;
  ps_action : ReverseProxyAction C;
  ps_relays : list (TCPConnection N);
  ps_nbConnections : Z;
  ps_closed : list N
}.
Arguments mkPS {W A N C}.
Arguments ps_ctx {W A N C}.
Arguments ps_action {W A N C}.
Arguments ps_relays {W A N C}.
Arguments ps_nbConnections {W A N C}.
Arguments ps_closed {W A N C}.

(** What a request meets: the dialer, what the [select] of [AcquireConn] takes, the time
    of the request, and whether a goroutine waits when the connection is released. *)
Record Encounter (C : Type) := mkEncounter {
  e_dialer : bool -> Z -> gostring -> outcome C;
  e_selected : Selected;
  e_now : Z;
  e_waiter : bool
}.
Arguments mkEncounter {C}.
Arguments e_dialer {C}.
Arguments e_selected {C}.
Arguments e_now {C}.
Arguments e_waiter {C}.

Section request.
Context {W A N C : Type} `{HttpWriter W, !Hijacker W N C, !Upstream C, GoUnicode, GoText}.
Let PS := ProxyState W A N C.
Let M := ST PS.

Definition with_ctx {B} (m : ST (RequestContext W A) B) : M B :=
  zoom ps_ctx (fun c s => mkPS c (ps_action s) (ps_relays s) (ps_nbConnections s) (ps_closed s)) m.

Definition set_action (a : ReverseProxyAction C) (s : PS) : PS :=
  mkPS (ps_ctx s) a (ps_relays s) (ps_nbConnections s) (ps_closed s).

(** The client a request uses: the only one, or that of a server of the load balancer. *)
Definition client_of (key : option gostring) (a : ReverseProxyAction C) : option (Client C) :=
  match key with None => rp_client a | Some address => rp_clients a !! address end.

Definition set_client_of (key : option gostring) (cl : Client C) (a : ReverseProxyAction C)
  : ReverseProxyAction C :=
  match key with
  | None => mkProxy (rp_Cfg a) (rp_uri a) (Some cl) (loadBalancer a) (rp_clients a)
  | Some address => mkProxy (rp_Cfg a) (rp_uri a) (rp_client a) (loadBalancer a) (<[address := cl]> (rp_clients a))
  end.

(** A method of the client; a nil client panics. *)
Definition with_client {B} (key : option gostring) (m : ST (Client C) B) : M B := fun s =>
  match client_of key (ps_action s) with
  | None => (Panic, s)
  | Some cl => let '(r, cl) := m cl in (r, set_action (set_client_of key cl (ps_action s)) s)
  end.

(** The choice of the upstream server: the client, the scheme and the address; [None]
    when the request has been answered. *)
Definition choose_upstream : M (option (option gostring * gostring * gostring)) := fun s =>
  let a := ps_action s in
  match rp_client a with
  | Some _ => (Ret (Some (None, u_Scheme (rp_uri a), u_Host (rp_uri a))), s)
  | None =>
      let '(r, lb) := LoadBalancer_Address (loadBalancer a) in
      let s := set_action (mkProxy (rp_Cfg a) (rp_uri a) None lb (rp_clients a)) s in
      match r with
      | Ret address =>
          if bool_decide (address = []) then (_ ← with_ctx (ReplyError 503); mret None) s
          else (Ret (Some (Some address, "http"%go, address)), s)
      | Throw e => (Throw e, s)
      | Panic => (Panic, s)
      | OutOfFuel => (OutOfFuel, s)
      end
  end.

(** What reading or closing the body of a response does to its connection. *)
Definition on_body (f : C -> C) (conn : nat) : ST (Client C) unit :=
  modify (fun cl => set_store (alter (fun cc => mkConn (f <$> cc_Conn cc) (cc_lastActivity cc)) conn (store cl)) cl).

(** [io.CopyN(upstreamConn.Conn, remainingClientData, int64(n))] *)
Definition copy_remaining (hj : HijackedConn N) : ST (ClientConn C) unit := fun cc =>
  match cc_Conn cc with
  | None => (Panic, cc)
  | Some c =>
      let '(r, c) := io_CopyN (W := W) c hj (hj_writer_Buffered hj) in (r, mkConn (Some c) (cc_lastActivity cc))
  end.

(** The connection is registered and its two goroutines started. *)
Definition register_relay (conn : nat) (hj : HijackedConn N) : M unit :=
  modify (fun s => mkPS (ps_ctx s) (ps_action s) (ps_relays s ++ [mkTCP (hj_conn hj) conn])
                     (ps_nbConnections s) (ps_closed s)).

(** [conn.Close()] and [nbConnections.Add(-1)] *)
Definition close_hijacked (hj : HijackedConn N) : M unit :=
  modify (fun s => mkPS (ps_ctx s) (ps_action s) (ps_relays s) (i64 (ps_nbConnections s + -1))
                     (ps_closed s ++ [hj_conn hj])).

(** [ctx.ResponseWriter.Hijack()] *)
Definition hijack_writer : ST (RequestContext W A) (HijackedConn N) := fun ctx =>
  let rw := Ctx_ResponseWriter ctx in
  let '(r, w) := w_Hijack (C := C) (rw_w rw) in
  (r, set_writer (mkWriter (Status rw) (BodySize rw) w) ctx).

(** [hijackConnection] *)
Definition hijackConnection (key : option gostring) (conn : nat) : M unit :=
  hj ← with_ctx hijack_writer;
  if 0 <? hj_writer_Buffered hj then
    r ← attempt (with_client key (on_conn (Some conn) (copy_remaining hj)) : M unit);
    match r with
    | inl e =>
        _ ← close_hijacked hj;
        throw (Wrapf "cannot copy data to upstream connection"%go e)
    | inr _ => register_relay conn hj
    end
  else register_relay conn hj.

(** The response: its header and its status, then the upgrade or the body.  The result
    is the variable [hijack]. *)
Definition relay_response (key : option gostring) (conn : nat) (res : Response) : M bool :=
  ctx ← gets ps_ctx;
  ops ← gets (fun s => ResponseHeader (rp_Cfg (ps_action s)));
  _ ← with_ctx (change_header (initResponseHeader ops ctx (Res_Header res)));
  _ ← with_ctx (Reply (StatusCode res) None);
  ctx ← gets ps_ctx;
  if isConnectionUpgraded ctx (StatusCode res) then
    if len (UpgradeProtocols ctx) =? 0 then mret false
    else
      r ← attempt (hijackConnection key conn);
      mret (match r with inl _ => false | inr _ => true end)
  else
    _ ← with_ctx (copy_body (Res_Body res));
    _ ← with_client key (on_body (Body_Read res) conn);
    mret false.

(** The request on an acquired connection. *)
Definition exchange (e : Encounter C) (key : option gostring) (req : Request) (conn : nat) : M bool :=
  r ← attempt (with_client key (on_conn (Some conn) (SendRequest (e_now e) req)));
  match r with
  | inl _ =>
      _ ← with_ctx (ReplyError 500);
      _ ← with_client key (close_conn conn);
      mret false
  | inr res =>
      deferred (with_client key (on_body (Body_Close res) conn)) (relay_response key conn res)
  end.

(** The first deferred function: the connection is given back, also after a panic. *)
Definition give_back (e : Encounter C) (key : option gostring) (conn : nat) (m : M bool) : M unit := fun s =>
  let release hijack : M unit :=
    with_client key (if hijack : bool then HijackConn else ReleaseConn (e_waiter e) conn) in
  match m s with
  | (Ret hijack, s) => release hijack s
  | (Throw err, s) => deferred (release false) (throw err) s
  | (Panic, s) => deferred (release false) (lift Panic) s
  | (OutOfFuel, s) => (OutOfFuel, s)
  end.

(** [HandleRequest] with the client [key]; a nil connection is called, which panics. *)
Definition serve_upstream (e : Encounter C) (key : option gostring) (scheme address : gostring) : M unit :=
  req ← gets (fun s => upstream_request (RequestHeader (rp_Cfg (ps_action s))) (ps_ctx s) scheme address);
  r ← attempt (with_client key (AcquireConn (e_dialer e) (e_selected e)));
  match r with
  | inl err =>
      with_ctx (ReplyError (if errors_Is err ErrNoConnectionAvailable then 503 else 500))
  | inr None => lift Panic
  | inr (Some conn) => give_back e key conn (exchange e key req conn)
  end.

(** [ReverseProxyAction.HandleRequest] *)
Definition ReverseProxyAction_HandleRequest (e : Encounter C) : M unit :=
  up ← choose_upstream;
  match up with
  | None => mret tt
  | Some (key, scheme, address) => serve_upstream e key scheme address
  end.
End request.

(** ** Every connection is given back *)

Section pool_run.
Context {W A N C : Type} `{HttpWriter W, !Hijacker W N C, !Upstream C, GoUnicode, GoText}.
Let PS := ProxyState W A N C.
Let M := ST PS.

(** The goroutine [tid] of the request among the others, which do not wait for a
    connection. *)
Context (key : option gostring) (tid : nat) (ths : gmap nat Phase) (cl0 : Client C) (a0 : ReverseProxyAction C).
Context (Htid : ths !! tid = None) (Hwait : forall t, ths !! t <> Some Waiting).

Definition place (o : option Phase) : gmap nat Phase := partial_alter (fun _ => o) tid ths.

Lemma place_insert o ph : <[tid := ph]> (place o) = place (Some ph).
Proof. apply partial_alter_partial_alter_eq. Qed.

Lemma place_delete o : delete tid (place o) = place None.
Proof. apply partial_alter_partial_alter_eq. Qed.

Lemma place_lookup o : place o !! tid = o.
Proof. apply lookup_partial_alter_eq. Qed.

Lemma place_none : place None = ths.
Proof using Htid. exact (delete_id ths tid Htid). Qed.

Lemma place_not_waiting o t : o <> Some Waiting -> place o !! t <> Some Waiting.
Proof using Hwait.
  intros Ho. unfold place. destruct (decide (t = tid)) as [-> | Hne].
  - by rewrite lookup_partial_alter_eq.
  - by rewrite lookup_partial_alter_ne.
Qed.

(** The client got where it is by steps of the pool, the goroutine being in the phase
    [o]; it has not been stopped, and the other clients of the action are as they
    were. *)
Definition reached (o : option Phase) (s : PS) : Prop :=
  (exists cl, client_of key (ps_action s) = Some cl /\ releasedClosed cl = false
              /\ rtc pool_step (cl0, ths) (cl, place o))
  /\ (forall key', key' <> key -> client_of key' (ps_action s) = client_of key' a0).

(** Triples: [E] is what holds after an error or a panic; nothing is said of a writer
    that runs out of fuel. *)
Definition triple {B} (P : PS -> Prop) (m : M B) (Q : B -> PS -> Prop) (E : PS -> Prop) : Prop :=
  forall s, P s ->
    match m s with
    | (Ret b, s') => Q b s'
    | (Throw _, s') | (Panic, s') => E s'
    | (OutOfFuel, _) => True
    end.

Lemma triple_bind {B D} P (m : M B) (f : B -> M D) Q R E :
  triple P m Q E -> (forall b, triple (Q b) (f b) R E) -> triple P (m ≫= f) R E.
Proof.
  intros Hm Hf s Hs. specialize (Hm s Hs). unfold mbind, st_bind.
  destruct (m s) as [[b|e| |] s']; try done. by apply Hf.
Qed.

Lemma triple_ret {B} (b : B) (P E : PS -> Prop) : triple P (mret b) (fun _ => P) E.
Proof. by intros s Hs. Qed.

Lemma triple_gets {B} (f : PS -> B) P E : triple P (gets f) (fun _ => P) E.
Proof. by intros s Hs. Qed.

Lemma triple_attempt {B} P (m : M B) Q E :
  triple P m Q E -> triple P (attempt m) (fun r => match r with inl _ => E | inr b => Q b end) E.
Proof.
  intros Hm s Hs. specialize (Hm s Hs). unfold attempt. by destruct (m s) as [[b|e| |] s'].
Qed.

Lemma triple_deferred {B} P (f : M unit) (m : M B) R :
  triple P m (fun _ => R) R -> triple R f (fun _ => R) R -> triple P (deferred f m) (fun _ => R) R.
Proof.
  intros Hm Hf s Hs. specialize (Hm s Hs). unfold deferred.
  destruct (m s) as [[b|e| |] s']; try done; specialize (Hf s' Hm); by destruct (f s') as [[]?].
Qed.

Lemma triple_ctx {B} o (m : ST (RequestContext W A) B) :
  triple (reached o) (with_ctx m) (fun _ => reached o) (reached o).
Proof.
  intros s Hs. unfold with_ctx, zoom. destruct (m (ps_ctx s)) as [r c].
  destruct r; exact Hs || done.
Qed.

Lemma client_of_set (cl : Client C) (a : ReverseProxyAction C) : client_of key (set_client_of key cl a) = Some cl.
Proof. destruct key; cbn; [apply lookup_insert_eq|done]. Qed.

Lemma client_of_set_ne key' (cl : Client C) (a : ReverseProxyAction C) :
  key' <> key -> client_of key' (set_client_of key cl a) = client_of key' a.
Proof.
  intros Hne. destruct key as [k|], key' as [k'|]; cbn; try done.
  apply lookup_insert_ne. by intros ->.
Qed.

(** What an operation of the client does to the pool. *)
Definition moves {B} (o : option Phase) (m : ST (Client C) B) (q : B -> option Phase) (e : option Phase)
  : Prop :=
  forall cl, releasedClosed cl = false ->
    match m cl with
    | (Ret b, cl') => releasedClosed cl' = false /\ rtc pool_step (cl, place o) (cl', place (q b))
    | (Throw _, cl') | (Panic, cl') => releasedClosed cl' = false /\ rtc pool_step (cl, place o) (cl', place e)
    | (OutOfFuel, _) => True
    end.

Lemma triple_client {B} o (m : ST (Client C) B) q e :
  moves o m q e -> triple (reached o) (with_client key m) (fun b => reached (q b)) (reached e).
Proof.
  intros Hm s [(cl & Hcl & Hrel & Hrun) Hothers]. specialize (Hm cl Hrel). unfold with_client. rewrite Hcl.
  destruct (m cl) as [r cl']. destruct r; try done; destruct Hm as [Hrel' Hstep];
    (split; [exists cl'; split; [apply client_of_set|split; [done|by etransitivity]]
            |intros key' Hne; cbn; rewrite client_of_set_ne by done; by apply Hothers]).
Qed.

Ltac one := eapply rtc_l.

Lemma moves_acquire dialer :
  (forall tls timeout address, completed (dialer tls timeout address)) ->
  moves None (AcquireConn dialer TimedOut) (fun conn => match conn with Some k => Some (Holding k) | None => None end)
    None.
Proof.
  intros Hd cl Hrel. pose proof place_lookup as Hpl. unfold AcquireConn, mbind, st_bind.
  destruct (take_idle cl) as [r cl1] eqn:Et. assert (r = Ret (head (idleConns cl))) as ->.
  { unfold take_idle in Et. by destruct (idleConns cl); injection Et as <- <-. }
  assert (releasedClosed cl1 = false) as Hrel1.
  { unfold take_idle in Et. by destruct (idleConns cl); injection Et as <-. }
  destruct (head (idleConns cl)) as [k|]; cbn.
  { split; [done|]. one; [by apply (step_idle tid k)|]. rewrite place_insert. apply rtc_refl. }
  pose proof (step_no_idle tid cl cl1 (place None) (Hpl None) Et) as Hs1. rewrite place_insert in Hs1.
  pose proof (step_check tid cl1 (place (Some Checking)) (Hpl _)) as Hs2. rewrite place_insert in Hs2.
  destruct (below_limit cl1); cbn.
  - unfold wrapST. destruct (connect dialer cl1) as [r cl2] eqn:Ec.
    assert (releasedClosed cl2 = false /\ match r with Ret _ | Throw _ => True | _ => False end) as [Hrel2 Hr].
    { unfold connect in Ec. specialize (Hd (c_tls cl1)
        (if ConnectionTimeout (Cfg cl1) =? 0 then 30 * Second else ConnectionTimeout (Cfg cl1))
        (Address (Cfg cl1))). destruct (dialer _ _ _); try done; by injection Ec as <- <-. }
    destruct r as [k|e| |]; cbn; try done.
    + split; [done|]. one; [exact Hs1|]. one; [exact Hs2|].
      one; [by eapply (step_connect tid dialer k), Ec|]. rewrite place_insert.
      one; [by eapply (step_count tid k)|]. rewrite place_insert. apply rtc_refl.
    + split; [done|]. one; [exact Hs1|]. one; [exact Hs2|].
      one; [by eapply (step_connect_error tid dialer e), Ec|]. rewrite place_delete. apply rtc_refl.
  - split; [done|]. one; [exact Hs1|]. one; [exact Hs2|].
    one; [by apply (step_timeout tid)|]. rewrite place_delete. apply rtc_refl.
Qed.

Lemma moves_send now req k :
  moves (Some (Holding k)) (on_conn (Some k) (SendRequest now req)) (fun _ => Some (Used k)) (Some (Used k)).
Proof.
  intros cl Hrel. destruct (on_conn (Some k) (SendRequest now req) cl) as [r cl'] eqn:E.
  assert (releasedClosed cl' = false) as Hrel'.
  { unfold on_conn in E. destruct (store cl !! k); [|by injection E as _ <-].
    destruct (SendRequest _ _ _). by injection E as _ <-. }
  assert (rtc pool_step (cl, place (Some (Holding k))) (cl', place (Some (Used k)))) as Hrun.
  { one; [by eapply (step_send tid k), E; apply place_lookup|]. rewrite place_insert. apply rtc_refl. }
  by destruct r.
Qed.

(** Operations on a used connection that leave it to the goroutine. *)
Lemma moves_body f k : moves (Some (Used k)) (on_body f k) (fun _ => Some (Used k)) (Some (Used k)).
Proof. intros cl Hrel. split; [done|]. apply rtc_once. by apply (step_body tid k), place_lookup. Qed.

Lemma moves_close k : moves (Some (Used k)) (close_conn k) (fun _ => Some (Used k)) (Some (Used k)).
Proof. intros cl Hrel. split; [done|]. apply rtc_once. by eapply (step_close tid k); [apply place_lookup|]. Qed.

Lemma moves_hijack k : moves (Some (Used k)) HijackConn (fun _ => None) None.
Proof.
  intros cl Hrel. split; [done|]. one; [by eapply (step_hijack tid k); [apply place_lookup|]|].
  rewrite place_delete. apply rtc_refl.
Qed.

Lemma moves_release k : moves (Some (Used k)) (ReleaseConn false k) (fun _ => None) None.
Proof using Hwait.
  intros cl Hrel. pose proof (place_lookup (Some (Used k))) as Hpl.
  unfold ReleaseConn, mbind, st_bind. destruct (release false k cl) as [r cl'] eqn:E.
  assert (r = Ret Dropped /\ releasedClosed cl' = false \/ r = Ret Kept /\ cl' = cl) as Hr.
  { unfold release in E. destruct (negb _); [injection E as <- <-; by left|].
    rewrite Hrel in E. injection E as <- <-. by right. }
  destruct Hr as [[-> Hrel'] | [-> ->]]; cbn.
  - split; [done|]. one; [by eapply (step_drop tid k), E|]. rewrite place_delete. apply rtc_refl.
  - split; [done|]. one; [eapply (step_keep tid k), E; [done|by intros t; apply place_not_waiting]|].
    rewrite place_insert. one; [by eapply (step_append tid k); [apply place_lookup|]|].
    rewrite place_delete. apply rtc_refl.
Qed.

Lemma set_store_id (cl : Client C) : set_store (store cl) cl = cl.
Proof. by destruct cl. Qed.

Lemma moves_copy hj k :
  moves (Some (Used k)) (on_conn (Some k) (copy_remaining (W := W) hj)) (fun _ => Some (Used k)) (Some (Used k)).
Proof.
  intros cl Hrel. unfold on_conn, copy_remaining.
  destruct (store cl !! k) as [[[c|] time]|] eqn:E; cbn.
  - destruct (io_CopyN (W := W) c hj (hj_writer_Buffered hj)) as [r c'] eqn:Ec.
    assert (rtc pool_step (cl, place (Some (Used k)))
              (set_store (<[k := mkConn (Some c') time]> (store cl)) cl, place (Some (Used k)))) as Hrun.
    { apply rtc_once.
      pose proof (step_body tid k (fun _ => c') cl _ (place_lookup (Some (Used k)))) as Hs.
      replace (<[k := mkConn (Some c') time]> (store cl)) with
        (alter (fun cc => mkConn ((fun _ => c') <$> cc_Conn cc) (cc_lastActivity cc)) k (store cl)); [exact Hs|].
      apply map_eq. intros k'. destruct (decide (k' = k)) as [-> | Hne].
      - by rewrite lookup_alter_eq, lookup_insert_eq, E.
      - by rewrite lookup_alter_ne, lookup_insert_ne. }
    destruct r; done.
  - rewrite insert_id, set_store_id by done. split; [done|apply rtc_refl].
  - split; [done|apply rtc_refl].
Qed.

(** A change of the protocol. *)
Lemma triple_modify o (f : PS -> PS) :
  (forall s, ps_action (f s) = ps_action s) -> triple (reached o) (modify f) (fun _ => reached o) (reached o).
Proof. intros Hf s Hs. cbn. unfold reached. by rewrite Hf. Qed.

Abbreviation used k := (reached (Some (Used k))).

Lemma triple_hijackConnection k :
  triple (used k) (hijackConnection key k) (fun _ => used k) (used k).
Proof.
  unfold hijackConnection. eapply triple_bind; [apply triple_ctx|]. intros hj. cbn beta.
  assert (triple (used k) (register_relay k hj) (fun _ => used k) (used k)) as Hreg
    by by apply triple_modify.
  destruct (0 <? hj_writer_Buffered hj); [|exact Hreg].
  eapply triple_bind; [apply triple_attempt, triple_client, moves_copy|].
  intros [e|[]]; [|exact Hreg].
  eapply triple_bind; [by apply triple_modify|]. by intros [] s Hs.
Qed.

Lemma triple_relay k res :
  triple (used k) (relay_response key k res) (fun _ => used k) (used k).
Proof.
  unfold relay_response.
  eapply triple_bind; [apply triple_gets|]. intros ctx. cbn beta.
  eapply triple_bind; [apply triple_gets|]. intros ops. cbn beta.
  eapply triple_bind; [apply triple_ctx|]. intros []. cbn beta.
  eapply triple_bind; [apply triple_ctx|]. intros []. cbn beta.
  eapply triple_bind; [apply triple_gets|]. intros ctx'. cbn beta.
  destruct (isConnectionUpgraded ctx' (StatusCode res)).
  - destruct (_ =? 0); [apply triple_ret|].
    eapply triple_bind; [apply triple_attempt, triple_hijackConnection|].
    intros [e|[]]; apply triple_ret.
  - eapply triple_bind; [apply triple_ctx|]. intros []. cbn beta.
    eapply triple_bind; [apply triple_client, moves_body|]. intros []. apply triple_ret.
Qed.

Lemma triple_exchange e req k :
  triple (reached (Some (Holding k))) (exchange e key req k) (fun _ => used k) (used k).
Proof.
  unfold exchange.
  eapply triple_bind; [apply triple_attempt, triple_client, moves_send|]. intros [err|res]; cbn beta iota.
  - eapply triple_bind; [apply triple_ctx|]. intros []. cbn beta.
    eapply triple_bind; [apply triple_client, moves_close|]. intros []. apply triple_ret.
  - apply triple_deferred; [apply triple_relay|apply triple_client, moves_body].
Qed.

Lemma triple_give_back e k m :
  e_waiter e = false -> triple (reached (Some (Holding k))) m (fun _ => used k) (used k) ->
  triple (reached (Some (Holding k))) (give_back e key k m) (fun _ => reached None) (reached None).
Proof using Hwait.
  intros Hw Hm s Hs. specialize (Hm s Hs). unfold give_back. rewrite Hw.
  pose proof (triple_client _ _ _ _ (moves_hijack k)) as Hh.
  pose proof (triple_client _ _ _ _ (moves_release k)) as Hr.
  destruct (m s) as [[[|]|err| |] s']; try done.
  - exact (Hh s' Hm).
  - exact (Hr s' Hm).
  - specialize (Hr s' Hm). unfold deferred, throw. by destruct (with_client key _ s') as [[]?].
  - specialize (Hr s' Hm). unfold deferred, lift. by destruct (with_client key _ s') as [[]?].
Qed.

Lemma triple_serve e scheme address :
  e_selected e = TimedOut -> e_waiter e = false ->
  (forall tls timeout address, completed (e_dialer e tls timeout address)) ->
  triple (reached None) (serve_upstream e key scheme address) (fun _ => reached None) (reached None).
Proof using Hwait.
  intros Hsel Hw Hd. unfold serve_upstream. rewrite Hsel.
  eapply triple_bind; [apply triple_gets|]. intros req. cbn beta.
  eapply triple_bind; [by apply triple_attempt, triple_client, moves_acquire|].
  intros [err|[k|]]; cbn beta iota.
  - apply triple_ctx.
  - apply triple_give_back; [done|apply triple_exchange].
  - by intros s Hs.
Qed.
End pool_run.

Section given_back.
Context {W A N C : Type} `{HttpWriter W, !Hijacker W N C, !Upstream C, GoUnicode, GoText}.
Implicit Type s : ProxyState W A N C.

(** The clients after [choose_upstream] are those before it. *)
Lemma choose_upstream_clients s r s' :
  choose_upstream s = (r, s') ->
  (forall key, client_of key (ps_action s') = client_of key (ps_action s))
  /\ r <> OutOfFuel \/ r = OutOfFuel.
Proof.
  unfold choose_upstream. destruct (rp_client (ps_action s)) eqn:E; [intros [= <- <-]; by left|].
  destruct (LoadBalancer_Address _) as [r0 lb].
  assert (forall key, client_of key (mkProxy (rp_Cfg (ps_action s)) (rp_uri (ps_action s)) None lb
            (rp_clients (ps_action s))) = client_of key (ps_action s)) as Hc by by intros [k|]; cbn.
  destruct r0 as [address|e| |]; [|intros [= <- <-]; by left|intros [= <- <-]; by left|intros [= <- <-]; by right].
  destruct (bool_decide (address = [])); [|intros [= <- <-]; by left].
  unfold mbind, st_bind, with_ctx, zoom, mret, st_ret.
  destruct (ReplyError 503 _) as [r1 c1]. destruct r1; intros [= <- <-]; (by left) || by right.
Qed.

(** [C8] A request takes at most one connection and always gives it back: whatever
    happens (no connection, an error of the upstream server, a panic of a reply, an
    upgrade), what [HandleRequest] does to the client it uses is a run of the steps
    of the pool that ends with the other goroutines as they were and this one holding
    nothing, and the other clients are not touched. *)
Theorem connections_given_back tid ths e s r s' key cl :
  ths !! tid = None -> (forall t, ths !! t <> Some Waiting) ->
  e_selected e = TimedOut -> e_waiter e = false ->
  (forall tls timeout address, completed (e_dialer e tls timeout address)) ->
  (forall k c, client_of k (ps_action s) = Some c -> releasedClosed c = false) ->
  client_of key (ps_action s) = Some cl ->
  ReverseProxyAction_HandleRequest e s = (r, s') -> r <> OutOfFuel ->
  exists cl', client_of key (ps_action s') = Some cl' /\ rtc pool_step (cl, ths) (cl', ths).
Proof.
  intros Ht Hw Hsel Hwait Hd Hrel Hcl Hrun Hr.
  unfold ReverseProxyAction_HandleRequest, mbind, st_bind in Hrun.
  destruct (choose_upstream s) as [r1 s1] eqn:Ec. destruct (choose_upstream_clients _ _ _ Ec) as [[Hc _] | ->];
    [|by injection Hrun as <- <-].
  assert (s1 = s' \/ exists k scheme address, serve_upstream e k scheme address s1 = (r, s')) as [<- | Hs].
  { destruct r1 as [[[[k scheme] address]|]|err| |]; [right; by eexists _, _, _|..];
      left; by injection Hrun as _ <-. }
  { exists cl. rewrite Hc. split; [done|apply rtc_refl]. }
  destruct Hs as (k & scheme & address & Hs). rewrite <- Hc in Hcl.
  destruct (client_of k (ps_action s1)) as [clk|] eqn:Ek.
  - assert (reached k tid ths clk (ps_action s1) None s1) as Hpre.
    { split; [|done]. exists clk. rewrite place_none by done.
      split_and!; [done| |apply rtc_refl]. rewrite Hc in Ek. by apply (Hrel k). }
    pose proof (triple_serve k tid ths clk (ps_action s1) Hw e scheme address Hsel Hwait Hd s1 Hpre) as Htr.
    rewrite Hs in Htr.
    assert (reached k tid ths clk (ps_action s1) None s') as [(cl' & Hcl' & _ & Hsteps) Hothers]
      by by destruct r.
    destruct (decide (key = k)) as [-> | Hne].
    + exists cl'. rewrite place_none in Hsteps by done. split; [done|]. congruence.
    + exists cl. rewrite Hothers by done. split; [done|apply rtc_refl].
  - unfold serve_upstream, attempt, with_client, mbind, st_bind, gets in Hs. rewrite Ek in Hs.
    injection Hs as <- <-. exists cl. split; [done|apply rtc_refl].
Qed.
End given_back.

(** ** What the client receives *)

Section wire.
Context {A N C : Type} `{!Hijacker Wire N C, !Upstream C, GoUnicode, GoText}.
Implicit Type ctx : RequestContext Wire A.
Implicit Type s : ProxyState Wire A N C.

Lemma Reply_None_wire status ctx w' :
  Wire_WriteHeader status (wire ctx) = (Ret tt, w') ->
  exists ctx', Reply status None ctx = (Ret tt, ctx') /\ wire ctx' = w'
    /\ Ctx_Request ctx' = Ctx_Request ctx /\ UpgradeProtocols ctx' = UpgradeProtocols ctx.
Proof.
  intros Hw. unfold Reply, mbind, st_bind, modify, on_writer, zoom, rw_WriteHeader.
  cbn [w_WriteHeader Wire_HttpWriter Ctx_ResponseWriter set_var]. unfold wire in *. rewrite Hw.
  by eexists.
Qed.

(** The connection of the store after the exchange. *)
Lemma on_body_alter f k (cl : Client C) :
  on_body f k cl = (Ret tt, set_store (alter (fun cc => mkConn (f <$> cc_Conn cc) (cc_lastActivity cc)) k (store cl)) cl).
Proof. done. Qed.

Lemma with_client_eval {B} key (m : ST (Client C) B) s cl r cl' :
  client_of key (ps_action s) = Some cl -> m cl = (r, cl') ->
  with_client key m s = (r, set_action (set_client_of key cl' (ps_action s)) s).
Proof. intros Hc Hm. unfold with_client. by rewrite Hc, Hm. Qed.

Lemma with_ctx_eval {B} (m : ST (RequestContext Wire A) B) s r c :
  m (ps_ctx s) = (r, c) ->
  with_ctx m s = (r, mkPS c (ps_action s) (ps_relays s) (ps_nbConnections s) (ps_closed s)).
Proof. intros Hm. unfold with_ctx, zoom. by rewrite Hm. Qed.

(** The header of the response to the client. *)
Definition relayed_header s (res : Response) : Header :=
  initResponseHeader (ResponseHeader (rp_Cfg (ps_action s))) (ps_ctx s) (Res_Header res)
    (wire_header (wire (ps_ctx s))).

Lemma rp_Cfg_set key (cl : Client C) a : rp_Cfg (set_client_of key cl a) = rp_Cfg a.
Proof. by destruct key. Qed.

(** The response without an upgrade, when [w'] is the connection after its status. *)
Lemma relay_response_run key k res s cl w' :
  client_of key (ps_action s) = Some cl -> isConnectionUpgraded (ps_ctx s) (StatusCode res) = false ->
  Wire_WriteHeader (StatusCode res)
    (mkWire (relayed_header s res) (wire_informational (wire (ps_ctx s))) (wire_sent (wire (ps_ctx s)))
       (wire_body (wire (ps_ctx s)))) = (Ret tt, w') ->
  exists ctx', wire ctx' = w' /\ forall ctx'', copy_body (Res_Body res) ctx' = (Ret tt, ctx'') ->
  exists s', relay_response key k res s = (Ret false, s') /\ ps_ctx s' = ctx''
    /\ ps_action s' = set_client_of key
         (set_store (alter (fun cc => mkConn (Body_Read res <$> cc_Conn cc) (cc_lastActivity cc)) k (store cl)) cl)
         (ps_action s).
Proof.
  intros Hcl Hup Hw. unfold relay_response.
  set (c1 := (change_header (initResponseHeader (ResponseHeader (rp_Cfg (ps_action s))) (ps_ctx s)
                              (Res_Header res)) (ps_ctx s)).2).
  destruct (Reply_None_wire (StatusCode res) c1 w') as (c2 & Hr & Hw2 & Hreq & _); [exact Hw|].
  exists c2. split; [exact Hw2|]. intros c3 Hcopy.
  eexists. split; [|split].
  - rewrite (st_bind_ret _ _ s (ps_ctx s) s) by done.
    rewrite (st_bind_ret _ _ s (ResponseHeader (rp_Cfg (ps_action s))) s) by done.
    erewrite st_bind_ret by (apply with_ctx_eval; reflexivity). fold c1.
    erewrite st_bind_ret by (apply with_ctx_eval; exact Hr).
    erewrite st_bind_ret by reflexivity. cbn [ps_ctx].
    replace (isConnectionUpgraded c2 (StatusCode res)) with false
      by (rewrite <- Hup; unfold isConnectionUpgraded; by rewrite Hreq).
    erewrite st_bind_ret by (apply with_ctx_eval; exact Hcopy).
    erewrite st_bind_ret by (eapply with_client_eval; [exact Hcl|reflexivity]).
    reflexivity.
  - reflexivity.
  - reflexivity.
Qed.

(** The circumstances of an exchange: the client [key] is chosen and gives the
    connection [k], on which the request is sent and the response [res] read. *)
Record exchange_ok (e : Encounter C) s key s1 (cl1 : Client C) k (c2 : C) res : Prop := {
  ex_upstream : exists scheme address cl c c1 time,
    choose_upstream s = (Ret (Some (key, scheme, address)), s1)
    /\ client_of key (ps_action s1) = Some cl
    /\ AcquireConn (e_dialer e) (e_selected e) cl = (Ret (Some k), cl1)
    /\ store cl1 !! k = Some (mkConn (Some c) time)
    /\ Request_Write (upstream_request (RequestHeader (rp_Cfg (ps_action s1))) (ps_ctx s1) scheme address) c
       = (Ret tt, c1)
    /\ ReadResponse (upstream_request (RequestHeader (rp_Cfg (ps_action s1))) (ps_ctx s1) scheme address) c1
       = (Ret res, c2);
  ex_waiter : e_waiter e = false;
  ex_running : releasedClosed cl1 = false
}.

(** The state when the response [res] has been read, and the client when its body has
    been closed. *)
Definition after_read (e : Encounter C) key (cl1 : Client C) k (c2 : C) s1 : ProxyState Wire A N C :=
  let cl2 := set_store (<[k := mkConn (Some c2) (Some (e_now e))]> (store cl1)) cl1 in
  set_action (set_client_of key cl2 (set_client_of key cl1 (ps_action s1))) s1.

Definition body_closed res k (cl : Client C) : Client C :=
  set_store (alter (fun cc => mkConn (Body_Close res <$> cc_Conn cc) (cc_lastActivity cc)) k (store cl)) cl.

(** The whole request in these circumstances, for what is done with the response. *)
Lemma HandleRequest_relay e s key s1 cl1 k c2 res hijack s4 cl4 :
  exchange_ok e s key s1 cl1 k c2 res ->
  relay_response key k res (after_read e key cl1 k c2 s1) = (Ret hijack, s4) ->
  client_of key (ps_action s4) = Some cl4 ->
  ReverseProxyAction_HandleRequest e s
  = with_client key (if hijack : bool then HijackConn else ReleaseConn (e_waiter e) k)
      (set_action (set_client_of key (body_closed res k cl4) (ps_action s4)) s4).
Proof.
  intros [(scheme & address & cl & c & c1 & time & Hch & Hcl & Hacq & Hk & Hwr & Hrd) _ _] Hrelay Hcl4.
  set (req := upstream_request _ _ scheme address) in Hwr, Hrd.
  set (s2 := set_action (set_client_of key cl1 (ps_action s1)) s1).
  assert (with_client key (on_conn (Some k) (SendRequest (e_now e) req)) s2
          = (Ret res, after_read e key cl1 k c2 s1)) as Hsend.
  { apply (with_client_eval key _ s2 cl1); [apply client_of_set|].
    unfold on_conn, SendRequest. rewrite Hk. cbn [cc_Conn]. rewrite Hwr. cbn [wrap_error].
    by rewrite Hrd. }
  unfold ReverseProxyAction_HandleRequest. rewrite (st_bind_ret _ _ _ _ _ Hch). cbn beta iota zeta.
  unfold serve_upstream. erewrite st_bind_ret by reflexivity. fold req.
  erewrite (st_bind_ret _ _ s1 (inr (Some k)) s2).
  2: { unfold attempt. by rewrite (with_client_eval key _ s1 cl (Ret (Some k)) cl1 Hcl Hacq). }
  cbn beta iota. unfold give_back, exchange.
  erewrite (st_bind_ret _ _ s2 (inr res)) by (unfold attempt; by rewrite Hsend).
  cbn beta iota. unfold deferred. rewrite Hrelay.
  erewrite with_client_eval; [|exact Hcl4|apply on_body_alter]. reflexivity.
Qed.

(** The same, without an upgrade. *)
Lemma HandleRequest_run e s key s1 cl1 k c2 res w' :
  exchange_ok e s key s1 cl1 k c2 res ->
  isConnectionUpgraded (ps_ctx s1) (StatusCode res) = false ->
  Wire_WriteHeader (StatusCode res)
    (mkWire (relayed_header s1 res) (wire_informational (wire (ps_ctx s1))) (wire_sent (wire (ps_ctx s1)))
       (wire_body (wire (ps_ctx s1)))) = (Ret tt, w') ->
  exists ctx', wire ctx' = w' /\ forall ctx'', copy_body (Res_Body res) ctx' = (Ret tt, ctx'') ->
  exists s' cl', ReverseProxyAction_HandleRequest e s = (Ret tt, s') /\ ps_ctx s' = ctx''
    /\ client_of key (ps_action s') = Some cl'
    /\ idleConns cl' = idleConns cl1 ++ [k] /\ nbConns cl' = nbConns cl1
    /\ store cl' !! k = Some (mkConn (Some (Body_Close res (Body_Read res c2))) (Some (e_now e))).
Proof.
  intros Hex Hup Hw. pose proof Hex as [_ Hwait Hrel].
  set (s3 := after_read e key cl1 k c2 s1).
  assert (client_of key (ps_action s3) = Some _) as Hcl3 by apply client_of_set.
  destruct (relay_response_run key k res s3 _ w' Hcl3) as (ctx' & Hw' & Hrun).
  { exact Hup. }
  { unfold relayed_header. cbn [s3 after_read set_action ps_action ps_ctx]. rewrite !rp_Cfg_set. exact Hw. }
  exists ctx'. split; [exact Hw'|]. intros ctx'' Hcopy.
  destruct (Hrun ctx'' Hcopy) as (s4 & Hrelay & Hctx & Hact).
  eexists _, _. split_and!.
  - erewrite (HandleRequest_relay e s key s1 cl1 k c2 res false s4 _ Hex Hrelay)
      by (rewrite Hact; apply client_of_set).
    rewrite Hwait. eapply with_client_eval; [apply client_of_set|].
    unfold ReleaseConn, mbind, st_bind, release, conn_open, body_closed. cbn [store set_store].
    rewrite !lookup_alter_eq, lookup_insert_eq. cbn. rewrite Hrel. reflexivity.
  - exact Hctx.
  - apply client_of_set.
  - reflexivity.
  - reflexivity.
  - cbn. by rewrite !lookup_alter_eq, lookup_insert_eq.
Qed.

Lemma not_upgraded ctx code : code <> 101 -> isConnectionUpgraded ctx code = false.
Proof. intros Hc. unfold isConnectionUpgraded. by rewrite (proj2 (Z.eqb_neq _ _) Hc). Qed.

Lemma Wire_WriteHeader_informational status w :
  wire_sent w = None -> 100 <= status <= 199 -> status <> 101 ->
  Wire_WriteHeader status w
  = (Ret tt, mkWire (wire_header w) (wire_informational w ++ [status]) None (wire_body w)).
Proof.
  intros Hs Hst Hne. unfold Wire_WriteHeader. rewrite Hs, bool_decide_false by (intros n; by apply n).
  replace ((status <? 100) || (999 <? status)) with false
    by (symmetry; apply orb_false_iff; split; apply Z.ltb_ge; lia).
  by replace ((status <=? 199) && negb (status =? 101)) with true
    by (symmetry; apply andb_true_iff; split; [apply Z.leb_le; lia|by apply negb_true_iff, Z.eqb_neq]).
Qed.

(** [C2] A response of the upstream server is relayed: when the request is sent on the
    connection given by the client and a response with a final status is read, the
    client receives that status with the fields of the response added to the header
    and the operations of the configuration applied, and all of the body, if the
    status allows one; the connection then goes to the end of the idle ones, its
    response read to the end and closed. *)
Theorem reverse_proxy_relays e s key s1 cl1 k c2 res :
  exchange_ok e s key s1 cl1 k c2 res -> unsent (ps_ctx s1) -> 200 <= StatusCode res <= 999 ->
  exists s' cl', ReverseProxyAction_HandleRequest e s = (Ret tt, s')
    /\ wire_sent (wire (ps_ctx s')) = Some (StatusCode res, relayed_header s1 res)
    /\ wire_body (wire (ps_ctx s'))
       = wire_body (wire (ps_ctx s1)) ++ (if body_allowed (StatusCode res) then concat (Res_Body res) else [])
    /\ client_of key (ps_action s') = Some cl'
    /\ idleConns cl' = idleConns cl1 ++ [k] /\ nbConns cl' = nbConns cl1
    /\ store cl' !! k = Some (mkConn (Some (Body_Close res (Body_Read res c2))) (Some (e_now e))).
Proof.
  intros Hex Hu Hst.
  destruct (HandleRequest_run e s key s1 cl1 k c2 res _ Hex (not_upgraded (ps_ctx s1) (StatusCode res) ltac:(lia))
              (Wire_WriteHeader_final (StatusCode res) (mkWire (relayed_header s1 res) (wire_informational (wire (ps_ctx s1))) (wire_sent (wire (ps_ctx s1))) (wire_body (wire (ps_ctx s1)))) Hu (or_intror Hst))) as (ctx' & Hw & Hrun).
  destruct (copy_body_wire (Res_Body res) ctx' (StatusCode res) (relayed_header s1 res))
    as (ctx'' & Hc & Hw' & _); [by rewrite Hw|].
  destruct (Hrun ctx'' Hc) as (s' & cl' & Hr & Hctx & Hrest).
  exists s', cl'. rewrite Hctx, Hw', Hw. cbn. split_and!; try done; apply Hrest.
Qed.

(** An informational response is taken for the response: when the upstream server
    sends one first (a [100 Continue] for a request with an [Expect] field, which is
    forwarded), the client gets it and the handler ends without a final status, while
    the final response stays to be read on a connection that is given back as idle. *)
Theorem reverse_proxy_informational e s key s1 cl1 k c2 res :
  exchange_ok e s key s1 cl1 k c2 res -> unsent (ps_ctx s1) ->
  100 <= StatusCode res <= 199 -> StatusCode res <> 101 -> Res_Body res = [] ->
  exists s' cl', ReverseProxyAction_HandleRequest e s = (Ret tt, s')
    /\ unsent (ps_ctx s')
    /\ wire_informational (wire (ps_ctx s')) = wire_informational (wire (ps_ctx s1)) ++ [StatusCode res]
    /\ client_of key (ps_action s') = Some cl' /\ idleConns cl' = idleConns cl1 ++ [k]
    /\ store cl' !! k = Some (mkConn (Some (Body_Close res (Body_Read res c2))) (Some (e_now e))).
Proof.
  intros Hex Hu Hst Hne Hb.
  destruct (HandleRequest_run e s key s1 cl1 k c2 res _ Hex (not_upgraded (ps_ctx s1) (StatusCode res) Hne)
    (Wire_WriteHeader_informational (StatusCode res) (mkWire (relayed_header s1 res)
       (wire_informational (wire (ps_ctx s1))) (wire_sent (wire (ps_ctx s1))) (wire_body (wire (ps_ctx s1))))
       Hu Hst Hne)) as (ctx' & Hw & Hrun).
  rewrite Hb in Hrun. destruct (Hrun ctx' eq_refl) as (s' & cl' & Hr & Hctx & Hcl & Hi & _ & Hk).
  exists s', cl'. unfold unsent. rewrite Hctx, Hw. by split_and!.
Qed.

(** The choice of a server only changes the load balancer: the next server to try. *)
Lemma choose_upstream_chosen s up s1 :
  choose_upstream s = (Ret (Some up), s1) ->
  ps_ctx s1 = ps_ctx s /\ rp_Cfg (ps_action s1) = rp_Cfg (ps_action s)
  /\ rp_clients (ps_action s1) = rp_clients (ps_action s).
Proof.
  unfold choose_upstream. destruct (rp_client (ps_action s)); [by intros [= _ <-]|].
  destruct (LoadBalancer_Address _) as [[address|e| |] lb]; try done.
  case_bool_decide; [|by intros [= _ <-]].
  unfold mbind, st_bind, with_ctx, zoom. by destruct (ReplyError 503 _) as [[[]|e| |] c].
Qed.

(** What the acquisition and the request start from: the client chosen, in the state after
    the choice. *)
Record chosen s s1 key scheme address cl : Prop := {
  ch_choice : choose_upstream s = (Ret (Some (key, scheme, address)), s1);
  ch_client : client_of key (ps_action s1) = Some cl
}.

Lemma chosen_unsent s s1 key scheme address cl :
  chosen s s1 key scheme address cl -> unsent (ps_ctx s) -> unsent (ps_ctx s1).
Proof. intros [Hc _] Hu. by destruct (choose_upstream_chosen _ _ _ Hc) as [-> _]. Qed.

(** No connection can be acquired. *)
Lemma acquire_failed e s s1 key scheme address cl cl1 err :
  unsent (ps_ctx s) -> chosen s s1 key scheme address cl ->
  AcquireConn (e_dialer e) (e_selected e) cl = (Throw err, cl1) ->
  exists s', ReverseProxyAction_HandleRequest e s = (Ret tt, s')
    /\ option_map fst (wire_sent (wire (ps_ctx s'))) = Some (if errors_Is err ErrNoConnectionAvailable then 503 else 500)
    /\ client_of key (ps_action s') = Some cl1.
Proof.
  intros Hu Hch Hacq. pose proof (chosen_unsent _ _ _ _ _ _ Hch Hu) as Hu1. destruct Hch as [Hch Hcl].
  unfold ReverseProxyAction_HandleRequest.
  rewrite (st_bind_ret _ _ _ _ _ Hch). cbn beta iota zeta. unfold serve_upstream.
  erewrite st_bind_ret by reflexivity.
  erewrite st_bind_ret.
  2: { unfold attempt. by rewrite (with_client_eval key _ s1 cl _ cl1 Hcl Hacq). }
  cbn beta iota. set (st := if errors_Is err ErrNoConnectionAvailable then 503 else 500).
  destruct (ReplyError2_sends st (Itoa st ++ " "%go ++ StatusText st) (ps_ctx s1) Hu1) as (c & Hr & Hs).
  { right. subst st. by destruct (errors_Is _ _). }
  unfold ReplyError. erewrite with_ctx_eval by (exact Hr). eexists. split; [reflexivity|].
  split; [by cbn; rewrite Hs|]. cbn. apply client_of_set.
Qed.

(** A request that fails on its connection. *)
Lemma send_failed e s s1 key scheme address cl cl1 cl2 k err :
  unsent (ps_ctx s) -> chosen s s1 key scheme address cl ->
  AcquireConn (e_dialer e) (e_selected e) cl = (Ret (Some k), cl1) ->
  on_conn (Some k)
    (SendRequest (e_now e) (upstream_request (RequestHeader (rp_Cfg (ps_action s))) (ps_ctx s) scheme address))
    cl1 = (Throw err, cl2) ->
  exists s' cl', ReverseProxyAction_HandleRequest e s = (Ret tt, s')
    /\ option_map fst (wire_sent (wire (ps_ctx s'))) = Some 500
    /\ client_of key (ps_action s') = Some cl'
    /\ conn_open cl' k = false /\ idleConns cl' = idleConns cl2 /\ nbConns cl' = i32 (nbConns cl2 + -1).
Proof.
  intros Hu Hch Hacq Hsend. pose proof (chosen_unsent _ _ _ _ _ _ Hch Hu) as Hu1. destruct Hch as [Hch Hcl].
  destruct (choose_upstream_chosen _ _ _ Hch) as (Hctx & Hcfg & _). rewrite <- Hctx, <- Hcfg in Hsend.
  unfold ReverseProxyAction_HandleRequest.
  rewrite (st_bind_ret _ _ _ _ _ Hch). cbn beta iota zeta. unfold serve_upstream.
  erewrite st_bind_ret by reflexivity.
  erewrite (st_bind_ret _ _ s1 (inr (Some k))).
  2: { unfold attempt. by rewrite (with_client_eval key _ s1 cl _ cl1 Hcl Hacq). }
  cbn beta iota. unfold give_back, exchange.
  erewrite (st_bind_ret _ _ _ (inl err)).
  2: { unfold attempt. by erewrite with_client_eval by (apply client_of_set || exact Hsend). }
  cbn beta iota.
  destruct (ReplyError2_sends 500 (Itoa 500 ++ " "%go ++ StatusText 500) (ps_ctx s1) Hu1) as (c & Hr & Hs);
    [right; lia|].
  erewrite st_bind_ret by (apply with_ctx_eval; exact Hr).
  erewrite st_bind_ret by (eapply with_client_eval; [apply client_of_set|reflexivity]).
  unfold mret, st_ret.
  assert (conn_open (set_store (alter ClientConn_Close k (store cl2)) cl2) k = false) as Hopen.
  { unfold conn_open. cbn. rewrite lookup_alter_eq. by destruct (store cl2 !! k). }
  eexists _, _. split; [|split; [|split; [|split]]].
  - eapply with_client_eval; [apply client_of_set|].
    unfold ReleaseConn, mbind, st_bind, release. by rewrite Hopen.
  - cbn. by rewrite Hs.
  - apply client_of_set.
  - exact Hopen.
  - done.
Qed.

(** [C23] The requests that get no response from upstream, with a single server or a load
    balancer of any number of servers, whose choice may move to the next one.  With no
    healthy server the status is 503, without touching any client; when no connection of
    the client chosen is available the status is 503 after the acquisition timeout, and 500
    when the connection cannot be established or the client stops; when the request fails
    on its connection the status is 500 and the connection is closed and leaves the count. *)
Theorem reverse_proxy_errors e s :
  unsent (ps_ctx s) ->
  (rp_client (ps_action s) = None -> fst (LoadBalancer_Address (loadBalancer (ps_action s))) = Ret [] ->
     exists s', ReverseProxyAction_HandleRequest e s = (Ret tt, s')
       /\ option_map fst (wire_sent (wire (ps_ctx s'))) = Some 503
       /\ rp_clients (ps_action s') = rp_clients (ps_action s))
  /\ (forall s1 key scheme address cl cl1 err,
     choose_upstream s = (Ret (Some (key, scheme, address)), s1) ->
     client_of key (ps_action s1) = Some cl ->
     AcquireConn (e_dialer e) (e_selected e) cl = (Throw err, cl1) ->
     exists s', ReverseProxyAction_HandleRequest e s = (Ret tt, s')
       /\ option_map fst (wire_sent (wire (ps_ctx s')))
          = Some (if errors_Is err ErrNoConnectionAvailable then 503 else 500)
       /\ client_of key (ps_action s') = Some cl1)
  /\ (forall s1 key scheme address cl cl1 cl2 k err,
     choose_upstream s = (Ret (Some (key, scheme, address)), s1) ->
     client_of key (ps_action s1) = Some cl ->
     AcquireConn (e_dialer e) (e_selected e) cl = (Ret (Some k), cl1) ->
     on_conn (Some k)
       (SendRequest (e_now e) (upstream_request (RequestHeader (rp_Cfg (ps_action s))) (ps_ctx s) scheme address))
       cl1 = (Throw err, cl2) ->
     exists s' cl', ReverseProxyAction_HandleRequest e s = (Ret tt, s')
       /\ option_map fst (wire_sent (wire (ps_ctx s'))) = Some 500
       /\ client_of key (ps_action s') = Some cl'
       /\ conn_open cl' k = false /\ idleConns cl' = idleConns cl2 /\ nbConns cl' = i32 (nbConns cl2 + -1)).
Proof.
  intros Hu. split_and!.
  - intros Hc Ha. unfold ReverseProxyAction_HandleRequest, choose_upstream. unfold mbind at 1, st_bind at 1.
    rewrite Hc. destruct (LoadBalancer_Address _) as [r lb]. cbn in Ha. subst r.
    rewrite bool_decide_true by done.
    destruct (ReplyError2_sends 503 (Itoa 503 ++ " "%go ++ StatusText 503) (ps_ctx s) Hu) as (c & Hr & Hs);
      [right; lia|].
    erewrite st_bind_ret by (apply with_ctx_eval; exact Hr). eexists. split; [reflexivity|]. cbn.
    by rewrite Hs.
  - intros s1 key scheme address cl cl1 err Hch Hcl. by eapply acquire_failed.
  - intros s1 key scheme address cl cl1 cl2 k err Hch Hcl. by eapply send_failed.
Qed.

(** The connection of the client when the status 101 has been sent. *)
Definition switched s1 res : Wire :=
  mkWire (relayed_header s1 res) (wire_informational (wire (ps_ctx s1)))
    (Some (101, relayed_header s1 res)) (wire_body (wire (ps_ctx s1))).

(** The beginning of the relay of a 101 response. *)
Lemma relay_response_101 key k res s :
  unsent (ps_ctx s) -> StatusCode res = 101 -> isConnectionUpgraded (ps_ctx s) 101 = true ->
  exists ctx', wire ctx' = switched s res /\ UpgradeProtocols ctx' = UpgradeProtocols (ps_ctx s)
    /\ relay_response key k res s
       = (if len (UpgradeProtocols ctx') =? 0 then mret false
          else r ← attempt (hijackConnection key k);
               mret (match r with inl _ => false | inr _ => true end))
           (mkPS ctx' (ps_action s) (ps_relays s) (ps_nbConnections s) (ps_closed s)).
Proof.
  intros Hu Hst Hup. unfold relay_response. rewrite Hst.
  set (c1 := (change_header (initResponseHeader (ResponseHeader (rp_Cfg (ps_action s))) (ps_ctx s)
                              (Res_Header res)) (ps_ctx s)).2).
  destruct (Reply_None_wire 101 c1 (switched s res)) as (c2 & Hr & Hw2 & Hreq & Hup2).
  { apply (Wire_WriteHeader_final 101); [exact Hu|by left]. }
  exists c2. split; [exact Hw2|]. split; [exact Hup2|].
  rewrite (st_bind_ret _ _ s (ps_ctx s) s) by done.
  rewrite (st_bind_ret _ _ s (ResponseHeader (rp_Cfg (ps_action s))) s) by done.
  erewrite st_bind_ret by (apply with_ctx_eval; reflexivity). fold c1.
  erewrite st_bind_ret by (apply with_ctx_eval; exact Hr).
  erewrite st_bind_ret by reflexivity. cbn [ps_ctx].
  replace (isConnectionUpgraded c2 101) with true
    by (rewrite <- Hup; unfold isConnectionUpgraded; by rewrite Hreq).
  reflexivity.
Qed.

Lemma hijack_run key k s h w :
  w_Hijack (C := C) (wire (ps_ctx s)) = (h, w) -> completed h ->
  (forall hj, h = Ret hj -> hj_writer_Buffered hj = 0) ->
  exists ctx', attempt (hijackConnection key k) s
    = (Ret (match h with Throw err => inl err | _ => inr tt end),
       mkPS ctx' (ps_action s)
         (ps_relays s ++ match h with Ret hj => [mkTCP (hj_conn hj) k] | _ => [] end)
         (ps_nbConnections s) (ps_closed s)).
Proof.
  intros Hh Hc Hb. unfold attempt, hijackConnection, mbind, st_bind, with_ctx, zoom, hijack_writer.
  unfold wire in Hh. rewrite Hh. destruct h as [hj|err| |]; try done; eexists.
  - cbn beta iota. rewrite (Hb hj eq_refl). reflexivity.
  - by rewrite app_nil_r.
Qed.

(** Giving the connection back after the response. *)
Lemma release_open_run (e : Encounter C) k (cl cl1 : Client C) c2 res :
  e_waiter e = false -> releasedClosed cl1 = false ->
  cl = set_store (<[k := mkConn (Some c2) (Some (e_now e))]> (store cl1)) cl1 ->
  ReleaseConn (e_waiter e) k (body_closed res k cl)
  = (Ret tt, set_idle (idleConns cl1 ++ [k]) (body_closed res k cl)).
Proof.
  intros -> Hrel ->. unfold ReleaseConn, mbind, st_bind, release, conn_open, body_closed. cbn [store set_store].
  rewrite !lookup_alter_eq, lookup_insert_eq. cbn. by rewrite Hrel.
Qed.

(** [C29] A response 101 to a request that asked for an upgrade.  When the connection of
    the client can be hijacked, the two connections are registered as the ends of a
    relay and the upstream one leaves the pool; what the client sent in advance, which
    the buffered reader of the hijacked connection holds, is not forwarded.  When the
    connection cannot be hijacked, or the request named no protocol, the status 101 has
    been sent already and the upstream connection, which does not speak HTTP any more,
    is given back as idle. *)
Theorem reverse_proxy_upgrade e s key s1 cl1 k c2 res h w :
  exchange_ok e s key s1 cl1 k c2 res -> unsent (ps_ctx s1) ->
  StatusCode res = 101 -> isConnectionUpgraded (ps_ctx s1) 101 = true ->
  w_Hijack (C := C) (switched s1 res) = (h, w) -> completed h ->
  (forall hj, h = Ret hj -> hj_writer_Buffered hj = 0) ->
  exists s' cl', ReverseProxyAction_HandleRequest e s = (Ret tt, s')
    /\ client_of key (ps_action s') = Some cl'
    /\ store cl' !! k = Some (mkConn (Some (Body_Close res c2)) (Some (e_now e)))
    /\ match h with
       | Ret hj =>
           if bool_decide (UpgradeProtocols (ps_ctx s1) = []) then
             ps_relays s' = ps_relays s1 /\ idleConns cl' = idleConns cl1 ++ [k]
           else
             ps_relays s' = ps_relays s1 ++ [mkTCP (hj_conn hj) k]
             /\ idleConns cl' = idleConns cl1 /\ nbConns cl' = i32 (nbConns cl1 + -1)
       | _ => ps_relays s' = ps_relays s1 /\ idleConns cl' = idleConns cl1 ++ [k]
       end.
Proof.
  intros Hex Hu Hst Hup Hh Hc Hb. pose proof Hex as [_ Hwait Hrel].
  set (s3 := after_read e key cl1 k c2 s1).
  destruct (relay_response_101 key k res s3 Hu Hst Hup) as (ctx' & Hw & Hups & Hrelay).
  set (s4 := mkPS ctx' (ps_action s3) (ps_relays s3) (ps_nbConnections s3) (ps_closed s3)) in Hrelay.
  assert (switched s3 res = switched s1 res) as Hsw.
  { unfold switched, relayed_header. cbn. by rewrite !rp_Cfg_set. }
  rewrite Hsw in Hw. change (UpgradeProtocols (ps_ctx s3)) with (UpgradeProtocols (ps_ctx s1)) in Hups.
  rewrite Hups in Hrelay. rewrite <- Hw in Hh.
  destruct (hijack_run key k s4 h w Hh Hc Hb) as (ctx'' & Hhj).
  assert (exists b s5, relay_response key k res s3 = (Ret b, s5) /\ ps_action s5 = ps_action s3
    /\ match h with
       | Ret hj => if bool_decide (UpgradeProtocols (ps_ctx s1) = []) then b = false /\ ps_relays s5 = ps_relays s1
                   else b = true /\ ps_relays s5 = ps_relays s1 ++ [mkTCP (hj_conn hj) k]
       | _ => b = false /\ ps_relays s5 = ps_relays s1
       end) as (b & s5 & Hr & Hact & Hcase).
  { destruct (UpgradeProtocols (ps_ctx s1)) as [|u us] eqn:Eu.
    - exists false, s4. rewrite Hrelay. split_and!; [done|done|]. by destruct h.
    - rewrite Hrelay. replace (len (u :: us) =? 0) with false
        by (symmetry; apply Z.eqb_neq; rewrite len_cons; pose proof (len_nonneg _ us); lia).
      rewrite (st_bind_ret _ _ _ _ _ Hhj). eexists _, _. split; [reflexivity|]. split; [reflexivity|].
      destruct h; try done; cbn; by rewrite ?app_nil_r. }
  assert (client_of key (ps_action s5) = Some _) as Hcl5 by (rewrite Hact; apply client_of_set).
  rewrite (HandleRequest_relay e s key s1 cl1 k c2 res b s5 _ Hex Hr Hcl5).
  assert (forall cl', store cl' = store (body_closed res k (set_store (<[k := mkConn (Some c2) (Some (e_now e))]> (store cl1)) cl1)) ->
            store cl' !! k = Some (mkConn (Some (Body_Close res c2)) (Some (e_now e)))) as Hstore.
  { intros cl' ->. cbn. by rewrite lookup_alter_eq, lookup_insert_eq. }
  destruct b.
  - destruct h as [hj| | |]; try (by destruct Hcase); try done.
    destruct (bool_decide _); [by destruct Hcase|]. destruct Hcase as [_ Hrel5].
    eexists _, _. split; [eapply with_client_eval; [apply client_of_set|reflexivity]|].
    split; [apply client_of_set|]. split; [by apply Hstore|]. done.
  - eexists _, _. split; [eapply with_client_eval; [apply client_of_set|by apply (release_open_run e k _ cl1 c2)]|].
    split; [apply client_of_set|]. split; [by apply Hstore|].
    destruct h as [hj| | |]; [destruct (bool_decide _)|..]; destruct Hcase; done.
Qed.
End wire.

(** ** The clients of an action *)

Section clients.
Context {C : Type} `{GoUnicode}.

(** Every server the load balancer may choose has its client. *)
Definition action_ok (a : ReverseProxyAction C) : Prop :=
  match rp_client a with
  | Some _ => True
  | None => forall srv, srv ∈ Servers (loadBalancer a) ->
      exists cl, rp_clients a !! HostAddress_String (lbs_Address srv) = Some cl
                 /\ Address (Cfg cl) = HostAddress_String (lbs_Address srv)
  end.

Lemma NewClient_http now address :
  exists cl : Client C, NewClient now (proxy_client_cfg "http"%go address) = Ret cl
    /\ Address (Cfg cl) = address.
Proof.
  unfold NewClient. cbn [Scheme proxy_client_cfg default_cfg].
  rewrite bool_decide_true by reflexivity. by eexists.
Qed.

Lemma create_clients_ok now servers clients :
  (forall address cl, clients !! address = Some cl -> Address (Cfg cl) = address) ->
  exists clients' : gmap gostring (Client C),
    create_clients now servers clients = Ret clients'
    /\ (forall address cl, clients' !! address = Some cl -> Address (Cfg cl) = address)
    /\ (forall address, is_Some (clients !! address) -> is_Some (clients' !! address))
    /\ (forall srv, srv ∈ servers -> is_Some (clients' !! HostAddress_String (lbs_Address srv))).
Proof.
  revert clients. induction servers as [|srv servers IH]; intros clients Hc; cbn [create_clients].
  { exists clients. split_and!; try done. intros srv Hs. by apply elem_of_nil in Hs. }
  destruct (NewClient_http now (HostAddress_String (lbs_Address srv))) as (cl & Hnew & Haddr).
  rewrite Hnew. cbn [wrap_error mbind outcome_bind].
  destruct (IH (<[HostAddress_String (lbs_Address srv) := cl]> clients)) as (clients' & Hr & H1 & H2 & H3).
  { intros address cl'. rewrite lookup_insert_Some. intros [[<- <-]|[_ Hl]]; [done|by apply Hc]. }
  exists clients'. split_and!; try done.
  - intros address Hs. apply H2. by apply lookup_insert_is_Some'; right.
  - intros srv' Hs. apply elem_of_cons in Hs as [-> | Hs]; [|by apply H3].
    apply H2. rewrite lookup_insert_eq. by eexists.
Qed.

Lemma Address_loop_server fuel first lb r lb' :
  Address_loop fuel first lb = (r, lb') ->
  Servers lb' = Servers lb
  /\ (forall address, r = Ret address -> address = [] \/
        exists srv, srv ∈ Servers lb /\ address = HostAddress_String (lbs_Address srv)).
Proof.
  revert lb. induction fuel as [|fuel IH]; intros lb; cbn [Address_loop]; [by intros [= <- <-]|].
  destruct (Servers lb !! nextServerIndex lb) as [srv|] eqn:E; [|by intros [= <- <-]].
  destruct (healthy srv).
  { intros [= <- <-]. split; [done|]. intros address [= <-]. right. exists srv.
    split; [by eapply list_elem_of_lookup_2|done]. }
  destruct (_ =? first)%nat; [intros [= <- <-]; split; [done|intros ? [= <-]; by left]|].
  intros Hr. by apply IH in Hr.
Qed.

(** The action created for a configuration has a client for every request: for the
    single server of a URI, or for every server of the load balancer, whichever the
    rotation chooses, and choosing keeps it so.  No request calls a nil client. *)
Theorem upstream_client_exists {W A N} `{HttpWriter W, GoText} parse lbs now cfg a ctx relays nb closed :
  NewReverseProxyAction parse lbs now cfg = Ret a ->
  action_ok a
  /\ forall a' r s', action_ok a' ->
     choose_upstream (W := W) (A := A) (N := N) (mkPS ctx a' relays nb closed) = (r, s') ->
     action_ok (ps_action s')
     /\ (forall key scheme address, r = Ret (Some (key, scheme, address)) ->
         exists cl, client_of key (ps_action s') = Some cl).
Proof.
  intros Hnew. split.
  - unfold NewReverseProxyAction in Hnew. destruct (bool_decide _).
    + unfold mbind, outcome_bind in Hnew.
      destruct (wrap_error _ (parse _)) as [uri|e| |]; try done.
      destruct (wrap_error _ (NewClient _ _)) as [client|e| |]; try done. by injection Hnew as <-.
    + destruct (lbs !! _) as [lb|]; [|done].
      destruct (create_clients_ok now (Servers lb) ∅) as (clients & Hr & H1' & _ & H3); [done|].
      rewrite Hr in Hnew. injection Hnew as <-. unfold action_ok. cbn. intros srv Hs.
      destruct (H3 srv Hs) as [cl Hcl]. exists cl. split; [done|]. by apply H1'.
  - intros a' r s' Hok Hch. unfold choose_upstream, action_ok in *.
    cbn [ps_action] in Hch. cbv beta zeta in Hch.
    destruct (rp_client a') as [cl|] eqn:E.
    { injection Hch as <- <-. cbn. rewrite E. split; [done|]. intros ? ? ? [= <- _ _].
      exists cl. by cbn. }
    destruct (LoadBalancer_Address (loadBalancer a')) as [r0 lb] eqn:Ea.
    apply Address_loop_server in Ea as [Hs Ha].
    destruct r0 as [address|err| |]; cbv beta iota zeta in Hch; [|(injection Hch as <- <-; cbn; rewrite Hs; by split)..].
    destruct (bool_decide (address = [])) eqn:Eb; bool_facts.
    + unfold mbind, st_bind, with_ctx, zoom, mret, st_ret in Hch.
      destruct (ReplyError 503 _) as [[]?]; injection Hch as <- <-; cbn; rewrite Hs; by split.
    + injection Hch as <- <-. cbn. rewrite Hs. split; [done|]. intros ? ? ? [= <- _ _].
      destruct (Ha address eq_refl) as [-> |(srv & Hsrv & ->)]; [done|].
      destruct (Hok srv Hsrv) as (cl & Hcl & _). by exists cl.
Qed.
End clients.

(** ** Examples

    An upstream server that answers a request with its path, after a [100 Continue] when
    it has an [Expect] field; the state of a connection is the responses to be read. *)
Section examples.
#[local] Existing Instance ascii_only.

#[local] Instance echo : Upstream (list Response) := {|
  Request_Write req c :=
    (Ret tt, c ++ (if bool_decide (Header_Get (Req_Header req) "Expect"%go = []) then []
                   else [mkResponse 100 [] [] None])
             ++ [mkResponse 200 [("X"%go, ["y"%go])] [u_Path (Req_URL req)] None]);
  ReadResponse _ c := match c with res :: c => (Ret res, c) | [] => (Throw io_EOF, c) end;
  Body_Read _ c := c;
  Body_Close _ c := c
|}.

(** A connection to a client that has sent bytes in advance. *)
#[local] Instance early_client : Hijacker Wire unit (list Response) := {|
  w_Hijack w := (Ret (mkHijacked tt "early"%go 0), w);
  io_CopyN c hj n := (Ret tt, c)
|}.

Definition echo_cfg : ReverseProxyActionCfg := mkProxyCfg "http://a"%go [] [] [].
Definition echo_parse (s : gostring) : outcome URL := Ret (mkURL "http"%go "a"%go [] []).
Definition echo_client : Client (list Response) :=
  mkClient (default_cfg (proxy_client_cfg "http"%go "a:80"%go)) false 0 [] (600 * Second) false false ∅.
Definition echo_action : ReverseProxyAction (list Response) :=
  mkProxy echo_cfg (mkURL "http"%go "a"%go [] []) (Some echo_client) no_balancer ∅.

Lemma echo_action_created : NewReverseProxyAction echo_parse ∅ 0 echo_cfg = Ret echo_action.
Proof. reflexivity. Qed.

Definition echo_encounter : Encounter (list Response) := mkEncounter (fun _ _ _ => Ret []) TimedOut 1 false.

Definition proxy_context (path : gostring) (hdr : Header) : RequestContext Wire unit :=
  NewRequestContext 0
    (mkRequest "GET"%go (mkURL [] [] path []) "HTTP/1.1"%go 1 1 hdr "a"%go "1.2.3.4:5"%go false) new_wire.

Definition proxy_state (path : gostring) (hdr : Header) (a : ReverseProxyAction (list Response))
  : ProxyState Wire unit unit (list Response) := mkPS (proxy_context path hdr) a [] 0 [].

Definition expect_header : Header := Header_Set ∅ "Expect"%go "100-continue"%go.
Definition upgrade_header : Header :=
  Header_Set (Header_Set ∅ "Connection"%go "upgrade"%go) "Upgrade"%go "ws"%go.

Definition proxied (path : gostring) (hdr : Header) (a : ReverseProxyAction (list Response)) :=
  ReverseProxyAction_HandleRequest echo_encounter (proxy_state path hdr a).

(** After a request with an [Expect] field, the next client gets the response that was
    meant for the first one. *)
Lemma response_of_another_client :
  let first := (proxied "/a"%go expect_header echo_action).2 in
  let second := (proxied "/b"%go ∅ (ps_action first)).2 in
  wire_sent (wire (ps_ctx first)) = None
  /\ option_map fst (wire_sent (wire (ps_ctx second))) = Some 200
  /\ wire_body (wire (ps_ctx second)) = "/a"%go.
Proof. vm_compute. by split_and!. Qed.

Definition connected (cs : list Response) : Client (list Response) :=
  set_nb 1 (set_store {[ 0%nat := mkConn (Some cs) None ]} echo_client).

Lemma echo_exchange path hdr cs c2 res :
  Request_Write (upstream_request [] (proxy_context path hdr) "http"%go "a"%go) [] = (Ret tt, cs) ->
  ReadResponse (C := list Response) (upstream_request [] (proxy_context path hdr) "http"%go "a"%go) cs = (Ret res, c2) ->
  exchange_ok echo_encounter (proxy_state path hdr echo_action) None (proxy_state path hdr echo_action)
    (connected []) 0 c2 res.
Proof.
  intros Hw Hr. split; [|done|done].
  exists "http"%go, "a"%go, echo_client, [], cs, None. by split_and!.
Qed.

Lemma reverse_proxy_relays_witness :
  exists s' cl', proxied "/a"%go ∅ echo_action = (Ret tt, s')
    /\ option_map fst (wire_sent (wire (ps_ctx s'))) = Some 200 /\ wire_body (wire (ps_ctx s')) = "/a"%go
    /\ client_of None (ps_action s') = Some cl' /\ idleConns cl' = [0%nat].
Proof.
  assert (exchange_ok echo_encounter (proxy_state "/a"%go ∅ echo_action) None (proxy_state "/a"%go ∅ echo_action)
            (connected []) 0 [] (mkResponse 200 [("X"%go, ["y"%go])] ["/a"%go] None)) as Hex
    by (by eapply echo_exchange).
  destruct (reverse_proxy_relays _ _ _ _ _ _ _ _ Hex ltac:(by vm_compute) ltac:(cbn; lia))
    as (s' & cl' & Hr & Hs & Hb & Hc & Hi & _).
  exists s', cl'. split; [exact Hr|]. split; [rewrite Hs; reflexivity|]. split; [rewrite Hb; reflexivity|].
  split; [exact Hc|exact Hi].
Defined.

Lemma reverse_proxy_informational_witness :
  exists s' cl', proxied "/a"%go expect_header echo_action = (Ret tt, s') /\ unsent (ps_ctx s')
    /\ client_of None (ps_action s') = Some cl' /\ idleConns cl' = [0%nat].
Proof.
  assert (exchange_ok echo_encounter (proxy_state "/a"%go expect_header echo_action) None
            (proxy_state "/a"%go expect_header echo_action) (connected []) 0
            [mkResponse 200 [("X"%go, ["y"%go])] ["/a"%go] None] (mkResponse 100 [] [] None)) as Hex
    by (by eapply echo_exchange).
  destruct (reverse_proxy_informational _ _ _ _ _ _ _ _ Hex ltac:(by vm_compute) ltac:(cbn; lia)
              ltac:(cbn; lia) ltac:(reflexivity)) as (s' & cl' & Hr & Hu & _ & Hc & Hi & _).
  exists s', cl'. split; [exact Hr|]. split; [exact Hu|]. split; [exact Hc|exact Hi].
Defined.

Lemma connections_given_back_witness :
  exists cl', client_of None (ps_action (proxied "/a"%go ∅ echo_action).2) = Some cl'
    /\ rtc pool_step (echo_client, ∅) (cl', ∅).
Proof.
  assert (forall k c, client_of k (ps_action (proxy_state "/a"%go ∅ echo_action)) = Some c ->
            releasedClosed c = false) as Hrel.
  { intros [k|] c; cbn; [by rewrite lookup_empty|by intros [= <-]]. }
  destruct (proxied "/a"%go ∅ echo_action) as [r s'] eqn:E.
  assert (r <> OutOfFuel) as Hr.
  { replace r with (proxied "/a"%go ∅ echo_action).1 by (by rewrite E). vm_compute. discriminate. }
  assert (forall tls timeout address, completed (e_dialer echo_encounter tls timeout address)) as Hd
    by (intros; exact I).
  assert (forall t, (∅ : gmap nat Phase) !! t <> Some Waiting) as Hw
    by (intros t; rewrite lookup_empty; discriminate).
  pose proof (connections_given_back 0 ∅ echo_encounter (proxy_state "/a"%go ∅ echo_action) r s' None echo_client
    (lookup_empty 0%nat) Hw eq_refl eq_refl Hd Hrel eq_refl E Hr) as X.
  exact X.
Defined.

(** A load balancer of two healthy servers, with their clients; the choice of the first one
    moves to the second. *)
Definition balanced_client (address : gostring) : Client (list Response) :=
  mkClient (default_cfg (proxy_client_cfg "http"%go address)) false 0 [] (600 * Second) false false ∅.

Definition balanced_action (next : nat) : ReverseProxyAction (list Response) :=
  mkProxy (mkProxyCfg [] "lb"%go [] []) no_url None
    (mkBalancer [LoadBalancer.mkServer (mkHostAddress "a"%go [] 80) true None;
                 LoadBalancer.mkServer (mkHostAddress "b"%go [] 80) true None] next)
    (<["a:80"%go := balanced_client "a:80"%go]> (<["b:80"%go := balanced_client "b:80"%go]> ∅)).

Lemma reverse_proxy_errors_witness :
  exists s' cl', ReverseProxyAction_HandleRequest
      (mkEncounter (fun _ _ _ => Throw io_EOF) TimedOut 1 false)
      (proxy_state "/a"%go ∅ (balanced_action 0)) = (Ret tt, s')
    /\ option_map fst (wire_sent (wire (ps_ctx s'))) = Some 500
    /\ client_of (Some "a:80"%go) (ps_action s') = Some cl'.
Proof.
  assert (unsent (proxy_context "/a"%go ∅)) as Hu by (vm_compute; reflexivity).
  pose proof (reverse_proxy_errors (mkEncounter (fun _ _ _ => Throw io_EOF) TimedOut 1 false)
                (proxy_state "/a"%go ∅ (balanced_action 0)) Hu) as X.
  destruct X as (_ & Hacq & _).
  assert (choose_upstream (proxy_state "/a"%go ∅ (balanced_action 0))
          = (Ret (Some (Some "a:80"%go, "http"%go, "a:80"%go)), proxy_state "/a"%go ∅ (balanced_action 1))) as Hch
    by (vm_compute; reflexivity).
  assert (AcquireConn (fun _ _ _ => Throw io_EOF) TimedOut (balanced_client "a:80"%go)
          = (Throw (Wrapf "cannot connect"%go io_EOF), balanced_client "a:80"%go)) as Ha by (vm_compute; reflexivity).
  destruct (Hacq _ _ _ _ (balanced_client "a:80"%go) _ _ Hch ltac:(vm_compute; reflexivity) Ha) as (s' & Hr & Hs & Hc).
  exists s', (balanced_client "a:80"%go). split; [exact Hr|]. split; [rewrite Hs; reflexivity|exact Hc].
Defined.

(** An upstream server that accepts every upgrade. *)
Definition switching : Upstream (list Response) := {|
  Request_Write _ c := (Ret tt, c);
  ReadResponse _ c := (Ret (mkResponse 101 [] [] None), c);
  Body_Read _ c := c;
  Body_Close _ c := c
|}.

Lemma reverse_proxy_upgrade_witness :
  exists s', ReverseProxyAction_HandleRequest (Upstream0 := switching) echo_encounter
      (proxy_state "/a"%go upgrade_header echo_action) = (Ret tt, s')
    /\ ps_relays s' = [mkTCP tt 0%nat].
Proof.
  assert (exchange_ok (Upstream0 := switching) echo_encounter (proxy_state "/a"%go upgrade_header echo_action) None
            (proxy_state "/a"%go upgrade_header echo_action) (connected []) 0 [] (mkResponse 101 [] [] None)) as Hex.
  { split; [|reflexivity|reflexivity].
    exists "http"%go, "a"%go, echo_client, [], [], None. by split_and!. }
  assert (isConnectionUpgraded (proxy_context "/a"%go upgrade_header) 101 = true) as Hup by (vm_compute; reflexivity).
  destruct (reverse_proxy_upgrade (Upstream0 := switching) _ _ _ _ _ _ _ _ (Ret (mkHijacked tt "early"%go 0))
              (switched (proxy_state "/a"%go upgrade_header echo_action) (mkResponse 101 [] [] None))
              Hex ltac:(by vm_compute) ltac:(reflexivity) Hup ltac:(reflexivity) I
              ltac:(by intros hj [= <-])) as (s' & cl' & Hr & _ & _ & Hcase).
  rewrite bool_decide_false in Hcase by (vm_compute; discriminate).
  exists s'. split; [exact Hr|exact (proj1 Hcase)].
Defined.

Lemma upstream_client_exists_witness :
  exists cl s', choose_upstream (proxy_state "/a"%go ∅ echo_action)
      = (Ret (Some (None, "http"%go, "a"%go)), s')
    /\ client_of None (ps_action s') = Some cl.
Proof.
  destruct (upstream_client_exists (W := Wire) (A := unit) (N := unit) echo_parse ∅ 0 echo_cfg echo_action
              (proxy_context "/a"%go ∅) [] 0 [] echo_action_created) as [Hok Hnext].
  destruct (Hnext echo_action _ _ Hok eq_refl) as [_ Hcl].
  destruct (Hcl None "http"%go "a"%go eq_refl) as [cl Hc].
  exists cl, (proxy_state "/a"%go ∅ echo_action). split; [reflexivity|exact Hc].
Defined.
End examples.
