(* ===== verification/TcpRelay.v ===== *)
(** * Relayed TCP connections (pkg/protocols/tcp connection.go and protocol.go,
      pkg/protocols/http/tcp_connection.go)

    A connection of a client and one to an upstream server, and the two goroutines that
    copy bytes between them, as a step relation: each step is a part of the code between
    two accesses to what the goroutines share.  The connections of the HTTP protocol
    differ by their buffer sizes and what they log only. *)

From stdpp Require Import relations well_founded.
From S2P Require Import Prelude GoStrings NetIP NetAddresses.

(** The two ends; a goroutine is named after the end it reads: [Connection.read] reads
    the client and [Connection.write] the upstream server. *)
Inductive Side := ClientSide | UpstreamSide.

#[export] Instance Side_eq_dec : EqDecision Side.
Proof. solve_decision. Defined.

Definition opp (s : Side) : Side := match s with ClientSide => UpstreamSide | UpstreamSide => ClientSide end.

Definition upd {X} (f : Side -> X) (s : Side) (x : X) : Side -> X :=
  fun s' => if decide (s' = s) then x else f s'.

(** A [net.Conn]: the bytes its peer has sent so far and those not read yet, whether the
    peer has closed, the bytes written to it, whether it has been closed, how many bytes the
    system still takes before a [Write] blocks, because the peer does not read, and whether
    the connection is broken, so that a [Write] fails. *)
Record Endpoint := mkEnd {
  arrived : list ascii;
  pending : list ascii;
  peerClosed : bool;
  sent : list ascii;
  closed : bool;
  room : nat;
  broken : bool
}.

(** Where a goroutine is: before and in [Read], holding data before [Write], in [Write] with
    the data it has not written yet, in
    [abort] before the lock of [Close], before each half of [Close], before
    [unregisterConnection], finished. *)
Inductive Pc :=
  | PStart | PReading | PRead (data : list ascii) | PWriting (data : list ascii)
  | PAbort | PClose1 | PClose2 | PUnregister | PDone.

(** Where the call of [Close] by [Protocol.Stop] is. *)
Inductive StopPc := KNone | KWant | KClose1 | KClose2 | KDone.

(** [Connection], the connections behind its fields, and the goroutines that use it.
    [isNil] says which fields are nil; [crashed] that a goroutine called a method of a
    nil interface, which ends the program. *)
Record Connection := mkConn {
  ends : Side -> Endpoint;
  isNil : Side -> bool;
  locked : bool;
  pcs : Side -> Pc;
  stopPc : StopPc;
  registered : bool;
  wg : Z;
  crashed : bool
}.

Definition new_endpoint : Endpoint := mkEnd [] [] false [] false 0 false.

(** The connection [handleConnection] registers and starts. *)
Definition new_connection : Connection :=
  mkConn (fun _ => new_endpoint) (fun _ => false) false (fun _ => PStart) KNone true 2 false.

Definition set_end (s : Side) (e : Endpoint) (c : Connection) : Connection :=
  mkConn (upd (ends c) s e) (isNil c) (locked c) (pcs c) (stopPc c) (registered c) (wg c) (crashed c).
Definition set_pc (s : Side) (p : Pc) (c : Connection) : Connection :=
  mkConn (ends c) (isNil c) (locked c) (upd (pcs c) s p) (stopPc c) (registered c) (wg c) (crashed c).
Definition set_stop (k : StopPc) (c : Connection) : Connection :=
  mkConn (ends c) (isNil c) (locked c) (pcs c) k (registered c) (wg c) (crashed c).
Definition set_locked (b : bool) (c : Connection) : Connection :=
  mkConn (ends c) (isNil c) b (pcs c) (stopPc c) (registered c) (wg c) (crashed c).
Definition crash (c : Connection) : Connection :=
  mkConn (ends c) (isNil c) (locked c) (pcs c) (stopPc c) (registered c) (wg c) true.

(** [if c.conn != nil { c.conn.Close(); c.conn = nil }], for either field. *)
Definition close_field (s : Side) (c : Connection) : Connection :=
  if isNil c s then c
  else
    let e := ends c s in
    mkConn (upd (ends c) s (mkEnd (arrived e) (pending e) (peerClosed e) (sent e) true (room e) (broken e)))
      (upd (isNil c) s true) (locked c) (pcs c) (stopPc c) (registered c) (wg c) (crashed c).

(** [Protocol.unregisterConnection] and the deferred [wg.Done]. *)
Definition unregister (c : Connection) : Connection :=
  mkConn (ends c) (isNil c) (locked c) (pcs c) (stopPc c) false (wg c - 1) (crashed c).

(** A [Read] that gives [n] bytes. *)
Definition read_bytes (n : nat) (e : Endpoint) : Endpoint :=
  mkEnd (arrived e) (drop n (pending e)) (peerClosed e) (sent e) (closed e) (room e) (broken e).

(** The system takes bytes of a [Write]. *)
Definition write_bytes (data : list ascii) (e : Endpoint) : Endpoint :=
  mkEnd (arrived e) (pending e) (peerClosed e) (sent e ++ data) (closed e) (room e - length data) (broken e).

Section relay.
(** The sizes of the buffers of the two goroutines. *)
Context (bufferSize : Side -> nat).

(** The steps of the goroutines. *)
Inductive internal : Connection -> Connection -> Prop :=
  | i_load_source s c :
      crashed c = false -> pcs c s = PStart -> isNil c s = false ->
      internal c (set_pc s PReading c)
  | i_load_source_nil s c :
      crashed c = false -> pcs c s = PStart -> isNil c s = true -> internal c (crash c)
  | i_read s n c :
      crashed c = false -> pcs c s = PReading -> closed (ends c s) = false ->
      (0 < n)%nat -> (n <= bufferSize s)%nat -> (n <= length (pending (ends c s)))%nat ->
      internal c (set_pc s (PRead (take n (pending (ends c s)))) (set_end s (read_bytes n (ends c s)) c))
  | i_read_error s c :
      crashed c = false -> pcs c s = PReading ->
      closed (ends c s) = true \/ (peerClosed (ends c s) = true /\ pending (ends c s) = []) ->
      internal c (set_pc s PAbort c)
  | i_load_destination s data c :
      crashed c = false -> pcs c s = PRead data -> isNil c (opp s) = false ->
      internal c (set_pc s (PWriting data) c)
  | i_load_destination_nil s data c :
      crashed c = false -> pcs c s = PRead data -> isNil c (opp s) = true -> internal c (crash c)
  | i_write s n data c :
      crashed c = false -> pcs c s = PWriting data ->
      closed (ends c (opp s)) = false -> broken (ends c (opp s)) = false ->
      (0 < n)%nat -> (n <= length data)%nat -> (n <= room (ends c (opp s)))%nat ->
      internal c (set_pc s (PWriting (drop n data)) (set_end (opp s) (write_bytes (take n data) (ends c (opp s))) c))
  | i_written s c :
      crashed c = false -> pcs c s = PWriting [] -> internal c (set_pc s PStart c)
  | i_write_error s data c :
      crashed c = false -> pcs c s = PWriting data ->
      closed (ends c (opp s)) = true \/ broken (ends c (opp s)) = true ->
      internal c (set_pc s PAbort c)
  | i_lock s c :
      crashed c = false -> pcs c s = PAbort -> locked c = false ->
      internal c (set_pc s PClose1 (set_locked true c))
  | i_close1 s c :
      crashed c = false -> pcs c s = PClose1 -> internal c (set_pc s PClose2 (close_field ClientSide c))
  | i_close2 s c :
      crashed c = false -> pcs c s = PClose2 ->
      internal c (set_pc s PUnregister (set_locked false (close_field UpstreamSide c)))
  | i_unregister s c :
      crashed c = false -> pcs c s = PUnregister -> stopPc c = KNone \/ stopPc c = KDone ->
      internal c (set_pc s PDone (unregister c))
  | k_lock c :
      crashed c = false -> stopPc c = KWant -> locked c = false ->
      internal c (set_stop KClose1 (set_locked true c))
  | k_close1 c :
      crashed c = false -> stopPc c = KClose1 -> internal c (set_stop KClose2 (close_field ClientSide c))
  | k_close2 c :
      crashed c = false -> stopPc c = KClose2 ->
      internal c (set_stop KDone (set_locked false (close_field UpstreamSide c))).

(** The steps of the rest of the world: bytes arrive, a peer closes, or resets the
    connection (the bytes not read yet are lost, and writes fail), a peer reads so that more
    can be written, the protocol is stopped while the connection is registered.  [Stop] has
    the lock that [unregisterConnection] needs until it is done. *)
Inductive external : Connection -> Connection -> Prop :=
  | e_arrive s data c :
      peerClosed (ends c s) = false ->
      external c (set_end s (mkEnd (arrived (ends c s) ++ data) (pending (ends c s) ++ data) false
                               (sent (ends c s)) (closed (ends c s)) (room (ends c s)) (broken (ends c s))) c)
  | e_peer_close s c :
      external c (set_end s (mkEnd (arrived (ends c s)) (pending (ends c s)) true
                               (sent (ends c s)) (closed (ends c s)) (room (ends c s)) (broken (ends c s))) c)
  | e_reset s c :
      external c (set_end s (mkEnd (take (length (arrived (ends c s)) - length (pending (ends c s))) (arrived (ends c s)))
                               [] true (sent (ends c s)) (closed (ends c s)) (room (ends c s)) true) c)
  | e_room s n c :
      external c (set_end s (mkEnd (arrived (ends c s)) (pending (ends c s)) (peerClosed (ends c s))
                               (sent (ends c s)) (closed (ends c s)) (room (ends c s) + n) (broken (ends c s))) c)
  | e_stop c : stopPc c = KNone -> registered c = true -> external c (set_stop KWant c).

Definition step (c c' : Connection) : Prop := internal c c' \/ external c c'.

(** ** Termination *)

Definition pc_rank (p : Pc) : nat :=
  match p with
  | PRead data => 8 + length data | PWriting data => 7 + length data | PStart => 6 | PReading => 5 | PAbort => 4
  | PClose1 => 3 | PClose2 => 2 | PUnregister => 1 | PDone => 0
  end.
Definition stop_rank (k : StopPc) : nat :=
  match k with KNone => 0 | KWant => 3 | KClose1 => 2 | KClose2 => 1 | KDone => 0 end.

(** What is left to do: the bytes to be read or written and the places of the goroutines. *)
Definition side_work (s : Side) (c : Connection) : nat :=
  8 * length (pending (ends c s)) + pc_rank (pcs c s).
Definition work (c : Connection) : nat :=
  side_work ClientSide c + side_work UpstreamSide c + stop_rank (stopPc c) + (if crashed c then 0 else 1).

Lemma upd_eq {X} (f : Side -> X) s x : upd f s x s = x.
Proof. unfold upd. by rewrite decide_True. Qed.

Lemma upd_ne {X} (f : Side -> X) s s' x : s' <> s -> upd f s x s' = f s'.
Proof. intros Hne. unfold upd. by rewrite decide_False. Qed.

Lemma pending_close_field s s' c : pending (ends (close_field s c) s') = pending (ends c s').
Proof.
  unfold close_field. destruct (isNil c s); [done|]. cbn.
  destruct (decide (s' = s)) as [-> | Hne]; by rewrite ?upd_eq, ?upd_ne.
Qed.

Lemma pcs_close_field s c : pcs (close_field s c) = pcs c.
Proof. unfold close_field. by destruct (isNil c s). Qed.
Lemma stop_close_field s c : stopPc (close_field s c) = stopPc c.
Proof. unfold close_field. by destruct (isNil c s). Qed.
Lemma crashed_close_field s c : crashed (close_field s c) = crashed c.
Proof. unfold close_field. by destruct (isNil c s). Qed.

Lemma work_split s c :
  work c = (side_work s c + side_work (opp s) c + stop_rank (stopPc c) + (if crashed c then 0 else 1))%nat.
Proof. unfold work. destruct s; cbn [opp]; lia. Qed.

Lemma opp_ne s : opp s <> s.
Proof. by destruct s. Qed.

Lemma internal_work c c' : internal c c' -> (work c' < work c)%nat.
Proof.
  intros Hs. destruct Hs as [s c Hcr Hpc Hn|s c Hcr Hpc Hn|s n c Hcr Hpc Hcl Hn0 Hn Hl|s c Hcr Hpc Hcl
    |s data c Hcr Hpc Hn|s data c Hcr Hpc Hn|s n data c Hcr Hpc Hcl Hb Hn0 Hn Hroom|s c Hcr Hpc|s data c Hcr Hpc Hcl|s c Hcr Hpc Hl
    |s c Hcr Hpc|s c Hcr Hpc|s c Hcr Hpc Hst|c Hcr Hst Hl|c Hcr Hst|c Hcr Hst];
    try rewrite (work_split s c), (work_split s); unfold work, side_work; cbn;
    rewrite ?pcs_close_field, ?stop_close_field, ?crashed_close_field, ?pending_close_field, ?Hcr, ?Hst;
    rewrite ?upd_eq, ?(upd_ne _ s (opp s)), ?(upd_ne _ (opp s) s), ?Hpc by (destruct s; done);
    cbn; rewrite ?length_drop, ?length_take; lia.
Qed.

(** [C15] Relaying ends when the world stops: from any state whatsoever, every sequence
    of steps of the two goroutines and of [Stop] is finite; a run can only go on for
    ever if bytes keep arriving. *)
Theorem relay_terminates : well_founded (fun c' c => internal c c').
Proof. apply (wf_projected lt work); [intros c' c; apply internal_work|apply lt_wf]. Qed.

(** ** Invariant *)

(** Who has the lock of [Close]. *)
Definition closing (p : Pc) : Z := match p with PClose1 | PClose2 => 1 | _ => 0 end.
Definition stop_closing (k : StopPc) : Z := match k with KClose1 | KClose2 => 1 | _ => 0 end.
Definition lock_count (c : Connection) : Z :=
  closing (pcs c ClientSide) + closing (pcs c UpstreamSide) + stop_closing (stopPc c).

Definition running (p : Pc) : Z := match p with PDone => 0 | _ => 1 end.

(** The bytes a goroutine has read and not written. *)
Definition in_flight (p : Pc) : option (list ascii) :=
  match p with
  | PStart | PReading => Some []
  | PRead data | PWriting data => Some data
  | _ => None
  end.

(** The bytes relayed from the end [s] to the other one. *)
Definition data_ok (c : Connection) (s : Side) : Prop :=
  match in_flight (pcs c s) with
  | Some data => arrived (ends c s) = sent (ends c (opp s)) ++ data ++ pending (ends c s)
  | None => exists lost, arrived (ends c s) = sent (ends c (opp s)) ++ lost ++ pending (ends c s)
  end.

(** A goroutine, or [Stop], is past the call of [Close]. *)
Definition closed_by (p : Pc) : bool := match p with PUnregister | PDone => true | _ => false end.

Record ctl_inv (c : Connection) : Prop := {
  r_lock : lock_count c = if locked c then 1 else 0;
  r_nil : forall s, isNil c s = closed (ends c s);
  r_closed : forall s, closed_by (pcs c s) = true -> isNil c ClientSide = true /\ isNil c UpstreamSide = true;
  r_half : forall s, pcs c s = PClose2 -> isNil c ClientSide = true;
  r_stop : stopPc c = KDone -> isNil c ClientSide = true /\ isNil c UpstreamSide = true;
  r_stop_half : stopPc c = KClose2 -> isNil c ClientSide = true;
  r_wg : wg c = running (pcs c ClientSide) + running (pcs c UpstreamSide);
  r_registered : registered c = true <-> forall s, pcs c s <> PDone
}.

Definition relay_inv (c : Connection) : Prop := ctl_inv c /\ forall s, data_ok c s.

Lemma relay_inv_new : relay_inv new_connection.
Proof. split; [split; cbn; try done|by intros []]. Qed.

(** Closing an end keeps what is known of the two directions. *)
Lemma ends_close_field s s' c :
  arrived (ends (close_field s c) s') = arrived (ends c s')
  /\ sent (ends (close_field s c) s') = sent (ends c s').
Proof.
  unfold close_field. destruct (isNil c s); [done|]. cbn.
  destruct (decide (s' = s)) as [-> | Hne]; by rewrite ?upd_eq, ?upd_ne.
Qed.

Lemma isNil_close_eq s c : isNil (close_field s c) s = true.
Proof. unfold close_field. destruct (isNil c s) eqn:E; [done|]. cbn. by rewrite upd_eq. Qed.

Lemma isNil_close_mono s s' c : isNil c s' = true -> isNil (close_field s c) s' = true.
Proof.
  intros Hs. unfold close_field. destruct (isNil c s); [done|]. cbn.
  destruct (decide (s' = s)) as [-> | Hne]; by rewrite ?upd_eq, ?upd_ne.
Qed.

Lemma nil_close_field s c :
  (forall s', isNil c s' = closed (ends c s')) -> forall s', isNil (close_field s c) s' = closed (ends (close_field s c) s').
Proof.
  intros Hn s'. unfold close_field. destruct (isNil c s); [done|]. cbn.
  destruct (decide (s' = s)) as [-> | Hne]; rewrite ?upd_eq, ?upd_ne by done; done.
Qed.

Lemma data_close_field s c : (forall s', data_ok c s') -> forall s', data_ok (close_field s c) s'.
Proof.
  intros Hd s'. specialize (Hd s'). unfold data_ok. rewrite pcs_close_field, pending_close_field.
  destruct (ends_close_field s s' c) as [-> _], (ends_close_field s (opp s') c) as [_ ->]. done.
Qed.

(** The place of a goroutine changes between two places that neither finish nor hold the
    lock. *)
Lemma ctl_set_pc s p c :
  ctl_inv c -> closing (pcs c s) = 0 -> closing p = 0 -> closed_by (pcs c s) = false -> closed_by p = false ->
  ctl_inv (set_pc s p c).
Proof.
  intros [Hl Hn Hc Hh Hst Hsh Hw Hr] H1 H2 H3 H4.
  assert (running (pcs c s) = 1 /\ running p = 1) as [Hr1 Hr2] by (destruct (pcs c s), p; done).
  split; cbn; try done.
  - rewrite <- Hl. unfold lock_count. cbn. destruct s; rewrite upd_eq, upd_ne by done; lia.
  - intros s'. destruct (decide (s' = s)) as [-> | Hne]; rewrite ?upd_eq, ?upd_ne by done; [by rewrite H4|apply Hc].
  - intros s'. destruct (decide (s' = s)) as [-> | Hne]; rewrite ?upd_eq, ?upd_ne by done; [|apply Hh].
    intros ->. cbn in H2. lia.
  - rewrite Hw. destruct s; rewrite upd_eq, upd_ne by done; lia.
  - rewrite Hr. split; intros Hall s'; specialize (Hall s'); revert Hall;
      (destruct (decide (s' = s)) as [-> | Hne]; [rewrite upd_eq; destruct p, (pcs c s); done|by rewrite upd_ne]).
Qed.

(** An end changes without being closed. *)
Lemma ctl_set_end s e c : ctl_inv c -> closed e = closed (ends c s) -> ctl_inv (set_end s e c).
Proof.
  intros [Hl Hn Hc Hh Hst Hsh Hw Hr] He. split; cbn; try done.
  intros s'. rewrite Hn. destruct (decide (s' = s)) as [-> | Hne]; by rewrite ?upd_eq, ?upd_ne.
Qed.

Lemma ctl_crash c : ctl_inv c -> ctl_inv (crash c).
Proof. intros [Hl Hn Hc Hh Hst Hsh Hw Hr]. by split. Qed.

Ltac sides s' s := destruct (decide (s' = s)) as [-> | ?]; rewrite ?upd_eq, ?upd_ne by done.

Lemma ctl_lock s c :
  ctl_inv c -> pcs c s = PAbort -> locked c = false -> ctl_inv (set_pc s PClose1 (set_locked true c)).
Proof.
  intros [Hl Hn Hc Hh Hst Hsh Hw Hr] Hp Hlk. rewrite Hlk in Hl. split; cbn; try done.
  - unfold lock_count in *. cbn. destruct s; rewrite upd_eq, upd_ne by done; rewrite Hp in Hl; cbn in *; lia.
  - intros s'. sides s' s; [done|apply Hc].
  - intros s'. sides s' s; [done|apply Hh].
  - rewrite Hw. destruct s; rewrite upd_eq, upd_ne by done; by rewrite Hp.
  - rewrite Hr. split; intros Hall s'; specialize (Hall s'); revert Hall; (sides s' s; [by rewrite Hp|done]).
Qed.

Lemma ctl_close1 s c :
  ctl_inv c -> pcs c s = PClose1 -> ctl_inv (set_pc s PClose2 (close_field ClientSide c)).
Proof.
  intros [Hl Hn Hc Hh Hst Hsh Hw Hr] Hp.
  split; cbn; rewrite ?pcs_close_field, ?stop_close_field.
  - unfold lock_count in *. cbn. rewrite pcs_close_field, stop_close_field.
    replace (locked (close_field ClientSide c)) with (locked c)
      by (unfold close_field; by destruct (isNil c ClientSide)).
    rewrite <- Hl. destruct s; rewrite upd_eq, upd_ne by done; rewrite Hp; cbn; lia.
  - by apply nil_close_field.
  - intros s'. sides s' s; [done|]. intros Hcb. destruct (Hc s' Hcb).
    by split; apply isNil_close_mono.
  - intros s' _. apply isNil_close_eq.
  - intros Hk. destruct (Hst Hk). by split; apply isNil_close_mono.
  - intros _. apply isNil_close_eq.
  - replace (wg (close_field ClientSide c)) with (wg c) by (unfold close_field; by destruct (isNil c ClientSide)).
    rewrite Hw. destruct s; rewrite upd_eq, upd_ne by done; by rewrite Hp.
  - replace (registered (close_field ClientSide c)) with (registered c)
      by (unfold close_field; by destruct (isNil c ClientSide)).
    rewrite Hr. split; intros Hall s'; specialize (Hall s'); revert Hall; (sides s' s; [by rewrite Hp|done]).
Qed.

Lemma ctl_close2 s c :
  ctl_inv c -> pcs c s = PClose2 ->
  ctl_inv (set_pc s PUnregister (set_locked false (close_field UpstreamSide c))).
Proof.
  intros [Hl Hn Hc Hh Hst Hsh Hw Hr] Hp.
  split; cbn; rewrite ?pcs_close_field, ?stop_close_field.
  - unfold lock_count in *. cbn. rewrite pcs_close_field, stop_close_field.
    assert (locked c = true) as Hlk.
    { destruct (locked c); [done|]. exfalso. destruct s; rewrite Hp in Hl; cbn in Hl;
        [destruct (pcs c UpstreamSide), (stopPc c)|destruct (pcs c ClientSide), (stopPc c)]; cbn in Hl; lia. }
    rewrite Hlk in Hl. destruct s; rewrite upd_eq, upd_ne by done; rewrite Hp in Hl; cbn in *; lia.
  - by apply nil_close_field.
  - intros s' _. split; [by apply isNil_close_mono, (Hh s)|apply isNil_close_eq].
  - intros s'. sides s' s; [done|]. intros Hs'. by apply isNil_close_mono, (Hh s').
  - intros Hk. destruct (Hst Hk). by split; apply isNil_close_mono.
  - intros Hk. by apply isNil_close_mono, Hsh.
  - replace (wg (close_field UpstreamSide c)) with (wg c) by (unfold close_field; by destruct (isNil c UpstreamSide)).
    rewrite Hw. destruct s; rewrite upd_eq, upd_ne by done; by rewrite Hp.
  - replace (registered (close_field UpstreamSide c)) with (registered c)
      by (unfold close_field; by destruct (isNil c UpstreamSide)).
    rewrite Hr. split; intros Hall s'; specialize (Hall s'); revert Hall; (sides s' s; [by rewrite Hp|done]).
Qed.

Lemma ctl_unregister s c :
  ctl_inv c -> pcs c s = PUnregister -> ctl_inv (set_pc s PDone (unregister c)).
Proof.
  intros [Hl Hn Hc Hh Hst Hsh Hw Hr] Hp. split; cbn; try done.
  - rewrite <- Hl. unfold lock_count. cbn. destruct s; rewrite upd_eq, upd_ne by done; rewrite Hp; cbn; lia.
  - intros s' _. apply (Hc s). by rewrite Hp.
  - intros s'. sides s' s; [done|apply Hh].
  - rewrite Hw. destruct s; rewrite upd_eq, upd_ne by done; rewrite Hp; cbn; lia.
  - split; [done|]. intros Hall. specialize (Hall s). by rewrite upd_eq in Hall.
Qed.

Lemma ctl_stop k c :
  ctl_inv c -> stop_closing k = stop_closing (stopPc c) -> k <> KDone -> k <> KClose2 -> ctl_inv (set_stop k c).
Proof.
  intros [Hl Hn Hc Hh Hst Hsh Hw Hr] Hk Hk1 Hk2. split; cbn; try done.
  rewrite <- Hl. unfold lock_count. cbn. by rewrite Hk.
Qed.

Lemma ctl_k_lock c :
  ctl_inv c -> stopPc c = KWant -> locked c = false -> ctl_inv (set_stop KClose1 (set_locked true c)).
Proof.
  intros [Hl Hn Hc Hh Hst Hsh Hw Hr] Hk Hlk. rewrite Hlk in Hl. split; cbn; try done.
  unfold lock_count in *. cbn in *. rewrite Hk in Hl. cbn in Hl. lia.
Qed.

Lemma ctl_k_close1 c :
  ctl_inv c -> stopPc c = KClose1 -> ctl_inv (set_stop KClose2 (close_field ClientSide c)).
Proof.
  intros [Hl Hn Hc Hh Hst Hsh Hw Hr] Hk. split; cbn; rewrite ?pcs_close_field; try done.
  - unfold lock_count in *. cbn. rewrite pcs_close_field.
    replace (locked (close_field ClientSide c)) with (locked c)
      by (unfold close_field; by destruct (isNil c ClientSide)).
    rewrite <- Hl, Hk. done.
  - by apply nil_close_field.
  - intros s' Hcb. destruct (Hc s' Hcb). by split; apply isNil_close_mono.
  - intros s' _. apply isNil_close_eq.
  - intros _. apply isNil_close_eq.
  - by replace (wg (close_field ClientSide c)) with (wg c) by (unfold close_field; by destruct (isNil c ClientSide)).
  - by replace (registered (close_field ClientSide c)) with (registered c)
      by (unfold close_field; by destruct (isNil c ClientSide)).
Qed.

Lemma ctl_k_close2 c :
  ctl_inv c -> stopPc c = KClose2 ->
  ctl_inv (set_stop KDone (set_locked false (close_field UpstreamSide c))).
Proof.
  intros [Hl Hn Hc Hh Hst Hsh Hw Hr] Hk. split; cbn; rewrite ?pcs_close_field; try done.
  - unfold lock_count in *. cbn. rewrite pcs_close_field. rewrite Hk in Hl. cbn in Hl.
    destruct (locked c), (pcs c ClientSide), (pcs c UpstreamSide); cbn in *; lia.
  - by apply nil_close_field.
  - intros s' Hcb. destruct (Hc s' Hcb). by split; apply isNil_close_mono.
  - intros s' Hp. by apply isNil_close_mono, (Hh s').
  - intros _. split; [by apply isNil_close_mono, Hsh|apply isNil_close_eq].
  - by replace (wg (close_field UpstreamSide c)) with (wg c) by (unfold close_field; by destruct (isNil c UpstreamSide)).
  - by replace (registered (close_field UpstreamSide c)) with (registered c)
      by (unfold close_field; by destruct (isNil c UpstreamSide)).
Qed.

(** *** The data *)

Definition same_stream (c c' : Connection) (s : Side) : Prop :=
  arrived (ends c' s) = arrived (ends c s) /\ pending (ends c' s) = pending (ends c s)
  /\ sent (ends c' (opp s)) = sent (ends c (opp s)).

Lemma data_frame c c' s :
  same_stream c c' s -> in_flight (pcs c' s) = in_flight (pcs c s) \/ in_flight (pcs c' s) = None ->
  data_ok c s -> data_ok c' s.
Proof.
  intros (Ha & Hp & Hs) Hf. unfold data_ok. rewrite Ha, Hp, Hs. destruct Hf as [-> | ->]; [done|].
  destruct (in_flight (pcs c s)) as [data|]; [|done]. intros Hd. by exists data.
Qed.

Lemma same_close s s' c : same_stream c (close_field s c) s'.
Proof.
  unfold same_stream. rewrite pending_close_field.
  destruct (ends_close_field s s' c) as [-> _], (ends_close_field s (opp s') c) as [_ ->]. done.
Qed.

(** A step that only changes the place of a goroutine, possibly after closing an end. *)
Lemma data_set_pc s p c c' :
  (forall s', data_ok c s') -> (forall s', same_stream c c' s') -> pcs c' = pcs c ->
  in_flight p = in_flight (pcs c s) \/ in_flight p = None ->
  forall s', data_ok (set_pc s p c') s'.
Proof.
  intros Hd Hss Hp Hf s'. apply (data_frame c); [exact (Hss s')| |done]. cbn. rewrite Hp.
  destruct (decide (s' = s)) as [-> | Hne]; rewrite ?upd_eq, ?upd_ne by done; [done|by left].
Qed.

Lemma same_refl c s : same_stream c c s.
Proof. done. Qed.

Lemma opp_opp s : opp (opp s) = s.
Proof. by destruct s. Qed.

Lemma data_read s n c :
  (forall s', data_ok c s') -> pcs c s = PReading ->
  forall s', data_ok (set_pc s (PRead (take n (pending (ends c s)))) (set_end s (read_bytes n (ends c s)) c)) s'.
Proof.
  intros Hd Hp s'. specialize (Hd s'). destruct (decide (s' = s)) as [-> | Hne].
  - unfold data_ok in *. rewrite Hp in Hd. cbn in *.
    rewrite !upd_eq, upd_ne by apply opp_ne. cbn. rewrite Hd. f_equal. by rewrite take_drop.
  - apply (data_frame c); [|left; cbn; by rewrite upd_ne|done].
    unfold same_stream. cbn. assert (opp s' = s) as -> by (destruct s, s'; done).
    rewrite !upd_eq, !upd_ne by done. done.
Qed.

Lemma data_write s n data c :
  (forall s', data_ok c s') -> pcs c s = PWriting data ->
  forall s', data_ok (set_pc s (PWriting (drop n data))
    (set_end (opp s) (write_bytes (take n data) (ends c (opp s))) c)) s'.
Proof.
  intros Hd Hp s'. specialize (Hd s'). destruct (decide (s' = s)) as [-> | Hne].
  - unfold data_ok in *. rewrite Hp in Hd. cbn in *.
    rewrite !upd_eq, upd_ne by (intros E; by apply (opp_ne s)). cbn.
    by rewrite Hd, <- (assoc_L (++)), (assoc_L (++) (take n data)), take_drop.
  - apply (data_frame c); [|left; cbn; by rewrite upd_ne|done].
    unfold same_stream. cbn. assert (opp s' = s) as -> by (destruct s, s'; done).
    assert (s' = opp s) as -> by (destruct s, s'; done).
    rewrite !upd_eq, !upd_ne by (intros E; by apply (opp_ne s)). done.
Qed.

Lemma relay_inv_internal c c' : relay_inv c -> internal c c' -> relay_inv c'.
Proof.
  intros [Hctl Hd] Hs. destruct Hs as [s c Hcr Hpc Hn|s c Hcr Hpc Hn|s n c Hcr Hpc Hcl Hn0 Hn Hl|s c Hcr Hpc Hcl
    |s data c Hcr Hpc Hn|s data c Hcr Hpc Hn|s n data c Hcr Hpc Hcl Hb Hn0 Hn Hroom|s c Hcr Hpc|s data c Hcr Hpc Hcl|s c Hcr Hpc Hl
    |s c Hcr Hpc|s c Hcr Hpc|s c Hcr Hpc Hst|c Hcr Hst Hl|c Hcr Hst|c Hcr Hst].
  - split; [by apply ctl_set_pc; rewrite ?Hpc|]. apply (data_set_pc s _ c); try done. rewrite Hpc. by left.
  - split; [by apply ctl_crash|done].
  - split; [|by apply data_read]. apply ctl_set_pc; cbn; rewrite ?Hpc; try done. by apply ctl_set_end.
  - split; [by apply ctl_set_pc; rewrite ?Hpc|]. apply (data_set_pc s _ c); try done. by right.
  - split; [by apply ctl_set_pc; rewrite ?Hpc|]. apply (data_set_pc s _ c); try done. rewrite Hpc. by left.
  - split; [by apply ctl_crash|done].
  - split; [apply ctl_set_pc; cbn; rewrite ?Hpc; try done; by apply ctl_set_end|]. by apply data_write.
  - split; [by apply ctl_set_pc; rewrite ?Hpc|]. apply (data_set_pc s _ c); try done. rewrite Hpc. by left.
  - split; [by apply ctl_set_pc; rewrite ?Hpc|]. apply (data_set_pc s _ c); try done. by right.
  - split; [by apply ctl_lock|]. apply (data_set_pc s _ c); try done. by right.
  - split; [by apply ctl_close1|]. apply (data_set_pc s _ c); try done; [intros s'; apply same_close|apply pcs_close_field|by right].
  - split; [by apply ctl_close2|]. apply (data_set_pc s _ c); try done; [|cbn; apply pcs_close_field|by right].
    intros s'. apply (same_close UpstreamSide).
  - split; [by apply ctl_unregister|]. apply (data_set_pc s _ c); try done. by right.
  - split; [by apply ctl_k_lock|]. exact Hd.
  - split; [by apply ctl_k_close1|]. apply (data_close_field ClientSide c Hd).
  - split; [by apply ctl_k_close2|]. apply (data_close_field UpstreamSide c Hd).
Qed.

Lemma data_set_end s e c :
  (forall s', data_ok c s') -> sent e = sent (ends c s) ->
  (forall x, arrived (ends c s) = x ++ pending (ends c s) -> arrived e = x ++ pending e) ->
  forall s', data_ok (set_end s e c) s'.
Proof.
  intros Hd Hs He s'. specialize (Hd s'). unfold data_ok in *. cbn.
  destruct (decide (s' = s)) as [-> | Hne].
  - rewrite upd_eq, upd_ne by apply opp_ne.
    destruct (in_flight (pcs c s)) as [data|]; [|destruct Hd as [lost Hd]; exists lost];
      rewrite (assoc_L (++)); apply He; by rewrite Hd, (assoc_L (++)).
  - assert (opp s' = s) as Ho by (destruct s, s'; done). rewrite Ho in *. rewrite upd_eq, upd_ne by done.
    by rewrite Hs.
Qed.

Lemma relay_inv_external c c' : relay_inv c -> external c c' -> relay_inv c'.
Proof.
  intros [Hctl Hd] Hs. destruct Hs as [s data c Hp|s c|s c|s n c|c Hk Hr].
  - split; [by apply ctl_set_end|]. apply data_set_end; [done|done|]. cbn. intros x ->.
    by rewrite <- (assoc_L (++)).
  - split; [by apply ctl_set_end|]. by apply data_set_end.
  - split; [by apply ctl_set_end|]. apply data_set_end; [done|done|]. cbn. intros x ->.
    by rewrite length_app, Nat.add_sub, take_app_length, app_nil_r.
  - split; [by apply ctl_set_end|]. by apply data_set_end.
  - split; [|exact Hd]. by apply ctl_stop; rewrite ?Hk.
Qed.

Lemma relay_inv_reachable c : rtc step new_connection c -> relay_inv c.
Proof.
  intros Hrun. cut (relay_inv new_connection); [|apply relay_inv_new].
  induction Hrun as [c|c1 c2 c3 [Hs|Hs] _ IH]; [done|..]; intros Hi; apply IH;
    [by eapply relay_inv_internal|by eapply relay_inv_external].
Qed.

(** ** What a relay does *)

(** [C7] The relay is a pair of pipes: whatever the order in which bytes arrive, the
    goroutines run, errors occur and the protocol stops, the bytes written to an end are
    a prefix of the bytes the other end received, in their order; and as long as the
    goroutine of a direction runs, a byte received is either written, or in its buffer,
    or still to be read: none is lost, duplicated or invented. *)
Theorem relay_in_order c s :
  rtc step new_connection c ->
  sent (ends c (opp s)) `prefix_of` arrived (ends c s)
  /\ (forall data, in_flight (pcs c s) = Some data ->
     arrived (ends c s) = sent (ends c (opp s)) ++ data ++ pending (ends c s)).
Proof.
  intros Hrun. destruct (relay_inv_reachable c Hrun) as [_ Hd]. specialize (Hd s). unfold data_ok in Hd.
  destruct (in_flight (pcs c s)) as [data|].
  - split; [rewrite Hd; by eexists|]. by intros ? [= <-].
  - destruct Hd as [lost Hd]. split; [rewrite Hd; by eexists|done].
Qed.

(** A state where no goroutine can go on: nobody holds the lock of [Close], and [Stop]
    has not begun or is done. *)
Lemma stuck_unlocked c :
  ctl_inv c -> crashed c = false -> (forall c', ~ internal c c') ->
  locked c = false /\ (stopPc c = KNone \/ stopPc c = KDone).
Proof.
  intros [Hl _ _ _ _ _ _ _] Hcr Hstuck.
  assert (forall s, closing (pcs c s) = 0) as Hpcs.
  { intros s. destruct (pcs c s) eqn:E; try done; exfalso; eapply Hstuck;
      [by eapply (i_close1 s)|by eapply (i_close2 s)]. }
  assert (stopPc c <> KClose1 /\ stopPc c <> KClose2) as [Hk1 Hk2].
  { split; intros E; eapply Hstuck; [by apply k_close1|by apply k_close2]. }
  assert (locked c = false) as Hlk.
  { destruct (locked c); [|done]. unfold lock_count in Hl. rewrite !Hpcs in Hl.
    destruct (stopPc c); cbn in Hl; done. }
  split; [done|]. destruct (stopPc c) eqn:E; try done; [by left| |by right].
  exfalso. eapply Hstuck. by apply k_lock.
Qed.

(** A goroutine that waits for bytes, and one whose [Write] waits for the peer to read. *)
Definition waits_to_read (c : Connection) (s : Side) : Prop :=
  pcs c s = PReading /\ closed (ends c s) = false /\ peerClosed (ends c s) = false
  /\ sent (ends c (opp s)) = arrived (ends c s).

Definition waits_to_write (c : Connection) (s : Side) : Prop :=
  exists data, pcs c s = PWriting data /\ data <> [] /\ room (ends c (opp s)) = 0%nat
  /\ closed (ends c (opp s)) = false /\ broken (ends c (opp s)) = false
  /\ arrived (ends c s) = sent (ends c (opp s)) ++ data ++ pending (ends c s).

Lemma stuck_pc c s :
  (0 < bufferSize s)%nat -> relay_inv c -> crashed c = false -> (forall c', ~ internal c c') ->
  pcs c s = PDone \/ waits_to_read c s \/ waits_to_write c s.
Proof.
  intros Hbuf [Hctl Hd] Hcr Hstuck. destruct (stuck_unlocked c Hctl Hcr Hstuck) as [Hlk Hk].
  specialize (Hd s). unfold data_ok in Hd.
  destruct (pcs c s) as [| |data|data| | | | |] eqn:E; [..|by left]; cbn [in_flight] in Hd.
  - exfalso. destruct (isNil c s) eqn:En; eapply Hstuck; [by eapply i_load_source_nil|by eapply (i_load_source s)].
  - right. left. destruct (closed (ends c s)) eqn:Ec.
    { exfalso. eapply Hstuck, (i_read_error s); auto. }
    destruct (pending (ends c s)) as [|b l] eqn:Ep.
    + split_and!; try done; [|by rewrite Hd, app_nil_r]. destruct (peerClosed (ends c s)) eqn:Epc; [|done].
      exfalso. eapply Hstuck, (i_read_error s); auto.
    + exfalso. eapply Hstuck, (i_read s 1); auto with lia. rewrite Ep. cbn. lia.
  - exfalso. destruct (isNil c (opp s)) eqn:En; eapply Hstuck;
      [by eapply i_load_destination_nil|by eapply (i_load_destination s)].
  - right. right. exists data. split; [done|].
    destruct data as [|b l]; [exfalso; by eapply Hstuck, (i_written s)|]. split; [done|].
    destruct (closed (ends c (opp s))) eqn:Ec; [exfalso; eapply Hstuck, (i_write_error s); eauto|].
    destruct (broken (ends c (opp s))) eqn:Eb; [exfalso; eapply Hstuck, (i_write_error s); eauto|].
    split; [|done]. destruct (room (ends c (opp s))) eqn:Er; [done|].
    exfalso. eapply Hstuck, (i_write s 1); eauto with lia. cbn. lia.
  - exfalso. by eapply Hstuck, (i_lock s).
  - exfalso. by eapply Hstuck, (i_close1 s).
  - exfalso. by eapply Hstuck, (i_close2 s).
  - exfalso. by eapply Hstuck, (i_unregister s).
Qed.

(** [C16] Where a relay settles.  When the goroutines can do nothing more, either neither is
    finished, [Stop] has not begun, and each of them waits: for bytes, on an open
    connection, everything received having been written; or in [Write], for a peer that
    does not read, with what is left of its data, nothing received having been lost.  Or
    both have finished, both connections are closed, the connection is unregistered and the
    wait group is released twice.  Or the program has crashed.  One goroutine is never left
    behind, [Close] never deadlocks, and a peer that does not read does not prevent [Stop]
    from ending the relay. *)
Theorem relay_settles c :
  (forall s, (0 < bufferSize s)%nat) -> rtc step new_connection c -> (forall c', ~ internal c c') ->
  crashed c = true
  \/ (forall s, waits_to_read c s \/ waits_to_write c s) /\ stopPc c = KNone /\ registered c = true /\ wg c = 2
  \/ (forall s, pcs c s = PDone /\ closed (ends c s) = true) /\ registered c = false /\ wg c = 0.
Proof.
  intros Hbuf Hrun Hstuck. pose proof (relay_inv_reachable c Hrun) as Hinv. pose proof Hinv as [Hctl Hd].
  destruct (crashed c) eqn:Hcr; [by left|right].
  pose proof (fun s => stuck_pc c s (Hbuf s) Hinv Hcr Hstuck) as Hpc.
  destruct (stuck_unlocked c Hctl Hcr Hstuck) as [_ Hstop].
  destruct Hctl as [_ Hn Hc _ Hkdone _ Hw Hr].
  assert (forall s, waits_to_read c s \/ waits_to_write c s ->
            (pcs c s <> PDone /\ running (pcs c s) = 1) /\ exists s', closed (ends c s') = false) as Hwait.
  { intros s [(Hp & Ho & _)|(data & Hp & _ & _ & Ho & _)]; rewrite Hp; (split; [done|by eexists]). }
  assert (forall s, isNil c ClientSide = true /\ isNil c UpstreamSide = true -> pcs c s = PDone /\ closed (ends c s) = true)
    as Hdone.
  { intros s [Hn1 Hn2]. assert (forall s', closed (ends c s') = true) as Hcl by (intros []; by rewrite <- Hn).
    split; [|done]. destruct (Hpc s) as [|Hs]; [done|]. destruct (Hwait s Hs) as [_ [s' Ho]]. by rewrite Hcl in Ho. }
  assert ((exists s, pcs c s = PDone) \/ forall s, waits_to_read c s \/ waits_to_write c s) as [[s Hs]|Hall].
  { destruct (Hpc ClientSide), (Hpc UpstreamSide); [by left; eexists..|]. right. by intros []. }
  - right. pose proof (fun s' => Hdone s' (Hc s ltac:(by rewrite Hs))) as Hd'. split; [done|].
    destruct (Hd' ClientSide) as [H1 _], (Hd' UpstreamSide) as [H2 _]. split; [|by rewrite Hw, H1, H2].
    destruct (registered c); [|done]. by destruct (proj1 Hr eq_refl ClientSide).
  - left. split; [done|]. destruct Hstop as [Hk|Hk].
    2:{ destruct (Hdone ClientSide (Hkdone Hk)) as [H1 _]. by destruct (Hwait ClientSide (Hall _)) as [[? _] _]. }
    split; [done|]. split.
    + apply Hr. intros s. by destruct (Hwait s (Hall s)) as [[? _] _].
    + rewrite Hw. destruct (Hwait ClientSide (Hall _)) as [[_ ->] _], (Hwait UpstreamSide (Hall _)) as [[_ ->] _]. done.
Qed.
End relay.

(** [TCPConnection] of the HTTP protocol: the same goroutines, with buffers of 1024 bytes. *)
Definition TCPConnectionBufferSize (s : Side) : nat := 1024.
Definition TCPConnection_step : Connection -> Connection -> Prop := step TCPConnectionBufferSize.

(** ** The crash

    The upstream server closes while data of the client is between [Read] and [Write]:
    the other goroutine aborts, [Close] sets both fields to nil, and [Write] is called on
    a nil interface. *)

Section examples.
Let size : Side -> nat := fun _ => 4%nat.

Ltac go c := eapply rtc_l; [by left; eapply c|].

(** Both goroutines wait for bytes. *)
Definition waiting_connection : Connection := set_pc UpstreamSide PReading (set_pc ClientSide PReading new_connection).

Lemma waiting_reached : rtc (step size) new_connection waiting_connection.
Proof. go (i_load_source size ClientSide). go (i_load_source size UpstreamSide). apply rtc_refl. Qed.

Lemma relay_crash_reachable :
  exists c, rtc (step size) new_connection c /\ crashed c = true.
Proof.
  eexists. split.
  - etransitivity; [apply waiting_reached|].
    eapply rtc_l; [right; by apply (e_arrive ClientSide "x"%go)|].
    eapply rtc_l; [left; eapply (i_read size ClientSide 1); try done; unfold size; cbn; lia|].
    eapply rtc_l; [right; by apply (e_peer_close UpstreamSide)|].
    eapply rtc_l; [left; eapply (i_read_error size UpstreamSide); try done; by right|].
    go (i_lock size UpstreamSide). go (i_close1 size UpstreamSide). go (i_close2 size UpstreamSide).
    eapply rtc_l; [left; by eapply (i_load_destination_nil size ClientSide)|]. apply rtc_refl.
  - done.
Qed.

Lemma relay_in_order_witness :
  sent (ends waiting_connection UpstreamSide) `prefix_of` arrived (ends waiting_connection ClientSide).
Proof.
  destruct (relay_in_order size waiting_connection ClientSide waiting_reached) as [Hp _].
  exact Hp.
Defined.

(** The client sent a byte, and the upstream server does not read. *)
Definition blocked_connection : Connection :=
  set_pc ClientSide (PWriting "x"%go)
    (set_pc ClientSide (PRead "x"%go)
       (set_end ClientSide (mkEnd "x"%go [] false [] false 0 false)
          (set_end ClientSide (mkEnd "x"%go "x"%go false [] false 0 false) waiting_connection))).

Lemma blocked_reached : rtc (step size) new_connection blocked_connection.
Proof.
  etransitivity; [apply waiting_reached|].
  eapply rtc_l; [right; by apply (e_arrive ClientSide "x"%go)|].
  eapply rtc_l; [left; eapply (i_read size ClientSide 1); try done; unfold size; cbn; lia|].
  eapply rtc_l; [left; by eapply (i_load_destination size ClientSide "x"%go)|]. apply rtc_refl.
Qed.

Lemma blocked_stuck c : ~ internal size blocked_connection c.
Proof.
  inversion 1; subst; try (destruct s); cbn in *;
    repeat match goal with
    | H : upd _ _ _ _ = _ |- _ => cbn in H
    | H : _ \/ _ |- _ => destruct H
    | H : _ /\ _ |- _ => destruct H
    end; simplify_eq/=; try discriminate; try lia.
Qed.

Lemma relay_settles_witness :
  waits_to_write blocked_connection ClientSide /\ waits_to_read blocked_connection UpstreamSide
  /\ stopPc blocked_connection = KNone /\ registered blocked_connection = true /\ wg blocked_connection = 2.
Proof.
  destruct (relay_settles size blocked_connection ltac:(intros; unfold size; lia) blocked_reached blocked_stuck)
    as [Hc | [(Hs & Hk & Hr & Hw) | (Hs & _)]].
  - discriminate Hc.
  - split; [|split; [|split; [exact Hk|split; [exact Hr|exact Hw]]]].
    + destruct (Hs ClientSide) as [(Hp & _)|Hwait]; [discriminate Hp|exact Hwait].
    + destruct (Hs UpstreamSide) as [Hwait|(data & Hp & _)]; [exact Hwait|discriminate Hp].
  - destruct (Hs ClientSide) as [Hd _]. discriminate Hd.
Defined.
End examples.

(** ** The protocol: accepting connections and stopping *)

(** [Protocol]: the registered connections, and of the connections accepted so far those
    that are open and those whose goroutines run. *)
Record Protocol := mkProtocol {
  connections : gset nat;
  open_conns : gset nat;
  relaying : gset nat;
  p_wg : Z
}.

(** [registerConnection] *)
Definition registerConnection (conn : nat) (p : Protocol) : Protocol :=
  mkProtocol (connections p ∪ {[conn]}) (open_conns p) (relaying p) (p_wg p).

(** [unregisterConnection] *)
Definition unregisterConnection (conn : nat) (p : Protocol) : Protocol :=
  mkProtocol (connections p ∖ {[conn]}) (open_conns p) (relaying p) (p_wg p).

(** [handleConnection] for the accepted connection [conn], whose remote address is
    printed [remoteAddr], when [dialed] is the result of [net.Dial]. *)
Definition handleConnection (remoteAddr : option gostring) (dialed : outcome unit) (conn : nat)
  (p : Protocol) : Protocol :=
  match ConnectionRemoteAddress remoteAddr with
  | Ret _ =>
      match dialed with
      | Ret _ =>
          let p := registerConnection conn p in
          mkProtocol (connections p) (open_conns p) (relaying p ∪ {[conn]}) (p_wg p + 2)
      | _ => mkProtocol (connections p) (open_conns p ∖ {[conn]}) (relaying p) (p_wg p)
      end
  | _ => p
  end.

(** [StatusData] *)
Definition NbConnections (p : Protocol) : Z := Z.of_nat (size (connections p)).

(** The loop of [listen], and the stages of [boulevard.Server.Stop], which closes the
    listeners and then calls [Protocol.Stop]. *)
Inductive ListenPc := LAccepting | LHandling (conn : nat) | LDone.
Inductive StopStage := SRunning | SListenersClosed | SWaiting | SStopped.

Inductive proto_step : Protocol * ListenPc * StopStage -> Protocol * ListenPc * StopStage -> Prop :=
  | p_accept conn p :
      conn ∉ open_conns p ->
      proto_step (p, LAccepting, SRunning)
        (mkProtocol (connections p) (open_conns p ∪ {[conn]}) (relaying p) (p_wg p), LHandling conn, SRunning)
  | p_accept_error p stage :
      stage <> SRunning ->
      proto_step (p, LAccepting, stage)
        (mkProtocol (connections p) (open_conns p) (relaying p) (p_wg p - 1), LDone, stage)
  | p_handle remoteAddr dialed conn p stage :
      proto_step (p, LHandling conn, stage) (handleConnection remoteAddr dialed conn p, LAccepting, stage)
  | p_relay_end conn p l stage :
      conn ∈ relaying p -> conn ∉ open_conns p ->
      proto_step (p, l, stage)
        (let p := unregisterConnection conn p in
         mkProtocol (connections p) (open_conns p) (relaying p ∖ {[conn]}) (p_wg p - 2), l, stage)
  | p_peer_close conn p l stage :
      conn ∈ relaying p ->
      proto_step (p, l, stage)
        (mkProtocol (connections p) (open_conns p ∖ {[conn]}) (relaying p) (p_wg p), l, stage)
  | p_stop_listeners p l : proto_step (p, l, SRunning) (p, l, SListenersClosed)
  | p_stop_close p l :
      proto_step (p, l, SListenersClosed)
        (mkProtocol (connections p) (open_conns p ∖ connections p) (relaying p) (p_wg p), l, SWaiting)
  | p_stop_done p l : p_wg p = 0 -> proto_step (p, l, SWaiting) (p, l, SStopped).

(** [Start] with one listener. *)
Definition started : Protocol := mkProtocol ∅ ∅ ∅ 1.

(** [Stop] can wait for ever: a connection that was being set up when the registered ones
    were closed is registered afterwards, and nothing will close it. *)
Lemma stop_misses_connection :
  exists p, rtc proto_step (started, LAccepting, SRunning) (p, LDone, SWaiting)
    /\ 7%nat ∈ open_conns p /\ 7%nat ∈ relaying p /\ p_wg p = 2.
Proof.
  eexists. split.
  - eapply rtc_l; [by apply (p_accept 7)|].
    eapply rtc_l; [by apply p_stop_listeners|].
    eapply rtc_l; [by apply p_stop_close|].
    eapply rtc_l; [by apply (p_handle (Some "1.2.3.4:5"%go) (Ret tt))|].
    eapply rtc_l; [by apply p_accept_error|]. apply rtc_refl.
  - by_decision.
Qed.

(** A connection whose remote address is not understood is never closed. *)
Lemma handleConnection_leaks remoteAddr dialed conn p e :
  ConnectionRemoteAddress remoteAddr = Throw e -> handleConnection remoteAddr dialed conn p = p.
Proof. intros He. unfold handleConnection. by rewrite He. Qed.

(** ** What is logged when a relay ends *)

(** Whether [Connection.abort] logs the error at the debug level only. *)
Definition abort_silent (LogTLSErrors : bool) (err : error) : bool :=
  IsSilentIOError err || negb (LogTLSErrors && IsTLSError err).

(** [isSilentIOError] of the HTTP protocol. *)
Definition isSilentIOError (err : error) : bool :=
  if errors_Is err io_EOF || errors_Is err net_ErrClosed then true
  else match find_syscall_error err with Some errno => errno =? 32 | None => false end.

(** An error that has nothing to do with TLS is never logged as an error by the TCP
    protocol, whatever the configuration. *)
Lemma abort_hides_errors LogTLSErrors err : IsTLSError err = false -> abort_silent LogTLSErrors err = true.
Proof. intros He. unfold abort_silent. by rewrite He, andb_false_r, orb_true_r. Qed.

(** The HTTP protocol is silent about fewer errors than the TCP protocol. *)
Lemma isSilentIOError_weaker err : isSilentIOError err = true -> IsSilentIOError err = true.
Proof.
  unfold isSilentIOError, IsSilentIOError. destruct (errors_Is err io_EOF); cbn; [done|].
  destruct (errors_Is err net_ErrClosed); cbn; [by destruct (errors_Is _ _)|].
  destruct (errors_Is _ _); [done|]. destruct (find_syscall_error err); [|done].
  intros ->. by rewrite orb_true_r.
Qed.
