(* ===== verification/FcgiAction.v ===== *)
(** * The FastCGI action (pkg/protocols/http/action_fastcgi.go)

    The creation of the action and the request it makes: the body of the request is
    buffered, sent to the application with its parameters ([HttpActions]), and the
    response is buffered and sent to the client.  It ties together the spill buffers, the
    FastCGI client and the context of the request. *)

From S2P Require Import Prelude GoStrings NetIP HttpHeader NetAddresses FormatString.
From S2P Require Import FcgiProtocol FcgiHeader FcgiConnection FcgiInterrupt FcgiClient SpillBuffer.
From S2P Require Import HttpContext HttpAuth HttpHandler HttpServer HttpActions.

(** ** The action *)

Definition DefaultBodyMemoryBufferSize : Z := 128 * 1024.
Definition DefaultMaxBodySize : Z := 4 * 1024 * 1024.
Definition DefaultRequestTimeout : Z := 10 * 1000000000.

(** The settings of [FastCGIActionCfg] besides those of the parameters; [None] is a nil
    pointer. *)
Record FastCGISettings := mkSettings {
  ScriptRegexp : gostring;
  TemporaryDirectory : gostring;
  RequestBodyMemoryBufferSize : option Z;
  MaxRequestBodySize : option Z;
  ResponseBodyMemoryBufferSize : option Z;
  MaxResponseBodySize : option Z;
  RequestTimeout : option Z
}.

(** [FastCGIAction]; [fa_scriptRE] is [FindString] of the compiled expression, and
    [fa_client] is nil before [Start]. *)
Record FastCGIAction := mkFastCGI {
  fa_Cfg : FastCGIActionCfg;
  fa_scriptRE : option (gostring -> gostring);
  tmpDirPath : gostring;
  reqBodyMemBufSize : Z;
  maxReqBodySize : Z;
  resBodyMemBufSize : Z;
  maxResBodySize : Z;
  requestTimeout : Z;
  fa_client : option Client
}.

(** The expression [NewFastCGIAction] compiles. *)
Definition script_expression (s : gostring) : outcome gostring :=
  match s with
  | c :: _ =>
      if bool_decide (c <> "^"%char) && bool_decide (c <> "/"%char)
      then Throw (Errorf "script regexp must match an absolute path"%go)
      else Ret (if bool_decide (c <> "^"%char) then "^"%go ++ s else s)
  | [] => Ret s
  end.

(** [NewFastCGIAction]; [Compile] is [regexp.Compile] and [MkdirTemp] the result of
    [os.MkdirTemp]. *)
Definition NewFastCGIAction (Compile : gostring -> outcome (gostring -> gostring))
  (MkdirTemp : outcome gostring) (cfg : FastCGIActionCfg) (settings : FastCGISettings)
  : outcome FastCGIAction :=
  re ← (if bool_decide (ScriptRegexp settings <> []) then
          s ← script_expression (ScriptRegexp settings);
          re ← wrap_error "cannot parse script regexp"%go (Compile s);
          Ret (Some re)
        else Ret None);
  dir ← (if bool_decide (TemporaryDirectory settings = [])
         then wrap_error "cannot create temporary directory"%go MkdirTemp
         else Ret (TemporaryDirectory settings));
  Ret (mkFastCGI cfg re dir
    (default DefaultBodyMemoryBufferSize (RequestBodyMemoryBufferSize settings))
    (default DefaultMaxBodySize (MaxRequestBodySize settings))
    (default DefaultBodyMemoryBufferSize (ResponseBodyMemoryBufferSize settings))
    (default DefaultMaxBodySize (MaxResponseBodySize settings))
    (default DefaultRequestTimeout (RequestTimeout settings))
    None).

Definition set_client (cl : option Client) (a : FastCGIAction) : FastCGIAction :=
  mkFastCGI (fa_Cfg a) (fa_scriptRE a) (tmpDirPath a) (reqBodyMemBufSize a) (maxReqBodySize a)
    (resBodyMemBufSize a) (maxResBodySize a) (requestTimeout a) cl.

(** [FastCGIAction.Start]; [ds] are the connections its client will establish. *)
Definition FastCGIAction_Start (ds : list (outcome FcgiConn)) (a : FastCGIAction) : FastCGIAction :=
  set_client (Some (NewClient ds)) a.

(** [FastCGIAction.Stop], with the directories it deletes; [Close] of a nil client
    panics. *)
Definition FastCGIAction_Stop : ST (FastCGIAction * list gostring) unit := fun '(a, deleted) =>
  match fa_client a with
  | None => (Panic, (a, deleted))
  | Some cl =>
      let '(r, cl) := Client_Close cl in
      let a := set_client (Some cl) a in
      match r with
      | Ret _ => (Ret tt, (a, deleted ++ [tmpDirPath a]))
      | _ => (r, (a, deleted))
      end
  end.

(** ** Requests *)

(** What [HandleRequest] reaches: the context, the client, and the two spill buffers. *)
Record FcgiState (W A : Type) := mkFS {
  fs_ctx : RequestContext W A;
  fs_client : Client;
  fs_reqBody : SpillBuffer;
  fs_resBody : SpillBuffer
}.
Arguments mkFS {W A}.
Arguments fs_ctx {W A}.
Arguments fs_client {W A}.
Arguments fs_reqBody {W A}.
Arguments fs_resBody {W A}.

(** [newRequestBodySpillBuffer], [newResponseBodySpillBuffer], on the disk that holds the
    randomly named file. *)
Definition newRequestBodySpillBuffer (a : FastCGIAction) (disk : Disk) : SpillBuffer :=
  NewSpillBuffer disk (reqBodyMemBufSize a) (maxReqBodySize a).
Definition newResponseBodySpillBuffer (a : FastCGIAction) (disk : Disk) : SpillBuffer :=
  NewSpillBuffer disk (resBodyMemBufSize a) (maxResBodySize a).

(** [io.Copy] into a spill buffer of the pieces a body gives, ended by the error [err] or
    the end of the body. *)
Fixpoint copy_in (pieces : list gostring) (err : option error) (written : Z) : ST SpillBuffer Z :=
  match pieces with
  | [] => match err with None => mret written | Some e => throw e end
  | data :: pieces' => fun b =>
      let '(n, werr, b) := Writer_Write b data in
      match werr with
      | Some e => (Throw e, b)
      | None =>
          if n =? len data then copy_in pieces' err (written + n) b
          else (Throw (ErrVar "io.ErrShortWrite"%go), b)
      end
  end.

(** What a request meets: its body, what the [select] of each attempt sees, the fuel of the
    streams, the build id, the port of the listener, and the pieces a file is copied in. *)
Record FcgiEncounter := mkFE {
  fe_body : list gostring;
  fe_bodyError : option error;
  fe_sel1 : select_case;
  fe_sel2 : select_case;
  fe_fuel : nat;
  fe_buildId : gostring;
  fe_port : Z;
  fe_pieces : gostring -> list gostring
}.

Section request.
Context {W A : Type} `{HttpWriter W, GoUnicode, GoText, !HttpHandler.MapRange, !FcgiClient.MapRange}.
Let FS := FcgiState W A.
Let M := ST FS.

Definition on_fctx {B} (m : ST (RequestContext W A) B) : M B :=
  zoom fs_ctx (fun c s => mkFS c (fs_client s) (fs_reqBody s) (fs_resBody s)) m.
Definition on_reqBody {B} (m : ST SpillBuffer B) : M B :=
  zoom fs_reqBody (fun b s => mkFS (fs_ctx s) (fs_client s) b (fs_resBody s)) m.
Definition on_resBody {B} (m : ST SpillBuffer B) : M B :=
  zoom fs_resBody (fun b s => mkFS (fs_ctx s) (fs_client s) (fs_reqBody s) b) m.

(** A deferred [Close], whose error is only logged. *)
Definition close_logged : ST SpillBuffer unit := _ ← attempt Close; mret tt.

(** [a.client.SendRequest] for the buffered body; the client has no limit. *)
Definition send_request (e : FcgiEncounter) (params : list NameValuePair) (stdin : gostring) : M FHeader := fun s =>
  let '(r, st) :=
    SendRequest None (fe_sel1 e) (fe_sel2 e) (fe_fuel e) RoleResponder params
      (mkSend (fs_client s) (Some (NewReader stdin)) None (fs_resBody s) []) in
  (r, mkFS (fs_ctx s) (s_client st) (fs_reqBody s) (s_stdout st)).

(** The status of a failed request. *)
Definition fcgi_error_status (err : error) : Z :=
  if errors_Is err ErrServerOverloaded then 503
  else if errors_Is err ErrRequestTimeout then 504
  else 500.

(** The pieces [io.Copy] writes of a response body: one for a [bytes.Reader]. *)
Definition body_pieces (e : FcgiEncounter) (b : SpillBuffer) (data : gostring) : list gostring :=
  if sb_file b then fe_pieces e data else reader_pieces data.

(** From the response of the application to the reply. *)
Definition reply_response (e : FcgiEncounter) (resHeader : FHeader) : M unit :=
  r ← attempt (fun s => (Reader (fs_resBody s), s));
  match r with
  | inl _ => on_fctx (ReplyError 500)
  | inr data =>
      size ← gets (fun s => Size (fs_resBody s));
      pieces ← gets (fun s => body_pieces e (fs_resBody s) data);
      _ ← on_fctx (change_header (fun h =>
            Header_Set (CopyToHTTPHeader resHeader h) "Content-Length"%go (Itoa size)));
      on_fctx (Reply (fst (Header_Status resHeader)) (Some pieces))
  end.

(** The part of [FastCGIAction.HandleRequest] that follows the creation of the buffer of
    the response. *)
Definition send_and_reply (e : FcgiEncounter) (params : list NameValuePair) (stdin : gostring) : M unit :=
  deferred (on_resBody close_logged)
    (r ← attempt (send_request e params stdin);
     match r with
     | inl err => on_fctx (ReplyError (fcgi_error_status err))
     | inr resHeader => reply_response e resHeader
     end).

(** The parameters of a request with a body of [size] bytes. *)
Definition fcgi_params (a : FastCGIAction) (e : FcgiEncounter) (size : Z) (s : FS) : list NameValuePair :=
  map (fun '(n, v) => mkPair n v)
    (requestParameters (fa_Cfg a) (fa_scriptRE a) (fe_buildId e) (fe_port e) size (fs_ctx s)).

(** [FastCGIAction.HandleRequest], on buffers just created. *)
Definition FastCGIAction_HandleRequest (a : FastCGIAction) (e : FcgiEncounter) : M unit :=
  deferred (on_reqBody close_logged)
    (r ← attempt (on_reqBody (copy_in (fe_body e) (fe_bodyError e) 0));
     match r with
     | inl _ => on_fctx (ReplyError 500)
     | inr reqBodySize =>
         params ← gets (fcgi_params a e reqBodySize);
         r ← attempt (fun s => (Reader (fs_reqBody s), s));
         match r with
         | inl _ => on_fctx (ReplyError 500)
         | inr stdin => send_and_reply e params stdin
         end
     end).
End request.

(** ** Responses written to a spill buffer

    On a spill buffer of [max] bytes the reader of responses does what it does on an
    unbounded buffer, as long as what it writes fits: each of its steps keeps the two
    states related. *)

Section spill_simulation.
Context (max : Z).
Implicit Type s : RespState bytes_Buffer.
Implicit Type t : RespState SpillBuffer.

Record related s t : Prop := {
  rel_conn : p_conn s = p_conn t;
  rel_stderr : p_stderr s = p_stderr t;
  rel_holds : holds (p_stdout t) (buf_Bytes (p_stdout s));
  rel_max : maxBufferSize (p_stdout t) = max
}.

Definition written s : gostring := buf_Bytes (p_stdout s).

Record follows {B} (m1 : ST (RespState bytes_Buffer) B) (m2 : ST (RespState SpillBuffer) B) : Prop := {
  fo_grows : forall s, exists ext, written (m1 s).2 = written s ++ ext;
  fo_same : forall s t, related s t -> len (written (m1 s).2) <= max ->
    exists t', m2 t = ((m1 s).1, t') /\ related (m1 s).2 t'
}.

Lemma follows_const {B} (r : outcome B) : follows (fun x => (r, x)) (fun x => (r, x)).
Proof. split; [intros s; exists []; by rewrite app_nil_r|]. intros s t Hs _. by exists t. Qed.

Lemma follows_bind {B C} m1 m2 (f1 : B -> ST (RespState bytes_Buffer) C) f2 :
  follows m1 m2 -> (forall b, follows (f1 b) (f2 b)) -> follows (m1 ≫= f1) (m2 ≫= f2).
Proof.
  intros [Hg Hm] Hf. unfold mbind, st_bind. split.
  - intros s. destruct (Hg s) as [ext Hext]. destruct (m1 s) as [[b|e| |] s'] eqn:E; cbn [fst snd] in *.
    2-4: by exists ext.
    destruct (fo_grows _ _ (Hf b) s') as [ext' Hext']. exists (ext ++ ext'). by rewrite Hext', Hext, app_assoc.
  - intros s t Hs Hl. specialize (Hm s t Hs).
    destruct (m1 s) as [[b|e| |] s'] eqn:E; cbn [fst snd] in *.
    2-4: destruct (Hm Hl) as (t' & -> & Hs2); by exists t'.
    destruct (fo_grows _ _ (Hf b) s') as [ext' Hext'].
    destruct Hm as (t' & -> & Hs2).
    { rewrite Hext', len_app in Hl. pose proof (len_nonneg _ ext'). lia. }
    by apply (fo_same _ _ (Hf b)).
Qed.

Lemma follows_wrap {B} msg m1 m2 : follows (B := B) m1 m2 -> follows (wrapST msg m1) (wrapST msg m2).
Proof.
  intros [Hg Hm]. unfold wrapST. split.
  - intros s. specialize (Hg s). by destruct (m1 s).
  - intros s t Hs Hl. specialize (Hm s t Hs). destruct (m1 s) as [r s']. cbn [fst snd] in *.
    destruct (Hm Hl) as (t' & -> & Hs2). by exists t'.
Qed.

Lemma follows_conn {B} (m : ST FcgiConn B) : follows (resp_conn m) (resp_conn m).
Proof.
  unfold resp_conn, zoom. split.
  - intros s. exists []. rewrite app_nil_r. by destruct (m (p_conn s)).
  - intros s t [Hc He Hh Hm] _. rewrite <- Hc. destruct (m (p_conn s)) as [r c].
    eexists. split; [reflexivity|]. by constructor.
Qed.

Lemma follows_stdout_write data : follows (stdout_write data) (stdout_write data).
Proof.
  unfold stdout_write. split.
  - intros s. by exists data.
  - intros s t [Hc He Hh Hm] Hl. cbn in Hl. unfold written in Hl. rewrite len_app in Hl.
    pose proof (len_nonneg _ data). pose proof (len_nonneg _ (buf_Bytes (p_stdout s))).
    pose proof (h_bound _ _ Hh). cbn [Writer_Write SpillBuffer_writer bytes_Buffer_writer].
    destruct (Write_simulates (p_stdout t) (buf_Bytes (p_stdout s)) data Hh ltac:(lia))
      as (n & b' & -> & Hh' & Hmax' & _ & _).
    unfold bounded_write in *. rewrite Hm in *. rewrite (proj2 (Z.ltb_ge _ _)) in * by lia.
    eexists. split; [reflexivity|]. by constructor.
Qed.

Lemma follows_modify_stderr data :
  follows (modify (fun x => mkResp (p_conn x) (p_stdout x) (p_stderr x ++ data)))
          (modify (fun x => mkResp (p_conn x) (p_stdout x) (p_stderr x ++ data))).
Proof.
  split.
  - intros s. exists []. by rewrite app_nil_r.
  - intros s t [Hc He Hh Hm] _. eexists. split; [reflexivity|]. constructor; [done| |done|done].
    cbn. by rewrite He.
Qed.

Lemma follows_gets_stderr : follows (gets p_stderr) (gets p_stderr).
Proof.
  split; [intros s; exists []; by rewrite app_nil_r|].
  intros s t Hs _. exists t. unfold gets. by rewrite (rel_stderr _ _ Hs).
Qed.

Ltac follow :=
  repeat first
    [ apply follows_const | apply follows_conn | apply follows_stdout_write
    | apply follows_modify_stderr | apply follows_gets_stderr | apply follows_wrap | done
    | apply follows_bind; [|intros] | case_goal ].

Lemma readResponse_loop_follows fuel h hr :
  follows (readResponse_loop fuel h hr) (readResponse_loop fuel h hr).
Proof.
  revert h hr. induction fuel as [|fuel IH]; intros h hr; cbn [readResponse_loop]; follow.
Qed.

Lemma readResponse_follows : follows readResponse readResponse.
Proof.
  split.
  - intros s. apply readResponse_loop_follows.
  - intros s t Hs Hl. unfold readResponse. rewrite <- (rel_conn _ _ Hs).
    by apply (fo_same _ _ (readResponse_loop_follows _ _ _)).
Qed.
End spill_simulation.

(** ** What computations keep true of their state *)

Section keeps.
Context {S : Type} (Q : S -> Prop).

Definition keeps {B} (m : ST S B) : Prop := forall s, Q s -> Q (m s).2.

Lemma keeps_const {B} (r : outcome B) : keeps (fun s => (r, s)).
Proof. by intros s. Qed.

Lemma keeps_bind {B C} (m : ST S B) (f : B -> ST S C) :
  keeps m -> (forall b, keeps (f b)) -> keeps (m ≫= f).
Proof.
  intros Hm Hf s Hs. specialize (Hm s Hs). unfold mbind, st_bind.
  destruct (m s) as [[b|e| |] s']; cbn [snd] in *; [|done..]. by apply Hf.
Qed.

Lemma keeps_wrap {B} msg (m : ST S B) : keeps m -> keeps (wrapST msg m).
Proof. intros Hm s Hs. specialize (Hm s Hs). unfold wrapST. by destruct (m s). Qed.

Lemma keeps_attempt {B} (m : ST S B) : keeps m -> keeps (attempt m).
Proof. intros Hm s Hs. specialize (Hm s Hs). unfold attempt. by destruct (m s) as [[?|?| |] ?]. Qed.

Lemma keeps_deferred {B} f (m : ST S B) : keeps f -> keeps m -> keeps (deferred f m).
Proof.
  intros Hf Hm s Hs. specialize (Hm s Hs). unfold deferred.
  destruct (m s) as [[b|e| |] s']; cbn [snd] in *; try done;
    specialize (Hf s' Hm); by destruct (f s') as [[?|?| |] ?].
Qed.

Lemma keeps_gets {B} (f : S -> B) : keeps (gets f).
Proof. by intros s. Qed.

Lemma keeps_modify (f : S -> S) : (forall s, Q s -> Q (f s)) -> keeps (modify f).
Proof. intros Hf s Hs. by apply Hf. Qed.
End keeps.

(** ** Properties of the response writer

    What every write keeps true of the writer, a request keeps true of it, whatever the
    application and the network do. *)

Section writer_invariant.
Context {R W : Type} `{io_Reader R, io_Writer W} `{!FcgiClient.MapRange}.
Context (P : W -> Prop).
Hypothesis Write_keeps : forall w d, P w -> P (Writer_Write w d).2.

Abbreviation on_stdout := (fun s => P (p_stdout s)).
Abbreviation on_s_stdout := (fun s : SendState => P (s_stdout s)).

Lemma keeps_conn {B} (m : ST FcgiConn B) : keeps on_stdout (resp_conn (W := W) m).
Proof using Type. intros s Hs. unfold resp_conn, zoom. by destruct (m (p_conn s)). Qed.

Lemma keeps_client {B} (m : ST Client B) : keeps on_s_stdout (on_client (R := R) (W := W) m).
Proof using Type. intros s Hs. unfold on_client, zoom. by destruct (m (s_client s)). Qed.

Lemma keeps_stdout_write data : keeps on_stdout (stdout_write data).
Proof using Type Write_keeps.
  intros s Hs. unfold stdout_write. specialize (Write_keeps (p_stdout s) data Hs).
  by destruct (Writer_Write (p_stdout s) data) as [[n err] w].
Qed.

Ltac keep :=
  repeat first
    [ apply keeps_const | apply keeps_conn | apply keeps_client | apply keeps_stdout_write
    | apply keeps_gets | (by apply keeps_modify) | apply keeps_wrap | done
    | apply keeps_bind; [|intros] | case_goal ].

Lemma keeps_readResponse_loop fuel h hr : keeps on_stdout (readResponse_loop (W := W) fuel h hr).
Proof using Type Write_keeps.
  revert h hr. induction fuel as [|fuel IH]; intros h hr; cbn [readResponse_loop]; keep.
Qed.

Lemma keeps_readResponse : keeps on_stdout readResponse.
Proof using Type Write_keeps. intros s Hs. by apply keeps_readResponse_loop. Qed.

Lemma keeps_exchange fuel role params q stdout stderr :
  P stdout -> P (p_stdout (exchange (R := R) (W := W) fuel role params q stdout stderr).2.2).
Proof using Type Write_keeps.
  intros Hs. unfold exchange. destruct (wrapST _ _ _) as [[[]|e| |] q']; try done.
  pose proof (keeps_wrap on_stdout "cannot read response"%go _ keeps_readResponse
                (mkResp (q_conn q') stdout stderr) Hs) as Hr.
  by destruct (wrapST _ _ _) as [r p].
Qed.

Lemma keeps_use_connection sel fuel role params k :
  keeps on_s_stdout (use_connection (R := R) (W := W) sel fuel role params k).
Proof using Type Write_keeps.
  intros s Hs. unfold use_connection. destruct (store (s_client s) !! k) as [conn|]; [|done].
  destruct sel as [|ctxErr calls partial]; cbn [Connection_SendRequest]; unfold interrupted, cut_exchange.
  all: match goal with |- context [exchange ?f ?r ?ps ?q ?o ?e] =>
         pose proof (keeps_exchange f r ps q o e Hs) as Hr; destruct (exchange f r ps q o e) as [res [q' p]] end.
  all: exact Hr.
Qed.

Lemma keeps_use_and_release sel fuel role params k :
  keeps on_s_stdout (use_and_release (R := R) (W := W) sel fuel role params k).
Proof using Type Write_keeps.
  intros s Hs. unfold use_and_release.
  pose proof (keeps_use_connection sel fuel role params k s Hs) as Hu.
  destruct (use_connection sel fuel role params k s) as [[header|err| |] s1]; cbn [snd] in Hu; [| |done..].
  - revert s1 Hu. change (keeps on_s_stdout (_ ← on_client (R := R) (W := W) (releaseConnection (Some k)); mret header)). keep.
  - revert s1 Hu.
    change (keeps on_s_stdout (_ ← close_connection (R := R) (W := W) k; _ ← on_client (releaseConnection (Some k)); throw (A := FHeader) err)).
    unfold close_connection. keep.
Qed.

Lemma keeps_SendRequest max sel1 sel2 fuel role params :
  keeps on_s_stdout (SendRequest (R := R) (W := W) max sel1 sel2 fuel role params).
Proof using Type Write_keeps.
  intros s Hs.
  assert (forall sel, keeps on_s_stdout (Client_sendRequest (R := R) (W := W) max sel fuel role params)) as Hc.
  { intros sel. unfold Client_sendRequest. keep. by apply keeps_use_and_release. }
  unfold SendRequest. pose proof (Hc sel1 s Hs) as Hr.
  destruct (Client_sendRequest max sel1 fuel role params s) as [[header|err| |] s1]; try done.
  destruct (isConnectionClosedWriteError err); [|done]. by apply Hc.
Qed.
End writer_invariant.

(** ** Temporary files *)

(** A buffer on a disk where files can be closed and deleted: the file exists only while
    it is open. *)
Record spill_ok (b : SpillBuffer) : Prop := {
  so_close : d_close_error (sb_disk b) = None;
  so_remove : d_remove_error (sb_disk b) = None;
  so_file : sb_file b = false -> d_file (sb_disk b) = None
}.

Definition no_file (b : SpillBuffer) : Prop := d_file (sb_disk b) = None.

Lemma file_write_errors data d :
  let d' := (file_write data d).2 in
  d_close_error d' = d_close_error d /\ d_remove_error d' = d_remove_error d.
Proof. unfold file_write. destruct (d_room d) as [[n e]|]; [|done]. by destruct (length data <=? n)%nat. Qed.

Lemma write_to_file_ok data b : spill_ok b -> sb_file b = true -> spill_ok (write_to_file data b).2.
Proof.
  intros [Hc Hr Hf] Ho. unfold write_to_file.
  pose proof (file_write_errors data (sb_disk b)) as [Hc' Hr'].
  destruct (file_write data (sb_disk b)) as [[n err] d]. cbn [snd] in *.
  destruct err; constructor; cbn; congruence.
Qed.

Lemma Write_spill_ok b data : spill_ok b -> spill_ok (Writer_Write b data).2.
Proof.
  intros Hb. cbn [Writer_Write SpillBuffer_writer]. unfold SpillBuffer_Write.
  destruct (_ <? _); [done|]. destruct (sb_file b) eqn:Ho; cbn [negb]; [by apply write_to_file_ok|].
  pose proof Hb as [Hc Hr Hf].
  destruct (_ <=? _); [by constructor|]. destruct (d_open_error (sb_disk b)); [done|].
  match goal with |- context [file_write ?x ?d] => pose proof (file_write_errors x d) as [Hc' Hr'];
    destruct (file_write x d) as [[n err] d'] end.
  cbn [snd set_file_open set_disk sb_disk] in Hc', Hr'.
  destruct err; [constructor; cbn in *; congruence|].
  apply write_to_file_ok; [|done]. constructor; cbn in *; congruence.
Qed.

Lemma close_logged_ok b :
  spill_ok b -> exists b', close_logged b = (Ret tt, b') /\ spill_ok b' /\ no_file b'.
Proof.
  intros [Hc Hr Hf]. unfold close_logged, attempt, mbind, st_bind, Close, no_file.
  destruct (sb_file b) eqn:Ho.
  - rewrite Hc. destruct (d_file (sb_disk (set_file_open false b))) eqn:Hd; cbn in Hd |- *; rewrite ?Hr;
      eexists; (split; [reflexivity|]); (split; [by constructor|done]).
  - specialize (Hf eq_refl). exists b. split; [done|]. split; [by constructor|done].
Qed.

(** What holds once a computation has ended, however it did. *)
Definition ends {S B} (Q : S -> Prop) (m : ST S B) (Q' : S -> Prop) : Prop :=
  forall s, Q s -> (m s).1 <> OutOfFuel -> Q' (m s).2.

Lemma ends_keeps {S B} (Q : S -> Prop) (m : ST S B) : keeps Q m -> ends Q m Q.
Proof. intros Hm s Hs _. by apply Hm. Qed.

Lemma ends_weaken {S B} (Q Q1 Q2 : S -> Prop) (m : ST S B) :
  ends Q1 m Q2 -> (forall s, Q s -> Q1 s) -> ends Q m Q2.
Proof. intros Hm Hq s Hs. apply Hm, Hq, Hs. Qed.

Lemma ends_bind {S B C} (Q Q' : S -> Prop) (m : ST S B) (f : B -> ST S C) :
  keeps Q m -> (forall s, Q s -> Q' s) -> (forall b, ends Q (f b) Q') -> ends Q (m ≫= f) Q'.
Proof.
  intros Hm Hq Hf s Hs. specialize (Hm s Hs). unfold mbind, st_bind.
  destruct (m s) as [[b|e| |] s']; cbn [fst snd] in *; auto. by apply Hf.
Qed.

Lemma ends_deferred {S B} (Q Q1 Q2 : S -> Prop) f (m : ST S B) :
  ends Q m Q1 -> ends Q1 f Q2 -> (forall s, (f s).1 <> OutOfFuel) -> ends Q (deferred f m) Q2.
Proof.
  intros Hm Hf Hc s Hs. specialize (Hm s Hs). unfold deferred.
  destruct (m s) as [[b|e| |] s']; cbn [fst snd] in *; try done; intros _;
    specialize (Hf s' (Hm ltac:(done)) (Hc s')); by destruct (f s') as [[?|?| |] ?].
Qed.

Section temporary_files.
Context {W A : Type} `{HttpWriter W, GoUnicode, GoText, !HttpHandler.MapRange, !FcgiClient.MapRange}.
Implicit Type s : FcgiState W A.

Definition files_ok s : Prop := spill_ok (fs_reqBody s) /\ spill_ok (fs_resBody s).
Definition response_closed s : Prop := files_ok s /\ no_file (fs_resBody s).
Definition no_files s : Prop := no_file (fs_reqBody s) /\ no_file (fs_resBody s).

Lemma keeps_fctx {B} (m : ST (RequestContext W A) B) (Q : FcgiState W A -> Prop) :
  (forall s c, Q s -> Q (mkFS c (fs_client s) (fs_reqBody s) (fs_resBody s))) -> keeps Q (on_fctx m).
Proof. intros Hq s Hs. unfold on_fctx, zoom. destruct (m (fs_ctx s)). by apply Hq. Qed.

Lemma copy_in_ok pieces err n : keeps spill_ok (copy_in pieces err n).
Proof.
  revert n. induction pieces as [|d ds IH]; intros n b Hb; cbn [copy_in].
  { by destruct err. }
  pose proof (Write_spill_ok b d Hb) as Hw.
  destruct (Writer_Write b d) as [[k werr] b']. cbn [snd] in Hw.
  destruct werr; [done|]. destruct (k =? len d); [by apply IH|done].
Qed.

Lemma keeps_reqBody {B} (m : ST SpillBuffer B) (Q : SpillBuffer -> Prop) :
  keeps spill_ok m ->
  keeps (fun s => spill_ok (fs_reqBody s) /\ Q (fs_resBody s)) (on_reqBody (W := W) (A := A) m).
Proof.
  intros Hm s [Hq Hs]. specialize (Hm _ Hq). unfold on_reqBody, zoom. by destruct (m (fs_reqBody s)).
Qed.

Lemma send_request_files e params stdin :
  keeps files_ok (send_request (W := W) (A := A) e params stdin).
Proof.
  intros s [Hq Hs]. unfold send_request.
  pose proof (keeps_SendRequest spill_ok Write_spill_ok None (fe_sel1 e) (fe_sel2 e) (fe_fuel e)
    RoleResponder params
    (mkSend (fs_client s) (Some (NewReader stdin)) None (fs_resBody s) []) Hs) as Hr.
  by destruct (SendRequest _ _ _ _ _ _ _) as [r st].
Qed.

Lemma reply_response_files e h : keeps files_ok (reply_response (W := W) (A := A) e h).
Proof.
  unfold reply_response. apply keeps_bind.
  { apply keeps_attempt. by intros s Hs. }
  intros [err|data]; [by apply keeps_fctx|].
  repeat (apply keeps_bind; [|intros ?]); try apply keeps_gets; by apply keeps_fctx.
Qed.

Lemma close_logged_total b : (close_logged b).1 <> OutOfFuel.
Proof.
  unfold close_logged, attempt, mbind, st_bind, Close.
  repeat case_goal; simplify_eq/=; try done; by repeat case_match; simplify_eq/=.
Qed.

Lemma close_resBody s :
  files_ok s -> response_closed (on_resBody (W := W) (A := A) close_logged s).2.
Proof.
  intros [Hq Hs]. unfold on_resBody, zoom.
  destruct (close_logged_ok _ Hs) as (b' & -> & Hb & Hn). done.
Qed.

Lemma close_reqBody s :
  response_closed s -> no_files (on_reqBody (W := W) (A := A) close_logged s).2.
Proof.
  intros [[Hq Hs] Hn]. unfold on_reqBody, zoom.
  destruct (close_logged_ok _ Hq) as (b' & -> & Hb & Hn'). done.
Qed.

Lemma zoom_total {B} get set (m : ST SpillBuffer B) (s : FcgiState W A) :
  (m (get s)).1 <> OutOfFuel -> (zoom get set m s).1 <> OutOfFuel.
Proof. unfold zoom. by destruct (m (get s)). Qed.

Lemma ends_send_and_reply e params stdin :
  ends files_ok (send_and_reply (W := W) (A := A) e params stdin) response_closed.
Proof.
  apply (ends_deferred _ files_ok).
  2:{ intros s' Hs' _. by apply close_resBody. }
  2:{ intros s'. apply zoom_total, close_logged_total. }
  apply ends_keeps, keeps_bind.
  { by apply keeps_attempt, send_request_files. }
  intros [err|h]; [by apply keeps_fctx|apply reply_response_files].
Qed.

(** [C22] No request leaves a temporary file: whatever its body, the application, the
    network and the timeout do, and however [HandleRequest] ends, a panic included, the
    files of the two buffers are gone when it has ended, if files can be closed and
    deleted (and the goroutine of [SendRequest] does not end the process). *)
Theorem fastcgi_deletes_files (a : FastCGIAction) (e : FcgiEncounter) s :
  files_ok s -> no_files s ->
  (FastCGIAction_HandleRequest a e s).1 <> OutOfFuel ->
  no_files (FastCGIAction_HandleRequest a e s).2.
Proof.
  intros Hok [_ Hn]. revert Hok Hn.
  assert (ends response_closed (FastCGIAction_HandleRequest a e) no_files) as Hends;
    [|intros Hok Hn; by apply Hends].
  assert (forall s, response_closed s -> files_ok s) as Hweak by by intros ? [? _].
  assert (forall m : ST (RequestContext W A) unit, keeps response_closed (on_fctx m)) as Hctx
    by (intros m; by apply keeps_fctx).
  unfold FastCGIAction_HandleRequest. apply (ends_deferred _ response_closed).
  2:{ intros s' Hs' _. by apply close_reqBody. }
  2:{ intros s'. apply zoom_total, close_logged_total. }
  apply ends_bind; [| done |intros r1].
  { apply keeps_attempt. intros s' [[Hq Hs'] Hn'].
    destruct (keeps_reqBody (copy_in (fe_body e) (fe_bodyError e) 0)
                (fun b => spill_ok b /\ no_file b) (copy_in_ok _ _ _) s' (conj Hq (conj Hs' Hn')))
      as (? & ? & ?). done. }
  destruct r1 as [err|reqBodySize]; [by apply ends_keeps|].
  apply ends_bind; [apply keeps_gets | done | intros params].
  apply ends_bind; [| done | intros r2].
  { apply keeps_attempt. by intros s' Hs'. }
  destruct r2 as [err|stdin]; [by apply ends_keeps|].
  apply (ends_weaken _ files_ok); [|done]. by apply ends_send_and_reply.
Qed.
End temporary_files.

(** ** The request and its answer *)

Lemma copy_in_holds pieces n content b :
  holds b content -> len content + len (concat pieces) <= maxBufferSize b ->
  exists b', copy_in pieces None n b = (Ret (n + len (concat pieces)), b')
    /\ holds b' (content ++ concat pieces) /\ maxBufferSize b' = maxBufferSize b.
Proof.
  revert n content b. induction pieces as [|d ds IH]; intros n content b Hh Hl; cbn [copy_in concat] in *.
  { exists b. rewrite len_nil, Z.add_0_r, app_nil_r. done. }
  rewrite len_app in Hl. pose proof (len_nonneg _ d). pose proof (len_nonneg _ content).
  pose proof (len_nonneg _ (concat ds)). pose proof (h_bound _ _ Hh).
  cbn [Writer_Write SpillBuffer_writer].
  destruct (Write_simulates b content d Hh ltac:(lia)) as (k & b1 & -> & Hh1 & Hmax & _ & ->).
  unfold bounded_write in *. rewrite (proj2 (Z.ltb_ge _ _)) in * by lia. cbn [fst snd] in *.
  rewrite Z.eqb_refl.
  destruct (IH (n + len d) (content ++ d) b1 Hh1) as (b' & -> & Hh' & Hmax').
  { rewrite len_app, Hmax. lia. }
  exists b'. rewrite len_app, <- app_assoc in *. split; [by rewrite Z.add_assoc|]. split; [done|congruence].
Qed.

(** A body that is too large, or cannot be read, is refused. *)
Lemma copy_in_refused pieces err n content b :
  holds b content -> err <> None \/ maxBufferSize b < len content + len (concat pieces) ->
  Forall (fun d => len d < 2 ^ 62) pieces ->
  exists e b', copy_in pieces err n b = (Throw e, b').
Proof.
  revert n content b. induction pieces as [|d ds IH]; intros n content b Hh Hl Hds; cbn [copy_in concat] in *.
  { destruct err as [e|]; [by exists e, b|]. destruct Hl as [?|Hl]; [done|].
    rewrite len_nil in Hl. pose proof (h_bound _ _ Hh). lia. }
  apply Forall_cons in Hds as [Hd Hds]. cbn [Writer_Write SpillBuffer_writer].
  destruct (Write_simulates b content d Hh Hd) as (k & b1 & -> & Hh1 & Hmax & _ & ->).
  unfold bounded_write in *. destruct (Z.ltb_spec (maxBufferSize b) (len content + len d)); cbn [fst snd] in *.
  { by eexists _, _. }
  rewrite Z.eqb_refl. apply (IH _ (content ++ d)); [done| |done].
  rewrite Hmax, len_app. rewrite len_app in Hl. destruct Hl; [by left|right; lia].
Qed.

(** The application answers with the fields [fs], the body [out] and the errors [err]. *)
Definition answers_with (conn : FcgiConn) (fs : list Field) (out err : gostring) : Prop :=
  exists body parts d e,
    let records := response_records 1 [] ((fs ≫= serialize_field) ++ [CR; LF] ++ body) parts
                     0 ProtocolStatusRequestComplete in
    Forall field_ok fs /\ Forall record_ok records /\ write_records records = Ret d
    /\ c_in conn = mkIncoming d e /\ out = body ++ (parts ≫= part_out) /\ err = parts ≫= part_err.

Definition answers (conn : FcgiConn) (fs : list Field) (out : gostring) : Prop :=
  exists err, answers_with conn fs out err.

Definition same_connection (conn : FcgiConn) {W} (s : RespState W) : Prop :=
  live (p_conn s) /\ c_sent (p_conn s) = c_sent conn.

Lemma readResponse_connection {W} `{io_Writer W} conn :
  keeps (same_connection conn) (readResponse (W := W)).
Proof.
  assert (keeps (same_connection conn) (resp_conn (W := W) conn_read)) as Hread.
  { intros s [Ho Hs]. unfold resp_conn, zoom, conn_read, same_connection. rewrite conn_call_live by done.
    by destruct (Record_Read (c_in (p_conn s))) as [[r i]|e| |]. }
  assert (forall b, keeps (same_connection conn) (resp_conn (W := W) (processValues b))) as Hvalues.
  { by intros b s [Ho Hs]. }
  assert (forall d, keeps (same_connection conn) (stdout_write (W := W) d)) as Hwrite.
  { intros d s Hs. unfold stdout_write. by destruct (Writer_Write (p_stdout s) d) as [[n err] w]. }
  intros s Hs. unfold readResponse. revert s Hs. generalize empty_header false.
  assert (forall fuel h hr, keeps (same_connection conn) (readResponse_loop (W := W) fuel h hr)) as Hloop.
  2: { intros h hr s Hs. by apply Hloop. }
  induction fuel as [|fuel IH]; intros h hr; cbn [readResponse_loop];
    repeat first [ apply keeps_const | apply keeps_gets | (by apply keeps_modify) | apply keeps_wrap
                 | done | apply keeps_bind; [|intros] | case_goal ].
Qed.

(** The response that is read into a buffer. *)
Lemma readResponse_buffer conn fs out err :
  live conn -> answers_with conn fs out err ->
  exists s, readResponse (mkResp conn (mkBuffer []) []) = (Ret (mkFHeader fs []), s)
    /\ buf_Bytes (p_stdout s) = out /\ p_stderr s = err /\ same_connection conn s.
Proof.
  intros Ho (body & parts & d & e & Hfs & Hok & Hw & Hin & -> & ->).
  assert (exists s, readResponse (mkResp conn (mkBuffer []) []) = (Ret (mkFHeader fs []), s)
    /\ buf_Bytes (p_stdout s) = body ++ (parts ≫= part_out) /\ p_stderr s = parts ≫= part_err) as (s & Hr & Hout & Herr).
  { unfold readResponse. cbn [p_conn]. rewrite Hin. cbn [in_data].
    destruct (response_tail_fuel _ _ _ _ _ _ Hw) as (fuel & ->).
    destruct (readResponse_tail (W := bytes_Buffer) 1 ((fs ≫= serialize_field) ++ [CR; LF] ++ body) parts 0 ProtocolStatusRequestComplete d [] e [] []
      (mkResp conn (mkBuffer []) []) fuel empty_header (mkFHeader fs []) body)
      as (s & Hr & _ & _ & _ & Hout & Herr).
    - rewrite app_nil_r. done.
    - done.
    - done.
    - by apply (Header_Parse_serialized fs body []).
    - exists s. split; [exact Hr|]. split; [exact Hout|exact Herr]. }
  exists s. split; [done|]. split; [done|]. split; [done|].
  pose proof (readResponse_connection conn (mkResp conn (mkBuffer []) []) (conj Ho eq_refl)) as Hk. by rewrite Hr in Hk.
Qed.

Lemma readResponse_answers conn fs out b :
  live conn -> answers conn fs out -> holds b [] -> len out <= maxBufferSize b ->
  exists p, readResponse (mkResp conn b []) = (Ret (mkFHeader fs []), p)
    /\ holds (p_stdout p) out /\ same_connection conn p.
Proof.
  intros Ho [err Ha] Hb Hl. destruct (readResponse_buffer conn fs out err Ho Ha) as (s & Hr & Hout & _ & _).
  pose proof (fo_same _ _ _ (readResponse_follows (maxBufferSize b)) (mkResp conn (mkBuffer []) []) (mkResp conn b [])) as Hf.
  rewrite Hr in Hf. destruct Hf as (p & Hp & [_ _ Hh _]); [by constructor|unfold written; cbn; by rewrite Hout|].
  exists p. cbn [fst snd] in *. rewrite Hout in Hh. split; [done|]. split; [done|].
  pose proof (readResponse_connection conn (mkResp conn b []) (conj Ho eq_refl)) as Hk.
  by rewrite Hp in Hk.
Qed.

(** The bytes of a request with the parameters [pdata] and the body [stdin]. *)
Definition request_sent (pdata stdin d : gostring) : Prop :=
  write_records (request_records RoleResponder 1 pdata (Some (stream_chunks stdin)) None) = Ret d.

(** A body that was buffered can be sent. *)
Lemma body_sendable fuel params pdata conn stdin :
  writable conn -> NameValuePairs_Encode params = Ret pdata -> (length pdata < fuel)%nat -> (length stdin < fuel)%nat ->
  sendable (mkReq conn (Some (NewReader stdin)) None) fuel params pdata (Some (stream_chunks stdin)) None.
Proof.
  intros Hw Henc Hf1 Hf2. destruct (chunks_facts (length stdin) stdin (le_n _)) as (Hp & _ & Hc).
  split; [done|]. split; [done|]. split; [by exists (NewReader [])|]. split; [done|].
  unfold chunk_count, stream_chunks. cbn. lia.
Qed.

Lemma body_request_sent fuel params pdata conn stdin :
  writable conn -> NameValuePairs_Encode params = Ret pdata -> (length pdata < fuel)%nat -> (length stdin < fuel)%nat ->
  exists d q, request_sent pdata stdin d
    /\ wrapST "cannot write request"%go (writeRequest fuel RoleResponder params 1)
         (mkReq conn (Some (NewReader stdin)) None) = (Ret tt, q)
    /\ q_conn q = sent conn d.
Proof.
  intros Hw Henc Hf1 Hf2. destruct (body_sendable _ _ _ _ _ Hw Henc Hf1 Hf2) as (_ & _ & Hin & Hdat & Hf).
  destruct (writeRequest_sent (mkReq conn (Some (NewReader stdin)) None) fuel RoleResponder params 1
              pdata (Some (stream_chunks stdin)) None) as (d & q & Hd & Hr & Hq); try done; try lia.
  exists d, q. split; [done|]. split; [by apply wrapST_ret|done].
Qed.

Lemma outcome_pair {A B C} (x : outcome A * (B * C)) r : x.1 = r -> x = (r, (x.2.1, x.2.2)).
Proof. by destruct x as [? []]; intros <-. Qed.

Lemma exchange_answers fuel params pdata conn stdin fs out b :
  writable conn -> answers conn fs out -> holds b [] -> len out <= maxBufferSize b ->
  NameValuePairs_Encode params = Ret pdata -> (length pdata < fuel)%nat -> (length stdin < fuel)%nat ->
  exists d q p, request_sent pdata stdin d
    /\ exchange fuel RoleResponder params (mkReq conn (Some (NewReader stdin)) None) b []
       = (Ret (mkFHeader fs []), (q, p))
    /\ holds (p_stdout p) out /\ live (q_conn q) /\ c_sent (q_conn q) = c_sent conn ++ d.
Proof.
  intros Hw Ha Hb Hl Henc Hf1 Hf2.
  destruct (body_request_sent fuel params pdata conn stdin Hw Henc Hf1 Hf2) as (d & q & Hd & Hr & Hq).
  unfold exchange. rewrite Hr, Hq.
  destruct (readResponse_answers (sent conn d) fs out b) as (p & Hp' & Hh & Ho & Hs); [done|done|done|done|].
  rewrite (wrapST_ret _ _ _ _ _ Hp'). exists d. do 2 eexists.
  split; [exact Hd|]. split; [reflexivity|]. by split_and!.
Qed.

Section exchange.
Context `{!FcgiClient.MapRange}.

(** The client has the idle connection [conn], the next one to be taken. *)
Record pool_ready (cl : Client) (k : nat) (conn : FcgiConn) : Prop := {
  pr_first : range_first (default ∅ (idleConns cl)) = Some k;
  pr_used : usedConns cl <> None;
  pr_released : releasedClosed cl = false;
  pr_store : store cl !! k = Some conn;
  pr_writable : writable conn
}.

Lemma pool_ready_acquire cl k conn :
  pool_ready cl k conn ->
  exists cl', acquireConnection None cl = (Ret (Some k), cl')
    /\ is_Some (idleConns cl') /\ releasedClosed cl' = false /\ store cl' = store cl
    /\ (k ∉ default ∅ (idleConns cl')).
Proof.
  intros [Hf Hu Hr Hs _]. unfold acquireConnection. rewrite Hf.
  unfold acquire_locked, insert_used, mbind, st_bind, modify, mret, st_ret. cbn [usedConns set_idle].
  destruct (usedConns cl) as [u|]; [|done]. cbn [set_add]. eexists. split; [reflexivity|].
  cbn. pose proof (range_first_elem (default ∅ (idleConns cl))) as He. rewrite Hf in He.
  destruct (idleConns cl) as [i|]; simpl in He; [|set_solver].
  split_and!; [by eexists|done|done|]. cbn. set_solver.
Qed.

Lemma release_reuses cl k conn :
  store cl !! k = Some conn -> c_open conn = true -> is_Some (idleConns cl) -> releasedClosed cl = false ->
  exists cl', releaseConnection (Some k) cl = (Ret tt, cl')
    /\ k ∈ default ∅ (idleConns cl') /\ store cl' = store cl.
Proof.
  intros Hs Ho [i Hi] Hr. unfold releaseConnection, release_locked, mbind, st_bind, modify, gets.
  cbn [store set_used]. rewrite Hs, Ho. unfold release_idle, insert_idle. cbn. rewrite Hr, Hi. cbn.
  eexists. split; [reflexivity|]. cbn. set_solver.
Qed.

Lemma use_and_release_ret {R W} `{io_Reader R, io_Writer W} (sel : select_case) fuel role params k
  (s s1 : SendState) h cl :
  use_connection sel fuel role params k s = (Ret h, s1) ->
  releaseConnection (Some k) (s_client s1) = (Ret tt, cl) ->
  use_and_release sel fuel role params k s
  = (Ret h, mkSend cl (s_stdin s1) (s_data s1) (s_stdout s1) (s_stderr s1)).
Proof.
  intros Hu Hrel. unfold use_and_release, mbind, st_bind, on_client, zoom. by rewrite Hu, Hrel.
Qed.

(** A request on an idle connection to an application that answers. *)
Lemma SendRequest_answers sel2 fuel params pdata cl k conn stdin fs out (b : SpillBuffer) :
  pool_ready cl k conn -> answers conn fs out -> holds b [] -> len out <= maxBufferSize b ->
  NameValuePairs_Encode params = Ret pdata -> (length pdata < fuel)%nat -> (length stdin < fuel)%nat ->
  exists d st conn', request_sent pdata stdin d
    /\ SendRequest None Finished sel2 fuel RoleResponder params
         (mkSend cl (Some (NewReader stdin)) None b []) = (Ret (mkFHeader fs []), st)
    /\ holds (s_stdout st) out /\ k ∈ default ∅ (idleConns (s_client st))
    /\ store (s_client st) !! k = Some conn' /\ c_sent conn' = c_sent conn ++ d.
Proof.
  intros Hpool Ha Hb Hl Henc Hf1 Hf2.
  destruct (pool_ready_acquire _ _ _ Hpool) as (cl1 & Hacq & Hi & Hr & Hst & _).
  destruct (exchange_answers fuel params pdata conn stdin fs out b (pr_writable _ _ _ Hpool))
    as (d & q & p & Hd & Hex & Hh & Ho & Hsent); try done.
  set (cl2 := set_store (<[k := q_conn q]> (store cl1)) cl1).
  destruct (release_reuses cl2 k (q_conn q)) as (cl3 & Hrel & Hk & Hst3);
    [by cbn; rewrite lookup_insert_eq|exact (proj1 Ho)|done|done|].
  exists d, (mkSend cl3 (q_stdin q) (q_data q) (p_stdout p) (p_stderr p)), (q_conn q).
  split; [exact Hd|]. split; [|by split_and!; cbn; rewrite ?Hst3; cbn; rewrite ?lookup_insert_eq].
  unfold SendRequest, Client_sendRequest, mbind, st_bind. unfold on_client at 1, zoom at 1.
  cbn [s_client s_stdin s_data s_stdout s_stderr]. rewrite Hacq. cbv beta iota.
  erewrite (use_and_release_ret _ _ _ _ _ _ (mkSend cl2 (q_stdin q) (q_data q) (p_stdout p) (p_stderr p)));
    [reflexivity| |].
  - unfold use_connection. cbn [s_client]. rewrite (eq_trans (f_equal (lookup k) Hst) (pr_store _ _ _ Hpool)).
    unfold Connection_SendRequest. cbn [s_stdin s_data s_stdout s_stderr]. rewrite Hex. reflexivity.
  - exact Hrel.
Qed.

(** The connection was closed and left the pool. *)
Definition given_up (cl : Client) (k : nat) : Prop :=
  (exists conn, store cl !! k = Some conn /\ c_open conn = false) /\ (k ∉ default ∅ (idleConns cl)).

(** A request that fails on its connection, otherwise than by a closed one. *)
Lemma SendRequest_fails {R W} `{io_Reader R, io_Writer W} sel1 sel2 fuel role params cl k conn
  (ins dat : option R) (w : W) err q p :
  pool_ready cl k conn -> isConnectionClosedWriteError err = false ->
  Connection_SendRequest sel1 fuel role params (mkReq conn ins dat) w [] = (Throw err, (q, p)) ->
  exists st, SendRequest None sel1 sel2 fuel role params (mkSend cl ins dat w []) = (Throw err, st)
    /\ given_up (s_client st) k.
Proof.
  intros Hpool Hne Hsend. destruct (pool_ready_acquire _ _ _ Hpool) as (cl1 & Hacq & Hi & Hr & Hst & Hk).
  unfold SendRequest, Client_sendRequest, mbind, st_bind. unfold on_client at 1, zoom at 1.
  cbn [s_client s_stdin s_data s_stdout s_stderr]. rewrite Hacq. cbv beta iota.
  unfold use_and_release, use_connection. cbn [s_client s_stdin s_data s_stdout s_stderr].
  rewrite (eq_trans (f_equal (lookup k) Hst) (pr_store _ _ _ Hpool)), Hsend. cbv beta iota.
  unfold close_connection, on_client, releaseConnection, release_locked, zoom, modify, gets, mbind, st_bind.
  cbn. rewrite lookup_alter_eq, lookup_insert_eq. cbn. rewrite Hne. eexists. split; [reflexivity|].
  split; [|exact Hk]. cbn. rewrite lookup_alter_eq, lookup_insert_eq. by eexists.
Qed.
End exchange.

(** ** Requests and replies *)

Lemma close_logged_ret b : exists b', close_logged b = (Ret tt, b').
Proof.
  destruct (close_logged b) as [r b'] eqn:E. exists b'. f_equal. revert E.
  unfold close_logged, attempt, mbind, st_bind, Close.
  repeat case_goal; intros [= <- <-]; simplify_eq/=; try done; by repeat case_match; simplify_eq/=.
Qed.

Lemma deferred_ret {S B} f (m : ST S B) s r s1 s2 :
  m s = (r, s1) -> r <> OutOfFuel -> f s1 = (Ret tt, s2) -> deferred f m s = (r, s2).
Proof. intros Hm Hr Hf. unfold deferred. rewrite Hm. by destruct r; rewrite ?Hf. Qed.

Lemma attempt_ret {S B} (m : ST S B) s b s1 : m s = (Ret b, s1) -> attempt m s = (Ret (inr b), s1).
Proof. intros Hm. unfold attempt. by rewrite Hm. Qed.

Lemma attempt_throw {S B} (m : ST S B) s e s1 : m s = (Throw e, s1) -> attempt m s = (Ret (inl e), s1).
Proof. intros Hm. unfold attempt. by rewrite Hm. Qed.

Section handle.
Context {A : Type} `{GoUnicode, GoText, !HttpHandler.MapRange, !FcgiClient.MapRange}.
Implicit Type s : FcgiState Wire A.

Definition set_ctx (c : RequestContext Wire A) s : FcgiState Wire A :=
  mkFS c (fs_client s) (fs_reqBody s) (fs_resBody s).

(** [newRequestBodySpillBuffer] and [newResponseBodySpillBuffer] on disks that work. *)
Record buffers_new (a : FastCGIAction) s : Prop := {
  bn_req : exists disk, fs_reqBody s = newRequestBodySpillBuffer a disk /\ disk_ok disk;
  bn_res : exists disk, fs_resBody s = newResponseBodySpillBuffer a disk /\ disk_ok disk;
  bn_req_max : 0 <= maxReqBodySize a < 2 ^ 62;
  bn_res_max : 0 <= maxResBodySize a < 2 ^ 62
}.

Lemma NewSpillBuffer_holds disk mem max :
  disk_ok disk -> 0 <= max < 2 ^ 62 -> holds (NewSpillBuffer disk mem max) [].
Proof.
  intros Hd Hm. constructor; [done|done|rewrite len_nil; cbn; lia| |done].
  intros _. split; [done|rewrite len_nil; lia].
Qed.

Lemma finish_request r s : r <> OutOfFuel ->
  forall m : ST (FcgiState Wire A) unit, forall s0, m s0 = (r, s) ->
  exists b, deferred (on_reqBody close_logged) m s0
            = (r, mkFS (fs_ctx s) (fs_client s) b (fs_resBody s)).
Proof.
  intros Hr m s0 Hm. destruct (close_logged_ret (fs_reqBody s)) as [b Hb]. exists b.
  eapply deferred_ret; [exact Hm|done|]. unfold on_reqBody, zoom. by rewrite Hb.
Qed.

Lemma finish_response r s : r <> OutOfFuel ->
  forall m : ST (FcgiState Wire A) unit, forall s0, m s0 = (r, s) ->
  exists b, deferred (on_resBody close_logged) m s0
            = (r, mkFS (fs_ctx s) (fs_client s) (fs_reqBody s) b).
Proof.
  intros Hr m s0 Hm. destruct (close_logged_ret (fs_resBody s)) as [b Hb]. exists b.
  eapply deferred_ret; [exact Hm|done|]. unfold on_resBody, zoom. by rewrite Hb.
Qed.

(** What happens once the body of the request is buffered. *)
Lemma HandleRequest_buffered a e s :
  buffers_new a s -> fe_bodyError e = None -> len (concat (fe_body e)) <= maxReqBodySize a ->
  exists b, forall r s1,
    send_and_reply e (fcgi_params a e (len (concat (fe_body e))) s) (concat (fe_body e))
      (mkFS (fs_ctx s) (fs_client s) b (fs_resBody s)) = (r, s1) -> r <> OutOfFuel ->
    exists s', FastCGIAction_HandleRequest a e s = (r, s')
      /\ fs_ctx s' = fs_ctx s1 /\ fs_client s' = fs_client s1.
Proof.
  intros [(d1 & Hreq & Hd1) _ Hm _] Herr Hl.
  destruct (copy_in_holds (fe_body e) 0 [] (fs_reqBody s)) as (b & Hcopy & Hb & _).
  { rewrite Hreq. by apply NewSpillBuffer_holds. }
  { rewrite Hreq, len_nil. cbn. lia. }
  exists b. intros r s1 Hs1 Hr. unfold FastCGIAction_HandleRequest.
  destruct (finish_request r s1 Hr (
    r ← attempt (on_reqBody (copy_in (fe_body e) (fe_bodyError e) 0));
    match r with
    | inl _ => on_fctx (ReplyError 500)
    | inr reqBodySize =>
        params ← gets (fcgi_params a e reqBodySize);
        r ← attempt (fun s => (Reader (fs_reqBody s), s));
        match r with
        | inl _ => on_fctx (ReplyError 500)
        | inr stdin => send_and_reply e params stdin
        end
    end) s) as [b' Hb']; [|eexists; split; [exact Hb'|done]].
  rewrite Herr. erewrite st_bind_ret by (apply attempt_ret; unfold on_reqBody, zoom; rewrite Hcopy; reflexivity).
  cbv beta iota. erewrite st_bind_ret by reflexivity.
  erewrite st_bind_ret by (apply attempt_ret; cbn [fs_reqBody]; rewrite (Reader_holds _ _ Hb); reflexivity).
  exact Hs1.
Qed.

(** The reply to a request that was answered. *)
Lemma reply_response_sends e h out s :
  holds (fs_resBody s) out -> (forall data, concat (fe_pieces e data) = data) ->
  unsent (fs_ctx s) -> 200 <= fst (Header_Status h) <= 999 ->
  exists ctx', reply_response e h s = (Ret tt, set_ctx ctx' s)
    /\ wire_sent (wire ctx')
       = Some (fst (Header_Status h),
               Header_Set (CopyToHTTPHeader h (wire_header (wire (fs_ctx s)))) "Content-Length"%go (Itoa (len out)))
    /\ wire_body (wire ctx')
       = wire_body (wire (fs_ctx s)) ++ (if body_allowed (fst (Header_Status h)) then out else []).
Proof.
  intros Hh Hp Hu Hst. unfold reply_response.
  erewrite st_bind_ret by (apply attempt_ret; rewrite (Reader_holds _ _ Hh); reflexivity). cbv beta iota.
  erewrite st_bind_ret by reflexivity. erewrite st_bind_ret by reflexivity.
  erewrite st_bind_ret by reflexivity.
  assert (concat (body_pieces e (fs_resBody s) out) = out) as Hc.
  { unfold body_pieces. destruct (sb_file (fs_resBody s)); [apply Hp|]. unfold reader_pieces.
    destruct (bool_decide (out = [])) eqn:E; bool_facts; [by subst|]. by cbn; rewrite app_nil_r. }
  unfold Size. rewrite (h_size _ _ Hh).
  match goal with |- context [on_fctx (Reply ?st (Some ?ps)) ?s1] =>
    destruct (Reply_wire st ps (fs_ctx s1)) as (ctx' & Hr & Hw & Hb);
      [exact Hu|right; exact Hst|] end.
  exists ctx'. unfold on_fctx at 1, zoom at 1. rewrite Hr, Hw, Hb, Hc. done.
Qed.

(** The exchange of a request with an application that answers. *)
Record fcgi_exchange (a : FastCGIAction) (e : FcgiEncounter) s (k : nat) (conn : FcgiConn)
  (pdata : gostring) (fs : list Field) (out : gostring) : Prop := {
  fx_new : buffers_new a s;
  fx_body : fe_bodyError e = None;
  fx_body_max : len (concat (fe_body e)) <= maxReqBodySize a;
  fx_select : fe_sel1 e = Finished;
  fx_pool : pool_ready (fs_client s) k conn;
  fx_answers : answers conn fs out;
  fx_out_max : len out <= maxResBodySize a;
  fx_params : NameValuePairs_Encode (fcgi_params a e (len (concat (fe_body e))) s) = Ret pdata;
  fx_fuel : (length pdata < fe_fuel e)%nat /\ (length (concat (fe_body e)) < fe_fuel e)%nat;
  fx_pieces : forall data, concat (fe_pieces e data) = data
}.

(** [C3] A request goes to the application and its answer comes back: when the body of
    the request and that of the answer are within the limits, the application is sent
    the records of a responder request with the parameters, the length of the body
    among them, and the body, on the idle connection of the pool; the client receives
    the status of the answer, its fields added to the header with the length of the
    body, and exactly the body, if the status allows one, whether the bodies went to
    temporary files or not; the connection is idle again. *)
Theorem fastcgi_relays (a : FastCGIAction) (e : FcgiEncounter) s k conn pdata fs out :
  fcgi_exchange a e s k conn pdata fs out -> unsent (fs_ctx s) ->
  let h := mkFHeader fs [] in
  200 <= fst (Header_Status h) ->
  exists s' d conn', FastCGIAction_HandleRequest a e s = (Ret tt, s')
    /\ request_sent pdata (concat (fe_body e)) d
    /\ store (fs_client s') !! k = Some conn' /\ c_sent conn' = c_sent conn ++ d
    /\ k ∈ default ∅ (idleConns (fs_client s'))
    /\ wire_sent (wire (fs_ctx s'))
       = Some (fst (Header_Status h),
               Header_Set (CopyToHTTPHeader h (wire_header (wire (fs_ctx s)))) "Content-Length"%go (Itoa (len out)))
    /\ wire_body (wire (fs_ctx s'))
       = wire_body (wire (fs_ctx s)) ++ (if body_allowed (fst (Header_Status h)) then out else []).
Proof.
  intros [Hnew Herr Hl Hsel Hpool Hans Hout Henc [Hf1 Hf2] Hpieces] Hu h Hst.
  assert (fst (Header_Status h) <= 999) as Hst' by apply (Header_Status_bounds h).
  destruct (HandleRequest_buffered a e s Hnew Herr Hl) as (b & Hrun).
  destruct Hnew as [_ (d2 & Hres & Hd2) _ Hm2].
  destruct (SendRequest_answers (fe_sel2 e) (fe_fuel e)
              (fcgi_params a e (len (concat (fe_body e))) s) pdata (fs_client s) k conn (concat (fe_body e)) fs out
              (fs_resBody s) Hpool Hans) as (d & st & conn' & Hd & Hsend & Hh & Hk & Hc & Hsent);
    [rewrite Hres; by apply NewSpillBuffer_holds|by rewrite Hres|exact Henc|done|done|].
  set (s1 := mkFS (fs_ctx s) (s_client st) b (s_stdout st)).
  destruct (reply_response_sends e h out s1 Hh Hpieces Hu (conj Hst Hst')) as (ctx' & Hreply & Hw & Hb).
  destruct (finish_response (Ret tt) (set_ctx ctx' s1) ltac:(done)
    (r ← attempt (send_request e (fcgi_params a e (len (concat (fe_body e))) s) (concat (fe_body e)));
     match r with
     | inl err => on_fctx (ReplyError (fcgi_error_status err))
     | inr resHeader => reply_response e resHeader
     end) (mkFS (fs_ctx s) (fs_client s) b (fs_resBody s))) as [b' Hb'].
  { erewrite st_bind_ret by (apply attempt_ret; unfold send_request; rewrite Hsel; cbn [fs_client fs_resBody];
      rewrite Hsend; reflexivity). exact Hreply. }
  destruct (Hrun _ _ Hb' ltac:(done)) as (s' & Hs' & Hctx & Hcl).
  exists s', d, conn'. rewrite Hctx, Hcl. by split_and!.
Qed.

(** ** Failed requests *)

(** The application ends the request at once. *)
Lemma readResponse_ended {W} `{io_Writer W} conn (w : W) status p d e :
  live conn -> c_in conn = mkIncoming d e ->
  record_ok (end_record 1 status p) -> Record_Write (end_record 1 status p) = Ret d ->
  exists c, readResponse (mkResp conn w [])
  = (match end_error (mkEndRequestBody status p) [] false with
     | Some err => Throw err
     | None => Ret empty_header
     end, mkResp c w []).
Proof.
  intros Ho Hin Hok Hw. unfold readResponse. cbn [p_conn]. rewrite Hin. cbn [in_data].
  exists (set_in (mkIncoming [] e) conn).
  rewrite <- (app_nil_r d) in Hin. pose proof (conn_read_record conn _ _ _ _ Ho Hin Hok Hw) as Hr.
  generalize (length d). intros n. cbn [readResponse_loop].
  erewrite st_bind_ret by (unfold wrapST, resp_conn, zoom; cbn [p_conn]; rewrite Hr; reflexivity).
  cbn [read_back end_record rec_Type rec_Body normalize_body]. erewrite st_bind_ret by reflexivity.
  cbn [p_stderr]. by destruct (end_error _ _ _).
Qed.

Lemma exchange_ended {W} `{io_Writer W} fuel params pdata conn stdin (w : W) status p d e err :
  writable conn -> c_in conn = mkIncoming d e -> record_ok (end_record 1 status p) ->
  Record_Write (end_record 1 status p) = Ret d ->
  end_error (mkEndRequestBody status p) [] false = Some err ->
  NameValuePairs_Encode params = Ret pdata -> (length pdata < fuel)%nat -> (length stdin < fuel)%nat ->
  exists q st, exchange fuel RoleResponder params (mkReq conn (Some (NewReader stdin)) None) w []
               = (Throw (Wrapf "cannot read response"%go err), (q, st)).
Proof.
  intros Hw Hin Hok Hd Herr Henc Hf1 Hf2.
  destruct (body_request_sent fuel params pdata conn stdin Hw Henc Hf1 Hf2) as (d' & q & Hd' & Hr & Hq).
  unfold exchange. rewrite Hr, Hq. unfold wrapST.
  destruct (readResponse_ended (sent conn d') w status p d e) as (c & Hend); [done|done|done|done|].
  cbn [q_conn] in Hend |- *. rewrite Hend, Herr. by do 2 eexists.
Qed.

Lemma ReplyError_sends status s :
  unsent (fs_ctx s) -> 200 <= status <= 999 ->
  exists ctx', on_fctx (ReplyError status) s = (Ret tt, set_ctx ctx' s)
    /\ wire_sent (wire ctx')
       = Some (status, Header_Set (wire_header (wire (fs_ctx s))) "Content-Type"%go text_type).
Proof.
  intros Hu Hs. unfold ReplyError, on_fctx, zoom.
  match goal with |- context [ReplyError2 ?st ?msg ?c] =>
    destruct (ReplyError2_sends st msg c) as (ctx' & -> & Hw); [exact Hu|right; exact Hs|] end.
  by exists ctx'.
Qed.

Lemma fcgi_error_status_range err : 200 <= fcgi_error_status err <= 999.
Proof. unfold fcgi_error_status. destruct (errors_Is _ _); [lia|]. destruct (errors_Is _ _); lia. Qed.

(** The client receives an error page. *)
Definition error_sent (status : Z) s s' : Prop :=
  wire_sent (wire (fs_ctx s'))
  = Some (status, Header_Set (wire_header (wire (fs_ctx s))) "Content-Type"%go text_type).

Lemma HandleRequest_failed a e s err st :
  buffers_new a s -> fe_bodyError e = None -> len (concat (fe_body e)) <= maxReqBodySize a ->
  unsent (fs_ctx s) ->
  SendRequest None (fe_sel1 e) (fe_sel2 e) (fe_fuel e) RoleResponder
    (fcgi_params a e (len (concat (fe_body e))) s)
    (mkSend (fs_client s) (Some (NewReader (concat (fe_body e)))) None (fs_resBody s) []) = (Throw err, st) ->
  exists s', FastCGIAction_HandleRequest a e s = (Ret tt, s')
    /\ error_sent (fcgi_error_status err) s s' /\ fs_client s' = s_client st.
Proof.
  intros Hnew Herr Hl Hu Hsend.
  destruct (HandleRequest_buffered a e s Hnew Herr Hl) as (b & Hrun).
  destruct (ReplyError_sends (fcgi_error_status err) (mkFS (fs_ctx s) (s_client st) b (s_stdout st)) Hu
              (fcgi_error_status_range err)) as (ctx' & Hreply & Hw).
  destruct (finish_response (Ret tt) (set_ctx ctx' (mkFS (fs_ctx s) (s_client st) b (s_stdout st))) ltac:(done)
    (r ← attempt (send_request e (fcgi_params a e (len (concat (fe_body e))) s) (concat (fe_body e)));
     match r with
     | inl err => on_fctx (ReplyError (fcgi_error_status err))
     | inr resHeader => reply_response e resHeader
     end) (mkFS (fs_ctx s) (fs_client s) b (fs_resBody s))) as [b' Hb'].
  { erewrite st_bind_ret by (apply attempt_throw; unfold send_request; cbn [fs_client fs_resBody];
      rewrite Hsend; reflexivity). exact Hreply. }
  destruct (Hrun _ _ Hb' ltac:(done)) as (s' & Hs' & Hctx & Hcl).
  exists s'. unfold error_sent. by rewrite Hctx, Hcl.
Qed.

(** [C24] The requests that get no answer from the application.  A body that cannot be
    read or exceeds the limit is answered with the status 500 without using a
    connection; a request whose time runs out with 504, and one the application
    refuses because it is overloaded with 503, their connection being closed and
    out of the pool. *)
Theorem fastcgi_errors (a : FastCGIAction) (e : FcgiEncounter) s :
  buffers_new a s -> unsent (fs_ctx s) ->
  (fe_bodyError e <> None \/ maxReqBodySize a < len (concat (fe_body e)) ->
   Forall (fun d => len d < 2 ^ 62) (fe_body e) ->
   exists s', FastCGIAction_HandleRequest a e s = (Ret tt, s')
     /\ error_sent 500 s s' /\ fs_client s' = fs_client s)
  /\ (fe_bodyError e = None -> len (concat (fe_body e)) <= maxReqBodySize a ->
      forall k conn, pool_ready (fs_client s) k conn ->
      (forall calls partial pdata,
       fe_sel1 e = CtxDone context_DeadlineExceeded calls partial ->
       NameValuePairs_Encode (fcgi_params a e (len (concat (fe_body e))) s) = Ret pdata ->
       (length pdata < fe_fuel e)%nat -> (length (concat (fe_body e)) < fe_fuel e)%nat ->
       exists s', FastCGIAction_HandleRequest a e s = (Ret tt, s')
         /\ error_sent 504 s s' /\ given_up (fs_client s') k)
      /\ (forall d rest pdata status,
          fe_sel1 e = Finished -> c_in conn = mkIncoming d rest ->
          record_ok (end_record 1 status ProtocolStatusOverloaded) ->
          Record_Write (end_record 1 status ProtocolStatusOverloaded) = Ret d ->
          NameValuePairs_Encode (fcgi_params a e (len (concat (fe_body e))) s) = Ret pdata ->
          (length pdata < fe_fuel e)%nat -> (length (concat (fe_body e)) < fe_fuel e)%nat ->
          exists s', FastCGIAction_HandleRequest a e s = (Ret tt, s')
            /\ error_sent 503 s s' /\ given_up (fs_client s') k)).
Proof.
  intros Hnew Hu. split.
  - intros Hbad Hsizes. destruct Hnew as [(d1 & Hreq & Hd1) _ Hm _].
    destruct (copy_in_refused (fe_body e) (fe_bodyError e) 0 [] (fs_reqBody s)) as (err & b & Hcopy).
    { rewrite Hreq. by apply NewSpillBuffer_holds. }
    { rewrite Hreq, len_nil. destruct Hbad; [by left|right; cbn; lia]. }
    { done. }
    set (s1 := mkFS (fs_ctx s) (fs_client s) b (fs_resBody s)).
    destruct (ReplyError_sends 500 s1 Hu ltac:(lia)) as (ctx' & Hreply & Hw).
    unfold FastCGIAction_HandleRequest.
    edestruct (finish_request (Ret tt) (set_ctx ctx' s1) ltac:(done)) as [b' ->].
    { erewrite st_bind_ret by (apply attempt_throw; unfold on_reqBody, zoom; rewrite Hcopy; reflexivity).
      exact Hreply. }
    by eexists.
  - intros Herr Hl k conn Hpool. split.
    + intros calls partial pdata Hsel Henc Hf1 Hf2.
      destruct (SendRequest_interrupted _ (fe_fuel e) RoleResponder _ pdata (Some (stream_chunks (concat (fe_body e)))) None
        context_DeadlineExceeded calls partial (fs_resBody s) []
        (body_sendable _ _ pdata conn (concat (fe_body e)) (pr_writable _ _ _ Hpool) Henc Hf1 Hf2)) as [Htimeout _].
      edestruct (SendRequest_fails (W := SpillBuffer) (R := bytes_Reader) (fe_sel1 e) (fe_sel2 e) (fe_fuel e) RoleResponder
        (fcgi_params a e (len (concat (fe_body e))) s) (fs_client s) k conn
        (Some (NewReader (concat (fe_body e)))) None (fs_resBody s)) as (st & Hst & Hgone);
        [exact Hpool| |rewrite Hsel; by apply outcome_pair|]; [done|].
      destruct (HandleRequest_failed a e s _ st Hnew Herr Hl Hu Hst) as (s' & Hs' & He & Hc).
      exists s'. rewrite Hc. done.
    + intros d rest pdata status Hsel Hin Hok Hd Henc Hf1 Hf2.
      destruct (exchange_ended (fe_fuel e) _ pdata conn (concat (fe_body e)) (fs_resBody s) status
        ProtocolStatusOverloaded d rest ErrServerOverloaded (pr_writable _ _ _ Hpool) Hin Hok Hd eq_refl
        Henc Hf1 Hf2) as (q & p & Hex).
      edestruct (SendRequest_fails (W := SpillBuffer) (R := bytes_Reader) (fe_sel1 e) (fe_sel2 e) (fe_fuel e) RoleResponder
        (fcgi_params a e (len (concat (fe_body e))) s) (fs_client s) k conn
        (Some (NewReader (concat (fe_body e)))) None (fs_resBody s)) as (st & Hst & Hgone);
        [exact Hpool| |rewrite Hsel; exact Hex|]; [done|].
      destruct (HandleRequest_failed a e s _ st Hnew Herr Hl Hu Hst) as (s' & Hs' & He & Hc).
      exists s'. rewrite Hc. done.
Qed.
End handle.

(** ** Witnesses and examples *)

#[local] Existing Instance ascii_only.
#[local] Instance map_order : HttpHandler.MapRange := {
  range_map V m := map_to_list m;
  range_map_entries V m := Permutation_refl _
}.
#[local] Instance first_idle : FcgiClient.MapRange.
Proof.
  refine {| range_first s := head (elements s) |}.
  intros s. destruct (elements s) as [|k l] eqn:He; simpl.
  - by apply leibniz_equiv, elements_empty_iff.
  - apply elem_of_elements. rewrite He. by left.
Defined.

Definition example_disk : Disk := mkDisk None None None None None.

(** An action whose bodies are kept in memory up to 4 bytes and have at most 16. *)
Definition example_action : FastCGIAction :=
  mkFastCGI (mkFastCGICfg ∅ [] "index.php"%go) None "/tmp"%go 4 16 4 16 DefaultRequestTimeout None.

(** A request with the body [body], to an application that sends [records]. *)
Definition example_encounter (sel : select_case) (body : list gostring) : FcgiEncounter :=
  mkFE body None sel Finished 2000 "1"%go 80 (fun data => [data]).

Definition example_conn (records : list FcgiRecord) : FcgiConn :=
  mkConn true (mkIncoming (match write_records records with Ret d => d | _ => [] end) io_EOF) [] None [] None.

Definition example_state (records : list FcgiRecord) : FcgiState Wire unit :=
  mkFS example_context
    (mkClient (Some ∅) (Some {[ 0%nat ]}) false {[ 0%nat := example_conn records ]} [])
    (newRequestBodySpillBuffer example_action example_disk)
    (newResponseBodySpillBuffer example_action example_disk).

Lemma example_ready records : pool_ready (fs_client (example_state records)) 0 (example_conn records).
Proof. constructor; reflexivity || discriminate || done. Qed.

Lemma example_buffers records : buffers_new example_action (example_state records).
Proof.
  constructor; [by exists example_disk|by exists example_disk| |]; cbn; lia.
Qed.

Definition example_fields : list Field :=
  [mkField "Status"%go "404 Not found"%go; mkField "Content-Type"%go "text/plain"%go].

Definition example_answer (fs : list Field) (body : gostring) : list FcgiRecord :=
  response_records 1 [] ((fs ≫= serialize_field) ++ [CR; LF] ++ body) [Out " world"%go] 0
    ProtocolStatusRequestComplete.

Lemma fastcgi_relays_witness :
  let s := example_state (example_answer example_fields "hello"%go) in
  let e := example_encounter Finished ["a bo"%go; "dy"%go] in
  exists s', FastCGIAction_HandleRequest example_action e s = (Ret tt, s')
    /\ wire_body (wire (fs_ctx s')) = "hello world"%go
    /\ (wire_sent (wire (fs_ctx s')) ≫= fun '(_, h) => Some (Header_Get h "Content-Length"%go)) = Some "11"%go
    /\ 0%nat ∈ default ∅ (idleConns (fs_client s')).
Proof.
  intros s e.
  assert (exists pdata, fcgi_exchange example_action e s 0
            (example_conn (example_answer example_fields "hello"%go)) pdata example_fields "hello world"%go)
    as (pdata & Hex).
  { destruct (NameValuePairs_Encode (fcgi_params example_action e (len (concat (fe_body e))) s))
      as [pdata|err| |] eqn:Henc; [|by vm_compute in Henc..].
    assert (length (match NameValuePairs_Encode (fcgi_params example_action e (len (concat (fe_body e))) s)
                    with Ret d => d | _ => [] end) < 2000)%nat as Hl by by_decision.
    rewrite Henc in Hl. exists pdata. constructor.
    - apply example_buffers.
    - reflexivity.
    - by_decision.
    - reflexivity.
    - apply example_ready.
    - exists [], "hello"%go, [Out " world"%go]. unfold example_conn.
      assert (is_ret (write_records (example_answer example_fields "hello"%go)) = true) as Hd
        by (vm_compute; reflexivity).
      assert (Forall record_ok (example_answer example_fields "hello"%go)) as Hok by by_decision.
      assert (Forall field_ok example_fields) as Hfs by by_decision.
      destruct (write_records (example_answer example_fields "hello"%go)) as [d|err| |] eqn:Hw; try discriminate Hd.
      exists d, io_EOF. split; [exact Hfs|]. split; [exact Hok|]. split; [exact Hw|]. repeat split.
    - by_decision.
    - exact Henc.
    - split; [exact Hl|by_decision].
    - intros data. cbn. by rewrite app_nil_r. }
  assert (200 <= fst (Header_Status (mkFHeader example_fields []))) as Hst by by_decision.
  destruct (fastcgi_relays example_action e s 0 _ pdata example_fields "hello world"%go Hex eq_refl Hst)
    as (s' & d & conn' & Hr & _ & _ & _ & Hk & Hw & Hb).
  exists s'. rewrite Hw, Hb. split; [exact Hr|]. split; [by_decision|]. split; [by_decision|exact Hk].
Defined.

Lemma params_encoded {n} (r : outcome gostring) :
  (length (match r with Ret d => d | _ => [] end) <? n)%nat = true -> is_ret r = true ->
  exists pdata, r = Ret pdata /\ (length pdata < n)%nat.
Proof. destruct r; try done. intros Hl%Nat.ltb_lt _. by eexists. Qed.

Lemma fastcgi_errors_witness :
  let s := example_state [end_record 1 0 ProtocolStatusOverloaded] in
  let timeout := CtxDone context_DeadlineExceeded 3 2 in
  (exists s', FastCGIAction_HandleRequest example_action (example_encounter Finished ["too long "%go; "for the limit"%go]) s
              = (Ret tt, s') /\ error_sent 500 s s' /\ fs_client s' = fs_client s)
  /\ (exists s', FastCGIAction_HandleRequest example_action (example_encounter timeout ["body"%go]) s = (Ret tt, s')
                 /\ error_sent 504 s s' /\ given_up (fs_client s') 0)
  /\ (exists s', FastCGIAction_HandleRequest example_action (example_encounter Finished ["body"%go]) s = (Ret tt, s')
                 /\ error_sent 503 s s' /\ given_up (fs_client s') 0).
Proof.
  intros s timeout.
  pose proof (fun e => fastcgi_errors example_action e s (example_buffers _) eq_refl) as Herr.
  split_and!.
  - destruct (Herr (example_encounter Finished ["too long "%go; "for the limit"%go])) as [H _].
    apply H; [right; by_decision|by_decision].
  - destruct (Herr (example_encounter timeout ["body"%go])) as [_ H].
    destruct (H eq_refl ltac:(by_decision) 0%nat _ (example_ready _)) as [H1 _].
    set (e := example_encounter timeout ["body"%go]) in *.
    assert (exists pdata, NameValuePairs_Encode (fcgi_params example_action e (len (concat (fe_body e))) s) = Ret pdata
              /\ (length pdata < 2000)%nat) as (pdata & Henc & Hl)
      by (apply params_encoded; vm_compute; reflexivity).
    refine (H1 _ _ pdata eq_refl Henc Hl _); by_decision.
  - set (e := example_encounter Finished ["body"%go]). destruct (Herr e) as [_ H].
    destruct (H eq_refl ltac:(by_decision) 0%nat _ (example_ready _)) as [_ H1].
    assert (exists pdata, NameValuePairs_Encode (fcgi_params example_action e (len (concat (fe_body e))) s) = Ret pdata
              /\ (length pdata < 2000)%nat) as (pdata & Henc & Hl)
      by (apply params_encoded; vm_compute; reflexivity).
    refine (H1 _ io_EOF pdata 0 eq_refl eq_refl _ eq_refl Henc Hl _); by_decision.
Defined.

Lemma fastcgi_deletes_files_witness :
  let s := example_state (example_answer example_fields "hello"%go) in
  no_files (FastCGIAction_HandleRequest example_action (example_encounter Finished ["a bo"%go; "dy"%go]) s).2.
Proof.
  intros s. apply fastcgi_deletes_files.
  - split; constructor; reflexivity.
  - split; reflexivity.
  - assert (FastCGIAction_HandleRequest example_action (example_encounter Finished ["a bo"%go; "dy"%go]) s
            = (Ret tt, (FastCGIAction_HandleRequest example_action (example_encounter Finished ["a bo"%go; "dy"%go]) s).2))
      as -> by (vm_compute; reflexivity).
    discriminate.
Defined.

(** A status from 1 to 99 passes for one in [Header_Status], and makes [WriteHeader]
    panic after the response writer has noted it. *)
Example low_status_panics :
  let s := example_state (example_answer [mkField "Status"%go "42 Odd"%go] "hello"%go) in
  let '(r, s') := FastCGIAction_HandleRequest example_action (example_encounter Finished []) s in
  r = Panic /\ HttpContext.Status (Ctx_ResponseWriter (fs_ctx s')) = 42 /\ wire_sent (wire (fs_ctx s')) = None.
Proof. vm_compute. repeat split. Qed.

(** An informational status is sent as such, and the body goes with the status 200. *)
Example informational_status :
  let s := example_state (example_answer [mkField "Status"%go "103 Early Hints"%go] "hello"%go) in
  let '(r, s') := FastCGIAction_HandleRequest example_action (example_encounter Finished []) s in
  r = Ret tt /\ wire_informational (wire (fs_ctx s')) = [103]
  /\ (fst <$> wire_sent (wire (fs_ctx s'))) = Some 200.
Proof. vm_compute. repeat split. Qed.

(** [Stop] deletes the temporary directory, even the one of the configuration, with all
    that is in it; and an action that was not started cannot be stopped. *)
Example Stop_deletes_configured_directory :
  let settings := mkSettings [] "/var/tmp"%go None None None None None in
  match NewFastCGIAction (fun _ => Panic) Panic (mkFastCGICfg ∅ [] []) settings with
  | Ret a =>
      fst (FastCGIAction_Stop (a, [])) = Panic
      /\ snd (snd (FastCGIAction_Stop (FastCGIAction_Start [] a, []))) = ["/var/tmp"%go]
  | _ => False
  end.
Proof. vm_compute. split; reflexivity. Qed.
