(* ===== verification/Lifecycle.v ===== *)
(** * Start and stop of handlers and of the HTTP protocol (pkg/protocols/http:
      handler.go, protocol.go, access_logger.go, server.go, action.go)

    What a handler and the protocol of a server take when they start, access logs,
    actions and goroutines, and what they give back when they stop.  The handlers made
    here are the trees [HttpHandler] searches, in the [Protocol] of [HttpServer]. *)

From stdpp Require Import gmultiset.
From S2P Require Import Prelude GoStrings NetAddresses RateLimiter FormatString SpillBuffer.
From S2P Require Import HttpHeader HttpContext HttpAuth HttpHandler HttpServer HttpActions.
From S2P Require Import LoadBalancer HttpClient HttpProxy FcgiProtocol FcgiConnection FcgiClient FcgiAction.

(** ** Resources *)

Inductive ResourceKind := LogFile | TempDir | ClientGoroutine | ServeGoroutine | GCGoroutine | ProbeGoroutine
  | Socket | PProfGoroutine.

#[export] Instance ResourceKind_eq_dec : EqDecision ResourceKind.
Proof. solve_decision. Defined.

#[export] Instance ResourceKind_countable : Countable ResourceKind.
Proof.
  refine (inj_countable'
    (fun k => match k with
              | LogFile => 0 | TempDir => 1 | ClientGoroutine => 2
              | ServeGoroutine => 3 | GCGoroutine => 4 | ProbeGoroutine => 5 | Socket => 6
              | PProfGoroutine => 7
              end%nat)
    (fun n => match n with
              | 0 => LogFile | 1 => TempDir | 2 => ClientGoroutine
              | 3 => ServeGoroutine | 4 => GCGoroutine | 5 => ProbeGoroutine | 6 => Socket
              | _ => PProfGoroutine
              end%nat) _).
  by intros [].
Defined.

(** A resource: its number, its kind, and its path or address. *)
Abbreviation Resource := (nat * (ResourceKind * gostring))%type (only parsing).

(** What the process holds, the sockets that were closed, the number of the next resource,
    the number of rate limiters made, and the failures the system has in store for the next
    calls. *)
Record World := mkWorld {
  held : gmultiset Resource;
  closed_sockets : gset nat;
  next_id : nat;
  nb_limiters : nat;
  faults : list (option error)
}.

(** A call to the system. *)
Definition call : ST World unit := fun w =>
  match faults w with
  | Some e :: fs => (Throw e, mkWorld (held w) (closed_sockets w) (next_id w) (nb_limiters w) fs)
  | None :: fs => (Ret tt, mkWorld (held w) (closed_sockets w) (next_id w) (nb_limiters w) fs)
  | [] => (Ret tt, w)
  end.

Definition acquire (kind : ResourceKind) (name : gostring) : ST World Resource := fun w =>
  let r := (next_id w, (kind, name)) in
  (Ret r, mkWorld ({[+ r +]} ⊎ held w) (closed_sockets w) (S (next_id w)) (nb_limiters w) (faults w)).

Definition release (r : Resource) : ST World unit :=
  modify (fun w => mkWorld (held w ∖ {[+ r +]}) (closed_sockets w) (next_id w) (nb_limiters w) (faults w)).

(** The close of a listening socket: a goroutine that accepts on it is interrupted. *)
Definition close_socket (r : Resource) : ST World unit := fun w =>
  (Ret tt, mkWorld (held w ∖ {[+ r +]}) ({[fst r]} ∪ closed_sockets w) (next_id w) (nb_limiters w) (faults w)).

(** The wait for a goroutine: it only returns if the goroutine was told to, by the close of
    the channel it selects on, the stop of the server it runs or the close of the socket it
    accepts on.  A wait that never returns has the outcome [OutOfFuel]. *)
Definition await (told : bool) (g : Resource) : ST World unit :=
  if told then release g else lift OutOfFuel.

(** ** Parts started one after the other *)

Section each.
Context {S A B : Type} (start : A -> ST S B) (stop : B -> ST S unit).

Fixpoint stop_each (l : list B) : ST S unit :=
  match l with
  | [] => mret tt
  | b :: l' => _ ← stop b; stop_each l'
  end.

(** The loop of a start: when an element fails, those before it are stopped. *)
Fixpoint start_each (started : list B) (l : list A) : ST S (list B) :=
  match l with
  | [] => mret started
  | a :: l' =>
      r ← attempt (start a);
      match r with
      | inl err => _ ← stop_each started; throw err
      | inr b => start_each (started ++ [b]) l'
      end
  end.
End each.

(** ** Access logs *)

(** An [AccessLogger]: its format, and its file with the path. *)
Record LogHandle := mkHandle { lg_Format : FormatString; lg_file : Resource }.

(** What the rest of the development uses of it. *)
Definition access_logger (l : LogHandle) : AccessLogger := mkLogger (lg_Format l) (fst (lg_file l)).

Definition FilePath (l : LogHandle) : gostring := snd (snd (lg_file l)).

Record AccessLoggerCfg := mkLoggerCfg { alc_Path : FormatString; alc_Format : FormatString }.

(** [AccessLogger.Reopen] without a file. *)
Definition open_log (path : gostring) : ST World Resource :=
  _ ← wrapST "cannot open"%go call; acquire LogFile path.

(** [NewAccessLogger] *)
Definition NewAccessLogger (cfg : AccessLoggerCfg) (vs : vars) : ST World LogHandle :=
  file ← open_log (Expand (alc_Path cfg) vs); mret (mkHandle (alc_Format cfg) file).

(** [AccessLogger.Reopen] *)
Definition Reopen (l : LogHandle) : ST World LogHandle :=
  file ← open_log (FilePath l);
  _ ← release (lg_file l);
  mret (mkHandle (lg_Format l) file).

(** [AccessLogger.Close] *)
Definition AccessLogger_Close (l : LogHandle) : ST World unit := release (lg_file l).

Definition open_logger (cfg : option AccessLoggerCfg) (vs : vars) : ST World (option LogHandle) :=
  match cfg with
  | Some logCfg => l ← wrapST "cannot create access logger"%go (NewAccessLogger logCfg vs); mret (Some l)
  | None => mret None
  end.

Definition close_logger (l : option LogHandle) : ST World unit :=
  match l with Some l => AccessLogger_Close l | None => mret tt end.

(** The function [reopen] of [Protocol.RotateLogFiles]: a failure is only logged. *)
Definition rotate_logger (l : option LogHandle) : ST World (option LogHandle) :=
  match l with
  | None => mret None
  | Some l =>
      r ← attempt (Reopen l);
      mret (Some match r with inl _ => l | inr l' => l' end)
  end.

(** ** Actions

    The interface [Action]: [C] is the type of configurations, [X] that of actions. *)
Class ActionLifecycle (C X : Type) := {
  NewAction : C -> ST World X;
  Action_Start : X -> ST World X;
  Action_Stop : X -> ST World unit
}.

(** ** Handlers *)

#[warnings="-register-all"]
Inductive HandlerCfg (C : Type) := mkHandlerCfg {
  hc_Match : MatchCfg;
  hc_NextHandler : bool;
  hc_AccessLogger : option AccessLoggerCfg;
  hc_Auth : option (outcome Auth);         (** what [NewAuth] gives *)
  hc_RequestRateLimiter : option RateLimiterCfg;
  hc_Action : C;
  hc_Handlers : list (HandlerCfg C)
}.
Arguments mkHandlerCfg {C}.

(** A started handler, with its log and action as the calls need them. *)
#[warnings="-register-all"]
Inductive Started (X : Type) := mkStarted {
  st_Match : MatchCfg;
  st_NextHandler : bool;
  st_AccessLogger : option LogHandle;
  st_Auth : option Auth;
  st_RequestRateLimiter : option (nat * RateLimiterCfg);
  st_Action : X;
  st_Handlers : list (Started X)
}.
Arguments mkStarted {X}.
Arguments st_Match {X}.
Arguments st_NextHandler {X}.
Arguments st_AccessLogger {X}.
Arguments st_Auth {X}.
Arguments st_RequestRateLimiter {X}.
Arguments st_Action {X}.
Arguments st_Handlers {X}.

(** The handler [HttpHandler] searches. *)
Fixpoint searched {X} (h : Started X) : Handler Auth X :=
  match h with
  | mkStarted m next log auth rl action hs =>
      mkHandler m next (access_logger <$> log) auth rl (Some action) (map searched hs)
  end.

Section handlers.
Context {C X : Type} `{!ActionLifecycle C X}.

Definition start_auth (log : option LogHandle) (auth : option (outcome Auth)) : ST World (option Auth) :=
  match auth with
  | None => mret None
  | Some r =>
      x ← attempt (lift r);
      match x with
      | inl err => _ ← close_logger log; throw (Wrapf "cannot initialize authentication"%go err)
      | inr a => mret (Some a)
      end
  end.

Definition new_limiter (cfg : option RateLimiterCfg) : ST World (option (nat * RateLimiterCfg)) := fun w =>
  match cfg with
  | None => (Ret None, w)
  | Some rl =>
      (Ret (Some (nb_limiters w, rl)), mkWorld (held w) (closed_sockets w) (next_id w) (S (nb_limiters w)) (faults w))
  end.

(** [Handler.Stop] *)
Fixpoint Handler_Stop (h : Started X) : ST World unit :=
  match h with
  | mkStarted _ _ log _ _ action hs =>
      _ ← stop_each Handler_Stop hs;
      _ ← Action_Stop action;
      close_logger log
  end.

(** [StartHandler]; [vs] are the variables of the protocol. *)
Fixpoint StartHandler (vs : vars) (cfg : HandlerCfg C) : ST World (Started X) :=
  match cfg with
  | mkHandlerCfg m next logCfg authCfg rlCfg actionCfg handlers =>
      log ← open_logger logCfg vs;
      auth ← start_auth log authCfg;
      rl ← new_limiter rlCfg;
      action ← wrapST "cannot create action"%go (NewAction actionCfg);
      action ← wrapST "cannot start action"%go (Action_Start action);
      hs ← start_each (StartHandler vs) Handler_Stop [] handlers;
      mret (mkStarted m next log auth rl action hs)
  end.

(** [rotateHandlerLoggers] *)
Fixpoint rotate_handler (h : Started X) : ST World (Started X) :=
  match h with
  | mkStarted m next log auth rl action hs =>
      log ← rotate_logger log;
      hs ← (fix rotate_handlers (l : list (Started X)) : ST World (list (Started X)) :=
              match l with
              | [] => mret []
              | h :: l' => h ← rotate_handler h; l' ← rotate_handlers l'; mret (h :: l')
              end) hs;
      mret (mkStarted m next log auth rl action hs)
  end.
End handlers.

(** ** The HTTP protocol *)

(** A [Server]: its listener, the goroutine of [serve], and whether [Shutdown] was called on
    its server, which makes [Serve] return. *)
Record HTTPServer := mkHTTPServer {
  hs_Listener : Listener;
  hs_goroutine : Resource;
  hs_shutdown : bool
}.

(** [Server.Stop]: the context of its listener was cancelled before. *)
Definition HTTPServer_Stop (s : HTTPServer) : HTTPServer := mkHTTPServer (hs_Listener s) (hs_goroutine s) true.

(** [Protocol]: [hp_stopClosed] says that [stopChan], made once by [NewProtocol], is
    closed; [hp_tcpConnections] are the connections relayed for upgrades, with whether
    they are open. *)
Record HttpProtocol (X : Type) := mkHttpProtocol {
  hp_TLSHandling : TLSHandling;
  hp_HSTS : bool;
  hp_nbConnections : Z;
  hp_tcpConnections : gmap nat bool;
  hp_accessLogger : option LogHandle;
  hp_handlers : list (Started X);
  hp_servers : list HTTPServer;
  hp_defaultTLSListener : option Listener;
  hp_stopClosed : bool;
  hp_gc : option Resource
}.
Arguments mkHttpProtocol {X}.
Arguments hp_TLSHandling {X}.
Arguments hp_HSTS {X}.
Arguments hp_nbConnections {X}.
Arguments hp_tcpConnections {X}.
Arguments hp_accessLogger {X}.
Arguments hp_handlers {X}.
Arguments hp_servers {X}.
Arguments hp_defaultTLSListener {X}.
Arguments hp_stopClosed {X}.
Arguments hp_gc {X}.

(** [NewProtocol], with the settings [Start] reads in the configuration. *)
Definition NewProtocol {X} (tls : TLSHandling) (hsts : bool) : HttpProtocol X :=
  mkHttpProtocol tls hsts 0 ∅ None [] [] None false None.

Record HttpProtocolCfg (C : Type) := mkHttpCfg {
  hpc_AccessLogger : option AccessLoggerCfg;
  hpc_Handlers : list (HandlerCfg C)
}.
Arguments mkHttpCfg {C}.
Arguments hpc_AccessLogger {C}.
Arguments hpc_Handlers {C}.

(** The protocol [ServeHTTP] of [HttpServer] runs with. *)
Definition serving {X} (p : HttpProtocol X) : HttpServer.Protocol X :=
  mkProtocol (hp_TLSHandling p) (hp_HSTS p) (access_logger <$> hp_accessLogger p)
    (map searched (hp_handlers p)) (hp_defaultTLSListener p).

(** The variables of the protocol. *)
Definition protocol_vars (name : gostring) : vars := {[ "server.name"%go := name ]}.

(** [connState]: the number of connections; the other states do nothing. *)
Inductive ConnState := StateNew | StateActive | StateIdle | StateHijacked | StateClosed.

Definition connState {X} (state : ConnState) (p : HttpProtocol X) : HttpProtocol X :=
  let nb := match state with
            | StateNew => i64 (hp_nbConnections p + 1)
            | StateClosed => i64 (hp_nbConnections p - 1)
            | _ => hp_nbConnections p
            end in
  mkHttpProtocol (hp_TLSHandling p) (hp_HSTS p) nb (hp_tcpConnections p) (hp_accessLogger p) (hp_handlers p)
    (hp_servers p) (hp_defaultTLSListener p) (hp_stopClosed p) (hp_gc p).

Section protocol.
Context {C X : Type} `{!ActionLifecycle C X}.

Definition on_world {P B} (m : ST World B) : ST (World * P) B := zoom fst (fun w s => (w, snd s)) m.

(** The parts of a protocol that are set by [Start], and what [Stop] leaves. *)
Definition set_connections (nb : Z) (tcp : gmap nat bool) (p : HttpProtocol X) : HttpProtocol X :=
  mkHttpProtocol (hp_TLSHandling p) (hp_HSTS p) nb tcp (hp_accessLogger p) (hp_handlers p)
    (hp_servers p) (hp_defaultTLSListener p) (hp_stopClosed p) (hp_gc p).
Definition set_parts (log : option LogHandle) (hs : list (Started X)) (p : HttpProtocol X) : HttpProtocol X :=
  mkHttpProtocol (hp_TLSHandling p) (hp_HSTS p) (hp_nbConnections p) (hp_tcpConnections p) log hs
    (hp_servers p) (hp_defaultTLSListener p) (hp_stopClosed p) (hp_gc p).
Definition set_servers (servers : list HTTPServer) (tls : option Listener) (p : HttpProtocol X)
  : HttpProtocol X :=
  mkHttpProtocol (hp_TLSHandling p) (hp_HSTS p) (hp_nbConnections p) (hp_tcpConnections p) (hp_accessLogger p)
    (hp_handlers p) servers tls (hp_stopClosed p) (hp_gc p).
Definition set_stop (closed : bool) (gc : option Resource) (p : HttpProtocol X) : HttpProtocol X :=
  mkHttpProtocol (hp_TLSHandling p) (hp_HSTS p) (hp_nbConnections p) (hp_tcpConnections p) (hp_accessLogger p)
    (hp_handlers p) (hp_servers p) (hp_defaultTLSListener p) closed gc.

(** [StartServer] of server.go, which does not fail: its goroutine serves the listener. *)
Definition StartServer (l : Listener) : ST World HTTPServer :=
  g ← acquire ServeGoroutine []; mret (mkHTTPServer l g false).

Fixpoint start_servers (ls : list Listener) : ST World (list HTTPServer) :=
  match ls with
  | [] => mret []
  | l :: ls' => s ← StartServer l; ss ← start_servers ls'; mret (s :: ss)
  end.

(** The first listener that has TLS, if none is known. *)
Definition default_listener (known : option Listener) (ls : list Listener) : option Listener :=
  match known with
  | Some l => Some l
  | None => find (fun l => bool_decide (is_Some (l_TLS l))) ls
  end.

(** [rateLimiterGC] returns at once when [stopChan] is closed. *)
Definition start_gc (closed : bool) : ST World (option Resource) :=
  if closed then mret None else (g ← acquire GCGoroutine []; mret (Some g)).

(** [Protocol.Start], for the server [name] with the listeners [ls]. *)
Definition Protocol_Start (cfg : HttpProtocolCfg C) (name : gostring) (ls : list Listener)
  : ST (World * HttpProtocol X) unit :=
  _ ← modify (fun '(w, p) => (w, set_connections (hp_nbConnections p) ∅ p));
  log ← on_world (open_logger (hpc_AccessLogger cfg) (protocol_vars name));
  _ ← modify (fun '(w, p) =>
        (w, set_parts (match log with Some l => Some l | None => hp_accessLogger p end) (hp_handlers p) p));
  hs ← wrapST "cannot create handler"%go
         (on_world (start_each (StartHandler (protocol_vars name)) Handler_Stop [] (hpc_Handlers cfg)));
  _ ← modify (fun '(w, p) => (w, set_parts (hp_accessLogger p) hs p));
  servers ← on_world (start_servers ls);
  _ ← modify (fun '(w, p) => (w, set_servers servers (default_listener (hp_defaultTLSListener p) ls) p));
  closed ← gets (fun s => hp_stopClosed (snd s));
  gc ← on_world (start_gc closed);
  modify (fun '(w, p) => (w, set_stop (hp_stopClosed p) gc p)).

(** What [wg.Wait] waits for: the goroutines of the servers, the one that collects the rate
    limiters, and those of the relayed connections, which return once these are closed. *)
Definition wait_goroutines (p : HttpProtocol X) : ST World unit :=
  _ ← stop_each (fun s => await (hs_shutdown s) (hs_goroutine s)) (hp_servers p);
  _ ← match hp_gc p with Some g => await (hp_stopClosed p) g | None => mret tt end;
  if bool_decide (map_Forall (fun _ o => o = false) (hp_tcpConnections p)) then mret tt else lift OutOfFuel.

(** [Protocol.Stop] *)
Definition Protocol_Stop : ST (World * HttpProtocol X) unit := fun '(w, p) =>
  if hp_stopClosed p then (Panic, (w, p))
  else
    (_ ← modify (fun '(w, p) => (w, set_stop true (hp_gc p) p));
     _ ← modify (fun '(w, p) => (w, set_servers (map HTTPServer_Stop (hp_servers p)) (hp_defaultTLSListener p) p));
     _ ← on_world (stop_each Handler_Stop (hp_handlers p));
     _ ← modify (fun '(w, p) => (w, set_connections (hp_nbConnections p) ((fun _ => false) <$> hp_tcpConnections p) p));
     _ ← modify (fun '(w, p) => (w, set_connections 0 (hp_tcpConnections p) p));
     _ ← on_world (close_logger (hp_accessLogger p));
     p ← gets snd;
     on_world (wait_goroutines p)) (w, p).

(** [Protocol.RotateLogFiles] *)
Fixpoint rotate_handlers (l : list (Started X)) : ST World (list (Started X)) :=
  match l with
  | [] => mret []
  | h :: l' => h ← rotate_handler h; l' ← rotate_handlers l'; mret (h :: l')
  end.

Definition RotateLogFiles : ST (World * HttpProtocol X) unit := fun '(w, p) =>
  (log ← on_world (rotate_logger (hp_accessLogger p));
   hs ← on_world (rotate_handlers (hp_handlers p));
   modify (fun '(w, p) => (w, set_parts log hs p))) (w, p).
End protocol.

(** ** What is held

    [opens] states what a call that starts something takes, and leaves behind when it
    fails; [closes] what the call that stops it gives back. *)

Section held.
Context {S : Type} (hd : S -> gmultiset Resource).

Definition opens {B : Type} (leak : gmultiset Resource -> Prop) (m : ST S B) (owns : B -> gmultiset Resource)
  (ready : B -> Prop) : Prop :=
  forall s, match m s with
  | (Ret b, s') => hd s' = owns b ⊎ hd s /\ ready b
  | (Throw _, s') => exists L, leak L /\ hd s' = L ⊎ hd s
  | _ => False
  end.

Definition closes (m : ST S unit) (R : gmultiset Resource) : Prop :=
  forall s H, hd s = R ⊎ H -> exists s', m s = (Ret tt, s') /\ hd s' = H.

Lemma closes_nothing : closes (mret tt) ∅.
Proof. intros s H Hs. exists s. split; [done|multiset_solver]. Qed.

Lemma closes_seq m1 m2 R1 R2 : closes m1 R1 -> closes m2 R2 -> closes (_ ← m1; m2) (R1 ⊎ R2).
Proof.
  intros H1 H2 s H Hs. destruct (H1 s (R2 ⊎ H)) as (s1 & E1 & Hs1); [multiset_solver|].
  destruct (H2 s1 H Hs1) as (s2 & E2 & Hs2). exists s2. split; [|done]. by rewrite (st_bind_ret _ _ _ _ _ E1).
Qed.

Context {A B : Type} (start : A -> ST S B) (stop : B -> ST S unit).
Context (owns : B -> gmultiset Resource) (ready : B -> Prop) (leak : gmultiset Resource -> Prop).

Fixpoint owns_all (l : list B) : gmultiset Resource :=
  match l with [] => ∅ | b :: l' => owns b ⊎ owns_all l' end.

Lemma owns_all_app l k : owns_all (l ++ k) = owns_all l ⊎ owns_all k.
Proof.
  induction l as [|b l IH]; simpl; [by rewrite (left_id_L ∅ (⊎))|]. by rewrite IH, (assoc_L (⊎)).
Qed.

Hypothesis stop_closes : forall b, ready b -> closes (stop b) (owns b).

Lemma stop_each_closes l : Forall ready l -> closes (stop_each stop l) (owns_all l).
Proof using Type stop_closes.
  intros Hl. induction Hl as [|b l Hb Hl IH]; [apply closes_nothing|].
  apply closes_seq; [by apply stop_closes|done].
Qed.

(** All of the elements, or none. *)
Lemma start_each_opens started l :
  Forall ready started -> Forall (fun a => opens leak (start a) owns ready) l -> leak ∅ ->
  forall s H, hd s = owns_all started ⊎ H ->
  match start_each start stop started l s with
  | (Ret bs, s') => hd s' = owns_all bs ⊎ H /\ Forall ready bs
  | (Throw _, s') => exists L, leak L /\ hd s' = L ⊎ H
  | _ => False
  end.
Proof using Type stop_closes.
  intros Hst Hl Hleak. revert started Hst. induction Hl as [|a l Ha Hl IH]; intros started Hst s H Hs.
  { done. }
  cbn [start_each]. specialize (Ha s). unfold mbind, st_bind, attempt.
  destruct (start a s) as [[b|err| |] s1] eqn:Ea; try done.
  - destruct Ha as [Hs1 Hb]. apply IH; [by apply Forall_app_2, Forall_singleton|].
    rewrite owns_all_app. simpl. rewrite Hs1, Hs. multiset_solver.
  - destruct Ha as (L & HL & Hs1).
    destruct (stop_each_closes started Hst s1 (L ⊎ H)) as (s2 & E & Hs2); [rewrite Hs1, Hs; multiset_solver|].
    unfold mbind, st_bind in *. rewrite E. exists L. done.
Qed.
End held.

(** A failure leaves nothing behind, or possibly something, but no socket. *)
Definition clean (L : gmultiset Resource) : Prop := L = ∅.
Definition no_socket (L : gmultiset Resource) : Prop := forall r, r ∈ L -> fst (snd r) <> Socket.

Lemma no_socket_empty : no_socket ∅.
Proof. intros r Hr. by apply gmultiset_not_elem_of_empty in Hr. Qed.

Lemma no_socket_union L K : no_socket L -> no_socket K -> no_socket (L ⊎ K).
Proof. intros HL HK r Hr. apply gmultiset_elem_of_disj_union in Hr as [Hr|Hr]; auto. Qed.

Lemma no_socket_singleton r : fst (snd r) <> Socket -> no_socket {[+ r +]}.
Proof. intros Hr x Hx. apply gmultiset_elem_of_singleton in Hx as ->. done. Qed.

(** What an action promises, for the configurations whose creation ends: it is started from what its creation took, and [Stop] gives
    it all back. *)
Class ActionLaws (C X : Type) `{!ActionLifecycle C X} := {
  action_owns : X -> gmultiset Resource;
  action_ready : X -> Prop;
  action_cfg_ok : C -> Prop;
  action_opens : forall cfg, action_cfg_ok cfg ->
    opens held no_socket (x ← wrapST "cannot create action"%go (NewAction cfg);
                      wrapST "cannot start action"%go (Action_Start x)) action_owns action_ready;
  action_no_socket : forall x, action_ready x -> no_socket (action_owns x);
  action_closes : forall x, action_ready x -> closes held (Action_Stop x) (action_owns x)
}.

Lemma acquire_opens kind name :
  opens held clean (acquire kind name) (fun r => {[+ r +]}) (fun r => snd r = (kind, name)).
Proof. intros w. done. Qed.

Lemma release_closes r : closes held (release r) {[+ r +]}.
Proof. intros w H Hw. eexists. split; [reflexivity|]. cbn. rewrite Hw. multiset_solver. Qed.

Lemma close_socket_closes r : closes held (close_socket r) {[+ r +]}.
Proof. intros w H Hw. eexists. split; [reflexivity|]. cbn. rewrite Hw. multiset_solver. Qed.

Lemma call_held w : held (call w).2 = held w.
Proof. unfold call. by destruct (faults w) as [|[e|] fs]. Qed.

Lemma call_outcome w : (exists w', call w = (Ret tt, w') /\ held w' = held w)
                       \/ (exists e w', call w = (Throw e, w') /\ held w' = held w).
Proof. unfold call. destruct (faults w) as [|[e|] fs]; [left|right|left]; by repeat eexists. Qed.

(** The file of an access log. *)
Definition log_owns (l : option LogHandle) : gmultiset Resource :=
  match l with Some l => {[+ lg_file l +]} | None => ∅ end.

(** The file of a log is a log file. *)
Definition log_ready (l : option LogHandle) : Prop :=
  match l with Some l => fst (snd (lg_file l)) = LogFile | None => True end.

Lemma open_log_opens path :
  opens held clean (open_log path) (fun r => {[+ r +]}) (fun r => snd r = (LogFile, path)).
Proof.
  intros w. unfold open_log, mbind, st_bind, wrapST.
  destruct (call_outcome w) as [(w' & -> & Hw)|(e & w' & -> & Hw)]; cbn.
  - by rewrite Hw.
  - exists ∅. split; [done|]. rewrite Hw. multiset_solver.
Qed.

Lemma open_logger_opens cfg vs : opens held clean (open_logger cfg vs) log_owns log_ready.
Proof.
  intros w. destruct cfg as [cfg|]; cbn [open_logger].
  - unfold NewAccessLogger, mbind, st_bind, wrapST.
    pose proof (open_log_opens (Expand (alc_Path cfg) vs) w) as Ho.
    destruct (open_log _ w) as [[r|e| |] w']; cbn; try done. destruct Ho as [Hw Hr].
    split; [done|]. by rewrite Hr.
  - split; [|done]. exact (eq_sym (left_id_L ∅ (⊎) (held w))).
Qed.

Lemma close_logger_closes l : closes held (close_logger l) (log_owns l).
Proof. destruct l as [l|]; [apply release_closes|apply closes_nothing]. Qed.

(** What is written, and where: the format and the path. *)
Definition log_name (l : option LogHandle) : option (FormatString * (ResourceKind * gostring)) :=
  (fun x => (lg_Format x, snd (lg_file x))) <$> l.

(** Rotating a log changes its file, not its path, and keeps it open when the new file
    cannot be opened. *)
Lemma rotate_logger_keeps l w H :
  log_ready l -> held w = log_owns l ⊎ H ->
  exists l' w', rotate_logger l w = (Ret l', w') /\ held w' = log_owns l' ⊎ H
    /\ log_ready l' /\ log_name l' = log_name l.
Proof.
  intros Hl Hw. destruct l as [l|]; cbn [rotate_logger].
  2:{ by exists None, w. }
  unfold Reopen, mbind, st_bind, attempt.
  pose proof (open_log_opens (FilePath l) w) as Ho.
  destruct (open_log (FilePath l) w) as [[r|e| |] w1]; try done.
  - destruct Ho as [Hw1 Hr].
    assert (snd r = snd (lg_file l)) as Hname.
    { rewrite Hr. unfold FilePath. unfold log_ready in Hl. rewrite <- Hl. by destruct (snd (lg_file l)). }
    destruct (release_closes (lg_file l) w1 ({[+ r +]} ⊎ H)) as (w2 & E & Hw2).
    { rewrite Hw1, Hw. unfold log_owns. multiset_solver. }
    exists (Some (mkHandle (lg_Format l) r)), w2. unfold mbind, st_bind. rewrite E.
    split; [reflexivity|]. split; [exact Hw2|]. unfold log_ready, log_name. cbn [lg_file lg_Format fmap option_fmap option_map].
    rewrite Hname. done.
  - destruct Ho as (L & -> & Hw1). exists (Some l), w1. split; [reflexivity|].
    split; [|done]. rewrite Hw1. by rewrite (left_id_L ∅ (⊎)).
Qed.

Lemma log_no_socket l : log_ready l -> no_socket (log_owns l).
Proof.
  destruct l as [l|]; [|intros _; apply no_socket_empty]. intros Hl. apply no_socket_singleton.
  unfold log_ready in Hl. by rewrite Hl.
Qed.

(** ** Handlers *)

Section handler_laws.
Context {C X : Type} `{ActionLaws C X}.

(** Induction over the configurations, and over the handlers, of a tree. *)
Fixpoint HandlerCfg_nested_ind (P : HandlerCfg C -> Prop)
  (Hnode : forall m next log auth rl a subs, Forall P subs -> P (mkHandlerCfg m next log auth rl a subs))
  (cfg : HandlerCfg C) : P cfg :=
  match cfg with
  | mkHandlerCfg m next log auth rl a subs =>
      Hnode m next log auth rl a subs
        ((fix go (l : list (HandlerCfg C)) : Forall P l :=
            match l with
            | [] => Forall_nil_2 P
            | c :: l' => Forall_cons_2 P c l' (HandlerCfg_nested_ind P Hnode c) (go l')
            end) subs)
  end.

Fixpoint Started_nested_ind (P : Started X -> Prop)
  (Hnode : forall m next log auth rl a hs, Forall P hs -> P (mkStarted m next log auth rl a hs))
  (h : Started X) : P h :=
  match h with
  | mkStarted m next log auth rl a hs =>
      Hnode m next log auth rl a hs
        ((fix go (l : list (Started X)) : Forall P l :=
            match l with
            | [] => Forall_nil_2 P
            | x :: l' => Forall_cons_2 P x l' (Started_nested_ind P Hnode x) (go l')
            end) hs)
  end.

(** What a handler holds: what its handlers hold, its action and its log. *)
Fixpoint handler_owns (h : Started X) : gmultiset Resource :=
  match h with
  | mkStarted _ _ log _ _ action hs => owns_all handler_owns hs ⊎ (action_owns action ⊎ log_owns log)
  end.

#[warnings="-register-all"]
Inductive handler_ready : Started X -> Prop :=
  | handler_ready_intro m next log auth rl action hs :
      log_ready log -> action_ready action -> Forall handler_ready hs ->
      handler_ready (mkStarted m next log auth rl action hs).

Lemma Handler_Stop_closes h : handler_ready h -> closes held (Handler_Stop h) (handler_owns h).
Proof.
  induction h as [m next log auth rl action hs IH] using Started_nested_ind. intros Hr.
  inversion Hr as [? ? ? ? ? ? ? Hlog Ha Hhs]; subst. cbn [Handler_Stop handler_owns].
  apply closes_seq; [|apply closes_seq; [by apply action_closes|apply close_logger_closes]].
  clear Hr. induction hs as [|h hs IHhs]; [apply closes_nothing|].
  apply Forall_cons in IH as [IHh IH]. apply Forall_cons in Hhs as [Hh Hhs].
  apply closes_seq; [by apply IHh|by apply IHhs].
Qed.

Lemma start_auth_held log auth w :
  (forall r, auth = Some r -> completed r) ->
  match start_auth log auth w with
  | (Ret a, w') => w' = w
  | (Throw _, w') => forall H, held w = log_owns log ⊎ H -> held w' = H
  | _ => False
  end.
Proof.
  intros Hc. destruct auth as [r|]; cbn [start_auth]; [|done]. specialize (Hc r eq_refl).
  unfold mbind, st_bind, attempt, lift. destruct r as [a|e| |]; try done. clear Hc.
  assert (exists w', close_logger log w = (Ret tt, w')) as [w' E] by (destruct log; by eexists).
  rewrite E. intros H' Hw. destruct (close_logger_closes log w H' Hw) as (w2 & E2 & Hw2).
  rewrite E in E2. by injection E2 as ->.
Qed.

(** The authentications and the actions of a configuration initialize or fail. *)
#[warnings="-register-all"]
Inductive cfg_completes : HandlerCfg C -> Prop :=
  | cfg_completes_intro m next log auth rl a subs :
      (forall r, auth = Some r -> completed r) -> action_cfg_ok a -> Forall cfg_completes subs ->
      cfg_completes (mkHandlerCfg m next log auth rl a subs).

Lemma StartHandler_opens vs cfg :
  cfg_completes cfg -> opens held no_socket (StartHandler vs cfg) handler_owns handler_ready.
Proof.
  induction cfg as [m next logCfg authCfg rlCfg actionCfg subs IH] using HandlerCfg_nested_ind.
  intros Hauth w. inversion Hauth as [? ? ? ? ? ? ? Ha Hcfg Hsubs]; subst. cbn [StartHandler].
  pose proof (open_logger_opens logCfg vs w) as Hlog. unfold mbind at 1, st_bind at 1.
  destruct (open_logger logCfg vs w) as [[log|e| |] w1]; try done.
  2:{ destruct Hlog as (L & -> & Hw). exists ∅. split; [apply no_socket_empty|done]. }
  destruct Hlog as [Hw1 Hlog]. unfold mbind at 1, st_bind at 1.
  pose proof (start_auth_held log authCfg w1 Ha) as Hau.
  destruct (start_auth log authCfg w1) as [[auth|e| |] w2]; try done.
  2:{ exists ∅. split; [apply no_socket_empty|]. rewrite (Hau (held w) Hw1). by rewrite (left_id_L ∅ (⊎)). }
  subst w2. unfold mbind at 1, st_bind at 1.
  destruct (new_limiter rlCfg w1) as [[rl|e| |] w2] eqn:Erl; try (by destruct rlCfg).
  assert (held w2 = held w1) as Hw2 by (destruct rlCfg; by injection Erl as <- <-).
  pose proof (action_opens actionCfg Hcfg w2) as Hact. unfold mbind, st_bind in Hact |- *.
  destruct (wrapST "cannot create action"%go (NewAction actionCfg) w2) as [[x|e| |] w3]; try done.
  2:{ destruct Hact as (L & HL & Hw3). exists (L ⊎ log_owns log).
      split; [by apply no_socket_union, log_no_socket|].
      rewrite Hw3, Hw2, Hw1. by rewrite (assoc_L (⊎)). }
  destruct (wrapST "cannot start action"%go (Action_Start x) w3) as [[action|e| |] w4]; try done.
  2:{ destruct Hact as (L & HL & Hw4). exists (L ⊎ log_owns log).
      split; [by apply no_socket_union, log_no_socket|].
      rewrite Hw4, Hw2, Hw1. by rewrite (assoc_L (⊎)). }
  destruct Hact as [Hw4 Hready].
  pose proof (start_each_opens held (StartHandler vs) Handler_Stop handler_owns handler_ready no_socket
    Handler_Stop_closes [] subs (Forall_nil_2 _)) as Heach.
  specialize (Heach ltac:(clear -IH Hsubs; induction IH; [constructor|];
    apply Forall_cons in Hsubs as [? ?]; constructor; auto) no_socket_empty w4 (held w4)).
  specialize (Heach (eq_sym (left_id_L ∅ (⊎) (held w4)))).
  destruct (start_each (StartHandler vs) Handler_Stop [] subs w4) as [[hs|e| |] w5]; try done.
  - destruct Heach as [Hw5 Hhs]. cbn. split; [|by constructor].
    rewrite Hw5, Hw4, Hw2, Hw1. by rewrite !(assoc_L (⊎)).
  - destruct Heach as (L & HL & Hw5). exists (L ⊎ (action_owns action ⊎ log_owns log)).
    split; [apply no_socket_union; [done|]; apply no_socket_union;
      [by apply action_no_socket|by apply log_no_socket]|].
    rewrite Hw5, Hw4, Hw2, Hw1. by rewrite !(assoc_L (⊎)).
Qed.
End handler_laws.

(** ** The protocol *)

Section protocol_laws.
Context {C X : Type} `{ActionLaws C X}.

(** The rotation of the logs of a tree keeps the tree and what it holds, but for the
    files. *)
Fixpoint log_names (h : Started X) : list (option (FormatString * (ResourceKind * gostring))) :=
  match h with
  | mkStarted _ _ log _ _ _ hs => log_name log :: concat (map log_names hs)
  end.

Definition rotates (rotate : Started X -> ST World (Started X)) (h : Started X) : Prop :=
  handler_ready h -> forall w H, held w = handler_owns h ⊎ H ->
  exists h' w', rotate h w = (Ret h', w') /\ held w' = handler_owns h' ⊎ H
    /\ handler_ready h' /\ log_names h' = log_names h.

Lemma rotate_handlers_keep hs :
  Forall (rotates rotate_handler) hs -> Forall handler_ready hs ->
  forall w H, held w = owns_all handler_owns hs ⊎ H ->
  exists hs' w', rotate_handlers hs w = (Ret hs', w') /\ held w' = owns_all handler_owns hs' ⊎ H
    /\ Forall handler_ready hs' /\ concat (map log_names hs') = concat (map log_names hs).
Proof.
  intros Hrot. induction Hrot as [|h hs Hh Hrot IH]; intros Hready w K Hw.
  { by exists [], w. }
  apply Forall_cons in Hready as [Hr Hready]. cbn [owns_all] in Hw.
  destruct (Hh Hr w (owns_all handler_owns hs ⊎ K)) as (h' & w1 & E1 & Hw1 & Hr' & Hn).
  { rewrite Hw. by rewrite (assoc_L (⊎)). }
  destruct (IH Hready w1 (handler_owns h' ⊎ K)) as (hs' & w2 & E2 & Hw2 & Hready' & Hns).
  { rewrite Hw1. by rewrite !(assoc_L (⊎)), (comm_L (⊎) (handler_owns h')). }
  exists (h' :: hs'), w2. cbn [rotate_handlers]. rewrite (st_bind_ret _ _ _ _ _ E1), (st_bind_ret _ _ _ _ _ E2).
  split; [done|]. split.
  { cbn [owns_all]. rewrite Hw2. by rewrite !(assoc_L (⊎)), (comm_L (⊎) (handler_owns h')). }
  split; [by constructor|]. cbn [map concat]. by rewrite Hn, Hns.
Qed.

Lemma rotate_handler_keeps h : rotates rotate_handler h.
Proof.
  induction h as [m next log auth rl action hs IH] using Started_nested_ind.
  intros Hr w K Hw. inversion Hr as [? ? ? ? ? ? ? Hlog Ha Hhs]; subst. cbn [handler_owns] in Hw.
  destruct (rotate_logger_keeps log w (owns_all handler_owns hs ⊎ (action_owns action ⊎ K)) Hlog)
    as (log' & w1 & E1 & Hw1 & Hlog' & Hn).
  { rewrite Hw. rewrite (comm_L (⊎) _ (log_owns log)). by rewrite !(assoc_L (⊎)), (comm_L (⊎) _ (log_owns log)). }
  destruct (rotate_handlers_keep hs IH Hhs w1 (action_owns action ⊎ log_owns log' ⊎ K))
    as (hs' & w2 & E2 & Hw2 & Hhs' & Hns).
  { rewrite Hw1. rewrite !(assoc_L (⊎)). f_equal. rewrite (comm_L (⊎) (log_owns log')).
    by rewrite <- !(assoc_L (⊎)), (comm_L (⊎) (log_owns log')). }
  exists (mkStarted m next log' auth rl action hs'), w2.
  cbn [rotate_handler]. rewrite (st_bind_ret _ _ _ _ _ E1).
  erewrite st_bind_ret by exact E2. split; [done|]. cbn [handler_owns]. split.
  { rewrite Hw2. by rewrite !(assoc_L (⊎)). }
  split; [by constructor|]. cbn [log_names]. by rewrite Hn, Hns.
Qed.

(** What a protocol holds: its handlers, its log and its goroutines. *)
Definition gc_owns (gc : option Resource) : gmultiset Resource :=
  match gc with Some g => {[+ g +]} | None => ∅ end.

Definition goroutines_own (p : HttpProtocol X) : gmultiset Resource :=
  owns_all (fun r => {[+ r +]}) (map hs_goroutine (hp_servers p)) ⊎ gc_owns (hp_gc p).

Definition protocol_owns (p : HttpProtocol X) : gmultiset Resource :=
  owns_all handler_owns (hp_handlers p) ⊎ (log_owns (hp_accessLogger p) ⊎ goroutines_own p).

Record protocol_holds (K : gmultiset Resource) (s : World * HttpProtocol X) : Prop := {
  ph_held : held (fst s) = protocol_owns (snd s) ⊎ K;
  ph_handlers : Forall handler_ready (hp_handlers (snd s));
  ph_log : log_ready (hp_accessLogger (snd s))
}.

Lemma start_servers_hold ls w :
  exists ss w', start_servers ls w = (Ret ss, w')
    /\ held w' = owns_all (fun r => {[+ r +]}) (map hs_goroutine ss) ⊎ held w.
Proof.
  revert w. induction ls as [|l ls IH]; intros w.
  { exists [], w. split; [done|]. exact (eq_sym (left_id_L ∅ (⊎) (held w))). }
  set (g := (next_id w, (ServeGoroutine, [] : gostring))).
  set (w1 := (acquire ServeGoroutine [] w).2). assert (held w1 = {[+ g +]} ⊎ held w) as Hw1 by done.
  destruct (IH w1) as (ss & w2 & E2 & Hw2). exists (mkHTTPServer l g false :: ss), w2. cbn [start_servers].
  rewrite (st_bind_ret (StartServer l) _ w (mkHTTPServer l g false) w1) by reflexivity.
  rewrite (st_bind_ret _ _ _ _ _ E2). split; [done|]. cbn [map owns_all hs_goroutine]. rewrite Hw2, Hw1.
  by rewrite !(assoc_L (⊎)), (comm_L (⊎) (owns_all _ _)).
Qed.

(** A start: what is held on success, and that no socket is left on failure. *)
Lemma Protocol_Start_spec cfg name ls w (p : HttpProtocol X) :
  Forall cfg_completes (hpc_Handlers cfg) -> (hpc_AccessLogger cfg = None -> hp_accessLogger p = None) ->
  match Protocol_Start cfg name ls (w, p) with
  | (Ret _, s') => protocol_holds (held w) s' /\ hp_stopClosed (snd s') = hp_stopClosed p
                   /\ (hp_stopClosed p = true -> hp_gc (snd s') = None)
                   /\ (hpc_AccessLogger cfg = None -> hp_accessLogger (snd s') = None)
  | (Throw _, s') => (exists L, no_socket L /\ held (fst s') = L ⊎ held w)
                     /\ hp_stopClosed (snd s') = hp_stopClosed p
                     /\ (hpc_AccessLogger cfg = None -> hp_accessLogger (snd s') = None)
  | _ => False
  end.
Proof.
  intros Hauth Hnone. unfold Protocol_Start. erewrite st_bind_ret by reflexivity.
  unfold on_world. unfold mbind at 1, st_bind at 1, zoom at 1. cbn [fst snd].
  pose proof (open_logger_opens (hpc_AccessLogger cfg) (protocol_vars name) w) as Hlog.
  destruct (open_logger (hpc_AccessLogger cfg) (protocol_vars name) w) as [[log|e| |] w1] eqn:Elog; try done.
  2:{ destruct Hlog as (L & -> & Hw1). split; [|done]. exists ∅. split; [apply no_socket_empty|done]. }
  assert (hpc_AccessLogger cfg = None -> match log with Some l => Some l | None => hp_accessLogger p end = None) as Hkeep.
  { intros Hc. rewrite Hc in Elog. injection Elog as <- _. by apply Hnone. }
  assert (log = None -> hp_accessLogger p = None) as Hold.
  { intros ->. apply Hnone. destruct (hpc_AccessLogger cfg) as [c|]; [|done]. cbn [open_logger] in Elog.
    unfold mbind, st_bind in Elog. by destruct (wrapST _ _ _) as [[?|?| |] ?]. }
  destruct Hlog as [Hw1 Hlog]. erewrite st_bind_ret by reflexivity.
  unfold mbind at 1, st_bind at 1, wrapST, zoom at 1. cbn [fst snd].
  pose proof (start_each_opens held (StartHandler (protocol_vars name)) Handler_Stop handler_owns handler_ready
    no_socket Handler_Stop_closes [] (hpc_Handlers cfg) (Forall_nil_2 _)) as Heach.
  specialize (Heach ltac:(eapply Forall_impl; [exact Hauth|intros c Hc; by apply StartHandler_opens])
    no_socket_empty w1 (held w1) (eq_sym (left_id_L ∅ (⊎) (held w1)))).
  destruct (start_each _ _ [] (hpc_Handlers cfg) w1) as [[hs|e| |] w2]; cbn [wrap_error]; try done.
  2:{ destruct Heach as (L & HL & Hw2). split; [|by split]. exists (L ⊎ log_owns log).
      split; [by apply no_socket_union, log_no_socket|]. cbn [fst]. rewrite Hw2, Hw1. by rewrite (assoc_L (⊎)). }
  destruct Heach as [Hw2 Hhs]. erewrite st_bind_ret by reflexivity.
  destruct (start_servers_hold ls w2) as (ss & w3 & Ess & Hw3).
  erewrite st_bind_ret by (unfold zoom; cbn [fst]; rewrite Ess; reflexivity).
  erewrite st_bind_ret by reflexivity. erewrite st_bind_ret by reflexivity. cbn [snd].
  assert (exists gc w4, start_gc (hp_stopClosed p) w3 = (Ret gc, w4) /\ held w4 = gc_owns gc ⊎ held w3
          /\ (hp_stopClosed p = true -> gc = None)) as (gc & w4 & Egc & Hw4 & Hgc).
  { destruct (hp_stopClosed p); cbn [start_gc].
    - exists None, w3. split; [done|]. split; [|done]. exact (eq_sym (left_id_L ∅ (⊎) (held w3))).
    - by do 2 eexists. }
  erewrite st_bind_ret by (unfold zoom; cbn [fst snd set_servers set_parts set_connections hp_stopClosed];
    rewrite Egc; reflexivity).
  unfold modify. cbn [snd fst]. split; [|by split; [|split; [intros Hc; apply Hgc|]]].
  constructor; cbn [fst snd set_stop set_servers set_parts hp_handlers hp_accessLogger]; [|done|].
  - rewrite Hw4, Hw3, Hw2, Hw1. unfold protocol_owns, goroutines_own.
    cbn [set_stop set_servers set_parts set_connections hp_handlers hp_accessLogger hp_servers hp_gc].
    replace (log_owns (match log with Some l => Some l | None => hp_accessLogger p end)) with (log_owns log)
      by (destruct log; [done|by rewrite Hold]).
    multiset_solver.
  - destruct log; [done|]. cbn. by rewrite Hold.
Qed.

Lemma closes_on_world {P} m R (w : World) (p : P) K :
  closes held m R -> held w = R ⊎ K ->
  exists w', on_world m (w, p) = (Ret tt, (w', p)) /\ held w' = K.
Proof.
  intros Hm Hw. destruct (Hm w K Hw) as (w' & E & Hw'). exists w'.
  unfold on_world, zoom. cbn [fst]. by rewrite E.
Qed.

(** What was told to stop: then the waits return. *)
Definition told_to_stop (p : HttpProtocol X) : Prop :=
  hp_stopClosed p = true /\ Forall (fun s => hs_shutdown s = true) (hp_servers p)
  /\ map_Forall (fun _ o => o = false) (hp_tcpConnections p).

Lemma await_closes g : closes held (await true g) {[+ g +]}.
Proof. apply release_closes. Qed.

Lemma goroutines_close (p : HttpProtocol X) : told_to_stop p -> closes held (wait_goroutines p) (goroutines_own p).
Proof.
  intros (Hstop & Hservers & Htcp). apply closes_seq.
  - induction Hservers as [|s ss Hs _ IH]; [apply closes_nothing|]. cbn [stop_each map owns_all].
    apply closes_seq; [rewrite Hs; apply await_closes|exact IH].
  - rewrite bool_decide_true by done.
    rewrite <- (right_id_L ∅ (⊎) (gc_owns (hp_gc p))). apply closes_seq; [|apply closes_nothing].
    rewrite Hstop. destruct (hp_gc p); [apply await_closes|apply closes_nothing].
Qed.

Lemma Protocol_Stop_spec K s :
  protocol_holds K s -> hp_stopClosed (snd s) = false ->
  exists s', Protocol_Stop s = (Ret tt, s') /\ held (fst s') = K /\ told_to_stop (snd s')
    /\ hp_nbConnections (snd s') = 0 /\ hp_accessLogger (snd s') = hp_accessLogger (snd s).
Proof.
  destruct s as [w p]. intros [Hw Hhs Hlog] Hopen. cbn [fst snd] in *. unfold protocol_owns in Hw.
  unfold Protocol_Stop. rewrite Hopen. erewrite st_bind_ret by reflexivity. erewrite st_bind_ret by reflexivity.
  set (p1 := set_servers _ _ _).
  destruct (closes_on_world (stop_each Handler_Stop (hp_handlers p)) (owns_all handler_owns (hp_handlers p)) w p1
              (log_owns (hp_accessLogger p) ⊎ goroutines_own p ⊎ K)) as (w1 & E1 & Hw1).
  { by apply (stop_each_closes held Handler_Stop handler_owns handler_ready); [apply Handler_Stop_closes|]. }
  { rewrite Hw. by rewrite !(assoc_L (⊎)). }
  erewrite st_bind_ret by exact E1. erewrite st_bind_ret by reflexivity. erewrite st_bind_ret by reflexivity.
  set (p2 := set_connections 0 _ _).
  destruct (closes_on_world (close_logger (hp_accessLogger p)) (log_owns (hp_accessLogger p)) w1 p2
              (goroutines_own p ⊎ K) (close_logger_closes _)) as (w2 & E2 & Hw2).
  { rewrite Hw1. by rewrite !(assoc_L (⊎)). }
  erewrite st_bind_ret by exact E2. erewrite st_bind_ret by reflexivity. cbn [snd].
  assert (told_to_stop p2) as Htold.
  { split; [done|]. split.
    - cbn. apply Forall_map, Forall_true. done.
    - intros k o Ho. cbn in Ho. apply lookup_fmap_Some in Ho as (x & <- & _). done. }
  assert (goroutines_own p2 = goroutines_own p) as Hown.
  { unfold goroutines_own. cbn. by rewrite map_map. }
  destruct (closes_on_world (wait_goroutines p2) (goroutines_own p2) w2 p2 K (goroutines_close p2 Htold))
    as (w3 & E3 & Hw3); [by rewrite Hown|].
  exists (w3, p2). by split.
Qed.

(** While the server runs: its logs are rotated, connections change state and are
    relayed. *)
Inductive protocol_event : World * HttpProtocol X -> World * HttpProtocol X -> Prop :=
  | event_rotation s s' : RotateLogFiles s = (Ret tt, s') -> protocol_event s s'
  | event_connState state w p : protocol_event (w, p) (w, connState state p)
  | event_relay tcp w p : protocol_event (w, p) (w, set_connections (hp_nbConnections p) tcp p).

(** The logs of a protocol: their formats and paths. *)
Definition protocol_logs (p : HttpProtocol X) : list (option (FormatString * (ResourceKind * gostring))) :=
  log_name (hp_accessLogger p) :: concat (map log_names (hp_handlers p)).

Lemma RotateLogFiles_keeps K s :
  protocol_holds K s ->
  exists s', RotateLogFiles s = (Ret tt, s') /\ protocol_holds K s'
    /\ hp_stopClosed (snd s') = hp_stopClosed (snd s) /\ protocol_logs (snd s') = protocol_logs (snd s).
Proof.
  destruct s as [w p]. intros [Hw Hhs Hlog]. cbn [fst snd] in *. unfold protocol_owns in Hw.
  destruct (rotate_logger_keeps (hp_accessLogger p) w (owns_all handler_owns (hp_handlers p) ⊎ (goroutines_own p ⊎ K)) Hlog)
    as (log' & w1 & E1 & Hw1 & Hlog' & Hn); [rewrite Hw; multiset_solver|].
  destruct (rotate_handlers_keep (hp_handlers p) ltac:(apply Forall_true; intros h; apply rotate_handler_keeps) Hhs w1
              (log_owns log' ⊎ (goroutines_own p ⊎ K))) as (hs' & w2 & E2 & Hw2 & Hhs' & Hns);
    [rewrite Hw1; multiset_solver|].
  exists (w2, set_parts log' hs' p). unfold RotateLogFiles, on_world.
  erewrite st_bind_ret by (unfold zoom; cbn [fst]; rewrite E1; reflexivity).
  erewrite st_bind_ret by (unfold zoom; cbn [fst]; rewrite E2; reflexivity).
  split; [reflexivity|]. split; [|split; [done|]].
  - constructor; [|done|done]. cbn [fst snd]. unfold protocol_owns, goroutines_own in *.
    cbn [set_parts hp_handlers hp_accessLogger hp_servers hp_gc]. rewrite Hw2. multiset_solver.
  - unfold protocol_logs. cbn [snd set_parts hp_accessLogger hp_handlers]. by rewrite Hn, Hns.
Qed.


(** A protocol is stopped once: started again after a stop, which is what the
    restart of a failed server does, it serves, but the rate limiters are no longer
    collected, and stopping it a second time closes a closed channel. *)
Theorem restarted_protocol_cannot_stop cfg name ls w (p : HttpProtocol X) s :
  hp_stopClosed p = true -> (hpc_AccessLogger cfg = None -> hp_accessLogger p = None) ->
  Forall cfg_completes (hpc_Handlers cfg) ->
  Protocol_Start cfg name ls (w, p) = (Ret tt, s) ->
  hp_gc (snd s) = None /\ forall s', rtc protocol_event s s' -> fst (Protocol_Stop s') = Panic.
Proof using Type H.
  intros Hclosed Hnone Hauth Hstart.
  pose proof (Protocol_Start_spec cfg name ls w p Hauth Hnone) as Hspec. rewrite Hstart in Hspec.
  destruct Hspec as (Hholds & Hc & Hgc & _). split; [by apply Hgc|]. clear Hstart Hgc. rewrite Hclosed in Hc.
  intros s' Hrun.
  assert (hp_stopClosed (snd s') = true) as Hs'.
  { induction Hrun as [s|s s1 s2 Hev _ IH]; [done|].
    destruct Hev as [s s' Hrot|state v q|tcp v q].
    2-3: apply IH; [by destruct Hholds|done].
    destruct (RotateLogFiles_keeps _ _ Hholds) as (s1 & E & Hh & Hc1 & _).
    rewrite E in Hrot. injection Hrot as <-. apply IH; [done|congruence]. }
  destruct s' as [w' p']. unfold Protocol_Stop. cbn [snd] in Hs'. by rewrite Hs'.
Qed.
End protocol_laws.

(** ** The actions of a handler *)

Section actions.
Context {P : Type} `{GoUnicode, !HttpHandler.MapRange}.

(** What [StartHandler] switches on; the views of the actions that have some are compiled
    by [plain_view], and a handler without action replies. *)
Inductive BuiltinCfg :=
  | CfgPlain (plain_view : outcome unit)
  | CfgReverseProxy (parse : gostring -> outcome URL) (lbs : gmap gostring LoadBalancer) (now : Z)
      (proxy : ReverseProxyActionCfg)
  | CfgFastCGI (Compile : gostring -> outcome (gostring -> gostring)) (tmpDir : gostring)
      (fastcgi : FastCGIActionCfg) (settings : FastCGISettings).

(** An action, with the resources of those that have some. *)
Inductive BuiltinAction :=
  | ActPlain
  | ActReverseProxy (a : ReverseProxyAction P) (goroutines : gmap gostring Resource)
  | ActFastCGI (a : FastCGIAction) (tmp : option Resource).

(** The addresses [NewReverseProxyAction] calls [NewClient] for, in order: that of the URI,
    or those of the servers of the load balancer. *)
Definition server_addresses (lb : LoadBalancer) : list gostring :=
  map (fun srv => HostAddress_String (lbs_Address srv)) (Servers lb).

Definition client_addresses (a : ReverseProxyAction P) : list gostring :=
  match rp_client a with
  | Some cl => [HttpClient.Address (HttpClient.Cfg cl)]
  | None => server_addresses (loadBalancer a)
  end.

(** Each call of [NewClient] starts a goroutine that watches the connections; the table of
    clients has the last client of an address, with its goroutine. *)
Fixpoint watch_clients (addresses : list gostring) (goroutines : gmap gostring Resource)
  : ST World (gmap gostring Resource) :=
  match addresses with
  | [] => mret goroutines
  | address :: addresses' =>
      g ← acquire ClientGoroutine address;
      watch_clients addresses' (<[address := g]> goroutines)
  end.

(** Whether the client of an address was stopped: its [stopChan] is closed. *)
Definition client_stopped (a : ReverseProxyAction P) (address : gostring) : bool :=
  match rp_client a with
  | Some cl => HttpClient.stopClosed cl
  | None => match rp_clients a !! address with Some cl => HttpClient.stopClosed cl | None => false end
  end.

Definition builtin_New (cfg : BuiltinCfg) : ST World BuiltinAction :=
  match cfg with
  | CfgPlain view => _ ← wrapST "cannot create view"%go (lift view); mret ActPlain
  | CfgReverseProxy parse lbs now proxy =>
      a ← lift (NewReverseProxyAction parse lbs now proxy);
      gs ← watch_clients (client_addresses a) ∅;
      mret (ActReverseProxy a gs)
  | CfgFastCGI Compile tmpDir fastcgi settings =>
      a ← lift (NewFastCGIAction Compile (Ret tmpDir) fastcgi settings);
      if bool_decide (TemporaryDirectory settings = []) then
        _ ← wrapST "cannot create temporary directory"%go call;
        tmp ← acquire TempDir tmpDir;
        mret (ActFastCGI a (Some tmp))
      else mret (ActFastCGI a None)
  end.

Definition builtin_Start (a : BuiltinAction) : ST World BuiltinAction :=
  match a with
  | ActFastCGI a tmp => mret (ActFastCGI (FastCGIAction_Start [] a) tmp)
  | a => mret a
  end.

Definition builtin_Stop (a : BuiltinAction) : ST World unit :=
  match a with
  | ActPlain => mret tt
  | ActReverseProxy a gs =>
      let '(r, a) := ReverseProxyAction_Stop (map fst (range_map (rp_clients a))) a in
      _ ← lift r;
      stop_each (fun '(address, g) => await (client_stopped a address) g) (map_to_list gs)
  | ActFastCGI a tmp =>
      _ ← lift (fst (FastCGIAction_Stop (a, [])));
      match tmp with Some r => release r | None => mret tt end
  end.

#[export] Instance builtin_lifecycle : ActionLifecycle BuiltinCfg BuiltinAction := {
  NewAction := builtin_New;
  Action_Start := builtin_Start;
  Action_Stop := builtin_Stop
}.

Definition watchers_own (gs : gmap gostring Resource) : gmultiset Resource :=
  owns_all (fun '(_, g) => {[+ g +]}) (map_to_list gs).

Definition builtin_owns (a : BuiltinAction) : gmultiset Resource :=
  match a with
  | ActPlain => ∅
  | ActReverseProxy _ gs => watchers_own gs
  | ActFastCGI _ (Some r) => {[+ r +]}
  | ActFastCGI _ None => ∅
  end.

Definition not_socket (r : Resource) : Prop := fst (snd r) <> Socket.

Definition builtin_ready (a : BuiltinAction) : Prop :=
  match a with
  | ActPlain => True
  | ActReverseProxy a gs =>
      (exists a', ReverseProxyAction_Stop (map fst (range_map (rp_clients a))) a = (Ret tt, a')
                  /\ map_Forall (fun address _ => client_stopped a' address = true) gs)
      /\ map_Forall (fun _ g => not_socket g) gs
  | ActFastCGI a tmp =>
      fst (FastCGIAction_Stop (a, [])) = Ret tt /\ forall r, tmp = Some r -> not_socket r
  end.

(** New clients can be stopped. *)
Definition unstopped (cl : HttpClient.Client P) : Prop :=
  HttpClient.stopClosed cl = false /\ HttpClient.releasedClosed cl = false.

Lemma NewClient_unstopped now cfg cl : HttpClient.NewClient now cfg = Ret cl -> unstopped cl.
Proof. unfold HttpClient.NewClient. repeat case_goal; by intros [= <-]. Qed.

Lemma Stop_unstopped (cl : HttpClient.Client P) :
  unstopped cl -> exists cl', HttpClient.Stop cl = (Ret tt, cl') /\ HttpClient.stopClosed cl' = true.
Proof.
  intros [H1 H2]. unfold HttpClient.Stop. rewrite H1. cbn [HttpClient.releasedClosed HttpClient.set_store HttpClient.set_closed].
  rewrite H2. by eexists.
Qed.

Lemma create_clients_unstopped now servers clients clients' :
  create_clients now servers clients = Ret clients' ->
  map_Forall (fun _ cl => unstopped cl) clients -> map_Forall (fun _ cl => unstopped cl) clients'.
Proof.
  revert clients. induction servers as [|srv servers IH]; intros clients; cbn [create_clients].
  { by intros [= <-]. }
  destruct (HttpClient.NewClient now _) as [cl|e| |] eqn:E; cbn [wrap_error mbind outcome_bind]; try done.
  intros Hc Hall. apply (IH _ Hc). apply map_Forall_insert_2; [by eapply NewClient_unstopped|done].
Qed.

(** The clients of a table are all stopped. *)
Lemma stop_clients_unstopped (order : list gostring) (clients : gmap gostring (HttpClient.Client P)) :
  NoDup order -> (forall addr, addr ∈ order -> exists cl, clients !! addr = Some cl /\ unstopped cl) ->
  exists clients', stop_clients order clients = (Ret tt, clients')
    /\ (forall addr, addr ∈ order -> exists cl, clients' !! addr = Some cl /\ HttpClient.stopClosed cl = true)
    /\ (forall addr, (addr ∉ order) -> clients' !! addr = clients !! addr).
Proof.
  revert clients. induction order as [|addr order IH]; intros clients Hnd Hall.
  { exists clients. split; [done|]. split; [by intros addr ?%not_elem_of_nil|done]. }
  apply NoDup_cons in Hnd as [Hn Hnd]. cbn [stop_clients].
  destruct (Hall addr ltac:(by left)) as (cl & -> & Hu).
  destruct (Stop_unstopped cl Hu) as (cl' & -> & Hc).
  destruct (IH (<[addr := cl']> clients) Hnd) as (clients' & E & H1 & H2).
  { intros addr' Ha. destruct (Hall addr' ltac:(by right)) as (cl2 & Hl & Hu2).
    exists cl2. rewrite lookup_insert_ne by (intros ->; done). done. }
  exists clients'. split; [exact E|]. split.
  - intros addr' [->|Ha]%elem_of_cons; [|by apply H1]. exists cl'. split; [|done].
    rewrite H2 by done. apply lookup_insert_eq.
  - intros addr' [Hne Ha]%not_elem_of_cons. rewrite H2 by done. by apply lookup_insert_ne.
Qed.

(** A new action stops all of the clients it made and kept. *)
Lemma NewReverseProxyAction_stops parse lbs now cfg (a : ReverseProxyAction P) :
  NewReverseProxyAction parse lbs now cfg = Ret a ->
  exists a', ReverseProxyAction_Stop (map fst (range_map (rp_clients a))) a = (Ret tt, a')
    /\ forall address, address ∈ client_addresses a -> client_stopped a' address = true.
Proof.
  unfold NewReverseProxyAction, ReverseProxyAction_Stop. destruct (bool_decide _).
  - destruct (parse (rp_URI cfg)) as [uri|e| |]; cbn [wrap_error mbind outcome_bind]; try done.
    destruct (HttpClient.NewClient now _) as [cl|e| |] eqn:E; cbn [wrap_error mbind outcome_bind]; try done.
    intros [= <-]. cbn [rp_client].
    destruct (Stop_unstopped cl (NewClient_unstopped _ _ _ E)) as (cl' & -> & Hc).
    eexists. split; [reflexivity|]. by intros address _.
  - destruct (lbs !! _) as [lb|]; [|done].
    destruct (create_clients_ok (C := P) now (Servers lb) ∅) as (clients & E & _ & _ & Hservers); [done|].
    rewrite E. cbn [mbind outcome_bind].
    intros [= <-]. cbn [rp_client rp_clients].
    pose proof (create_clients_unstopped _ _ _ _ E (map_Forall_empty _)) as Hall.
    pose proof (range_map_entries _ clients) as Hentries.
    destruct (stop_clients_unstopped (map fst (range_map clients)) clients) as (clients' & -> & Hc & _).
    + rewrite Hentries. apply NoDup_fst_map_to_list.
    + intros addr Ha. apply list_elem_of_In, in_map_iff in Ha as ([addr' cl] & <- & Hin).
      apply list_elem_of_In in Hin. rewrite Hentries in Hin.
      apply elem_of_map_to_list in Hin. exists cl. split; [done|]. by eapply Hall.
    + eexists. split; [reflexivity|]. unfold client_addresses, client_stopped. cbn [rp_client loadBalancer rp_clients].
      intros address (srv & -> & Hsrv)%list_elem_of_fmap. destruct (Hservers srv Hsrv) as [cl Hcl].
      destruct (Hc (HostAddress_String (lbs_Address srv))) as (cl' & -> & Hstop); [|done].
      apply list_elem_of_fmap. exists (HostAddress_String (lbs_Address srv), cl). split; [done|].
      rewrite Hentries. by apply elem_of_map_to_list.
Qed.

Lemma watchers_own_insert address g gs :
  gs !! address = None -> watchers_own (<[address := g]> gs) = {[+ g +]} ⊎ watchers_own gs.
Proof.
  intros Hn. unfold watchers_own.
  assert (forall l k : list (gostring * Resource), l ≡ₚ k ->
    owns_all (fun '(_, g) => {[+ g +]}) l = owns_all (fun '(_, g) => {[+ g +]} : gmultiset Resource) k) as Hperm.
  { induction 1 as [|[a x] l k _ IH|[a x] [b y] l|l k m _ IH1 _ IH2]; cbn [owns_all]; [done|by rewrite IH| |congruence].
    multiset_solver. }
  by rewrite (Hperm _ _ (map_to_list_insert _ _ _ Hn)).
Qed.

(** The goroutines of clients of different addresses. *)
Lemma watch_clients_hold addresses gs w K :
  NoDup addresses -> (forall address, address ∈ addresses -> gs !! address = None) ->
  held w = watchers_own gs ⊎ K -> map_Forall (fun _ g => not_socket g) gs ->
  exists gs' w', watch_clients addresses gs w = (Ret gs', w') /\ held w' = watchers_own gs' ⊎ K
    /\ map_Forall (fun _ g => not_socket g) gs'
    /\ forall address, is_Some (gs' !! address) -> address ∈ addresses \/ is_Some (gs !! address).
Proof.
  revert gs w. induction addresses as [|address addresses IH]; intros gs w Hnd Hnew Hw Hgs.
  { exists gs, w. do 3 (split; [done|]). by right. }
  apply NoDup_cons in Hnd as [Hn Hnd]. set (g := (next_id w, (ClientGoroutine, address))).
  set (w1 := (acquire ClientGoroutine address w).2).
  destruct (IH (<[address := g]> gs) w1 Hnd) as (gs' & w' & E & Hw' & Hgs' & Hdom).
  - intros address' Ha. rewrite lookup_insert_ne by (intros ->; done). apply Hnew. by right.
  - rewrite watchers_own_insert by (apply Hnew; by left). change (held w1) with ({[+ g +]} ⊎ held w).
    rewrite Hw. by rewrite (assoc_L (⊎)).
  - by apply map_Forall_insert_2.
  - exists gs', w'. cbn [watch_clients].
    rewrite (st_bind_ret (acquire ClientGoroutine address) _ w g w1) by reflexivity.
    do 3 (split; [done|]). intros address' Ha. destruct (Hdom _ Ha) as [Hin|Hin]; [left; by right|].
    apply lookup_insert_is_Some in Hin as [->|[_ Hin]]; [left; by left|by right].
Qed.

(** The configurations whose parts compile or fail, and whose load balancers have each server
    once. *)
Definition builtin_cfg_ok (cfg : BuiltinCfg) : Prop :=
  match cfg with
  | CfgPlain view => completed view
  | CfgReverseProxy parse lbs _ proxy =>
      (forall s, completed (parse s))
      /\ (rp_URI proxy = [] -> forall lb, lbs !! LoadBalancerName proxy = Some lb -> NoDup (server_addresses lb))
  | CfgFastCGI Compile _ _ _ => forall s, completed (Compile s)
  end.

Lemma create_clients_completed (now : Z) (servers : list LoadBalancerServer) (clients : gmap gostring (HttpClient.Client P)) :
  completed (create_clients now servers clients).
Proof.
  revert clients. induction servers as [|srv servers IH]; intros clients; cbn [create_clients]; [done|].
  unfold HttpClient.NewClient.
  repeat case_goal; cbn [wrap_error mbind outcome_bind]; done || apply IH.
Qed.

Lemma NewReverseProxyAction_completed parse lbs now cfg :
  (forall s, completed (parse s)) -> completed (NewReverseProxyAction (C := P) parse lbs now cfg).
Proof.
  intros Hp. unfold NewReverseProxyAction. destruct (bool_decide _).
  - specialize (Hp (rp_URI cfg)). destruct (parse (rp_URI cfg)); cbn [wrap_error mbind outcome_bind]; try done.
    unfold HttpClient.NewClient. repeat case_goal; cbn [wrap_error mbind outcome_bind]; done.
  - destruct (lbs !! _); [|done]. apply completed_bind; [apply create_clients_completed|done].
Qed.

Lemma NewReverseProxyAction_addresses parse lbs now cfg (a : ReverseProxyAction P) :
  NewReverseProxyAction parse lbs now cfg = Ret a ->
  (rp_URI cfg = [] -> forall lb, lbs !! LoadBalancerName cfg = Some lb -> NoDup (server_addresses lb)) ->
  NoDup (client_addresses a).
Proof.
  unfold NewReverseProxyAction, client_addresses. intros Hnew Hd. case_bool_decide as Hu.
  - destruct (parse (rp_URI cfg)) as [uri|e| |]; cbn [wrap_error mbind outcome_bind] in Hnew; try done.
    destruct (HttpClient.NewClient now _) as [cl|e| |] eqn:E; cbn [wrap_error mbind outcome_bind] in Hnew; try done.
    injection Hnew as <-. cbn [rp_client]. apply NoDup_singleton.
  - destruct (lbs !! _) as [lb|] eqn:El; [|done].
    destruct (create_clients now _ ∅) as [clients|e| |]; cbn [mbind outcome_bind] in Hnew; try done.
    injection Hnew as <-. cbn [rp_client loadBalancer]. apply Hd; [|done]. destruct (rp_URI cfg); [done|].
    by destruct Hu.
Qed.

Lemma NewFastCGIAction_completed Compile dir cfg settings :
  (forall s, completed (Compile s)) -> completed (NewFastCGIAction Compile (Ret dir) cfg settings).
Proof.
  intros Hc. unfold NewFastCGIAction. apply completed_bind.
  - destruct (bool_decide _); [|done]. apply completed_bind.
    { unfold script_expression. destruct (ScriptRegexp settings); [done|]. by destruct (_ && _). }
    intros s _. apply completed_bind; [by apply completed_wrap|done].
  - intros re _. apply completed_bind; [|done]. by destruct (bool_decide _).
Qed.

Lemma builtin_opens cfg :
  builtin_cfg_ok cfg ->
  opens held no_socket (x ← wrapST "cannot create action"%go (NewAction cfg);
                        wrapST "cannot start action"%go (Action_Start x)) builtin_owns builtin_ready.
Proof.
  intros Hok w. destruct cfg as [view|parse lbs now proxy|Compile dir fastcgi settings];
    cbn [NewAction Action_Start builtin_lifecycle builtin_New]; unfold mbind, st_bind, wrapST, lift;
    cbn [builtin_cfg_ok] in Hok.
  - destruct view as [[]|e| |]; cbn; try done.
    + split; [exact (eq_sym (left_id_L ∅ (⊎) (held w)))|done].
    + exists ∅. split; [apply no_socket_empty|exact (eq_sym (left_id_L ∅ (⊎) (held w)))].
  - destruct Hok as [Hok Hdistinct].
    pose proof (NewReverseProxyAction_completed parse lbs now proxy Hok) as Hc.
    pose proof (NewReverseProxyAction_stops parse lbs now proxy) as Hs.
    pose proof (NewReverseProxyAction_addresses parse lbs now proxy) as Hnd.
    destruct (NewReverseProxyAction parse lbs now proxy) as [a|e| |]; try done.
    + destruct (watch_clients_hold (client_addresses a) ∅ w (held w)) as (gs & w' & -> & Hw' & Hgs & Hdom).
      { by apply Hnd. }
      { done. }
      { unfold watchers_own. rewrite map_to_list_empty. exact (eq_sym (left_id_L ∅ (⊎) (held w))). }
      { by apply map_Forall_empty. }
      split; [exact Hw'|]. destruct (Hs a eq_refl) as (a' & Ha' & Hstop). split; [|done].
      exists a'. split; [done|]. intros address g Hg.
      destruct (Hdom address ltac:(by eexists)) as [Hin|[? Hin]]; [by apply Hstop|by rewrite lookup_empty in Hin].
    + exists ∅. split; [apply no_socket_empty|exact (eq_sym (left_id_L ∅ (⊎) (held w)))].
  - pose proof (NewFastCGIAction_completed Compile dir fastcgi settings Hok) as Hc.
    destruct (NewFastCGIAction Compile (Ret dir) fastcgi settings) as [a|e| |]; try done.
    2:{ exists ∅. split; [apply no_socket_empty|exact (eq_sym (left_id_L ∅ (⊎) (held w)))]. }
    destruct (bool_decide _).
    + destruct (call_outcome w) as [(w' & -> & Hw')|(e & w' & -> & Hw')]; cbn [wrap_error].
      * split; [by rewrite <- Hw'|]. split; [done|]. by intros r [= <-].
      * exists ∅. split; [apply no_socket_empty|]. rewrite Hw'. exact (eq_sym (left_id_L ∅ (⊎) (held w))).
    + split; [exact (eq_sym (left_id_L ∅ (⊎) (held w)))|]. done.
Qed.

Lemma builtin_no_socket a : builtin_ready a -> no_socket (builtin_owns a).
Proof.
  destruct a as [|a gs|a [r|]]; cbn [builtin_ready builtin_owns]; try (intros _; apply no_socket_empty).
  - intros [_ Hgs]. clear a. induction gs as [|address g gs Hn IH] using map_ind.
    { unfold watchers_own. rewrite map_to_list_empty. apply no_socket_empty. }
    rewrite watchers_own_insert by done. apply map_Forall_insert in Hgs as [Hg Hgs]; [|done].
    by apply no_socket_union; [apply no_socket_singleton|apply IH].
  - intros [_ Hr]. apply no_socket_singleton. by apply Hr.
Qed.

Lemma lift_closes (r : outcome unit) m R : r = Ret tt -> closes held m R -> closes held (_ ← lift r; m) R.
Proof. intros -> Hm. exact Hm. Qed.

Lemma builtin_closes a : builtin_ready a -> closes held (Action_Stop a) (builtin_owns a).
Proof.
  destruct a as [|a gs|a tmp]; cbn [Action_Stop builtin_lifecycle builtin_Stop builtin_ready].
  - intros _. apply closes_nothing.
  - intros [(a' & -> & Hstop) _]. apply lift_closes; [done|].
    apply (stop_each_closes held (fun '(address, g) => await (client_stopped a' address) g) (fun '(_, g) => {[+ g +]})
             (fun '(address, _) => client_stopped a' address = true)).
    + intros [address g] Hc. rewrite Hc. apply await_closes.
    + apply Forall_forall. intros [address g] Hg%elem_of_map_to_list. by eapply Hstop.
  - intros [Hs _]. apply lift_closes; [done|]. destruct tmp; [apply release_closes|apply closes_nothing].
Qed.

#[export] Instance builtin_laws : ActionLaws BuiltinCfg BuiltinAction := {
  action_owns := builtin_owns;
  action_ready := builtin_ready;
  action_cfg_ok := builtin_cfg_ok;
  action_opens := builtin_opens;
  action_no_socket := builtin_no_socket;
  action_closes := builtin_closes
}.
End actions.

(** ** Witnesses and examples *)

#[local] Existing Instance ascii_only.
#[local] Instance map_order : HttpHandler.MapRange := {
  range_map V m := map_to_list m;
  range_map_entries V m := Permutation_refl _
}.

Definition any_request : MatchCfg := mkMatch None [] [] [] [] ∅ ∅ [] [].

Definition example_log (path : gostring) : option AccessLoggerCfg :=
  Some (mkLoggerCfg (mkFormat path [PartConstant path] 0) (mkFormat "common"%go [PartConstant "common"%go] 0)).

Definition plain_handler (log : option AccessLoggerCfg) (view : outcome unit)
  (subs : list (HandlerCfg BuiltinCfg)) : HandlerCfg BuiltinCfg :=
  mkHandlerCfg any_request false log None None (CfgPlain view) subs.

Definition fastcgi_handler (subs : list (HandlerCfg BuiltinCfg)) : HandlerCfg BuiltinCfg :=
  mkHandlerCfg any_request false None None None
    (CfgFastCGI (fun _ => Ret id) "/tmp/boulevard-fastcgi-1"%go (mkFastCGICfg ∅ [] [])
       (mkSettings [] [] None None None None None)) subs.

Definition example_protocol_cfg : HttpProtocolCfg BuiltinCfg :=
  mkHttpCfg (example_log "/log/a"%go)
    [plain_handler (example_log "/log/b"%go) (Ret tt) [fastcgi_handler []]].

Definition no_world (fs : list (option error)) : World := mkWorld ∅ ∅ 0 0 fs.

Abbreviation UnitAction := (BuiltinAction (P := unit)) (only parsing).

Lemma example_cfg_completes : Forall (cfg_completes (X := UnitAction)) (hpc_Handlers example_protocol_cfg).
Proof.
  apply Forall_singleton. constructor; [done|done|]. apply Forall_singleton. constructor; done.
Qed.


Lemma restarted_protocol_cannot_stop_witness :
  let p := mkHttpProtocol (X := UnitAction) TLSHandlingAccept false 0 ∅ None [] [] None true None in
  exists s, Protocol_Start example_protocol_cfg "www"%go [] (no_world [], p) = (Ret tt, s)
    /\ hp_gc (snd s) = None /\ fst (Protocol_Stop s) = Panic.
Proof.
  intros p.
  destruct (Protocol_Start example_protocol_cfg "www"%go [] (no_world [], p)) as [r s] eqn:E.
  assert (r = Ret tt) as -> by (change r with (fst (r, s)); rewrite <- E; vm_compute; reflexivity).
  destruct (restarted_protocol_cannot_stop example_protocol_cfg "www"%go [] (no_world []) p s eq_refl
              (fun _ => eq_refl) example_cfg_completes E) as [Hgc Hstop].
  exists s. split; [reflexivity|]. split; [exact Hgc|]. apply Hstop. apply rtc_refl.
Defined.

(** Two servers of a load balancer with the same address: the action makes two clients and
    keeps one, and its stop leaves the goroutine of the other. *)
Example duplicate_clients_leak :
  let server := LoadBalancer.mkServer (mkHostAddress "10.0.0.1"%go [] 80) true None in
  let lbs := {["lb"%go := mkBalancer [server; server] 0]} in
  let proxy := CfgReverseProxy (fun _ => Throw (Errorf "unused"%go)) lbs 0 (mkProxyCfg [] "lb"%go [] []) in
  let run := a ← NewAction (X := UnitAction) proxy; a ← Action_Start a; Action_Stop a in
  fst (run (no_world [])) = Ret tt
  /\ map snd (elements (held (snd (run (no_world []))))) = [(ClientGoroutine, "10.0.0.1:80"%go)].
Proof. vm_compute. split; reflexivity. Qed.

(** What a failed start leaves open: the log of a handler whose action cannot be created,
    the action of a handler that has one that fails, and the log of the protocol. *)
Example failed_start_leaks :
  let start cfg := StartHandler (X := UnitAction) ∅ cfg (no_world []) in
  let failing := plain_handler None (Throw (Errorf "template"%go)) [] in
  let names w := map snd (elements (held w)) in
  names (snd (start (plain_handler (example_log "/log/b"%go) (Throw (Errorf "template"%go)) [])))
  = [(LogFile, "/log/b"%go)]
  /\ names (snd (start (fastcgi_handler [failing]))) = [(TempDir, "/tmp/boulevard-fastcgi-1"%go)]
  /\ names (fst (snd (Protocol_Start (X := UnitAction)
       (mkHttpCfg (example_log "/log/a"%go) [failing]) "www"%go []
       (no_world [], NewProtocol TLSHandlingAccept false)))) = [(LogFile, "/log/a"%go)].
Proof. vm_compute. repeat split. Qed.
