(* ===== verification/AccessLog.v ===== *)
(** * Access logs under concurrency (pkg/protocols/http/access_logger.go)

    Requests write to the file of an access logger while a signal makes the service open it
    again and protocols that stop close it.  [Log], [Reopen] and [Close] are cut where other
    goroutines can run: at the operations of the lock and at the system calls.  [log_step]
    runs a goroutine up to its next such point, [run_log] a schedule; lines are those of
    [HttpContext.log_line]. *)

From S2P Require Import Prelude GoStrings.

Definition os_ErrClosed := ErrVar "os.ErrClosed"%go.

(** ** Goroutines *)

(** Where a goroutine is: a request that logs [line], of which [n] bytes were written; a
    rotation, which has opened the descriptor [fd]; a protocol that stops. *)
Inductive Routine :=
  | Log (line : gostring) | LogLocked (line : gostring) | LogWritten (line : gostring) (n : nat) (err : option error)
  | LogDone (line : gostring) (n : nat) (err : option error)
  | Reopen | ReopenOpened (fd : nat) | ReopenLocked (fd : nat) | ReopenClosed (fd : nat) | ReopenSwapped
  | ReopenDone (err : option error)
  | Close | CloseDone (err : option error)
  | Panicking.

(** The logger, its [RWMutex], the descriptors of the process with the file each is open on,
    the file at the path, what was written to which file, and the goroutines. *)
Record Logger := mkLog {
  l_file : option nat;
  l_readers : nat;
  l_writer : bool;
  l_fds : gmap nat nat;
  l_path : option nat;
  l_next : nat;
  l_writes : list (nat * gostring);
  l_pool : list Routine
}.

Definition set_pool ths (s : Logger) : Logger :=
  mkLog (l_file s) (l_readers s) (l_writer s) (l_fds s) (l_path s) (l_next s) (l_writes s) ths.
Definition set_lock r w (s : Logger) : Logger :=
  mkLog (l_file s) r w (l_fds s) (l_path s) (l_next s) (l_writes s) (l_pool s).
Definition set_fds file fds (s : Logger) : Logger :=
  mkLog file (l_readers s) (l_writer s) fds (l_path s) (l_next s) (l_writes s) (l_pool s).
Definition set_writes w (s : Logger) : Logger :=
  mkLog (l_file s) (l_readers s) (l_writer s) (l_fds s) (l_path s) (l_next s) w (l_pool s).

(** [os.OpenFile] with [O_CREATE]: the file at the path, a new one if there is none. *)
Definition open_path (s : Logger) : nat * Logger :=
  let fd := l_next s in
  let f := default fd (l_path s) in
  (fd, mkLog (l_file s) (l_readers s) (l_writer s) (<[fd := f]> (l_fds s)) (Some f) (S fd) (l_writes s) (l_pool s)).

(** A system call succeeds or fails; a write that fails has written [n] bytes. *)
Definition failure : Type := option (error * nat).

Definition write_line (line : gostring) (fail : failure) (s : Logger) : Routine * Logger :=
  match l_file s with
  | None => (Panicking, s)
  | Some fd =>
      match l_fds s !! fd with
      | None => (LogWritten line 0 (Some os_ErrClosed), s)
      | Some f =>
          let n := match fail with Some (_, n) => Nat.min n (length line) | None => length line end in
          (LogWritten line n (fst <$> fail), set_writes (l_writes s ++ [(f, take n line)]) s)
      end
  end.

Definition close_file (s : Logger) : option error * Logger :=
  match l_file s with
  | None => (None, s)
  | Some fd => (if decide (is_Some (l_fds s !! fd)) then None else Some os_ErrClosed,
                set_fds (l_file s) (delete fd (l_fds s)) s)
  end.

(** What a goroutine does until its next point; [None] when it waits or is done. *)
Definition routine_step (c : Routine) (fail : failure) (s : Logger) : option (Routine * Logger) :=
  match c with
  | Log line => if l_writer s then None else Some (LogLocked line, set_lock (S (l_readers s)) false s)
  | LogLocked line => Some (write_line line fail s)
  | LogWritten line n err => Some (LogDone line n err, set_lock (pred (l_readers s)) (l_writer s) s)
  | Reopen =>
      match fail with
      | Some (e, _) => Some (ReopenDone (Some (Wrapf "cannot open"%go e)), s)
      | None => let '(fd, s) := open_path s in Some (ReopenOpened fd, s)
      end
  | ReopenOpened fd =>
      if l_writer s || negb (l_readers s =? 0)%nat then None
      else Some (ReopenLocked fd, set_lock (l_readers s) true s)
  | ReopenLocked fd => Some (ReopenClosed fd, (close_file s).2)
  | ReopenClosed fd => Some (ReopenSwapped, set_fds (Some fd) (l_fds s) s)
  | ReopenSwapped => Some (ReopenDone None, set_lock (l_readers s) false s)
  | Close => match l_file s with
             | None => Some (Panicking, s)
             | Some _ => let '(err, s) := close_file s in Some (CloseDone err, s)
             end
  | LogDone _ _ _ | ReopenDone _ | CloseDone _ | Panicking => None
  end.

(** What happens: a goroutine runs, or the file is moved away from its path. *)
Inductive Event := Run (k : nat) (fail : failure) | Move.

Definition log_step (ev : Event) (s : Logger) : option Logger :=
  match ev with
  | Run k fail =>
      c ← l_pool s !! k;
      '(c, s) ← routine_step c fail s;
      Some (set_pool (<[k := c]> (l_pool s)) s)
  | Move => Some (mkLog (l_file s) (l_readers s) (l_writer s) (l_fds s) None (l_next s) (l_writes s) (l_pool s))
  end.

Fixpoint run_log (evs : list Event) (s : Logger) : option Logger :=
  match evs with
  | [] => Some s
  | ev :: evs => s ← log_step ev s; run_log evs s
  end.

(** The content of a file. *)
Definition content (f : nat) (s : Logger) : gostring := concat (map snd (filter (fun w => w.1 = f) (l_writes s))).

(** A logger that [NewAccessLogger] made, and the goroutines that are about to use it. *)
Definition NewLogger (ths : list Routine) : Logger :=
  mkLog (Some 0%nat) 0 false {[ 0%nat := 0%nat ]} (Some 0%nat) 1 [] ths.

(** ** Examples of schedules *)

Definition run_to_end (k : nat) (n : nat) : list Event := repeat (Run k None) n.

(** A request that is logged, a rotation after the file was moved, and a second request. *)
Example rotation_example :
  match run_log (run_to_end 0 3 ++ [Move] ++ run_to_end 1 5 ++ run_to_end 2 3) (NewLogger [Log "a"%go; Reopen; Log "b"%go]) with
  | Some s => content 0 s = "a"%go /\ content 1 s = "b"%go /\ map_to_list (l_fds s) = [(1%nat, 1%nat)]
  | None => False
  end.
Proof. by vm_compute. Qed.

(** [Close] does not take the lock: a request that runs when the protocol stops loses its
    line, and a rotation that follows leaves a descriptor open. *)
Example close_loses_lines :
  match run_log ([Run 0 None] ++ run_to_end 1 1 ++ run_to_end 0 2) (NewLogger [Log "a"%go; Close]) with
  | Some s => l_pool s !! 0%nat = Some (LogDone "a"%go 0 (Some os_ErrClosed)) /\ l_writes s = []
  | None => False
  end.
Proof. by vm_compute. Qed.

(** Two rotations at once: the file opened first, before it is moved, can be installed
    last.  The service runs them one after the other. *)
Example concurrent_rotations :
  match run_log ([Run 0 None; Move] ++ run_to_end 1 5 ++ run_to_end 0 4 ++ run_to_end 2 3) (NewLogger [Reopen; Reopen; Log "a"%go]) with
  | Some s => content 0 s = "a"%go /\ l_path s = Some 2%nat
  | None => False
  end.
Proof. by vm_compute. Qed.

(** ** What goroutines hold *)

Definition reading (c : Routine) : list unit := match c with LogLocked _ | LogWritten _ _ _ => [tt] | _ => [] end.
Definition writing (c : Routine) : list unit :=
  match c with ReopenLocked _ | ReopenClosed _ | ReopenSwapped => [tt] | _ => [] end.
Definition replacing (c : Routine) : list unit := match c with ReopenClosed _ => [tt] | _ => [] end.
Definition owned (c : Routine) : list nat :=
  match c with ReopenOpened fd | ReopenLocked fd | ReopenClosed fd => [fd] | _ => [] end.

(** The part of its line a request has written. *)
Definition wrote (c : Routine) : list gostring :=
  match c with
  | LogWritten line n _ | LogDone line n _ => [take n line]
  | _ => []
  end.
Definition file_open (file : option nat) (fds : gmap nat nat) : list nat :=
  match file with Some fd => if decide (is_Some (fds !! fd)) then [fd] else [] | None => [] end.
Definition rotated (c : Routine) : Prop := match c with ReopenSwapped | ReopenDone None => True | _ => False end.

(** The steps a goroutine has left. *)
Definition steps_left (c : Routine) : nat :=
  match c with
  | Log _ => 3 | LogLocked _ => 2 | LogWritten _ _ _ => 1
  | Reopen => 5 | ReopenOpened _ => 4 | ReopenLocked _ => 3 | ReopenClosed _ => 2 | ReopenSwapped => 1
  | Close => 1 | LogDone _ _ _ | ReopenDone _ | CloseDone _ | Panicking => 0
  end.

(** A goroutine [c] that began as [c0]; [E] has the errors of the system calls. *)
Definition progress (E : error -> Prop) (c0 c : Routine) : Prop :=
  match c0 with
  | Log line =>
      match c with
      | Log l | LogLocked l => l = line
      | LogWritten l n err | LogDone l n err =>
          l = line /\ match err with None => n = length line | Some e => E e end
      | _ => False
      end
  | Reopen =>
      match c with
      | Reopen | ReopenOpened _ | ReopenLocked _ | ReopenClosed _ | ReopenSwapped | ReopenDone None => True
      | ReopenDone (Some err) => exists e, E e /\ err = Wrapf "cannot open"%go e
      | _ => False
      end
  | _ => False
  end.

(** A goroutine of a pool and what the others hold. *)
Lemma pool_at {B} (f : Routine -> list B) ths k c :
  ths !! k = Some c ->
  exists rest, ths ≫= f ≡ₚ f c ++ rest /\ forall c', <[k := c']> ths ≫= f ≡ₚ f c' ++ rest.
Proof.
  intros Hk. destruct (list_elem_of_split_length _ _ _ Hk) as (l1 & l2 & -> & ->).
  exists ((l1 ≫= f) ++ (l2 ≫= f)).
  assert (forall c', (l1 ++ c' :: l2) ≫= f ≡ₚ f c' ++ (l1 ≫= f) ++ (l2 ≫= f)) as Hf.
  { intros c'. rewrite bind_app, bind_cons. solve_Permutation. }
  split; [apply Hf|]. intros c'. rewrite insert_app_r_alt, Nat.sub_diag by lia. apply Hf.
Qed.

Lemma pool_count {B} (f : Routine -> list B) ths k c :
  ths !! k = Some c ->
  exists n, length (ths ≫= f) = (length (f c) + n)%nat
            /\ forall c', length (<[k := c']> ths ≫= f) = (length (f c') + n)%nat.
Proof.
  intros Hk. destruct (pool_at f ths k c Hk) as (rest & H1 & H2). exists (length rest).
  split; [by rewrite H1, length_app|]. intros c'. by rewrite H2, length_app.
Qed.

Lemma elements_dom_insert {A} (m : gmap nat A) k a :
  m !! k = None -> elements (dom (<[k := a]> m)) ≡ₚ k :: elements (dom m).
Proof. intros Hk. rewrite dom_insert, elements_union_singleton; [done|by apply not_elem_of_dom]. Qed.

Lemma elements_dom_delete {A} (m : gmap nat A) k :
  is_Some (m !! k) -> elements (dom m) ≡ₚ k :: elements (dom (delete k m)).
Proof.
  intros [a Hk]. rewrite <- (insert_delete_id m k a Hk) at 1. apply elements_dom_insert, lookup_delete_eq.
Qed.

Lemma replacing_writing ths : (length (ths ≫= replacing) <= length (ths ≫= writing))%nat.
Proof. induction ths as [|c ths IH]; [done|]. rewrite !bind_cons, !length_app. destruct c; cbn; lia. Qed.

(** ** What every schedule keeps *)

Section schedules.
Context (E : error -> Prop) (jobs : list Routine).

Record log_inv (s : Logger) : Prop := {
  li_jobs : Forall2 (progress E) jobs (l_pool s);
  li_file : exists fd, l_file s = Some fd /\ (fd < l_next s)%nat;
  li_readers : l_readers s = length (l_pool s ≫= reading);
  li_writer : (if l_writer s then 1 else 0)%nat = length (l_pool s ≫= writing);
  li_exclusive : l_writer s = true -> l_readers s = 0%nat;
  li_replacing : (length (file_open (l_file s) (l_fds s)) + length (l_pool s ≫= replacing) = 1)%nat;
  li_fds : elements (dom (l_fds s)) ≡ₚ file_open (l_file s) (l_fds s) ++ (l_pool s ≫= owned);
  li_fresh : forall fd, is_Some (l_fds s !! fd) -> (fd < l_next s)%nat;
  li_lines : map snd (l_writes s) ≡ₚ l_pool s ≫= wrote
}.

Definition call_ok (fail : failure) : Prop := match fail with Some (e, _) => E e | None => True end.

Lemma progress_step c0 c c' fail s s' :
  progress E c0 c -> call_ok fail -> routine_step c fail s = Some (c', s') ->
  (forall line, c = LogLocked line -> exists fd f, l_file s = Some fd /\ l_fds s !! fd = Some f) ->
  progress E c0 c'.
Proof using Type.
  intros Hc Hf Hs Hopen.
  destruct c; cbn [routine_step] in Hs; try discriminate Hs.
  all: destruct c0; try done.
  all: repeat case_hyp Hs; simplify_eq/=; try done.
  all: try (destruct (Hopen _ eq_refl) as (fd & f & Hfd & Hfs); unfold write_line in *; rewrite Hfd, Hfs in *).
  all: repeat case_hyp H; simplify_eq/=; eauto.
  split; [done|]. by destruct fail as [[e n]|].
Qed.
(** While a request has the lock, the file of the logger is open. *)
Lemma file_open_reading s :
  log_inv s -> forall k line, l_pool s !! k = Some (LogLocked line) ->
  exists fd f, l_file s = Some fd /\ l_fds s !! fd = Some f.
Proof using Type.
  intros [_ (fd & Hfile & _) Hread Hwrite Hex Hrep _ _ _] k line Hk.
  destruct (pool_count reading _ _ _ Hk) as (nr & Hr & _). cbn in Hr.
  pose proof (replacing_writing (l_pool s)) as Hle.
  destruct (l_writer s); [by rewrite (Hex eq_refl) in Hread; lia|].
  unfold file_open in Hrep. rewrite Hfile in Hrep.
  case_decide as Ho; [destruct Ho as [f Hf]; by exists fd, f|cbn in Hrep; lia].
Qed.

(** The state when the goroutine [k] is at [c], split into what it holds and the rest. *)
Record inv_at (c : Routine) (nr nw np : nat) (ro : list nat) (rl : list gostring) (s : Logger) : Prop := {
  ia_file : exists fd, l_file s = Some fd /\ (fd < l_next s)%nat;
  ia_readers : l_readers s = (length (reading c) + nr)%nat;
  ia_writer : (if l_writer s then 1 else 0)%nat = (length (writing c) + nw)%nat;
  ia_rest : (np <= nw)%nat;
  ia_exclusive : l_writer s = true -> l_readers s = 0%nat;
  ia_replacing : (length (file_open (l_file s) (l_fds s)) + (length (replacing c) + np) = 1)%nat;
  ia_fds : elements (dom (l_fds s)) ≡ₚ file_open (l_file s) (l_fds s) ++ owned c ++ ro;
  ia_fresh : forall fd, is_Some (l_fds s !! fd) -> (fd < l_next s)%nat;
  ia_lines : map snd (l_writes s) ≡ₚ wrote c ++ rl
}.

Lemma log_inv_at s k c :
  log_inv s -> l_pool s !! k = Some c ->
  exists nr nw np ro rl, inv_at c nr nw np ro rl s
    /\ forall c' s', Forall2 (progress E) jobs (<[k := c']> (l_pool s)) -> inv_at c' nr nw np ro rl s' ->
         log_inv (set_pool (<[k := c']> (l_pool s)) s').
Proof using Type.
  intros [Hjobs Hfile Hread Hwrite Hex Hrep Hfds Hfresh Hlines] Hk.
  destruct (pool_count reading _ _ _ Hk) as (nr & Hr & Hr').
  destruct (pool_count writing _ _ _ Hk) as (nw & Hw & Hw').
  destruct (pool_count replacing _ _ _ Hk) as (np & Hp & Hp').
  destruct (pool_at owned _ _ _ Hk) as (ro & Ho & Ho').
  destruct (pool_at wrote _ _ _ Hk) as (rl & Hl & Hl').
  pose proof (replacing_writing (<[k := Panicking]> (l_pool s))) as Hle. rewrite Hp', Hw' in Hle.
  exists nr, nw, np, ro, rl. split.
  - constructor; rewrite <- ?Hr, <- ?Hw, <- ?Hp, <- ?Ho, <- ?Hl; done.
  - intros c' s' Hjobs' []. constructor; cbn; rewrite ?Hr', ?Hw', ?Hp', ?Ho', ?Hl'; done.
Qed.

Ltac step_inv := constructor; cbn; try done; try lia; eauto with lia.

(** The steps of a rotation, on the descriptors. *)
Lemma open_inv nr nw np ro rl s :
  inv_at Reopen nr nw np ro rl s ->
  inv_at (ReopenOpened (open_path s).1) nr nw np ro rl (open_path s).2.
Proof using Type.
  intros [(fd & Hfile & Hlt) Hread Hwrite Hle Hex Hrep Hfds Hfresh Hlines]. cbn in *.
  assert (l_fds s !! l_next s = None) as Hn by (apply eq_None_not_Some; intros Hn; apply Hfresh in Hn; lia).
  assert (file_open (l_file s) (<[l_next s := default (l_next s) (l_path s)]> (l_fds s))
          = file_open (l_file s) (l_fds s)) as Ho.
  { rewrite Hfile. unfold file_open. by rewrite lookup_insert_ne by lia. }
  step_inv; rewrite ?Ho; eauto with lia; [rewrite elements_dom_insert, Hfds by done; solve_Permutation|].
  intros g Hg. destruct (decide (g = l_next s)) as [->|Hne]; [lia|].
  rewrite lookup_insert_ne in Hg by done. specialize (Hfresh g Hg). lia.
Qed.

Lemma close_inv nr nw np ro rl g s :
  inv_at (ReopenLocked g) nr nw np ro rl s -> inv_at (ReopenClosed g) nr nw np ro rl (close_file s).2.
Proof using Type.
  intros [(fd & Hfile & Hlt) Hread Hwrite Hle Hex Hrep Hfds Hfresh Hlines]. cbn in *.
  destruct (l_writer s) eqn:E0; [|lia]. assert (np = 0%nat) as -> by lia.
  rewrite Hfile in Hrep, Hfds. unfold file_open in Hrep, Hfds.
  case_decide as Hopen; [|done]. unfold close_file. rewrite Hfile. cbn.
  assert (file_open (Some fd) (delete fd (l_fds s)) = []) as Ho
    by (unfold file_open; rewrite lookup_delete_eq; by rewrite decide_False by by intros []).
  step_inv; fold (file_open (Some fd) (delete fd (l_fds s))); rewrite ?E0, ?Ho; try done; eauto.
  - rewrite (elements_dom_delete _ _ Hopen) in Hfds. exact (Permutation_cons_inv Hfds).
  - intros x Hx. apply Hfresh. destruct Hx as [f Hx]. apply lookup_delete_Some in Hx as [_ Hx]. by exists f.
Qed.

Lemma replace_inv nr nw np ro rl g s :
  inv_at (ReopenClosed g) nr nw np ro rl s -> inv_at ReopenSwapped nr nw np ro rl (set_fds (Some g) (l_fds s) s).
Proof using Type.
  intros [_ Hread Hwrite Hle Hex Hrep Hfds Hfresh Hlines]. cbn in *.
  assert (file_open (l_file s) (l_fds s) = []) as Hclosed
    by (destruct (file_open (l_file s) (l_fds s)); [done|cbn in Hrep; lia]).
  rewrite Hclosed in Hfds, Hrep. cbn in Hfds, Hrep.
  assert (is_Some (l_fds s !! g)) as Hopen.
  { apply elem_of_dom, elem_of_elements. rewrite Hfds. by left. }
  assert (file_open (Some g) (l_fds s) = [g]) as Ho by (unfold file_open; by rewrite decide_True).
  step_inv; fold (file_open (Some g) (l_fds s)); rewrite ?Ho; try done; eauto.
Qed.

Lemma log_inv_step s s' k fail :
  log_inv s -> call_ok fail -> log_step (Run k fail) s = Some s' -> log_inv s'.
Proof using Type.
  intros Hinv Hf Hs. cbn [log_step] in Hs.
  destruct (l_pool s !! k) as [c|] eqn:Hk; [|done]. cbn in Hs.
  destruct (routine_step c fail s) as [[c' s1]|] eqn:Hc; [|done]. injection Hs as <-.
  assert (l_pool s1 = l_pool s) as ->.
  { destruct c; cbn [routine_step] in Hc; unfold write_line, close_file, open_path in Hc;
      repeat case_hyp Hc; by simplify_eq. }
  pose proof (file_open_reading s Hinv k) as Hreader.
  destruct (log_inv_at s k c Hinv Hk) as (nr & nw & np & ro & rl & Hat & Hnext). apply Hnext; clear Hnext.
  { destruct (Forall2_lookup_r _ _ _ _ _ (li_jobs _ Hinv) Hk) as (c0 & Hk0 & Hc0).
    rewrite <- (list_insert_id _ _ _ Hk0). apply Forall2_insert; [apply Hinv|].
    eapply progress_step; [done..|]. intros line ->. by apply (Hreader line). }
  pose proof Hat as [Hfile Hread Hwrite Hle Hex Hrep Hfds Hfresh Hlines].
  destruct c; cbn [routine_step] in Hc; try discriminate Hc.
  - destruct (l_writer s) eqn:E0; [done|]. simplify_eq. cbn in *. step_inv.
  - unfold write_line in Hc. destruct (Hreader line Hk) as (x & f & Hx & Hopen). rewrite Hx, Hopen in Hc.
    simplify_eq. cbn in *. step_inv. rewrite map_app, Hlines. solve_Permutation.
  - simplify_eq. cbn in *. step_inv. intros Hw. specialize (Hex Hw). lia.
  - destruct fail as [[e n]|]; [simplify_eq; by step_inv|]. apply open_inv in Hat.
    destruct (open_path s). by simplify_eq.
  - destruct (l_writer s) eqn:E0; [done|]. destruct (l_readers s) eqn:E1; [|done]. cbn in *. simplify_eq. step_inv.
  - simplify_eq. by apply close_inv.
  - simplify_eq. by apply replace_inv.
  - simplify_eq. cbn in *. destruct (l_writer s) eqn:E0; [|lia]. step_inv.
  - by destruct Hinv; destruct (Forall2_lookup_r _ _ _ _ _ li_jobs0 Hk) as ([] & _ & []).
Qed.
Lemma log_inv_move s s' : log_inv s -> log_step Move s = Some s' -> log_inv s'.
Proof using Type. intros [] [= <-]. by constructor. Qed.

Lemma log_inv_run evs s s' :
  (forall k e n, Run k (Some (e, n)) ∈ evs -> E e) -> log_inv s -> run_log evs s = Some s' -> log_inv s'.
Proof using Type.
  revert s. induction evs as [|ev evs IH]; intros s He Hs Hr; cbn [run_log] in Hr; [by simplify_eq|].
  destruct (log_step ev s) as [s1|] eqn:Hstep; [|done]. apply (IH s1); [| |done].
  { intros k e n Hin. apply (He k e n). by right. }
  destruct ev as [k fail|]; [|by eapply log_inv_move].
  eapply log_inv_step; [done| |done]. destruct fail as [[e n]|]; [|done]. apply (He k e n). by left.
Qed.

(** ** A schedule in which nothing can run any more *)

Lemma pool_some {B} (f : Routine -> list B) ths :
  (0 < length (ths ≫= f))%nat -> exists k c, ths !! k = Some c /\ f c <> [].
Proof using Type.
  induction ths as [|c ths IH]; intros Hlen; [cbn in Hlen; lia|]. destruct (f c) eqn:Hc.
  - rewrite bind_cons, Hc in Hlen. destruct (IH Hlen) as (k & c' & Hk & Hf). by exists (S k), c'.
  - exists 0%nat, c. by rewrite Hc.
Qed.

Lemma not_stuck s k c : l_pool s !! k = Some c -> log_step (Run k None) s = None -> routine_step c None s = None.
Proof using Type. intros Hk. cbn. rewrite Hk. cbn. by destruct (routine_step c None s) as [[]|]. Qed.

(** The lock is free: those that have it can run. *)
Lemma stuck_lock s :
  log_inv s -> (forall k, log_step (Run k None) s = None) -> l_writer s = false /\ l_readers s = 0%nat.
Proof using Type.
  intros [_ _ Hread Hwrite _ _ _ _ _] Hstuck. split.
  - destruct (l_writer s) eqn:E0; [|done].
    destruct (pool_some writing (l_pool s)) as (k & c & Hk & Hc); [lia|].
    pose proof (not_stuck s k c Hk (Hstuck k)). by destruct c.
  - destruct (l_readers s) eqn:E0; [done|].
    destruct (pool_some reading (l_pool s)) as (k & c & Hk & Hc); [lia|].
    pose proof (not_stuck s k c Hk (Hstuck k)). by destruct c.
Qed.

Lemma stuck_done s :
  log_inv s -> (forall k, log_step (Run k None) s = None) -> Forall (fun c => steps_left c = 0%nat) (l_pool s).
Proof using Type.
  intros Hinv Hstuck. destruct (stuck_lock s Hinv Hstuck) as [Hw Hr].
  apply Forall_lookup. intros k c Hk. pose proof (not_stuck s k c Hk (Hstuck k)) as Hc.
  destruct c; cbn [routine_step] in Hc; rewrite ?Hw, ?Hr in Hc; try done; by repeat case_hyp Hc.
Qed.

Lemma done_bind {B} (f : Routine -> list B) ths :
  (forall c, steps_left c = 0%nat -> f c = []) -> Forall (fun c => steps_left c = 0%nat) ths -> ths ≫= f = [].
Proof using Type. intros Hf. induction 1 as [|c ths Hc _ IH]; [done|]. by rewrite bind_cons, Hf, IH. Qed.

(** One descriptor is left, that of the file of the logger. *)
Lemma stuck_fds s :
  log_inv s -> (forall k, log_step (Run k None) s = None) ->
  exists fd, l_file s = Some fd /\ dom (l_fds s) = {[ fd ]}.
Proof using Type.
  intros Hinv Hstuck. pose proof (stuck_done s Hinv Hstuck) as Hdone.
  destruct Hinv as [_ (fd & Hfile & _) _ _ _ Hrep Hfds _ _]. exists fd. split; [done|].
  rewrite (done_bind replacing) in Hrep by (done || by intros []).
  rewrite (done_bind owned) in Hfds by (done || by intros []).
  rewrite Hfile in Hrep, Hfds. unfold file_open in *. case_decide; [|done].
  rewrite app_nil_r in Hfds. apply set_eq. intros x. by rewrite <- elem_of_elements, Hfds, elem_of_singleton, list_elem_of_singleton.
Qed.
End schedules.

(** ** Rotations *)

(** The files that rotations opened are at the path, unless it is moved, and so is that of
    the logger once a rotation has ended. *)
Definition follows (s : Logger) : Prop :=
  (forall fd, fd ∈ l_pool s ≫= owned -> exists f, l_path s = Some f /\ l_fds s !! fd = Some f)
  /\ (Exists rotated (l_pool s) -> forall fd f, l_file s = Some fd -> l_fds s !! fd = Some f -> l_path s = Some f).

Lemma rotated_insert ths k c : Exists rotated (<[k := c]> ths) -> rotated c \/ Exists rotated ths.
Proof.
  rewrite !Exists_exists. intros (x & Hx & Hr). apply list_elem_of_lookup in Hx as [i Hi].
  apply list_lookup_insert_Some in Hi as [(-> & -> & _)|[_ Hi]]; [by left|].
  right. exists x. split; [by eapply list_elem_of_lookup_2|done].
Qed.

Lemma owned_elsewhere E jobs s k c fd rest :
  log_inv E jobs s -> l_pool s !! k = Some c -> l_pool s ≫= owned ≡ₚ rest ->
  l_file s = Some fd -> is_Some (l_fds s !! fd) -> fd ∉ rest.
Proof.
  intros Hinv Hk <- Hfile Hopen. pose proof (li_fds _ _ _ Hinv) as Hfds.
  rewrite Hfile in Hfds. unfold file_open in Hfds. rewrite decide_True in Hfds by done.
  assert (NoDup ([fd] ++ (l_pool s ≫= owned))) as Hnd by (rewrite <- Hfds; apply NoDup_elements).
  by apply NoDup_cons in Hnd as [Hnd _].
Qed.

Lemma follows_open E jobs s k rest fd s1 :
  log_inv E jobs s -> follows s -> open_path s = (fd, s1) -> l_pool s !! k = Some Reopen ->
  l_pool s ≫= owned ≡ₚ rest -> <[k := ReopenOpened fd]> (l_pool s) ≫= owned ≡ₚ fd :: rest ->
  follows (set_pool (<[k := ReopenOpened fd]> (l_pool s1)) s1).
Proof.
  intros Hinv [Hown Hrot] [= <- <-] Hk Ho Ho'. unfold follows. cbn. setoid_rewrite Ho'. setoid_rewrite Ho in Hown.
  pose proof (li_fresh _ _ _ Hinv) as Hfresh.
  split.
  - intros x [->|Hx]%elem_of_cons; [rewrite lookup_insert_eq; eauto|].
    destruct (Hown x Hx) as (f & Hp & Hf). rewrite Hp. exists f. split; [done|].
    rewrite lookup_insert_ne; [done|]. intros <-. specialize (Hfresh _ (ex_intro _ f Hf)). lia.
  - intros [[]|Hr]%rotated_insert x f Hx Hf. destruct (li_file _ _ _ Hinv) as (y & Hy & Hlt).
    rewrite lookup_insert_ne in Hf by (simplify_eq; lia). by rewrite (Hrot Hr x f Hx Hf).
Qed.

Lemma follows_step E jobs s s' k fail :
  log_inv E jobs s -> follows s -> log_step (Run k fail) s = Some s' -> follows s'.
Proof.
  intros Hinv Hfol Hs. pose proof Hfol as [Hown Hrot]. cbn [log_step] in Hs.
  destruct (l_pool s !! k) as [c|] eqn:Hk; [|done]. cbn in Hs.
  destruct (routine_step c fail s) as [[c' s1]|] eqn:Hc; [|done]. injection Hs as <-.
  destruct (pool_at owned _ _ _ Hk) as (rest & Ho & Ho').
  assert (rotated c -> Exists rotated (l_pool s)) as Hrc
    by (intros ?; apply Exists_exists; exists c; split; [by eapply list_elem_of_lookup_2|done]).
  setoid_rewrite Ho in Hown.
  assert (forall s1, l_pool s1 = l_pool s -> l_path s1 = l_path s -> l_file s1 = l_file s -> l_fds s1 = l_fds s ->
    owned c' = owned c -> (rotated c' -> rotated c) -> follows (set_pool (<[k := c']> (l_pool s1)) s1)) as Hsame.
  { intros s2 E1 E2 E3 E4 E5 E6. unfold follows. cbn. rewrite E1, E2, E3, E4. setoid_rewrite Ho'. rewrite E5.
    split; [done|]. intros [Hr|Hr]%rotated_insert; eauto. }
  destruct c; cbn [routine_step owned app] in *; try discriminate Hc.
  - destruct (l_writer s); simplify_eq. by apply Hsame.
  - unfold write_line in Hc. repeat case_hyp Hc; simplify_eq; by apply Hsame.
  - simplify_eq. by apply Hsame.
  - destruct fail as [[e n]|]; [simplify_eq; by apply Hsame|]. destruct (open_path s) as [fd s2] eqn:Eo.
    simplify_eq. by eapply (follows_open E jobs s k _ fd); [..|apply (Ho' (ReopenOpened fd))].
  - repeat case_hyp Hc; simplify_eq; by apply Hsame.
  - simplify_eq. unfold close_file. destruct (l_file s) as [cur|] eqn:Hfile; [|by apply Hsame].
    unfold follows. cbn. setoid_rewrite Ho'. split.
    + intros x Hx. destruct (Hown x Hx) as (f & Hp & Hf). exists f. split; [done|].
      rewrite lookup_delete_ne; [done|]. intros <-.
      by eapply (owned_elsewhere E jobs s k _ cur _ Hinv Hk Ho Hfile).
    + intros _ x f [= <-] Hf. by rewrite lookup_delete_eq in Hf.
  - simplify_eq. unfold follows. cbn. setoid_rewrite Ho'. split.
    + intros x Hx. apply Hown. by right.
    + intros _ x f [= <-] Hf. destruct (Hown fd ltac:(by left)) as (f' & Hp & Hf'). by simplify_eq.
  - simplify_eq. by apply Hsame.
  - destruct (Forall2_lookup_r _ _ _ _ _ (li_jobs _ _ _ Hinv) Hk) as ([] & _ & []).
Qed.

Lemma follows_run E jobs evs s s' :
  (forall k e n, Run k (Some (e, n)) ∈ evs -> E e) -> Move ∉ evs -> log_inv E jobs s -> follows s ->
  run_log evs s = Some s' -> follows s'.
Proof.
  revert s. induction evs as [|ev evs IH]; intros s He Hm Hs Hf Hr; cbn [run_log] in Hr; [by simplify_eq|].
  destruct (log_step ev s) as [s1|] eqn:Hstep; [|done].
  apply not_elem_of_cons in Hm as [Hev Hm]. destruct ev as [k fail|]; [|done].
  apply (IH s1); [intros k' e n Hin; apply (He k' e n); by right|done| | |done].
  - eapply log_inv_step; [done| |done]. destruct fail as [[e n]|]; [|done]. apply (He k e n). by left.
  - by eapply follows_step.
Qed.

(** ** The number of steps *)

Definition is_run (ev : Event) : nat := match ev with Run _ _ => 1 | Move => 0 end.
Definition runs : list Event -> nat := sum_list_with is_run.

Lemma routine_step_left c fail s c' s' :
  routine_step c fail s = Some (c', s') -> (steps_left c' < steps_left c)%nat /\ l_pool s' = l_pool s.
Proof.
  intros Hc. destruct c; cbn [routine_step] in Hc; unfold write_line, close_file, open_path in Hc;
    repeat case_hyp Hc; simplify_eq; cbn; split; done || lia.
Qed.

Lemma run_log_steps evs s s' :
  run_log evs s = Some s' ->
  (runs evs + sum_list_with steps_left (l_pool s') <= sum_list_with steps_left (l_pool s))%nat.
Proof.
  revert s. induction evs as [|ev evs IH]; intros s Hr; cbn [run_log] in Hr; [by simplify_eq|].
  destruct (log_step ev s) as [s1|] eqn:Hstep; [|done]. specialize (IH s1 Hr). unfold runs in *. cbn [sum_list_with is_run].
  destruct ev as [k fail|]; cbn [log_step] in Hstep.
  - destruct (l_pool s !! k) as [c|] eqn:Hk; [|done]. cbn in Hstep.
    destruct (routine_step c fail s) as [[c' s2]|] eqn:Hc; [|done]. injection Hstep as <-.
    destruct (routine_step_left _ _ _ _ _ Hc) as [Hlt Hp]. cbn in *. rewrite Hp in IH.
    destruct (list_elem_of_split_length _ _ _ Hk) as (l1 & l2 & Hl & ->). rewrite Hl in IH |- *.
    rewrite insert_app_r_alt, Nat.sub_diag in IH by lia. rewrite sum_list_with_app in *. cbn in *. lia.
  - by simplify_eq.
Qed.

(** Requests that log and rotations, before they begin. *)
Definition job (c : Routine) : Prop := match c with Log _ | Reopen => True | _ => False end.

Lemma job_bind {B} (f : Routine -> list B) jobs : (forall c, job c -> f c = []) -> Forall job jobs -> jobs ≫= f = [].
Proof. intros Hf. induction 1 as [|c l Hc _ IH]; [done|]. by rewrite bind_cons, Hf, IH. Qed.

Lemma NewLogger_inv E jobs : Forall job jobs -> log_inv E jobs (NewLogger jobs).
Proof.
  intros Hj. constructor; cbn.
  - apply Forall_Forall2_diag. eapply Forall_impl; [exact Hj|]. by intros [].
  - eexists. split; [done|lia].
  - by rewrite (job_bind reading) by (done || by intros []).
  - by rewrite (job_bind writing) by (done || by intros []).
  - done.
  - rewrite (job_bind replacing) by (done || by intros []). by vm_compute.
  - rewrite (job_bind owned) by (done || by intros []). by vm_compute.
  - intros fd [f Hf]. apply lookup_singleton_Some in Hf as [<- _]. lia.
  - by rewrite (job_bind wrote) by (done || by intros []).
Qed.

Lemma NewLogger_follows jobs path :
  Forall job jobs -> follows (mkLog (Some 0%nat) 0 false {[ 0%nat := 0%nat ]} path 1 [] jobs).
Proof.
  intros Hj. split; cbn.
  - rewrite (job_bind owned) by (done || by intros []). intros fd Hfd. by apply not_elem_of_nil in Hfd.
  - rewrite Exists_exists. intros (c & Hc & Hr). rewrite Forall_forall in Hj. specialize (Hj c Hc). by destruct c.
Qed.

(** ** Calls that run alone

    What [HttpServer] and [Lifecycle] take the calls to do: a line goes to the end of the
    file, and a rotation opens the file at the path and closes the previous one. *)

Lemma step_at s k fail c c' s1 evs :
  l_pool s !! k = Some c -> routine_step c fail s = Some (c', s1) ->
  let s' := set_pool (<[k := c']> (l_pool s)) s1 in
  run_log (Run k fail :: evs) s = run_log evs s' /\ l_pool s' !! k = Some c'.
Proof.
  intros Hk Hc s'. split.
  - cbn [run_log log_step]. rewrite Hk. cbn. rewrite Hc. cbn. by rewrite (proj2 (routine_step_left _ _ _ _ _ Hc)).
  - cbn. rewrite list_lookup_insert_eq; [done|]. by eapply lookup_lt_Some.
Qed.

Lemma Log_alone s k line fd f :
  l_pool s !! k = Some (Log line) -> l_writer s = false -> l_file s = Some fd -> l_fds s !! fd = Some f ->
  exists s', run_log (run_to_end k 3) s = Some s' /\ content f s' = content f s ++ line
    /\ l_pool s' !! k = Some (LogDone line (length line) None) /\ l_file s' = l_file s /\ l_fds s' = l_fds s.
Proof.
  intros Hk Hw Hfile Hfd. unfold run_to_end. cbn [repeat].
  edestruct (step_at s k None) as [-> Hk1]; [done|cbn; by rewrite Hw|].
  edestruct step_at as [-> Hk2]; [exact Hk1|cbn; unfold write_line; cbn; rewrite Hfile, Hfd; reflexivity|].
  edestruct step_at as [-> Hk3]; [exact Hk2|reflexivity|].
  eexists. split; [reflexivity|]. split; [|by split_and!].
  unfold content. cbn. rewrite filter_app, map_app, concat_app, filter_cons_True by done. cbn.
  by rewrite take_ge, app_nil_r by lia.
Qed.

Lemma Reopen_alone s k fd :
  l_pool s !! k = Some Reopen -> l_writer s = false -> l_readers s = 0%nat -> l_file s = Some fd -> (fd < l_next s)%nat ->
  let new := l_next s in
  exists s', run_log (run_to_end k 5) s = Some s' /\ l_pool s' !! k = Some (ReopenDone None)
    /\ l_file s' = Some new /\ l_fds s' = delete fd (<[new := default new (l_path s)]> (l_fds s))
    /\ l_fds s' !! new = l_path s' /\ l_writes s' = l_writes s.
Proof.
  intros Hk Hw Hr Hfile Hlt new. unfold run_to_end. cbn [repeat].
  edestruct (step_at s k None) as [-> Hk1]; [done|reflexivity|].
  edestruct step_at as [-> Hk2]; [exact Hk1|cbn; rewrite Hw, Hr; reflexivity|].
  edestruct step_at as [-> Hk3]; [exact Hk2|reflexivity|].
  edestruct step_at as [-> Hk4]; [exact Hk3|reflexivity|].
  edestruct step_at as [-> Hk5]; [exact Hk4|reflexivity|].
  eexists. split; [reflexivity|]. split; [exact Hk5|]. unfold close_file. cbn. rewrite Hfile. cbn.
  split_and!; try done. by rewrite lookup_delete_ne, lookup_insert_eq by lia.
Qed.

(** ** Logs that are rotated *)

(** [C20] Requests log their lines while rotations open the file again, in any order the lock
    allows.  Each goroutine carries out its call: no request finds the file closed, and one
    whose write does not fail has written its line whole, once, to a file: the lines are
    those of the requests and no other.  The descriptors are the one of the logger and those
    rotations are about to install.  Every schedule is finite; when none can run any more
    all calls have returned (nothing is deadlocked), the lock is free and one descriptor is
    left, on the file at the path if it was moved before the rotations only. *)
Theorem access_log_kept jobs evs s :
  Forall job jobs -> run_log evs (NewLogger jobs) = Some s ->
  Forall2 (progress (fun e => exists k n, Run k (Some (e, n)) ∈ evs)) jobs (l_pool s)
  /\ map snd (l_writes s) ≡ₚ l_pool s ≫= wrote
  /\ elements (dom (l_fds s)) ≡ₚ file_open (l_file s) (l_fds s) ++ (l_pool s ≫= owned)
  /\ (runs evs + sum_list_with steps_left (l_pool s) <= sum_list_with steps_left jobs)%nat
  /\ ((forall k, log_step (Run k None) s = None) ->
      Forall (fun c => steps_left c = 0%nat) (l_pool s) /\ l_writer s = false /\ l_readers s = 0%nat
      /\ exists fd, l_file s = Some fd /\ dom (l_fds s) = {[ fd ]}
         /\ ((exists evs', evs = Move :: evs' /\ Move ∉ evs') -> Exists rotated (l_pool s) -> l_fds s !! fd = l_path s)).
Proof.
  intros Hj Hr. set (E := fun e => exists k n, Run k (Some (e, n)) ∈ evs).
  assert (forall k e n, Run k (Some (e, n)) ∈ evs -> E e) as He by (intros k e n Hin; by exists k, n).
  pose proof (NewLogger_inv E jobs Hj) as Hnew. pose proof (log_inv_run E jobs _ _ _ He Hnew Hr) as Hinv.
  split; [apply Hinv|]. split; [apply Hinv|]. split; [apply Hinv|].
  split; [apply (run_log_steps _ _ _ Hr)|]. intros Hstuck.
  split; [by eapply stuck_done|]. destruct (stuck_lock _ _ _ Hinv Hstuck) as [Hw Hrd].
  split; [done|]. split; [done|]. destruct (stuck_fds _ _ _ Hinv Hstuck) as (fd & Hfile & Hdom).
  exists fd. split; [done|]. split; [done|]. intros (evs' & -> & Hm) Hrot. cbn in Hr.
  assert (is_Some (l_fds s !! fd)) as [f Hf] by (apply elem_of_dom; rewrite Hdom; set_solver).
  rewrite Hf. symmetry. eapply (follows_run E jobs evs'); [|done| | |exact Hr|done..].
  - intros k e n Hin. apply (He k e n). by right.
  - by eapply (log_inv_move E jobs (NewLogger jobs)).
  - by apply NewLogger_follows.
Qed.

Definition example_jobs : list Routine := [Log "a"%go; Reopen; Log "b"%go].
Definition example_schedule : list Event := Move :: [Run 1 None; Run 0 None; Run 0 None; Run 2 None] ++ run_to_end 0 1 ++ run_to_end 2 2 ++ run_to_end 1 4.

Lemma access_log_kept_witness :
  match run_log example_schedule (NewLogger example_jobs) with
  | Some s => map snd (l_writes s) ≡ₚ ["a"%go; "b"%go] /\ exists fd, l_file s = Some fd /\ l_fds s !! fd = Some 1%nat
  | None => False
  end.
Proof.
  destruct (run_log example_schedule (NewLogger example_jobs)) as [s|] eqn:Hs; [|by vm_compute in Hs].
  assert (Forall job example_jobs) as Hj by repeat constructor.
  destruct (access_log_kept example_jobs example_schedule s Hj Hs) as (_ & Hl & _ & _ & Hdone).
  vm_compute in Hs. injection Hs as <-. split; [exact Hl|].
  destruct Hdone as (_ & _ & _ & fd & Hfd & _ & Hrot).
  - intros k. do 3 (destruct k as [|k]; [reflexivity|]). reflexivity.
  - exists fd. split; [exact Hfd|]. apply Hrot.
    + eexists. split; [reflexivity|]. cbn. intros Hm. repeat (apply elem_of_cons in Hm as [Hm|Hm]; [discriminate Hm|]).
      exact (not_elem_of_nil _ Hm).
    + apply Exists_cons_tl, Exists_cons_hd. exact I.
Defined.
