(* ===== verification/Service.v ===== *)
(** * The service and its servers (pkg/service: service.go, servers.go, load_balancers.go,
      control_api.go; pkg/boulevard: server.go, listener.go, protocol.go, version.go)

    Listeners, servers with a protocol behind an interface, and the service: its start
    and its stop, and what happens when a server fails, as steps of goroutines. *)

From stdpp Require Import gmultiset relations.
From S2P Require Import Prelude GoStrings NetIP NetAddresses FormatString HttpHeader HttpContext HttpAuth HttpHandler.
From S2P Require Import HttpServer HttpActions LoadBalancer HttpProxy FcgiAction Lifecycle.

(** ** Listeners *)

(** [TLSCfg] of a listener: the domains of an ACME certificate, or else the files of a
    certificate and its key; and the versions [HttpServer] uses. *)
Record ListenerTLS := mkListenerTLS {
  lt_Domains : list gostring;
  lt_CertificateFile : gostring;
  lt_PrivateKeyFile : gostring;
  lt_Versions : TLSCfg;
  lt_CipherSuites : list Z
}.

Record ListenerCfg := mkListenerCfg {
  lc_Address : gostring;
  lc_TLS : option ListenerTLS;
  lc_ACMEClient : bool            (** the client is not nil *)
}.

Record RunningListener := mkRunning { rl_Cfg : ListenerCfg; rl_Port : Z; rl_socket : Resource }.

(** The listener the HTTP protocol uses. *)
Definition http_listener (l : RunningListener) : Listener :=
  mkListener (rl_Port l) (lt_Versions <$> lc_TLS (rl_Cfg l)).

(** [fmt.Errorf] with [%v]: the error is not wrapped. *)
Definition replaceST {S A} (msg : gostring) (m : ST S A) : ST S A := fun s =>
  let '(r, s) := m s in (replace_error msg r, s).

(** [acmeTLSCfg]: the certificate is requested, then waited for. *)
Definition acmeTLSCfg : ST World unit :=
  _ ← replaceST "cannot request TLS certificate"%go call;
  replaceST "startup interrupted"%go call.

(** [localTLSCfg] *)
Definition localTLSCfg : ST World unit :=
  _ ← wrapST "cannot load certificate"%go call;
  _ ← wrapST "cannot load private key"%go call;
  wrapST "invalid certificate and/or private key"%go call.

(** [acmeCertificateName]: the server and a hash of the domains, 16 bytes of SHAKE-128. *)
Class GoSHAKE := { ShakeSum128 : gostring -> gostring }.

Definition acme_key (domains : list gostring) : gostring := Join domains ["031"%char].

Definition acmeCertificateName `{GoSHAKE} (serverName : gostring) (tls : ListenerTLS) : gostring :=
  serverName ++ "-"%go ++ hex_string (ShakeSum128 (acme_key (lt_Domains tls))).

(** What is hashed determines the domains: no domain has the separator. *)
Lemma acme_key_inj ds ds' :
  ds <> [] -> ds' <> [] -> Forall (fun d => "031"%char ∉ d) ds -> Forall (fun d => "031"%char ∉ d) ds' ->
  acme_key ds = acme_key ds' -> ds = ds'.
Proof.
  intros Hn Hn' Hd Hd' Heq. rewrite <- (Split_Join ds "031"%char), <- (Split_Join ds' "031"%char) by done.
  exact (f_equal (fun k => Split k "031"%char) Heq).
Qed.

(** The goroutine that reads the events of the ACME client, for as long as there are some:
    whether the context of the listener is cancelled. *)
Definition acme_events (events : list (option error)) (cancelled : bool) : bool :=
  foldl (fun c ev => match ev with Some _ => true | None => c end) cancelled events.

(** An error that comes after the start cancels the context its requests derive from. *)
Lemma late_acme_error before after e : acme_events (before ++ Some e :: after) false = true.
Proof.
  unfold acme_events. rewrite foldl_app. cbn. generalize (Some e). intros _.
  induction after as [|[] after IH]; cbn; done.
Qed.

(** The TLS configuration of a listener. *)
Definition listener_tls (tls : option ListenerTLS) : ST World unit :=
  match tls with
  | Some tls => if 0 <? len (lt_Domains tls) then acmeTLSCfg else localTLSCfg
  | None => mret tt
  end.

(** [Listener.listen] *)
Definition listen (cfg : ListenerCfg) : ST World Resource :=
  _ ← listener_tls (lc_TLS cfg);
  _ ← wrapST "cannot create TCP listener"%go call;
  acquire Socket (lc_Address cfg).

(** [StartListener] *)
Definition StartListener (cfg : ListenerCfg) : ST World RunningListener :=
  if match lc_TLS cfg with
     | Some tls => (0 <? len (lt_Domains tls)) && negb (lc_ACMEClient cfg)
     | None => false
     end
  then throw (Errorf "missing ACME client for TLS support"%go)
  else
    '(_, port) ← wrapST "invalid address"%go (lift (SplitHostPort (lc_Address cfg)));
    match valid_port 1 65535 port with
    | None => throw (Errorf "invalid port"%go)
    | Some portNumber => socket ← listen cfg; mret (mkRunning cfg portNumber socket)
    end.

(** [Listener.Stop]: the goroutines that accept on it are interrupted. *)
Definition Listener_Stop (l : RunningListener) : ST World unit := close_socket (rl_socket l).

Record ListenerStatus := mkListenerStatus {
  ls_Address : gostring; ls_TLS : bool; ls_ACME : bool; ls_ACMEDomains : list gostring
}.

(** [Listener.Status] *)
Definition Listener_Status (l : RunningListener) : ListenerStatus :=
  match lc_TLS (rl_Cfg l) with
  | Some tls => mkListenerStatus (lc_Address (rl_Cfg l)) true (0 <? len (lt_Domains tls)) (lt_Domains tls)
  | None => mkListenerStatus (lc_Address (rl_Cfg l)) false false []
  end.

(** ** Protocols

    The interface [Protocol], for a protocol object whose state is [P]; it is started with
    the listeners of its server and their sockets. *)
Class ServerProtocol (P : Type) := {
  Protocol_Start : gostring -> list (Listener * Resource) -> ST (World * P) unit;
  Protocol_Stop : ST (World * P) unit;
  Protocol_RotateLogFiles : ST (World * P) unit
}.

(** What a protocol promises.  An object that is idle, because it is new, was stopped or
    could not be started, can be started, possibly again; once it runs it can be stopped if
    it is [protocol_stoppable], which a start does not change, and its stop panics if it is
    not.  A stop returns when the sockets the protocol accepts on were closed before. *)
Class ProtocolLaws (P : Type) `{!ServerProtocol P} := {
  protocol_idle : P -> Prop;
  protocol_runs : P -> Prop;
  protocol_stoppable : P -> bool;
  protocol_owns : P -> gmultiset Resource;
  protocol_sockets : P -> list Resource;
  protocol_starts : forall name ls w p, protocol_idle p ->
    match Protocol_Start name ls (w, p) with
    | (Ret _, (w', p')) => held w' = protocol_owns p' ⊎ held w /\ protocol_runs p'
        /\ protocol_sockets p' ⊆ map snd ls /\ protocol_stoppable p' = protocol_stoppable p
    | (Throw _, (w', p')) => (exists L, no_socket L /\ held w' = L ⊎ held w) /\ protocol_idle p'
        /\ protocol_stoppable p' = protocol_stoppable p
    | _ => False
    end;
  protocol_stops : forall w p K, protocol_runs p -> protocol_stoppable p = true ->
    (forall r, r ∈ protocol_sockets p -> fst r ∈ closed_sockets w) -> held w = protocol_owns p ⊎ K ->
    exists w' p', Protocol_Stop (w, p) = (Ret tt, (w', p')) /\ held w' = K /\ protocol_idle p';
  protocol_stuck : forall w p, protocol_runs p -> protocol_stoppable p = false -> fst (Protocol_Stop (w, p)) = Panic;
  protocol_rotates : forall w p K, protocol_runs p -> held w = protocol_owns p ⊎ K ->
    exists w' p', Protocol_RotateLogFiles (w, p) = (Ret tt, (w', p')) /\ protocol_runs p'
      /\ held w' = protocol_owns p' ⊎ K /\ protocol_sockets p' = protocol_sockets p
      /\ protocol_stoppable p' = protocol_stoppable p
}.

(** An object that can be started, and then stopped. *)
Definition protocol_new `{ProtocolLaws P} (p : P) : Prop := protocol_idle p /\ protocol_stoppable p = true.

(** ** Servers *)

Record ServerCfg := mkServerCfg { sc_Name : gostring; sc_Listeners : list ListenerCfg }.

Section server.
Context {P : Type} `{!ServerProtocol P}.

(** [boulevard.StartServer] *)
Definition StartServer (cfg : ServerCfg) : ST (World * P) (list RunningListener) :=
  ls ← wrapST "cannot start listener"%go
         (on_world (start_each StartListener Listener_Stop [] (sc_Listeners cfg)));
  r ← attempt (Protocol_Start (sc_Name cfg) (map (fun l => (http_listener l, rl_socket l)) ls));
  match r with
  | inl err => _ ← on_world (stop_each Listener_Stop ls); throw err
  | inr _ => mret ls
  end.

(** [Server.Stop], for a server that was not stopped. *)
Definition Server_Stop (ls : list RunningListener) : ST (World * P) unit :=
  _ ← on_world (stop_each Listener_Stop ls); Protocol_Stop.
End server.

(** ** Named parts

    The tables of servers and of load balancers of the service: parts started in the
    order of the configuration, stopped by name. *)

Section named.
Context {S Cfg B : Type} (name : Cfg -> gostring).
Context (get : S -> gmap gostring B) (set : gmap gostring B -> S -> S).
Context (start : Cfg -> ST S B) (stop : gostring -> B -> ST S unit) (what : gostring).

(** [startServer], [startLoadBalancer] *)
Definition start_named (cfg : Cfg) : ST S unit :=
  m ← gets get;
  if bool_decide (is_Some (m !! name cfg)) then throw (Errorf "duplicate"%go)
  else
    b ← wrapST what (start cfg);
    modify (fun s => set (<[name cfg := b]> (get s)) s).

(** [stopServer], [stopLoadBalancer] *)
Definition stop_named (n : gostring) : ST S unit :=
  m ← gets get;
  match m !! n with
  | None => mret tt
  | Some b => _ ← stop n b; modify (fun s => set (delete n (get s)) s)
  end.

(** The loop of [startServers], [startLoadBalancers], with the names started so far. *)
Fixpoint start_all_named (startedNames : list gostring) (cfgs : list Cfg) : ST S unit :=
  match cfgs with
  | [] => mret tt
  | cfg :: cfgs' =>
      r ← attempt (start_named cfg);
      match r with
      | inl err => _ ← stop_each stop_named startedNames; throw err
      | inr _ => start_all_named (startedNames ++ [name cfg]) cfgs'
      end
  end.
End named.

(** ** The ACME client *)

Record ACMECfg := mkACMECfg {
  acc_DatastorePath : gostring;
  acc_Contacts : list gostring;
  acc_DirectoryURI : gostring;
  acc_HTTPListenerAddress : gostring;
  acc_HTTPUpstreamURI : gostring;
  acc_Pebble : bool
}.

(** What the library is given: [ClientCfg], with the solver of HTTP challenges. *)
Record AcmeClientCfg := mkAcmeClient {
  ac_ContactURIs : list gostring;
  ac_DirectoryURI : gostring;
  ac_SolverAddress : gostring;
  ac_SolverUpstreamURI : gostring;
  ac_PebbleHTTPClient : bool
}.

(** The constants of the library. *)
Class AcmeConstants := {
  PebbleDirectoryURI : gostring;
  PebbleHTTPChallengeSolverAddress : gostring;
  LetsEncryptDirectoryURI : gostring
}.

Definition default_string (s d : gostring) : gostring := if bool_decide (s = []) then d else s.

(** The configuration of the client in [initACMEClient]: its directory starts empty. *)
Definition acme_client_cfg `{!AcmeConstants} (cfg : ACMECfg) : AcmeClientCfg :=
  let contactURIs := map (fun address => "mailto:"%go ++ address) (acc_Contacts cfg) in
  let directory : gostring := [] in
  if acc_Pebble cfg then
    mkAcmeClient contactURIs (default_string directory PebbleDirectoryURI)
      (default_string (acc_HTTPListenerAddress cfg) PebbleHTTPChallengeSolverAddress) (acc_HTTPUpstreamURI cfg) true
  else
    mkAcmeClient contactURIs (default_string directory LetsEncryptDirectoryURI)
      (default_string (acc_HTTPListenerAddress cfg) "0.0.0.0:80"%go) (acc_HTTPUpstreamURI cfg) false.

(** The directory of the configuration is not used. *)
Lemma acme_directory_ignored `{!AcmeConstants} cfg :
  ac_DirectoryURI (acme_client_cfg cfg)
  = if acc_Pebble cfg then PebbleDirectoryURI else LetsEncryptDirectoryURI.
Proof. unfold acme_client_cfg. by destruct (acc_Pebble cfg). Qed.

(** [initACMEClient], without what the library does with its configuration. *)
Definition initACMEClient (cfg : option ACMECfg) : ST World unit :=
  match cfg with
  | None => mret tt
  | Some _ =>
      _ ← wrapST "cannot create file system datastore"%go call;
      wrapST "cannot create ACME client"%go call
  end.

(** [startACMEClient] *)
Definition startACMEClient (cfg : option ACMECfg) : ST World unit :=
  match cfg with None => mret tt | Some _ => wrapST "cannot start ACME client"%go call end.

(** ** The service *)

Record LoadBalancerCfg := mkBalancerCfg {
  lbc_Name : gostring; lbc_Servers : list HostAddress; lbc_HealthProbe : option HealthProbeCfg
}.

(** The number of goroutines its probes have. *)
Definition nb_probes (cfg : LoadBalancerCfg) : nat :=
  if lbc_HealthProbe cfg is Some _ then length (lbc_Servers cfg) else 0.

Record ControlAPICfg := mkControlCfg { ca_Path : gostring; ca_AccessLogger : option AccessLoggerCfg }.

Record ServiceCfg := mkServiceCfg {
  sv_Logger : bool;               (** whether a logger is configured *)
  sv_ACME : option ACMECfg;
  sv_ControlAPI : option ControlAPICfg;
  sv_PProfAddress : gostring;
  sv_LoadBalancers : list LoadBalancerCfg;
  sv_Servers : list ServerCfg
}.

(** [Service]: [protos] are the protocol objects of the configuration, by the name of
    their server (the one of a duplicate is never used); a load balancer holds the
    goroutines of its probes, and the control API its socket and goroutine. *)
Record Service (P : Type) := mkService {
  sv_world : World;
  protos : gmap gostring P;
  servers : gmap gostring (list RunningListener);
  loadBalancers : gmap gostring (list Resource);
  controlAPI : option (option LogHandle * option (Resource * Resource));
  sv_stopClosed : bool
}.
Arguments mkService {P}.
Arguments sv_world {P}.
Arguments protos {P}.
Arguments servers {P}.
Arguments loadBalancers {P}.
Arguments controlAPI {P}.
Arguments sv_stopClosed {P}.

Section service.
Context {P : Type} `{!ServerProtocol P}.
Let M := ST (Service P).

Definition set_world (w : World) (s : Service P) : Service P :=
  mkService w (protos s) (servers s) (loadBalancers s) (controlAPI s) (sv_stopClosed s).
Definition set_servers (m : gmap gostring (list RunningListener)) (s : Service P) : Service P :=
  mkService (sv_world s) (protos s) m (loadBalancers s) (controlAPI s) (sv_stopClosed s).
Definition set_balancers (m : gmap gostring (list Resource)) (s : Service P) : Service P :=
  mkService (sv_world s) (protos s) (servers s) m (controlAPI s) (sv_stopClosed s).
Definition set_control (c : option (option LogHandle * option (Resource * Resource))) (s : Service P) : Service P :=
  mkService (sv_world s) (protos s) (servers s) (loadBalancers s) c (sv_stopClosed s).
Definition set_stop (b : bool) (s : Service P) : Service P :=
  mkService (sv_world s) (protos s) (servers s) (loadBalancers s) (controlAPI s) b.

Definition on_sv_world {B} (m : ST World B) : M B := zoom sv_world set_world m.

(** A computation on the world and the protocol object of the server [n]. *)
Definition with_proto {B} (n : gostring) (m : ST (World * P) B) : M B := fun s =>
  match protos s !! n with
  | None => (Panic, s)
  | Some p =>
      let '(r, (w, p)) := m (sv_world s, p) in
      (r, mkService w (<[n := p]> (protos s)) (servers s) (loadBalancers s) (controlAPI s) (sv_stopClosed s))
  end.

(** [startServer], [stopServer] *)
Definition run_server (cfg : ServerCfg) : M (list RunningListener) := with_proto (sc_Name cfg) (StartServer cfg).
Definition halt_server (n : gostring) (ls : list RunningListener) : M unit := with_proto n (Server_Stop ls).

Definition startServer : ServerCfg -> M unit :=
  start_named sc_Name servers set_servers run_server "cannot start server"%go.
Definition stopServer : gostring -> M unit := stop_named servers set_servers halt_server.

(** [startServers] *)
Definition startServers (cfgs : list ServerCfg) : M unit :=
  _ ← modify (set_servers ∅);
  start_all_named sc_Name servers set_servers run_server halt_server "cannot start server"%go [] cfgs.

(** [stopServers]; [order] is the order of a range over the servers. *)
Definition stopServers (order : list gostring) : M unit := stop_each stopServer order.

(** [StartLoadBalancer]: a goroutine for each probed server; it does not fail. *)
Fixpoint start_probes (n : nat) : ST World (list Resource) :=
  match n with
  | O => mret []
  | S n' => g ← acquire ProbeGoroutine []; gs ← start_probes n'; mret (g :: gs)
  end.

Definition run_balancer (cfg : LoadBalancerCfg) : M (list Resource) :=
  on_sv_world (start_probes (nb_probes cfg)).

(** [LoadBalancer.Stop]: [stopChan] is closed, then the goroutines are waited for. *)
Definition halt_balancer (n : gostring) (gs : list Resource) : M unit :=
  let stopClosed := true in on_sv_world (stop_each (await stopClosed) gs).

Definition startLoadBalancer : LoadBalancerCfg -> M unit :=
  start_named lbc_Name loadBalancers set_balancers run_balancer "cannot start load balancer"%go.
Definition stopLoadBalancer : gostring -> M unit := stop_named loadBalancers set_balancers halt_balancer.

Definition startLoadBalancers (cfgs : list LoadBalancerCfg) : M unit :=
  _ ← modify (set_balancers ∅);
  start_all_named lbc_Name loadBalancers set_balancers run_balancer halt_balancer
    "cannot start load balancer"%go [] cfgs.

Definition stopLoadBalancers (order : list gostring) : M unit :=
  stop_each stopLoadBalancer order.

(** ** The control API *)

(** [initControlAPI]: its log is opened when the service is created. *)
Definition initControlAPI (cfg : option ControlAPICfg) : M unit :=
  match cfg with
  | None => mret tt
  | Some c =>
      log ← on_sv_world (open_logger (ca_AccessLogger c) ∅);
      modify (set_control (Some (log, None)))
  end.

(** [ControlAPI.Start]: the stray socket is removed first; listen, then serve. *)
Definition ControlAPI_Start (c : ControlAPICfg) : ST World (Resource * Resource) :=
  r ← attempt call;
  _ ← match r with
      | inl err => if errors_Is err fs_ErrNotExist then mret tt else throw (Wrapf "cannot delete"%go err)
      | inr _ => mret tt
      end;
  _ ← wrapST "cannot listen"%go call;
  socket ← acquire Socket (ca_Path c);
  g ← acquire ServeGoroutine [];
  mret (socket, g).

Definition startControlAPI (cfg : option ControlAPICfg) : M unit :=
  api ← gets controlAPI;
  match api, cfg with
  | Some (log, _), Some c =>
      x ← wrapST "cannot start control API"%go (on_sv_world (ControlAPI_Start c));
      modify (set_control (Some (log, Some x)))
  | _, _ => mret tt
  end.

(** [ControlAPI.Stop]: the server is nil if it was not started; its shutdown closes the
    socket its goroutine accepts on. *)
Definition ControlAPI_Stop (x : option (Resource * Resource)) : ST World unit :=
  match x with
  | None => lift Panic
  | Some (socket, g) =>
      _ ← close_socket socket;
      closed ← gets (fun w => bool_decide (fst socket ∈ closed_sockets w));
      await closed g
  end.

Definition stopControlAPI : M unit :=
  api ← gets controlAPI;
  match api with
  | None => mret tt
  | Some (log, x) => _ ← on_sv_world (ControlAPI_Stop x); modify (set_control (Some (log, None)))
  end.

(** ** The service *)

(** [NewService]: a configured logger and the ACME client are created by their libraries. *)
Definition NewService (cfg : ServiceCfg) (ps : gmap gostring P) (w : World)
  : outcome unit * Service P :=
  (_ ← on_sv_world (if sv_Logger cfg then wrapST "cannot create logger"%go call else mret tt);
   _ ← on_sv_world (initACMEClient (sv_ACME cfg));
   initControlAPI (sv_ControlAPI cfg)) (mkService w ps ∅ ∅ None false).

(** [startPProf]: the goroutine that listens and serves is never stopped. *)
Definition startPProf (address : gostring) : ST World unit :=
  if bool_decide (address = []) then mret tt else _ ← acquire PProfGoroutine address; mret tt.

(** [Service.Start]: the goroutine of [handleSignals] is in the events of a service that
    runs. *)
Definition Service_Start (cfg : ServiceCfg) : M unit :=
  _ ← on_sv_world (startACMEClient (sv_ACME cfg));
  _ ← on_sv_world (startPProf (sv_PProfAddress cfg));
  _ ← startLoadBalancers (sv_LoadBalancers cfg);
  _ ← startServers (sv_Servers cfg);
  startControlAPI (sv_ControlAPI cfg).

(** [Service.Stop], with the orders of its ranges over maps. *)
Definition Service_Stop (order1 order2 : list gostring) : M unit := fun s =>
  if sv_stopClosed s then (Panic, s)
  else
    (_ ← modify (set_stop true);
     _ ← stopControlAPI;
     _ ← stopServers order1;
     stopLoadBalancers order2) s.

(** [rotateLogFiles], with the order of its range. *)
Fixpoint rotateLogFiles (order : list gostring) : M unit :=
  match order with
  | [] => mret tt
  | n :: order' =>
      m ← gets servers;
      _ ← match m !! n with
          | Some _ => with_proto n Protocol_RotateLogFiles
          | None => mret tt
          end;
      rotateLogFiles order'
  end.

(** [serverStatuses], without the data of the protocols. *)
Definition serverStatuses (s : Service P) : gmap gostring (list ListenerStatus) :=
  (fun ls => map Listener_Status ls) <$> servers s.
End service.

(** ** Tables of parts: what is held *)

Lemma owns_all_perm {B} (owns : B -> gmultiset Resource) (l k : list B) :
  l ≡ₚ k -> owns_all owns l = owns_all owns k.
Proof.
  induction 1 as [|x l k _ IH|x y l|l k m _ IH1 _ IH2]; cbn [owns_all]; [done|by rewrite IH| |congruence].
  by rewrite !(assoc_L (⊎)), (comm_L (⊎) (owns y)).
Qed.

Lemma owns_all_ext {B} (o1 o2 : B -> gmultiset Resource) (l : list B) :
  (forall b, b ∈ l -> o1 b = o2 b) -> owns_all o1 l = owns_all o2 l.
Proof.
  induction l as [|b l IH]; intros Ho; cbn [owns_all]; [done|].
  rewrite Ho by by left. rewrite IH; [done|]. intros b' Hb. apply Ho. by right.
Qed.

Section table.
Context {S Cfg B : Type} (name : Cfg -> gostring).
Context (get : S -> gmap gostring B) (set : gmap gostring B -> S -> S).
Context (start : Cfg -> ST S B) (stop : gostring -> B -> ST S unit) (what : gostring).

(** What is held, by the process and by a part, and which parts can be started. *)
Context (hd : S -> gmultiset Resource) (part_owns : S -> gostring -> B -> gmultiset Resource).
Context (part_ready : S -> gostring -> B -> Prop) (stoppable : S -> gostring -> bool) (fresh : S -> Cfg -> Prop).

(** Nothing changes but the part [n]. *)
Record frame (n : gostring) (s s' : S) : Prop := {
  fr_owns : forall n' b, n' <> n -> part_owns s' n' b = part_owns s n' b;
  fr_ready : forall n' b, n' <> n -> part_ready s n' b -> part_ready s' n' b;
  fr_stoppable : forall n', n' <> n -> stoppable s' n' = stoppable s n';
  fr_fresh : forall cfg, name cfg <> n -> fresh s cfg -> fresh s' cfg
}.

Record part_laws : Prop := {
  pl_get : forall m s, get (set m s) = m;
  pl_hd : forall m s, hd (set m s) = hd s;
  pl_set : forall m s n, frame n s (set m s) /\ stoppable (set m s) n = stoppable s n
    /\ (forall cfg, fresh s cfg -> fresh (set m s) cfg)
    /\ forall b, part_owns (set m s) n b = part_owns s n b /\ (part_ready s n b -> part_ready (set m s) n b);
  pl_start : forall cfg s, fresh s cfg ->
    match start cfg s with
    | (Ret b, s') => hd s' = part_owns s' (name cfg) b ⊎ hd s /\ part_ready s' (name cfg) b
        /\ stoppable s' (name cfg) = stoppable s (name cfg) /\ frame (name cfg) s s' /\ get s' = get s
    | (Throw _, s') => (exists L, no_socket L /\ hd s' = L ⊎ hd s)
        /\ stoppable s' (name cfg) = stoppable s (name cfg) /\ frame (name cfg) s s' /\ get s' = get s
        /\ (forall cfg', fresh s cfg' -> fresh s' cfg')
    | _ => False
    end;
  pl_stop : forall n b s K, part_ready s n b -> stoppable s n = true -> hd s = part_owns s n b ⊎ K ->
    exists s', stop n b s = (Ret tt, s') /\ hd s' = K /\ frame n s s' /\ get s' = get s
      /\ forall cfg, name cfg = n -> fresh s' cfg;
  pl_stuck : forall n b s, part_ready s n b -> stoppable s n = false -> fst (stop n b s) = Panic
}.
Hypothesis laws : part_laws.

Definition table_owns (s : S) : gmultiset Resource :=
  owns_all (fun '(n, b) => part_owns s n b) (map_to_list (get s)).

Record table_holds (K : gmultiset Resource) (s : S) : Prop := {
  th_held : hd s = table_owns s ⊎ K;
  th_ready : forall n b, get s !! n = Some b -> part_ready s n b
}.

(** The part [n] is taken out of a table. *)
Lemma table_owns_delete s n b :
  get s !! n = Some b ->
  table_owns s = part_owns s n b ⊎ owns_all (fun '(n, b) => part_owns s n b) (map_to_list (delete n (get s))).
Proof using Type.
  intros Hb. unfold table_owns. rewrite (owns_all_perm _ _ _ (symmetry (map_to_list_delete _ _ _ Hb))). done.
Qed.

Lemma table_owns_insert s n b :
  get s !! n = None ->
  owns_all (fun '(n, b) => part_owns s n b) (map_to_list (<[n := b]> (get s))) = part_owns s n b ⊎ table_owns s.
Proof using Type.
  intros Hb. unfold table_owns. rewrite (owns_all_perm _ _ _ (map_to_list_insert _ _ _ Hb)). done.
Qed.

Lemma table_owns_frame (n : gostring) (m : gmap gostring B) (s s' : S) :
  frame n s s' -> m !! n = None ->
  owns_all (fun '(n, b) => part_owns s' n b) (map_to_list m) = owns_all (fun '(n, b) => part_owns s n b) (map_to_list m).
Proof using Type.
  intros Hf Hm. apply owns_all_ext. intros [n' b] Hb. apply elem_of_map_to_list in Hb.
  apply (fr_owns _ _ _ Hf). intros ->. congruence.
Qed.

Lemma frame_set_trans (n : gostring) (m : gmap gostring B) (s s' : S) : frame n s s' -> frame n s (set m s').
Proof using Type laws.
  intros [Ho Hr Hst Hf]. destruct (pl_set laws m s' n) as [[Ho' Hr' Hst' Hf'] _]. constructor.
  - intros n' b Hn. by rewrite Ho', Ho.
  - intros n' b Hn Hb. by apply Hr', Hr.
  - intros n' Hn. by rewrite Hst', Hst.
  - intros cfg Hn Hc. by apply Hf', Hf.
Qed.

(** Every part that runs can be stopped. *)
Definition all_stoppable (s : S) : Prop := forall n, is_Some (get s !! n) -> stoppable s n = true.

Lemma stop_named_spec n K s :
  table_holds K s -> (is_Some (get s !! n) -> stoppable s n = true) ->
  exists s', stop_named get set stop n s = (Ret tt, s') /\ table_holds K s' /\ get s' = delete n (get s)
    /\ frame n s s' /\ forall cfg, name cfg = n -> is_Some (get s !! n) -> fresh s' cfg.
Proof using Type laws.
  intros [Hheld Hready] Hst. unfold stop_named. erewrite st_bind_ret by reflexivity.
  destruct (get s !! n) as [b|] eqn:Hb.
  - destruct (pl_stop laws n b s (owns_all (fun '(n, b) => part_owns s n b) (map_to_list (delete n (get s))) ⊎ K))
      as (s1 & E & Hh & Hf & Hg & Hfresh).
    { by apply Hready. }
    { by apply Hst. }
    { rewrite Hheld, (table_owns_delete s n b Hb). by rewrite (assoc_L (⊎)). }
    exists (set (delete n (get s)) s1). rewrite (st_bind_ret _ _ _ _ _ E). unfold modify. rewrite Hg.
    pose proof (frame_set_trans n (delete n (get s)) s s1 Hf) as Hf'.
    split; [done|]. rewrite (pl_get laws). split; [|split; [done|split; [done|]]].
    2:{ intros cfg Hc _. destruct (pl_set laws (delete n (get s)) s1 n) as (_ & _ & Hset & _). by apply Hset, Hfresh. }
    constructor.
    + rewrite (pl_hd laws), Hh. f_equal. unfold table_owns. rewrite (pl_get laws). symmetry.
      apply (table_owns_frame n); [done|]. by apply lookup_delete_eq.
    + intros n' b'. rewrite (pl_get laws). intros Hb'. apply lookup_delete_Some in Hb' as [Hn Hb'].
      apply (fr_ready _ _ _ Hf'); [done|]. by apply Hready.
  - exists s. split; [done|]. split; [done|]. split; [by rewrite delete_id|]. split; [by constructor|].
    by intros cfg _ [? ?].
Qed.

Lemma stop_named_stuck n K s :
  table_holds K s -> is_Some (get s !! n) -> stoppable s n = false -> fst (stop_named get set stop n s) = Panic.
Proof using Type laws.
  intros [_ Hready] [b Hb] Hst. unfold stop_named. erewrite st_bind_ret by reflexivity. rewrite Hb.
  pose proof (pl_stuck laws n b s (Hready _ _ Hb) Hst) as Hp. unfold mbind, st_bind.
  by destruct (stop n b s) as [[[]|e| |] s'].
Qed.

Lemma start_named_spec cfg K s :
  table_holds K s -> (get s !! name cfg = None -> fresh s cfg) ->
  match start_named name get set start what cfg s with
  | (Ret _, s') => table_holds K s' /\ get s !! name cfg = None
      /\ (exists b, get s' = <[name cfg := b]> (get s)) /\ frame (name cfg) s s'
      /\ stoppable s' (name cfg) = stoppable s (name cfg)
  | (Throw _, s') => (exists L, no_socket L /\ table_holds (L ⊎ K) s') /\ get s' = get s /\ frame (name cfg) s s'
      /\ stoppable s' (name cfg) = stoppable s (name cfg) /\ (forall cfg', fresh s cfg' -> fresh s' cfg')
  | _ => False
  end.
Proof using Type laws.
  intros Hh Hfresh. unfold start_named. erewrite st_bind_ret by reflexivity.
  destruct (get s !! name cfg) as [b|] eqn:Hb.
  { rewrite bool_decide_true by by eexists. split; [exists ∅; split; [apply no_socket_empty|]|].
    - by rewrite (left_id_L ∅ (⊎)).
    - split; [done|]. split; [by constructor|]. done. }
  rewrite bool_decide_false by (intros [? ?]; done).
  pose proof (pl_start laws cfg s (Hfresh eq_refl)) as Hs. unfold mbind, st_bind, wrapST.
  destruct Hh as [Hheld Hready].
  destruct (start cfg s) as [[b|e| |] s1]; cbn [wrap_error]; try done.
  - destruct Hs as (Hh1 & Hr1 & Hst & Hf & Hg). unfold modify. rewrite Hg.
    pose proof (frame_set_trans (name cfg) (<[name cfg := b]> (get s)) s s1 Hf) as Hf'.
    destruct (pl_set laws (<[name cfg := b]> (get s)) s1 (name cfg)) as (_ & Hst' & _ & Hset). destruct (Hset b) as [Ho' Hr'].
    split; [|split; [done|]; split; [by exists b; rewrite (pl_get laws)|split; [done|congruence]]]. constructor.
    + rewrite (pl_hd laws), Hh1, Hheld. unfold table_owns. rewrite (pl_get laws).
      rewrite (owns_all_perm _ _ _ (map_to_list_insert _ _ _ Hb)). cbn [owns_all]. rewrite Ho'.
      rewrite (table_owns_frame (name cfg) (get s) s _ Hf' Hb). by rewrite (assoc_L (⊎)).
    + intros n b'. rewrite (pl_get laws). rewrite lookup_insert_Some. intros [[<- <-]|[Hn Hb']]; [by apply Hr'|].
      apply (fr_ready _ _ _ Hf'); [done|]. by apply Hready.
  - destruct Hs as ((L & HL & Hh1) & Hst & Hf & Hg & Hfr). split; [|done]. exists L. split; [done|]. constructor.
    + rewrite Hh1, Hheld. unfold table_owns. rewrite Hg. rewrite (table_owns_frame (name cfg) (get s) s _ Hf Hb).
      by rewrite !(assoc_L (⊎)), (comm_L (⊎) L).
    + intros n b'. rewrite Hg. intros Hb'. apply (fr_ready _ _ _ Hf); [congruence|]. by apply Hready.
Qed.

(** A part that changes and still holds what it owns. *)
Lemma table_change n b K s s' :
  table_holds K s -> get s !! n = Some b -> get s' = get s -> frame n s s' -> part_ready s' n b ->
  (forall K', hd s = part_owns s n b ⊎ K' -> hd s' = part_owns s' n b ⊎ K') -> table_holds K s'.
Proof using Type.
  intros [Hheld Hready] Hb Hg Hf Hr Hh. constructor.
  - rewrite (table_owns_delete s n b Hb) in Hheld. rewrite <- (assoc_L (⊎)) in Hheld.
    rewrite (Hh _ Hheld), (table_owns_delete s' n b) by (by rewrite Hg).
    rewrite Hg, (table_owns_frame n _ s s' Hf) by apply lookup_delete_eq. by rewrite (assoc_L (⊎)).
  - intros n' b'. rewrite Hg. intros Hb'. destruct (decide (n' = n)) as [->|Hn]; [congruence|].
    apply (fr_ready _ _ _ Hf); [done|]. by apply Hready.
Qed.

Lemma all_stoppable_stopped n s s' :
  all_stoppable s -> get s' = delete n (get s) -> frame n s s' -> all_stoppable s'.
Proof using Type.
  intros Hst Hg Hf n' Hn'. rewrite Hg in Hn'. apply lookup_delete_is_Some in Hn' as [Hne Hn'].
  rewrite (fr_stoppable _ _ _ Hf) by done. by apply Hst.
Qed.

Lemma stop_each_named order K s :
  table_holds K s -> all_stoppable s ->
  exists s', stop_each (stop_named get set stop) order s = (Ret tt, s') /\ table_holds K s'
    /\ (forall n b, get s' !! n = Some b -> get s !! n = Some b /\ (n ∉ order)).
Proof using Type laws.
  revert s. induction order as [|n order IH]; intros s Hh Hst; cbn [stop_each].
  { exists s. split; [done|]. split; [done|]. intros n b Hb. split; [done|]. apply not_elem_of_nil. }
  destruct (stop_named_spec n K s Hh (Hst n)) as (s1 & E & Hh1 & Hg & Hf & _). rewrite (st_bind_ret _ _ _ _ _ E).
  destruct (IH s1 Hh1) as (s2 & E2 & Hh2 & Hl); [by eapply all_stoppable_stopped|].
  exists s2. split; [done|]. split; [done|].
  intros n' b Hb. destruct (Hl _ _ Hb) as [Hb1 Hn]. rewrite Hg in Hb1. apply lookup_delete_Some in Hb1 as [Hne Hb1].
  split; [done|]. by apply not_elem_of_cons.
Qed.

(** One part that cannot be stopped is enough for the stop of the table to panic. *)
Lemma stop_each_named_stuck order K s n :
  table_holds K s -> n ∈ order -> is_Some (get s !! n) -> stoppable s n = false ->
  fst (stop_each (stop_named get set stop) order s) = Panic.
Proof using Type laws.
  revert s. induction order as [|m order IH]; intros s Hh Hn Hs Hst; [by apply not_elem_of_nil in Hn|].
  cbn [stop_each]. unfold mbind, st_bind.
  assert ((is_Some (get s !! m) -> stoppable s m = true) \/ (is_Some (get s !! m) /\ stoppable s m = false)) as [Hm|[Hm Hst']].
  { destruct (stoppable s m); [by left|]. destruct (get s !! m) as [b|] eqn:E; [right; split; [by eexists|done]|].
    left. by intros [? ?]. }
  2:{ pose proof (stop_named_stuck m K s Hh Hm Hst') as Hp. by destruct (stop_named get set stop m s) as [[[]|e| |] s']. }
  destruct (stop_named_spec m K s Hh Hm) as (s1 & E & Hh1 & Hg & Hf & _). rewrite E.
  assert (n <> m) as Hne by (intros ->; rewrite (Hm Hs) in Hst; discriminate).
  apply elem_of_cons in Hn as [Hn|Hn]; [done|]. apply (IH s1); [done|done| |].
  - rewrite Hg. by rewrite lookup_delete_ne.
  - by rewrite (fr_stoppable _ _ _ Hf).
Qed.

(** All of the parts are started, or none is left. *)
Lemma start_all_named_spec startedNames cfgs K s :
  table_holds K s -> all_stoppable s -> (forall n, is_Some (get s !! n) <-> n ∈ startedNames) ->
  (forall cfg, cfg ∈ cfgs -> get s !! name cfg = None -> fresh s cfg /\ stoppable s (name cfg) = true) ->
  match start_all_named name get set start stop what startedNames cfgs s with
  | (Ret _, s') => table_holds K s' /\ all_stoppable s'
                   /\ (forall n, is_Some (get s' !! n) <-> n ∈ startedNames ++ map name cfgs)
                   /\ NoDup (map name cfgs) /\ (forall n, n ∈ map name cfgs -> (n ∉ startedNames))
  | (Throw _, s') => get s' = ∅ /\ exists L, no_socket L /\ hd s' = L ⊎ K
  | _ => False
  end.
Proof using Type laws.
  revert startedNames s. induction cfgs as [|cfg cfgs IH]; intros startedNames s Hh Hall Hdom Hfresh;
    cbn [start_all_named map].
  { split; [done|]. split; [done|]. rewrite app_nil_r. split; [done|]. split; [constructor|].
    intros n Hn. by apply elem_of_nil in Hn. }
  pose proof (start_named_spec cfg K s Hh (fun Hn => proj1 (Hfresh cfg ltac:(by left) Hn))) as Hs.
  unfold mbind, st_bind, attempt. destruct (start_named _ _ _ _ _ cfg s) as [[[]|e| |] s1]; try done.
  - destruct Hs as (Hh1 & Hnone & (b & Hg) & Hf & Hst).
    assert (all_stoppable s1) as Hall1.
    { intros n. rewrite Hg, lookup_insert_is_Some. intros [<-|[Hne Hn]].
      - rewrite Hst. by apply (Hfresh cfg); [left|].
      - rewrite (fr_stoppable _ _ _ Hf) by done. by apply Hall. }
    assert (forall n, is_Some (get s1 !! n) <-> n ∈ startedNames ++ [name cfg]) as Hdom1.
    { intros n. rewrite elem_of_app, <- Hdom, Hg, list_elem_of_singleton.
      destruct (decide (n = name cfg)) as [-> | Hn].
      - rewrite lookup_insert_eq. split; [by right|by eexists].
      - rewrite lookup_insert_ne by done. naive_solver. }
    specialize (IH (startedNames ++ [name cfg]) s1 Hh1 Hall1 Hdom1).
    assert (forall c, c ∈ cfgs -> get s1 !! name c = None -> fresh s1 c /\ stoppable s1 (name c) = true) as Hfresh1.
    { intros c Hc Hn. rewrite Hg in Hn. apply lookup_insert_None in Hn as [Hn Hne].
      destruct (Hfresh c) as [Hfc Hsc]; [by right|done|].
      split; [apply (fr_fresh _ _ _ Hf); [congruence|done]|by rewrite (fr_stoppable _ _ _ Hf)]. }
    specialize (IH Hfresh1). destruct (start_all_named _ _ _ _ _ _ _ cfgs s1) as [[[]|e| |] s2]; try done.
    destruct IH as (Hh2 & Hall2 & Hdom2 & Hnd & Hnew). split; [done|]. split; [done|]. split.
    { intros n. by rewrite Hdom2, <- app_assoc. }
    assert (name cfg ∉ startedNames) as Hcfg.
    { intros Hin. apply Hdom in Hin as [? Hin]. congruence. }
    split.
    { constructor; [|done]. intros Hin. apply (Hnew _ Hin). apply elem_of_app. right. by apply list_elem_of_singleton. }
    intros n Hn. apply elem_of_cons in Hn as [-> | Hn]; [done|].
    intros Hin. apply (Hnew _ Hn). apply elem_of_app. by left.
  - destruct Hs as ((L & HL & Hh1) & Hg & Hf & Hst & _).
    destruct (stop_each_named startedNames (L ⊎ K) s1 Hh1) as (s2 & E2 & Hh2 & Hl).
    { intros n. rewrite Hg. intros Hn. destruct (decide (n = name cfg)) as [->|Hne].
      - rewrite Hst. by apply Hall.
      - rewrite (fr_stoppable _ _ _ Hf) by done. by apply Hall. }
    unfold mbind, st_bind. rewrite E2. cbn.
    assert (get s2 = ∅) as Hempty.
    { apply map_empty. intros n. destruct (get s2 !! n) as [b|] eqn:Hb; [|done].
      destruct (Hl _ _ Hb) as [Hb1 Hn]. rewrite Hg in Hb1. destruct Hn. apply Hdom. by eexists. }
    split; [done|]. exists L. split; [done|]. destruct Hh2 as [Hheld _]. rewrite Hheld.
    unfold table_owns. rewrite Hempty, map_to_list_empty. exact (left_id_L ∅ (⊎) (L ⊎ K)).
Qed.
End table.

(** ** Listeners and servers: what is held *)

(** A listener on the socket of its address. *)
Definition listening (l : RunningListener) : Prop := snd (rl_socket l) = (Socket, lc_Address (rl_Cfg l)).

(** Computations that call the system and hold nothing. *)
Definition only_calls {B} (m : ST World B) : Prop := forall w, held (m w).2 = held w /\ completed (m w).1.

Lemma only_calls_ret {B} (b : B) : only_calls (mret b).
Proof. by intros w. Qed.

Lemma only_calls_call : only_calls call.
Proof. intros w. split; [apply call_held|]. unfold call. by destruct (faults w) as [|[e|] fs]. Qed.

Lemma only_calls_bind {B D} (m : ST World B) (k : B -> ST World D) :
  only_calls m -> (forall b, only_calls (k b)) -> only_calls (b ← m; k b).
Proof.
  intros Hm Hk w. unfold mbind, st_bind. destruct (Hm w) as [H1 H2].
  destruct (m w) as [[b|e| |] w1]; cbn [fst snd] in *; try done.
  destruct (Hk b w1) as [H3 H4]. split; [by rewrite H3|done].
Qed.

Lemma only_calls_wrap {B} msg (m : ST World B) : only_calls m -> only_calls (wrapST msg m).
Proof. intros Hm w. destruct (Hm w) as [H1 H2]. unfold wrapST. by destruct (m w) as [[b|e| |] w1]. Qed.

Lemma only_calls_replace {B} msg (m : ST World B) : only_calls m -> only_calls (replaceST msg m).
Proof. intros Hm w. destruct (Hm w) as [H1 H2]. unfold replaceST. by destruct (m w) as [[b|e| |] w1]. Qed.

#[local] Hint Resolve only_calls_ret only_calls_call only_calls_bind only_calls_wrap only_calls_replace : core.

Lemma listener_tls_calls tls : only_calls (listener_tls tls).
Proof. unfold listener_tls. destruct tls as [tls|]; [|done]. destruct (0 <? len (lt_Domains tls)); unfold acmeTLSCfg, localTLSCfg; auto. Qed.

Lemma initACMEClient_calls cfg : only_calls (initACMEClient cfg).
Proof. destruct cfg; unfold initACMEClient; auto. Qed.

Lemma startACMEClient_calls cfg : only_calls (startACMEClient cfg).
Proof. destruct cfg; unfold startACMEClient; auto. Qed.

Lemma StartListener_opens cfg :
  opens held clean (StartListener cfg) (fun l => {[+ rl_socket l +]})
    (fun l => listening l /\ rl_Cfg l = cfg /\ 1 <= rl_Port l <= 65535).
Proof.
  intros w. assert (clean ∅ /\ held w = ∅ ⊎ held w) as Hnone.
  { split; [done|]. exact (eq_sym (left_id_L ∅ (⊎) (held w))). }
  unfold StartListener. destruct (match lc_TLS cfg with Some _ => _ | None => _ end); [by exists ∅|].
  unfold mbind at 1, st_bind at 1, wrapST, lift.
  pose proof (SplitHostPort_completed (lc_Address cfg)) as Hc.
  destruct (SplitHostPort (lc_Address cfg)) as [[host port]|e| |]; cbn [wrap_error]; try done; [|by exists ∅].
  destruct (valid_port 1 65535 port) as [n|] eqn:Hp; [|by exists ∅].
  unfold listen. pose proof (listener_tls_calls (lc_TLS cfg) w) as Ht. unfold mbind, st_bind.
  destruct (listener_tls (lc_TLS cfg) w) as [[[]|e| |] w1]; cbn [fst snd] in Ht;
    destruct Ht as [Hw1 Ht]; try done; [|exists ∅; by rewrite Hw1].
  destruct (call_outcome w1) as [(w2 & E & Hw2)|(e & w2 & E & Hw2)]; unfold wrapST; rewrite E; cbn [wrap_error].
  - cbn. rewrite Hw2, Hw1. split; [done|]. split; [done|]. split; [done|].
    unfold valid_port in Hp. repeat case_hyp Hp; simplify_eq; bool_facts; cbn; lia.
  - exists ∅. by rewrite Hw2, Hw1.
Qed.

Lemma start_each_rel {S A B} (start : A -> ST S B) stop (rel : A -> B -> Prop) :
  (forall a s b s', start a s = (Ret b, s') -> rel a b) ->
  forall l started s bs s', start_each start stop started l s = (Ret bs, s') ->
  exists bs', bs = started ++ bs' /\ Forall2 rel l bs'.
Proof.
  intros Hrel. induction l as [|a l IH]; intros started s bs s'; cbn [start_each].
  { intros [= <- <-]. exists []. by rewrite app_nil_r. }
  unfold mbind, st_bind, attempt. destruct (start a s) as [[b|e| |] s1] eqn:E; try done.
  - intros Hrun. destruct (IH _ _ _ _ Hrun) as (bs' & -> & Hall). exists (b :: bs').
    rewrite <- app_assoc. split; [done|]. constructor; [by eapply Hrel|done].
  - by destruct (stop_each stop started s1) as [[[]|?| |] ?].
Qed.

Section servers.
Context {P : Type} `{ProtocolLaws P}.

Definition sockets_own (ls : list RunningListener) : gmultiset Resource :=
  owns_all (fun l => {[+ rl_socket l +]}) ls.

Lemma Listener_Stop_closes l : closes held (Listener_Stop l) {[+ rl_socket l +]}.
Proof. apply close_socket_closes. Qed.

Lemma stop_listeners_close ls : closes held (stop_each Listener_Stop ls) (sockets_own ls).
Proof.
  apply (stop_each_closes held Listener_Stop (fun l => {[+ rl_socket l +]}) (fun _ => True)).
  - intros l _. apply Listener_Stop_closes.
  - by apply Forall_true.
Qed.

(** The listeners of a server, once stopped, are closed. *)
Lemma stop_listeners_closed ls w r w' :
  stop_each Listener_Stop ls w = (r, w') ->
  closed_sockets w ⊆ closed_sockets w' /\ forall s, s ∈ map rl_socket ls -> fst s ∈ closed_sockets w'.
Proof.
  revert w. induction ls as [|l ls IH]; intros w; cbn [stop_each].
  { intros [= _ <-]. split; [done|]. by intros s ?%not_elem_of_nil. }
  set (w1 := (Listener_Stop l w).2).
  rewrite (st_bind_ret (Listener_Stop l) _ w tt w1) by reflexivity. intros E.
  destruct (IH _ E) as [Hsub Hin]. assert (closed_sockets w1 = {[fst (rl_socket l)]} ∪ closed_sockets w) as Hw1 by done.
  split; [set_solver|]. intros s [->|Hs]%elem_of_cons; [set_solver|by apply Hin].
Qed.

Lemma start_listeners_spec cfgs w :
  match start_each StartListener Listener_Stop [] cfgs w with
  | (Ret ls, w') => held w' = sockets_own ls ⊎ held w
                    /\ Forall2 (fun cfg l => listening l /\ rl_Cfg l = cfg /\ 1 <= rl_Port l <= 65535) cfgs ls
  | (Throw _, w') => held w' = held w
  | _ => False
  end.
Proof.
  set (rel := fun cfg l => listening l /\ rl_Cfg l = cfg /\ 1 <= rl_Port l <= 65535).
  pose proof (start_each_opens held StartListener Listener_Stop (fun l => {[+ rl_socket l +]}) (fun _ => True) clean
    (fun l _ => Listener_Stop_closes l) [] cfgs (Forall_nil_2 _)) as Heach.
  specialize (Heach ltac:(apply Forall_true; intros c w0; pose proof (StartListener_opens c w0) as Ho;
    destruct (StartListener c w0) as [[l|e| |] w']; try done; by destruct Ho) eq_refl w (held w)
    (eq_sym (left_id_L ∅ (⊎) (held w)))).
  destruct (start_each StartListener Listener_Stop [] cfgs w) as [[ls|e| |] w'] eqn:E; try done.
  - destruct Heach as [Hw _]. split; [done|].
    destruct (start_each_rel StartListener Listener_Stop rel) with (l := cfgs) (started := @nil RunningListener)
      (s := w) (bs := ls) (s' := w') as (bs & -> & Hall); [|exact E|exact Hall].
    intros c w0 l w1 El. pose proof (StartListener_opens c w0) as Ho. rewrite El in Ho. by destruct Ho.
  - destruct Heach as (L & -> & Hw). rewrite Hw. exact (left_id_L ∅ (⊎) (held w)).
Qed.

(** A server that starts has a socket for each of its listeners; one that does not leaves
    no socket. *)
Lemma StartServer_spec cfg w (p : P) :
  protocol_idle p ->
  match StartServer cfg (w, p) with
  | (Ret ls, (w', p')) =>
      held w' = sockets_own ls ⊎ (protocol_owns p' ⊎ held w) /\ protocol_runs p'
      /\ protocol_sockets p' ⊆ map rl_socket ls /\ protocol_stoppable p' = protocol_stoppable p
      /\ Forall2 (fun cfg l => listening l /\ rl_Cfg l = cfg /\ 1 <= rl_Port l <= 65535) (sc_Listeners cfg) ls
  | (Throw _, (w', p')) => (exists L, no_socket L /\ held w' = L ⊎ held w) /\ protocol_idle p'
      /\ protocol_stoppable p' = protocol_stoppable p
  | _ => False
  end.
Proof.
  intros Hidle. unfold StartServer, on_world. unfold mbind at 1, st_bind at 1, wrapST at 1, zoom at 1. cbn [fst snd].
  pose proof (start_listeners_spec (sc_Listeners cfg) w) as Hls.
  destruct (start_each StartListener Listener_Stop [] (sc_Listeners cfg) w) as [[ls|e| |] w1]; cbn [wrap_error]; try done.
  2:{ split; [|done]. exists ∅. split; [apply no_socket_empty|]. rewrite Hls. exact (eq_sym (left_id_L ∅ (⊎) (held w))). }
  destruct Hls as [Hw1 Hall]. unfold mbind at 1, st_bind at 1, attempt.
  set (sockets := map (fun l => (http_listener l, rl_socket l)) ls).
  pose proof (protocol_starts (sc_Name cfg) sockets w1 p Hidle) as Hp.
  destruct (Protocol_Start (sc_Name cfg) sockets (w1, p)) as [[[]|e| |] [w2 p2]]; try done.
  - destruct Hp as (Hw2 & Hr & Hs & Hst). split; [|split; [done|split; [|by split]]].
    + rewrite Hw2, Hw1. by rewrite !(assoc_L (⊎)), (comm_L (⊎) (protocol_owns p2)).
    + unfold sockets in Hs. by rewrite map_map in Hs.
  - destruct Hp as ((L & HL & Hw2) & Hi & Hst).
    destruct (closes_on_world (stop_each Listener_Stop ls) (sockets_own ls) w2 p2 (L ⊎ held w) (stop_listeners_close ls))
      as (w3 & E3 & Hw3).
    { rewrite Hw2, Hw1. by rewrite !(assoc_L (⊎)), (comm_L (⊎) L). }
    rewrite (st_bind_ret _ _ _ _ _ E3). split; [by exists L|done].
Qed.

Lemma Server_Stop_spec ls w (p : P) K :
  protocol_runs p -> protocol_stoppable p = true -> protocol_sockets p ⊆ map rl_socket ls ->
  held w = sockets_own ls ⊎ protocol_owns p ⊎ K ->
  exists w' p', Server_Stop ls (w, p) = (Ret tt, (w', p')) /\ held w' = K /\ protocol_idle p'.
Proof.
  intros Hr Hst Hs Hw. unfold Server_Stop.
  destruct (closes_on_world (stop_each Listener_Stop ls) (sockets_own ls) w p (protocol_owns p ⊎ K) (stop_listeners_close ls))
    as (w1 & E1 & Hw1).
  { rewrite Hw. by rewrite !(assoc_L (⊎)). }
  rewrite (st_bind_ret _ _ _ _ _ E1). apply protocol_stops; [done|done| |done].
  unfold on_world, zoom in E1. cbn [fst snd] in E1. destruct (stop_each Listener_Stop ls w) as [r w2] eqn:E.
  injection E1 as -> ->. destruct (stop_listeners_closed _ _ _ _ E) as [_ Hc]. intros r Hin. by apply Hc, Hs.
Qed.

Lemma Server_Stop_stuck ls w (p : P) :
  protocol_runs p -> protocol_stoppable p = false -> fst (Server_Stop ls (w, p)) = Panic.
Proof.
  intros Hr Hst. unfold Server_Stop, mbind, st_bind, on_world, zoom. cbn [fst snd].
  assert (exists w', stop_each Listener_Stop ls w = (Ret tt, w')) as [w' ->].
  { clear. revert w. induction ls as [|l ls IH]; intros w; [by exists w|]. cbn [stop_each].
    erewrite st_bind_ret by reflexivity. apply IH. }
  by apply protocol_stuck.
Qed.

(** The table of servers: what the server [n] holds, which servers can be stopped and which
    can be started. *)
Definition server_owns (s : Service P) (n : gostring) (ls : list RunningListener) : gmultiset Resource :=
  sockets_own ls ⊎ default ∅ (protocol_owns <$> protos s !! n).
Definition server_ready (s : Service P) (n : gostring) (ls : list RunningListener) : Prop :=
  Forall listening ls /\ exists p, protos s !! n = Some p /\ protocol_runs p /\ protocol_sockets p ⊆ map rl_socket ls.
Definition server_stoppable (s : Service P) (n : gostring) : bool :=
  match protos s !! n with Some p => protocol_stoppable p | None => true end.
Definition server_idle (s : Service P) (cfg : ServerCfg) : Prop :=
  exists p, protos s !! sc_Name cfg = Some p /\ protocol_idle p.
Definition server_new (s : Service P) (cfg : ServerCfg) : Prop :=
  exists p, protos s !! sc_Name cfg = Some p /\ protocol_new p.

Lemma server_new_idle s cfg : server_new s cfg -> server_idle s cfg /\ server_stoppable s (sc_Name cfg) = true.
Proof. intros (p & Hp & Hi & Hs). split; [by exists p|]. unfold server_stoppable. by rewrite Hp. Qed.

Definition sv_held (s : Service P) : gmultiset Resource := held (sv_world s).

Lemma server_frame n s w (p : P) m :
  frame sc_Name server_owns server_ready server_stoppable server_idle n s
    (mkService w (<[n := p]> (protos s)) m (loadBalancers s) (controlAPI s) (sv_stopClosed s)).
Proof.
  constructor.
  - intros n' b Hn. unfold server_owns. cbn [protos]. by rewrite lookup_insert_ne.
  - intros n' b Hn (Hl & q & Hq & Hr). split; [done|]. exists q. cbn [protos]. by rewrite lookup_insert_ne.
  - intros n' Hn. unfold server_stoppable. cbn [protos]. by rewrite lookup_insert_ne.
  - intros cfg Hn (q & Hq & Hr). exists q. cbn [protos]. by rewrite lookup_insert_ne.
Qed.

Lemma server_stoppable_insert s w n (p p' : P) m :
  protos s !! n = Some p -> protocol_stoppable p' = protocol_stoppable p ->
  server_stoppable (mkService w (<[n := p']> (protos s)) m (loadBalancers s) (controlAPI s) (sv_stopClosed s)) n
  = server_stoppable s n.
Proof. intros Hp Hst. unfold server_stoppable. cbn [protos]. by rewrite lookup_insert_eq, Hp. Qed.

Lemma server_laws :
  part_laws sc_Name servers set_servers run_server halt_server sv_held server_owns server_ready server_stoppable
    server_idle.
Proof.
  constructor.
  - done.
  - done.
  - intros m s n. split; [by constructor|done].
  - intros cfg s (p & Hp & Hidle). unfold run_server, with_proto. rewrite Hp.
    pose proof (StartServer_spec cfg (sv_world s) p Hidle) as Hs.
    destruct (StartServer cfg (sv_world s, p)) as [[ls|e| |] [w' p']]; try done.
    + destruct Hs as (Hw & Hr & Hso & Hst & Hls).
      split; [|split; [|split; [by apply server_stoppable_insert with p|split; [apply server_frame|done]]]].
      * unfold sv_held, server_owns. cbn [sv_world protos]. rewrite lookup_insert_eq. cbn [fmap option_fmap option_map default].
        rewrite Hw. by rewrite (assoc_L (⊎)).
      * split; [|exists p'; cbn [protos]; by rewrite lookup_insert_eq].
        clear -Hls. induction Hls as [|c l cs ls (Hl & _) _ IH]; by constructor.
    + destruct Hs as (Hw & Hi & Hst). split; [exact Hw|]. split; [by apply server_stoppable_insert with p|].
      split; [apply server_frame|]. split; [done|]. intros cfg' (q & Hq & Hqi).
      destruct (decide (sc_Name cfg' = sc_Name cfg)) as [He|He].
      * exists p'. rewrite He. cbn [protos]. by rewrite lookup_insert_eq.
      * exists q. cbn [protos]. by rewrite lookup_insert_ne.
  - intros n ls s K (_ & p & Hp & Hr & Hso) Hst Hw. unfold server_owns in Hw. rewrite Hp in Hw.
    unfold server_stoppable in Hst. rewrite Hp in Hst.
    destruct (Server_Stop_spec ls (sv_world s) p K Hr Hst Hso Hw) as (w' & p' & E & Hw' & Hi).
    unfold halt_server, with_proto. rewrite Hp, E. eexists. split; [reflexivity|]. split; [exact Hw'|].
    split; [apply server_frame|]. split; [done|]. intros cfg Hn. exists p'. rewrite Hn. cbn [protos].
    by rewrite lookup_insert_eq.
  - intros n ls s (_ & p & Hp & Hr & _) Hst. unfold server_stoppable in Hst. rewrite Hp in Hst.
    unfold halt_server, with_proto. rewrite Hp. pose proof (Server_Stop_stuck ls (sv_world s) p Hr Hst) as Hstuck.
    by destruct (Server_Stop ls (sv_world s, p)) as [r [w' p']].
Qed.

(** The table of load balancers. *)
Definition balancer_owns (s : Service P) (n : gostring) (gs : list Resource) : gmultiset Resource :=
  owns_all (fun r => {[+ r +]}) gs.

Lemma start_probes_hold n w :
  exists gs w', start_probes n w = (Ret gs, w') /\ held w' = owns_all (fun r => {[+ r +]}) gs ⊎ held w.
Proof.
  revert w. induction n as [|n IH]; intros w.
  { exists [], w. split; [done|]. exact (eq_sym (left_id_L ∅ (⊎) (held w))). }
  set (g := (next_id w, (ProbeGoroutine, [] : gostring))).
  set (w1 := (acquire ProbeGoroutine [] w).2). assert (held w1 = {[+ g +]} ⊎ held w) as Hw1 by done.
  destruct (IH w1) as (gs & w2 & E2 & Hw2). exists (g :: gs), w2. cbn [start_probes].
  rewrite (st_bind_ret (acquire ProbeGoroutine []) _ w g w1) by reflexivity.
  rewrite (st_bind_ret _ _ _ _ _ E2). split; [done|].
  cbn [owns_all]. rewrite Hw2, Hw1. by rewrite !(assoc_L (⊎)), (comm_L (⊎) (owns_all _ _)).
Qed.

Lemma balancer_laws :
  part_laws lbc_Name loadBalancers set_balancers run_balancer halt_balancer sv_held balancer_owns
    (fun (_ : Service P) _ _ => True) (fun _ _ => true) (fun _ _ => True).
Proof.
  constructor.
  - done.
  - done.
  - intros m s n. split; [by constructor|done].
  - intros cfg s _. unfold run_balancer, on_sv_world, zoom.
    destruct (start_probes_hold (nb_probes cfg) (sv_world s)) as (gs & w' & -> & Hw).
    split; [exact Hw|]. split; [done|]. split; [done|]. split; [by constructor|done].
  - intros n gs s K _ _ Hw. unfold halt_balancer, on_sv_world, zoom.
    destruct (stop_each_closes held (await true) (fun r => {[+ r +]}) (fun _ => True)) with (l := gs) (s := sv_world s) (H := K)
      as (w' & -> & Hw'); [by intros r _; apply await_closes|by apply Forall_true|exact Hw|].
    eexists. split; [reflexivity|]. split; [exact Hw'|]. split; [by constructor|done].
  - done.
Qed.

(** What the operations on a table leave alone. *)
Lemma stop_each_keeps {T B} (Q : T -> Prop) (stop : B -> ST T unit) l :
  (forall b, keeps Q (stop b)) -> keeps Q (stop_each stop l).
Proof. intros Hs. induction l as [|b l IH]; [by intros s|]. apply keeps_bind; [apply Hs|]. intros []. exact IH. Qed.

Section named_keeps.
Context {T Cfg B : Type} (Q : T -> Prop) (name : Cfg -> gostring) (get : T -> gmap gostring B).
Context (set : gmap gostring B -> T -> T) (start : Cfg -> ST T B) (stop : gostring -> B -> ST T unit).
Hypothesis set_keeps : forall m s, Q s -> Q (set m s).
Hypothesis start_keeps : forall cfg, keeps Q (start cfg).
Hypothesis stop_keeps : forall n b, keeps Q (stop n b).

Lemma stop_named_keeps n : keeps Q (stop_named get set stop n).
Proof using Type set_keeps stop_keeps.
  apply keeps_bind; [apply keeps_gets|]. intros m. destruct (m !! n); [|by intros s].
  apply keeps_bind; [apply stop_keeps|]. intros []. apply keeps_modify. intros s. apply set_keeps.
Qed.

Lemma start_all_named_keeps what started cfgs :
  keeps Q (start_all_named name get set start stop what started cfgs).
Proof using Type set_keeps start_keeps stop_keeps.
  revert started. induction cfgs as [|cfg cfgs IH]; intros started; [by intros s|].
  apply keeps_bind.
  - apply keeps_attempt. apply keeps_bind; [apply keeps_gets|]. intros m. destruct (bool_decide _); [by intros s|].
    apply keeps_bind; [by apply keeps_wrap|]. intros b. apply keeps_modify. intros s. apply set_keeps.
  - intros [err|[]]; [|apply IH]. apply keeps_bind; [|by intros [] s]. apply stop_each_keeps, stop_named_keeps.
Qed.
End named_keeps.

Definition rest_of_servers (lbs : gmap gostring (list Resource)) c b (s : Service P) : Prop :=
  loadBalancers s = lbs /\ controlAPI s = c /\ sv_stopClosed s = b.

Lemma with_proto_keeps {B} lbs c b n (m : ST (World * P) B) : keeps (rest_of_servers lbs c b) (with_proto n m).
Proof.
  intros s Hs. unfold with_proto. destruct (protos s !! n) as [p|]; [|done].
  by destruct (m (sv_world s, p)) as [r [w p']].
Qed.

Lemma startServers_keeps lbs c b cfgs : keeps (rest_of_servers lbs c b) (startServers cfgs).
Proof.
  apply keeps_bind; [by apply keeps_modify|]. intros [].
  apply start_all_named_keeps; [done|..]; intros; apply with_proto_keeps.
Qed.

Lemma stopServers_keeps lbs c b order : keeps (rest_of_servers lbs c b) (stopServers order).
Proof. apply stop_each_keeps. intros n. apply stop_named_keeps; [done|]. intros. apply with_proto_keeps. Qed.

Definition rest_of_balancers (ps : gmap gostring P) sv c b (s : Service P) : Prop :=
  protos s = ps /\ servers s = sv /\ controlAPI s = c /\ sv_stopClosed s = b.

Lemma on_sv_world_keeps {B} ps sv c b (m : ST World B) : keeps (rest_of_balancers ps sv c b) (on_sv_world m).
Proof. intros s Hs. unfold on_sv_world, zoom. by destruct (m (sv_world s)). Qed.

Lemma startLoadBalancers_keeps ps sv c b cfgs : keeps (rest_of_balancers ps sv c b) (startLoadBalancers cfgs).
Proof.
  apply keeps_bind; [by apply keeps_modify|]. intros [].
  apply start_all_named_keeps; [done|..]; intros; apply on_sv_world_keeps.
Qed.

Lemma stopLoadBalancers_keeps ps sv c b order : keeps (rest_of_balancers ps sv c b) (stopLoadBalancers order).
Proof. apply stop_each_keeps. intros n. apply stop_named_keeps; [done|]. intros. apply on_sv_world_keeps. Qed.

(** The tables after a start of all of the parts, on an empty table. *)
Lemma startServers_spec cfgs s :
  (forall cfg, cfg ∈ cfgs -> server_new s cfg) ->
  match startServers cfgs s with
  | (Ret _, s') =>
      table_holds servers sv_held server_owns server_ready (sv_held s) s'
      /\ all_stoppable servers server_stoppable s'
      /\ (forall n, is_Some (servers s' !! n) <-> n ∈ map sc_Name cfgs) /\ NoDup (map sc_Name cfgs)
  | (Throw _, s') => servers s' = ∅ /\ exists L, no_socket L /\ sv_held s' = L ⊎ sv_held s
  | _ => False
  end.
Proof.
  intros Hnew. unfold startServers. erewrite st_bind_ret by reflexivity.
  pose proof (start_all_named_spec sc_Name servers set_servers run_server halt_server "cannot start server"%go
    sv_held server_owns server_ready server_stoppable server_idle server_laws [] cfgs (sv_held s) (set_servers ∅ s)) as Hall.
  assert (table_holds servers sv_held server_owns server_ready (sv_held s) (set_servers ∅ s)) as Hempty.
  { constructor; [|done]. unfold table_owns. cbn [servers set_servers]. rewrite map_to_list_empty.
    exact (eq_sym (left_id_L ∅ (⊎) (sv_held s))). }
  assert (forall n, is_Some (servers (set_servers ∅ s) !! n) <-> n ∈ @nil gostring) as Hnone.
  { intros n. cbn [servers set_servers]. rewrite lookup_empty. split; [by intros [? ?]|by intros ?%elem_of_nil]. }
  specialize (Hall Hempty ltac:(intros n [? Hn]; cbn in Hn; by rewrite lookup_empty in Hn) Hnone
    ltac:(intros cfg Hc _; apply server_new_idle; by apply Hnew)).
  destruct (start_all_named _ _ _ _ _ _ _ cfgs (set_servers ∅ s)) as [[[]|e| |] s']; try done.
  by destruct Hall as (? & ? & ? & ? & _).
Qed.

Lemma startLoadBalancers_spec cfgs (s : Service P) :
  match startLoadBalancers cfgs s with
  | (Ret _, s') => table_holds loadBalancers sv_held balancer_owns (fun _ _ _ => True) (sv_held s) s'
  | (Throw _, s') => exists L, no_socket L /\ sv_held s' = L ⊎ sv_held s
  | _ => False
  end.
Proof.
  unfold startLoadBalancers. erewrite st_bind_ret by reflexivity.
  pose proof (start_all_named_spec lbc_Name loadBalancers set_balancers run_balancer halt_balancer
    "cannot start load balancer"%go sv_held balancer_owns (fun _ _ _ => True) (fun _ _ => true) (fun _ _ => True) balancer_laws
    [] cfgs (sv_held s) (set_balancers ∅ s)) as Hall.
  assert (table_holds loadBalancers sv_held balancer_owns (fun _ _ _ => True) (sv_held s) (set_balancers ∅ s)) as Hempty.
  { constructor; [|done]. unfold table_owns. cbn [loadBalancers set_balancers]. rewrite map_to_list_empty.
    exact (eq_sym (left_id_L ∅ (⊎) (sv_held s))). }
  assert (forall n, is_Some (loadBalancers (set_balancers ∅ s) !! n) <-> n ∈ @nil gostring) as Hnone.
  { intros n. cbn [loadBalancers set_balancers]. rewrite lookup_empty. split; [by intros [? ?]|by intros ?%elem_of_nil]. }
  specialize (Hall Hempty ltac:(by intros n) Hnone ltac:(done)).
  destruct (start_all_named _ _ _ _ _ _ _ cfgs (set_balancers ∅ s)) as [[[]|e| |] s']; try done; by destruct Hall.
Qed.

(** What the control API holds. *)
Definition control_owns (s : Service P) : gmultiset Resource :=
  match controlAPI s with
  | Some (_, Some (socket, g)) => {[+ socket +]} ⊎ {[+ g +]}
  | _ => ∅
  end.
Definition control_log (s : Service P) : gmultiset Resource :=
  match controlAPI s with Some (log, _) => log_owns log | None => ∅ end.

Lemma ControlAPI_Start_spec c w :
  match ControlAPI_Start c w with
  | (Ret (socket, g), w') => held w' = ({[+ socket +]} ⊎ {[+ g +]}) ⊎ held w
  | (Throw _, w') => held w' = held w
  | _ => False
  end.
Proof.
  unfold ControlAPI_Start, mbind, st_bind, attempt.
  destruct (call_outcome w) as [(w1 & -> & Hw1)|(e & w1 & -> & Hw1)].
  2: destruct (errors_Is e fs_ErrNotExist); [|exact Hw1].
  all: unfold wrapST, mret, st_ret;
    destruct (call_outcome w1) as [(w2 & -> & Hw2)|(e2 & w2 & -> & Hw2)]; cbn [wrap_error];
    [unfold acquire; cbn [held next_id]; rewrite Hw2, Hw1;
     rewrite !(assoc_L (⊎)); f_equal; apply (comm_L (⊎))|by rewrite Hw2].
Qed.

Definition rest_of_control (ps : gmap gostring P) sv lbs b (s : Service P) : Prop :=
  protos s = ps /\ servers s = sv /\ loadBalancers s = lbs /\ sv_stopClosed s = b.

Lemma startControlAPI_spec c s :
  match startControlAPI c s with
  | (Ret _, s') => (control_owns s = ∅ -> sv_held s' = control_owns s' ⊎ sv_held s) /\ control_log s' = control_log s
      /\ rest_of_control (protos s) (servers s) (loadBalancers s) (sv_stopClosed s) s'
      /\ (controlAPI s = None -> controlAPI s' = None)
      /\ (c <> None -> controlAPI s <> None -> exists log x, controlAPI s' = Some (log, Some x))
  | (Throw _, _) => True
  | _ => False
  end.
Proof.
  unfold startControlAPI. erewrite st_bind_ret by reflexivity.
  destruct (controlAPI s) as [[log x]|] eqn:Hc; [destruct c as [c|]|].
  - unfold mbind, st_bind, wrapST, on_sv_world, zoom. pose proof (ControlAPI_Start_spec c (sv_world s)) as Hw.
    destruct (ControlAPI_Start c (sv_world s)) as [[[socket g]|e| |] w']; cbn [wrap_error]; try done.
    unfold modify. cbn [set_world set_control]. split; [intros _; exact Hw|].
    split; [unfold control_log; cbn [controlAPI]; by rewrite Hc|]. split; [done|]. split; [done|]. by do 2 eexists.
  - split; [|split; [done|]; split; [done|]; split; [done|done]].
    intros ->. exact (eq_sym (left_id_L ∅ (⊎) (sv_held s))).
  - split; [|split; [done|]; split; [done|]; split; [done|done]].
    intros ->. exact (eq_sym (left_id_L ∅ (⊎) (sv_held s))).
Qed.

Lemma stopControlAPI_spec s K :
  (forall log x, controlAPI s = Some (log, x) -> x <> None) -> sv_held s = control_owns s ⊎ K ->
  exists s', stopControlAPI s = (Ret tt, s') /\ sv_held s' = K
    /\ rest_of_control (protos s) (servers s) (loadBalancers s) (sv_stopClosed s) s'.
Proof.
  intros Hx Hw. unfold stopControlAPI, control_owns in *. erewrite st_bind_ret by reflexivity.
  destruct (controlAPI s) as [[log [[socket g]|]]|] eqn:Hc.
  - destruct (close_socket_closes socket (sv_world s) ({[+ g +]} ⊎ K)) as (w1 & E1 & Hw1).
    { unfold sv_held in Hw. rewrite Hw. by rewrite (assoc_L (⊎)). }
    assert (fst socket ∈ closed_sockets w1) as Hclosed by (injection E1 as <-; cbn; set_solver).
    destruct (await_closes g w1 K Hw1) as (w2 & E2 & Hw2).
    assert (ControlAPI_Stop (Some (socket, g)) (sv_world s) = (Ret tt, w2)) as E.
    { unfold ControlAPI_Stop. rewrite (st_bind_ret _ _ _ _ _ E1).
      erewrite st_bind_ret by reflexivity. rewrite bool_decide_true by done. exact E2. }
    eexists. erewrite st_bind_ret by (unfold on_sv_world, zoom; rewrite E; reflexivity).
    split; [reflexivity|]. done.
  - by destruct (Hx log None eq_refl).
  - exists s. split; [done|]. split; [|done]. rewrite Hw. exact (left_id_L ∅ (⊎) K).
Qed.

Lemma on_sv_world_calls {D} (m : ST World unit) (k : ST (Service P) D) s d s' :
  only_calls m -> (_ ← on_sv_world m; k) s = (Ret d, s') ->
  exists w, held w = held (sv_world s) /\ k (set_world w s) = (Ret d, s').
Proof.
  intros Hm. unfold mbind, st_bind, on_sv_world, zoom. destruct (Hm (sv_world s)) as [Hw _].
  destruct (m (sv_world s)) as [[[]|e| |] w]; try done. intros E. by exists w.
Qed.

Lemma NewService_spec cfg ps w s :
  NewService cfg ps w = (Ret tt, s) ->
  sv_held s = control_log s ⊎ held w /\ control_owns s = ∅ /\ protos s = ps /\ sv_stopClosed s = false
  /\ match sv_ControlAPI cfg with
     | Some _ => exists log, controlAPI s = Some (log, None)
     | None => controlAPI s = None
     end.
Proof.
  unfold NewService. set (s0 := mkService w ps ∅ ∅ None false).
  assert (forall s1 w1, held w1 = held w -> s1 = set_world w1 s0 ->
    initControlAPI (sv_ControlAPI cfg) s1 = (Ret tt, s) ->
    sv_held s = control_log s ⊎ held w /\ control_owns s = ∅ /\ protos s = ps /\ sv_stopClosed s = false
    /\ match sv_ControlAPI cfg with
       | Some _ => exists log, controlAPI s = Some (log, None)
       | None => controlAPI s = None
       end) as Hinit.
  { intros s1 w1 Hw1 -> . destruct (sv_ControlAPI cfg) as [c|]; cbn [initControlAPI].
    - unfold mbind, st_bind, on_sv_world, zoom. cbn [sv_world set_world].
      pose proof (open_logger_opens (ca_AccessLogger c) ∅ w1) as Hlog.
      destruct (open_logger (ca_AccessLogger c) ∅ w1) as [[log|e| |] w2]; try done.
      destruct Hlog as [Hw2 _]. unfold modify. intros [= <-]. split; [|split; [done|split; [done|split; [done|by eexists]]]].
      unfold sv_held, control_log. cbn [sv_world set_world set_control controlAPI]. by rewrite Hw2, Hw1.
    - intros [= <-]. split; [|done]. unfold sv_held, control_log. cbn [sv_world set_world controlAPI s0].
      rewrite Hw1. exact (eq_sym (left_id_L ∅ (⊎) (held w))). }
  intros E. apply on_sv_world_calls in E as (w1 & Hw1 & E); [|destruct (sv_Logger cfg); auto].
  apply on_sv_world_calls in E as (w2 & Hw2 & E); [|apply initACMEClient_calls].
  cbn [sv_world set_world s0] in *. apply (Hinit (set_world w2 s0) w2); [congruence|done|exact E].
Qed.

Lemma table_empty_held {B} (get : Service P -> gmap gostring B) owns ready K s :
  table_holds get sv_held owns ready K s -> get s = ∅ -> sv_held s = K.
Proof.
  intros [Hh _] He. rewrite Hh. unfold table_owns. rewrite He, map_to_list_empty. exact (left_id_L ∅ (⊎) K).
Qed.

Lemma map_None_empty {B} (m : gmap gostring B) (order : list gostring) (m0 : gmap gostring B) :
  (forall n b, m !! n = Some b -> m0 !! n = Some b /\ (n ∉ order)) ->
  (forall n, is_Some (m0 !! n) -> n ∈ order) -> m = ∅.
Proof.
  intros H1 H2. apply map_empty. intros n. destruct (m !! n) as [b|] eqn:Hb; [|done].
  destruct (H1 _ _ Hb) as [Hb0 Hn]. destruct Hn. apply H2. by eexists.
Qed.

(** [C25] Servers start all together or not at all: when the servers of the configuration
    are started, they have different names and each of them listens on its addresses, all
    in the table of the service; when one of them cannot be, because of its name, a
    listener or its protocol, the ones before it are stopped, the table is empty, and no
    socket is left. *)
Theorem startServers_all_or_none cfgs (s : Service P) :
  (forall cfg, cfg ∈ cfgs -> server_new s cfg) ->
  match startServers cfgs s with
  | (Ret _, s') =>
      NoDup (map sc_Name cfgs) /\ (forall n, is_Some (servers s' !! n) <-> n ∈ map sc_Name cfgs)
      /\ (forall n ls l, servers s' !! n = Some ls -> l ∈ ls ->
          snd (rl_socket l) = (Socket, lc_Address (rl_Cfg l)) /\ rl_socket l ∈ sv_held s')
  | (Throw _, s') => servers s' = ∅ /\ exists L, no_socket L /\ sv_held s' = L ⊎ sv_held s
  | _ => False
  end.
Proof using Type H.
  intros Hnew. pose proof (startServers_spec cfgs s Hnew) as Hs.
  destruct (startServers cfgs s) as [[[]|e| |] s']; try done.
  destruct Hs as (Hh & _ & Hdom & Hnd). split; [done|]. split; [done|].
  intros n ls l Hls Hl. pose proof Hh as [Hheld Hready].
  destruct (Hready _ _ Hls) as (Hlist & _). rewrite Forall_forall in Hlist. split; [by apply Hlist|].
  rewrite Hheld, (table_owns_delete servers server_owns s' n ls Hls). unfold server_owns at 1.
  assert (rl_socket l ∈ sockets_own ls) as Hin.
  { clear -Hl. induction ls as [|l' ls IH]; [by apply elem_of_nil in Hl|]. unfold sockets_own in *. cbn [owns_all].
    apply gmultiset_elem_of_disj_union. apply elem_of_cons in Hl as [<- | Hl]; [left|right; by apply IH].
    by apply gmultiset_elem_of_singleton. }
  rewrite !gmultiset_elem_of_disj_union. auto.
Qed.

(** A running service, with what it holds besides [K]. *)
Record service_runs (K : gmultiset Resource) (s : Service P) : Prop := {
  sr_open : sv_stopClosed s = false;
  sr_control : forall log x, controlAPI s = Some (log, x) -> x <> None;
  sr_held : sv_held s = control_owns s ⊎ (table_owns servers server_owns s
                        ⊎ (table_owns loadBalancers balancer_owns s ⊎ K));
  sr_ready : forall n ls, servers s !! n = Some ls -> server_ready s n ls
}.

(** The state of the service once its control API is stopped. *)
Lemma control_stopped K s :
  service_runs K s ->
  exists s1, stopControlAPI (set_stop true s) = (Ret tt, s1)
    /\ table_holds servers sv_held server_owns server_ready (table_owns loadBalancers balancer_owns s ⊎ K) s1
    /\ protos s1 = protos s /\ servers s1 = servers s /\ loadBalancers s1 = loadBalancers s.
Proof.
  intros [Hopen Hctl Hheld Hready].
  destruct (stopControlAPI_spec (set_stop true s)
              (table_owns servers server_owns s ⊎ (table_owns loadBalancers balancer_owns s ⊎ K)))
    as (s1 & E1 & Hh1 & Hp1 & Hs1 & Hl1 & _); [exact Hctl|exact Hheld|].
  exists s1. split; [done|]. split; [|done]. constructor.
  - rewrite Hh1. unfold table_owns at 3, server_owns. rewrite Hs1, Hp1. done.
  - intros n ls. rewrite Hs1. intros Hls. destruct (Hready _ _ Hls) as (Hli & p & Hp & Hr).
    split; [done|]. exists p. by rewrite Hp1.
Qed.

(** A server that cannot be stopped makes the stop of the service panic. *)
Lemma Service_Stop_stuck K s n order1 order2 :
  service_runs K s -> n ∈ order1 -> is_Some (servers s !! n) -> server_stoppable s n = false ->
  fst (Service_Stop order1 order2 s) = Panic.
Proof.
  intros Hrun Hn Hs Hst. unfold Service_Stop. rewrite (sr_open _ _ Hrun). erewrite st_bind_ret by reflexivity.
  destruct (control_stopped K s Hrun) as (s1 & E1 & Ht & Hp1 & Hs1 & _). rewrite (st_bind_ret _ _ _ _ _ E1).
  pose proof (stop_each_named_stuck sc_Name servers set_servers run_server halt_server sv_held server_owns server_ready
    server_stoppable server_idle server_laws order1 _ s1 n Ht Hn) as Hp.
  unfold stopServers, stopServer, mbind, st_bind. unfold server_stoppable in *. rewrite Hs1, Hp1 in Hp.
  specialize (Hp Hs Hst). by destruct (stop_each _ order1 s1) as [[[]|e| |] s2].
Qed.

Lemma Service_Stop_spec K s order1 order2 :
  service_runs K s -> all_stoppable servers server_stoppable s ->
  (forall n, is_Some (servers s !! n) -> n ∈ order1) ->
  (forall n, is_Some (loadBalancers s !! n) -> n ∈ order2) ->
  exists s', Service_Stop order1 order2 s = (Ret tt, s')
    /\ servers s' = ∅ /\ loadBalancers s' = ∅ /\ sv_held s' = K.
Proof.
  intros Hrun Hall Ho1 Ho2. unfold Service_Stop. rewrite (sr_open _ _ Hrun). erewrite st_bind_ret by reflexivity.
  destruct (control_stopped K s Hrun) as (s1 & E1 & Ht1 & Hp1 & Hs1 & Hl1). rewrite (st_bind_ret _ _ _ _ _ E1).
  destruct (stop_each_named sc_Name servers set_servers run_server halt_server sv_held server_owns server_ready
              server_stoppable server_idle server_laws order1 _ s1 Ht1) as (s2 & E2 & Hh2 & Hd2).
  { intros n Hn. rewrite Hs1 in Hn. unfold server_stoppable. rewrite Hp1. by apply Hall. }
  pose proof (stopServers_keeps (loadBalancers s1) (controlAPI s1) (sv_stopClosed s1) order1 s1 ltac:(done)) as Hk.
  unfold stopServers in *. unfold stopServer in *. rewrite (st_bind_ret _ _ _ _ _ E2). rewrite E2 in Hk.
  destruct Hk as (Hl2 & _). cbn [snd] in Hl2. rewrite Hs1 in Hd2.
  pose proof (map_None_empty _ _ _ Hd2 Ho1) as Hempty2.
  pose proof (table_empty_held _ _ _ _ _ Hh2 Hempty2) as Hk2.
  destruct (stop_each_named lbc_Name loadBalancers set_balancers run_balancer halt_balancer sv_held balancer_owns
              (fun _ _ _ => True) (fun _ _ => true) (fun _ _ => True) balancer_laws order2 K s2) as (s3 & E3 & Hh3 & Hd3).
  { constructor; [|done]. rewrite Hk2. unfold table_owns. rewrite Hl2, Hl1. done. }
  { by intros n. }
  pose proof (stopLoadBalancers_keeps (protos s2) (servers s2) (controlAPI s2) (sv_stopClosed s2) order2 s2
                ltac:(done)) as Hk3.
  unfold stopLoadBalancers, stopLoadBalancer in *. rewrite E3 in Hk3. destruct Hk3 as (_ & Hs3 & _). cbn [snd] in Hs3.
  rewrite Hl2, Hl1 in Hd3. pose proof (map_None_empty _ _ _ Hd3 Ho2) as Hempty3.
  exists s3. split; [exact E3|]. split; [by rewrite Hs3|]. split; [done|]. by eapply table_empty_held.
Qed.

(** The three stages of a start. *)
Lemma start_stages_run cfg s s' :
  (forall c, c ∈ sv_Servers cfg -> server_new s c) -> sv_stopClosed s = false -> control_owns s = ∅ ->
  match sv_ControlAPI cfg with
  | Some _ => exists log, controlAPI s = Some (log, None)
  | None => controlAPI s = None
  end ->
  (_ ← startLoadBalancers (sv_LoadBalancers cfg); _ ← startServers (sv_Servers cfg);
   startControlAPI (sv_ControlAPI cfg)) s = (Ret tt, s') ->
  service_runs (sv_held s) s' /\ all_stoppable servers server_stoppable s'.
Proof.
  intros Hnew Hopen Hnoctl Hapi. unfold mbind, st_bind.
  pose proof (startLoadBalancers_spec (sv_LoadBalancers cfg) s) as Hlb.
  pose proof (startLoadBalancers_keeps (protos s) (servers s) (controlAPI s) (sv_stopClosed s)
                (sv_LoadBalancers cfg) s ltac:(done)) as Hk1.
  destruct (startLoadBalancers _ s) as [[[]|e| |] s1]; try done. cbn [snd] in Hk1. destruct Hk1 as (Hp1 & _ & Hc1 & Ho1).
  pose proof (startServers_spec (sv_Servers cfg) s1) as Hsv.
  specialize (Hsv ltac:(intros c Hc; destruct (Hnew c Hc) as (p & Hp & Hn); exists p; by rewrite Hp1)).
  pose proof (startServers_keeps (loadBalancers s1) (controlAPI s1) (sv_stopClosed s1) (sv_Servers cfg) s1 ltac:(done)) as Hk2.
  destruct (startServers _ s1) as [[[]|e| |] s2]; try done. cbn [snd] in Hk2. destruct Hk2 as (Hl2 & Hc2 & Ho2).
  destruct Hsv as (Hh2 & Hall2 & _).
  pose proof (startControlAPI_spec (sv_ControlAPI cfg) s2) as Hct. intros E. rewrite E in Hct.
  destruct Hct as (Hh3 & _ & (Hp3 & Hs3 & Hl3 & Ho3) & Hnone & Hsome).
  assert (control_owns s2 = ∅) as Hno2 by (unfold control_owns in *; by rewrite Hc2, Hc1).
  destruct Hh2 as [Hheld2 Hready2]. destruct Hlb as [Hheld1 _].
  split; [|intros n; unfold server_stoppable; rewrite Hs3, Hp3; apply Hall2]. constructor.
  - congruence.
  - intros log x Hx. rewrite Hc1 in Hc2. destruct (sv_ControlAPI cfg) as [c|].
    + destruct Hapi as [log0 Hapi]. destruct Hsome as (log' & y & Hy); [done|congruence|]. congruence.
    + rewrite Hnone in Hx; congruence.
  - rewrite (Hh3 Hno2), Hheld2, Hheld1. unfold table_owns, server_owns, balancer_owns. by rewrite Hs3, Hp3, Hl3, Hl2.
  - intros n ls. rewrite Hs3. intros Hls. destruct (Hready2 _ _ Hls) as (Hli & p & Hp & Hr).
    split; [done|]. exists p. by rewrite Hp3.
Qed.

(** What pprof holds for ever: the goroutine that serves, if there is an address. *)
Definition pprof_holds (address : gostring) (L : gmultiset Resource) : Prop :=
  (address = [] /\ L = ∅) \/ (address <> [] /\ exists r, L = {[+ r +]} /\ snd r = (PProfGoroutine, address)).

Lemma startPProf_holds address w :
  exists w', startPProf address w = (Ret tt, w') /\ exists L, pprof_holds address L /\ held w' = L ⊎ held w.
Proof.
  unfold startPProf, pprof_holds. case_bool_decide as Ha.
  - exists w. split; [done|]. exists ∅. split; [by left|]. exact (eq_sym (left_id_L ∅ (⊎) (held w))).
  - eexists. split; [reflexivity|]. exists {[+ (next_id w, (PProfGoroutine, address)) +]}.
    split; [|done]. right. split; [done|]. by eexists.
Qed.

(** The creation and the start of a service return or fail. *)
Lemma NewService_completes (cfg : ServiceCfg) (ps : gmap gostring P) w : completed (fst (NewService cfg ps w)).
Proof.
  unfold NewService. apply st_completed_bind.
  { unfold on_sv_world, zoom. destruct (sv_Logger cfg); [|done]. unfold wrapST.
    destruct (call_outcome (sv_world (mkService w ps ∅ ∅ None false))) as [(w' & -> & _)|(e & w' & -> & _)]; done. }
  intros [] s1 _. apply st_completed_bind.
  { unfold on_sv_world, zoom. destruct (initACMEClient_calls (sv_ACME cfg) (sv_world s1)) as [_ Hc].
    by destruct (initACMEClient (sv_ACME cfg) (sv_world s1)). }
  intros [] s2 _. unfold initControlAPI. destruct (sv_ControlAPI cfg) as [c|]; [|done].
  apply st_completed_bind; [|done]. unfold on_sv_world, zoom.
  pose proof (open_logger_opens (ca_AccessLogger c) ∅ (sv_world s2)) as Hlog.
  by destruct (open_logger (ca_AccessLogger c) ∅ (sv_world s2)) as [[log|e| |] w'].
Qed.

Lemma Service_Start_completes cfg (s : Service P) :
  (forall c, c ∈ sv_Servers cfg -> server_new s c) -> completed (fst (Service_Start cfg s)).
Proof.
  intros Hnew. unfold Service_Start. apply st_completed_bind.
  { unfold on_sv_world, zoom. destruct (startACMEClient_calls (sv_ACME cfg) (sv_world s)) as [_ Hc].
    by destruct (startACMEClient (sv_ACME cfg) (sv_world s)). }
  intros [] s0 E0. assert (protos s0 = protos s) as Hp0.
  { unfold on_sv_world, zoom in E0. destruct (startACMEClient (sv_ACME cfg) (sv_world s)). by injection E0 as _ <-. }
  destruct (startPProf_holds (sv_PProfAddress cfg) (sv_world s0)) as (wp & Ep & _).
  erewrite st_bind_ret by (unfold on_sv_world, zoom; rewrite Ep; reflexivity).
  set (s1 := set_world wp s0). assert (protos s1 = protos s) as Hp1 by exact Hp0. clearbody s1.
  apply st_completed_bind.
  { pose proof (startLoadBalancers_spec (sv_LoadBalancers cfg) s1) as Hs.
    by destruct (startLoadBalancers _ s1) as [[[]|e| |] s']. }
  intros [] s2 E2. pose proof (startLoadBalancers_keeps (protos s1) (servers s1) (controlAPI s1) (sv_stopClosed s1)
    (sv_LoadBalancers cfg) s1 ltac:(done)) as Hk. rewrite E2 in Hk. destruct Hk as (Hp2 & _). cbn [snd] in Hp2.
  apply st_completed_bind.
  { pose proof (startServers_spec (sv_Servers cfg) s2) as Hs.
    specialize (Hs ltac:(intros c Hc; destruct (Hnew c Hc) as (p & Hp & Hn); exists p; by rewrite Hp2, Hp1)).
    by destruct (startServers _ s2) as [[[]|e| |] s']. }
  intros [] s3 _. pose proof (startControlAPI_spec (sv_ControlAPI cfg) s3) as Hs.
  by destruct (startControlAPI _ s3) as [[[]|e| |] s'].
Qed.

(** *** What happens to a service that runs *)

(** What happened to a service since its start: the servers that failed and wait to be
    started again, those that were, and those that could not be. *)
Record History := mkHistory { failed : gset gostring; restarted : list gostring; abandoned : list gostring }.

Definition no_history : History := mkHistory ∅ [] [].

(** The goroutine of [handleSignals] gets a signal; [handleServerError] stops a server that
    fails and, later, starts it again, once, with the same configuration and the same
    protocol object.  All of them hold the mutex of the servers. *)
Inductive service_event (cfgs : list ServerCfg) : Service P * History -> Service P * History -> Prop :=
  | signal_received order s s' h : rotateLogFiles order s = (Ret tt, s') -> service_event cfgs (s, h) (s', h)
  | server_failed n s s' h :
      is_Some (servers s !! n) -> stopServer n s = (Ret tt, s') ->
      service_event cfgs (s, h) (s', mkHistory ({[n]} ∪ failed h) (restarted h) (abandoned h))
  | server_restarted cfg s s' h :
      cfg ∈ cfgs -> sc_Name cfg ∈ failed h -> startServer cfg s = (Ret tt, s') ->
      service_event cfgs (s, h)
        (s', mkHistory (failed h ∖ {[sc_Name cfg]}) (sc_Name cfg :: restarted h) (abandoned h))
  | restart_failed cfg e s s' h :
      cfg ∈ cfgs -> sc_Name cfg ∈ failed h -> startServer cfg s = (Throw e, s') ->
      service_event cfgs (s, h)
        (s', mkHistory (failed h ∖ {[sc_Name cfg]}) (restarted h) (sc_Name cfg :: abandoned h)).

(** The life of a service: events, and possibly the failure of a server whose stop panics,
    which ends the program. *)
Definition service_life (cfgs : list ServerCfg) (s0 : Service P) (r : outcome unit) (s : Service P) (h : History) : Prop :=
  exists s1, rtc (service_event cfgs) (s0, no_history) (s1, h)
    /\ ((r = Ret tt /\ s = s1) \/ (r = Panic /\ exists n, is_Some (servers s1 !! n) /\ stopServer n s1 = (Panic, s))).

Lemma disj_union_swap (A B C : gmultiset Resource) : A ⊎ (B ⊎ C) = B ⊎ (A ⊎ C).
Proof. by rewrite !(assoc_L (⊎)), (comm_L (⊎) A). Qed.

(** The table of servers of a service that runs. *)
Lemma service_runs_table K s :
  service_runs K s <->
  sv_stopClosed s = false /\ (forall log x, controlAPI s = Some (log, x) -> x <> None)
  /\ table_holds servers sv_held server_owns server_ready
       (control_owns s ⊎ (table_owns loadBalancers balancer_owns s ⊎ K)) s.
Proof.
  split.
  - intros [Ho Hc Hh Hr]. split; [done|]. split; [done|]. constructor; [|done].
    rewrite Hh. apply disj_union_swap.
  - intros (Ho & Hc & [Hh Hr]). constructor; [done|done| |done]. rewrite Hh. apply disj_union_swap.
Qed.

(** The parts the servers are not. *)
Lemma other_parts_owned s s' :
  rest_of_servers (loadBalancers s) (controlAPI s) (sv_stopClosed s) s' ->
  control_owns s' = control_owns s /\ table_owns loadBalancers balancer_owns s' = table_owns loadBalancers balancer_owns s.
Proof. intros (Hl & Hc & _). unfold control_owns, table_owns. by rewrite Hl, Hc. Qed.

Lemma service_runs_rest K s s' :
  service_runs K s -> rest_of_servers (loadBalancers s) (controlAPI s) (sv_stopClosed s) s' ->
  (forall K', table_holds servers sv_held server_owns server_ready K' s ->
              table_holds servers sv_held server_owns server_ready K' s') -> service_runs K s'.
Proof.
  rewrite !service_runs_table. intros (Ho & Hc & Ht) Hrest Hk. destruct (other_parts_owned _ _ Hrest) as [-> ->].
  destruct Hrest as (_ & Hc' & Ho'). rewrite Hc', Ho'. auto.
Qed.

Lemma rotate_server_runs K n ls s :
  service_runs K s -> servers s !! n = Some ls ->
  exists s', with_proto n Protocol_RotateLogFiles s = (Ret tt, s') /\ service_runs K s' /\ servers s' = servers s
    /\ frame sc_Name server_owns server_ready server_stoppable server_idle n s s'
    /\ server_stoppable s' n = server_stoppable s n.
Proof.
  intros Hrun Hls. destruct (sr_ready _ _ Hrun _ _ Hls) as (Hli & p & Hp & Hr & Hso).
  assert (forall K', sv_held s = server_owns s n ls ⊎ K' -> held (sv_world s) = protocol_owns p ⊎ (sockets_own ls ⊎ K')) as Hown.
  { intros K' HK. unfold sv_held, server_owns in HK. rewrite Hp in HK. rewrite HK. cbn. multiset_solver. }
  destruct (protocol_rotates (sv_world s) p
    (sockets_own ls ⊎ (owns_all (fun '(n, b) => server_owns s n b) (map_to_list (delete n (servers s)))
                       ⊎ (control_owns s ⊎ (table_owns loadBalancers balancer_owns s ⊎ K)))) Hr) as (w' & p' & E & Hr' & Hw' & Hso' & Hst').
  { apply Hown. rewrite (sr_held _ _ Hrun), (table_owns_delete servers server_owns s n ls Hls). multiset_solver. }
  unfold with_proto. rewrite Hp, E. eexists. split; [reflexivity|].
  split; [|split; [done|split; [apply server_frame|by apply server_stoppable_insert with p]]].
  apply (service_runs_rest K s); [done|done|]. intros K' Ht.
  apply (table_change sc_Name servers sv_held server_owns server_ready server_stoppable server_idle n ls K' s); try done.
  - apply server_frame.
  - split; [done|]. exists p'. cbn [protos]. rewrite lookup_insert_eq, Hso'. done.
  - intros K2 HK2. unfold sv_held, server_owns at 1. cbn [sv_world protos]. rewrite lookup_insert_eq. cbn.
    specialize (Hown _ HK2).
    assert (sockets_own ls ⊎ (owns_all (fun '(n, b) => server_owns s n b) (map_to_list (delete n (servers s)))
             ⊎ (control_owns s ⊎ (table_owns loadBalancers balancer_owns s ⊎ K))) = sockets_own ls ⊎ K2) as Heq.
    { apply (inj (protocol_owns p ⊎.)). rewrite <- Hown.
      pose proof (sr_held _ _ Hrun) as Hh. rewrite (table_owns_delete servers server_owns s n ls Hls) in Hh.
      unfold sv_held, server_owns at 1 in Hh. rewrite Hp in Hh. rewrite Hh. cbn. multiset_solver. }
    rewrite Hw', Heq. multiset_solver.
Qed.

(** A signal rotates the logs of every server; the service goes on. *)
Lemma rotateLogFiles_runs K order s :
  service_runs K s ->
  exists s', rotateLogFiles order s = (Ret tt, s') /\ service_runs K s' /\ servers s' = servers s
    /\ (forall n, server_stoppable s' n = server_stoppable s n)
    /\ forall cfg, servers s !! sc_Name cfg = None -> server_idle s cfg -> server_idle s' cfg.
Proof.
  revert s. induction order as [|n order IH]; intros s Hrun; cbn [rotateLogFiles]; [by exists s|].
  erewrite st_bind_ret by reflexivity. destruct (servers s !! n) as [ls|] eqn:Hls.
  - destruct (rotate_server_runs K n ls s Hrun Hls) as (s1 & E & Hrun1 & Hs1 & Hf & Hst). rewrite (st_bind_ret _ _ _ _ _ E).
    destruct (IH s1 Hrun1) as (s2 & E2 & Hrun2 & Hs2 & Hst2 & Hi2). exists s2. split; [done|]. split; [done|].
    split; [congruence|]. split.
    + intros n'. rewrite Hst2. destruct (decide (n' = n)) as [->|Hne]; [done|]. by apply (fr_stoppable _ _ _ _ _ _ _ _ Hf).
    + intros cfg Hn Hc. apply Hi2; [by rewrite Hs1|]. apply (fr_fresh _ _ _ _ _ _ _ _ Hf); [congruence|done].
  - erewrite st_bind_ret by reflexivity. by apply IH.
Qed.

(** What holds after any events: the servers that wait for a restart can be started, and
    only those started again may not be stoppable. *)
Record lives (cfgs : list ServerCfg) (K : gmultiset Resource) (s : Service P) (h : History) : Prop := {
  li_runs : exists L, no_socket L /\ (abandoned h = [] -> L = ∅) /\ service_runs (L ⊎ K) s;
  li_failed : forall cfg, cfg ∈ cfgs -> sc_Name cfg ∈ failed h -> servers s !! sc_Name cfg = None /\ server_idle s cfg;
  li_stoppable : forall n, is_Some (servers s !! n) -> server_stoppable s n = false -> n ∈ restarted h
}.

Lemma servers_rest_table K s s' :
  service_runs K s -> rest_of_servers (loadBalancers s) (controlAPI s) (sv_stopClosed s) s' ->
  forall K', table_holds servers sv_held server_owns server_ready
    (K' ⊎ (control_owns s ⊎ (table_owns loadBalancers balancer_owns s ⊎ K))) s' -> service_runs (K' ⊎ K) s'.
Proof.
  intros Hrun Hrest K' Ht. apply service_runs_table. destruct (other_parts_owned _ _ Hrest) as [-> ->].
  apply service_runs_table in Hrun as (Ho & Hc & _). destruct Hrest as (_ & Hc' & Ho'). rewrite Hc', Ho'.
  split; [done|]. split; [done|].
  rewrite (disj_union_swap (table_owns loadBalancers balancer_owns s) K' K), (disj_union_swap (control_owns s) K').
  exact Ht.
Qed.

Lemma startServer_keeps lbs c b cfg : keeps (rest_of_servers lbs c b) (startServer cfg).
Proof.
  apply keeps_bind; [apply keeps_gets|]. intros m. destruct (bool_decide _); [by intros s|].
  apply keeps_bind; [apply keeps_wrap, with_proto_keeps|]. intros ls. by apply keeps_modify.
Qed.

Lemma stopServer_keeps lbs c b n : keeps (rest_of_servers lbs c b) (stopServer n).
Proof. apply stop_named_keeps; [done|]. intros. apply with_proto_keeps. Qed.

(** The failure of a server: it is stopped, and can be started again. *)
Lemma server_failed_lives cfgs K n s s' h :
  lives cfgs K s h -> is_Some (servers s !! n) -> stopServer n s = (Ret tt, s') ->
  lives cfgs K s' (mkHistory ({[n]} ∪ failed h) (restarted h) (abandoned h)).
Proof.
  intros [(L & HL & Hab & Hrun) Hfailed Hstop] Hn E.
  pose proof (proj1 (service_runs_table _ _) Hrun) as (_ & _ & Ht).
  destruct (server_stoppable s n) eqn:Hst.
  2:{ pose proof (stop_named_stuck sc_Name servers set_servers run_server halt_server sv_held server_owns server_ready
        server_stoppable server_idle server_laws n _ s Ht Hn Hst) as Hp. unfold stopServer in E. by rewrite E in Hp. }
  destruct (stop_named_spec sc_Name servers set_servers run_server halt_server sv_held server_owns server_ready
    server_stoppable server_idle server_laws n _ s Ht (fun _ => Hst)) as (s1 & E1 & Ht1 & Hg & Hf & Hfresh).
  unfold stopServer in E. rewrite E in E1. injection E1 as <-.
  pose proof (stopServer_keeps (loadBalancers s) (controlAPI s) (sv_stopClosed s) n s ltac:(done)) as Hk.
  unfold stopServer in Hk. rewrite E in Hk. constructor; cbn [abandoned failed restarted].
  - exists L. split; [done|]. split; [done|]. rewrite <- (left_id_L ∅ (⊎) (L ⊎ K)).
    apply (servers_rest_table _ s); [done|done|]. by rewrite (left_id_L ∅ (⊎)).
  - intros cfg Hcfg Hin. rewrite Hg. destruct (decide (sc_Name cfg = n)) as [He|He].
    + rewrite He. split; [apply lookup_delete_eq|by apply Hfresh].
    + destruct (Hfailed cfg Hcfg ltac:(set_solver)) as [Hnone Hi]. rewrite lookup_delete_ne by done.
      split; [done|]. by apply (fr_fresh _ _ _ _ _ _ _ _ Hf).
  - intros n' Hn' Hs'. rewrite Hg in Hn'. apply lookup_delete_is_Some in Hn' as [Hne Hn'].
    apply Hstop; [done|]. by rewrite <- (fr_stoppable _ _ _ _ _ _ _ _ Hf n').
Qed.

(** A restart: the server is in the table again, or is given up and may leave what its
    protocol did not give back. *)
Lemma server_restarted_lives cfgs K cfg s h :
  lives cfgs K s h -> cfg ∈ cfgs -> sc_Name cfg ∈ failed h ->
  match startServer cfg s with
  | (Ret _, s') => lives cfgs K s' (mkHistory (failed h ∖ {[sc_Name cfg]}) (sc_Name cfg :: restarted h) (abandoned h))
  | (Throw _, s') => lives cfgs K s' (mkHistory (failed h ∖ {[sc_Name cfg]}) (restarted h) (sc_Name cfg :: abandoned h))
  | _ => False
  end.
Proof.
  intros [(L & HL & Hab & Hrun) Hfailed Hstop] Hcfg Hin.
  pose proof (proj1 (service_runs_table _ _) Hrun) as (_ & _ & Ht).
  destruct (Hfailed cfg Hcfg Hin) as [Hnone Hidle].
  pose proof (start_named_spec sc_Name servers set_servers run_server halt_server "cannot start server"%go sv_held
    server_owns server_ready server_stoppable server_idle server_laws cfg _ s Ht (fun _ => Hidle)) as Hs.
  pose proof (startServer_keeps (loadBalancers s) (controlAPI s) (sv_stopClosed s) cfg s ltac:(done)) as Hk.
  unfold startServer in *. destruct (start_named _ _ _ _ _ cfg s) as [[[]|e| |] s']; cbn [snd] in Hk; try done.
  - destruct Hs as (Ht' & _ & (b & Hg) & Hf & Hst). constructor; cbn [abandoned failed restarted].
    + exists L. split; [done|]. split; [done|]. rewrite <- (left_id_L ∅ (⊎) (L ⊎ K)).
      apply (servers_rest_table _ s); [done|done|]. by rewrite (left_id_L ∅ (⊎)).
    + intros c Hc Hin'. assert (sc_Name c <> sc_Name cfg) as Hne by set_solver.
      destruct (Hfailed c Hc ltac:(set_solver)) as [Hnone' Hi]. rewrite Hg, lookup_insert_ne by done.
      split; [done|]. by apply (fr_fresh _ _ _ _ _ _ _ _ Hf).
    + intros n Hn Hs'. apply elem_of_cons. destruct (decide (n = sc_Name cfg)) as [->|Hne]; [by left|right].
      rewrite Hg, lookup_insert_ne in Hn by done. apply Hstop; [done|].
      by rewrite <- (fr_stoppable _ _ _ _ _ _ _ _ Hf n).
  - destruct Hs as ((L' & HL' & Ht') & Hg & Hf & Hst & Hfresh). constructor; cbn [abandoned failed restarted].
    + exists (L' ⊎ L). split; [by apply no_socket_union|]. split; [done|]. rewrite <- (assoc_L (⊎)).
      by apply (servers_rest_table _ s).
    + intros c Hc Hin'. destruct (Hfailed c Hc ltac:(set_solver)) as [Hnone' Hi]. rewrite Hg. split; [done|]. by apply Hfresh.
    + intros n Hn Hs'. rewrite Hg in Hn. apply Hstop; [done|]. destruct (decide (n = sc_Name cfg)) as [->|Hne].
      * by destruct Hn as [? Hn]; rewrite Hnone in Hn.
      * by rewrite <- (fr_stoppable _ _ _ _ _ _ _ _ Hf n).
Qed.

Lemma service_events_live cfgs K s s' h h' :
  lives cfgs K s h -> rtc (service_event cfgs) (s, h) (s', h') -> lives cfgs K s' h'.
Proof.
  intros Hl Hev. remember (s, h) as st eqn:E. remember (s', h') as st' eqn:E'. revert s h E Hl.
  induction Hev as [st|st1 st2 st3 Hstep _ IH]; intros s h E Hl; [congruence|]. subst st1 st3.
  destruct st2 as [s2 h2]. apply (IH eq_refl s2 h2 eq_refl). clear IH.
  inversion Hstep as [order ? ? ? Er|n ? ? ? Hn Es|cfg ? ? ? Hc Hf Es|cfg e ? ? ? Hc Hf Es]; subst.
  - destruct Hl as [(L & HL & Hab & Hrun) Hfailed Hstop].
    destruct (rotateLogFiles_runs _ order s Hrun) as (s4 & E4 & Hrun4 & Hs4 & Hst4 & Hi4). rewrite Er in E4.
    injection E4 as <-. constructor; [by exists L| |].
    + intros cfg Hc Hf. destruct (Hfailed cfg Hc Hf) as [Hn Hi]. rewrite Hs4. split; [done|by apply Hi4].
    + intros n. rewrite Hs4, Hst4. apply Hstop.
  - by eapply server_failed_lives.
  - pose proof (server_restarted_lives cfgs K cfg s h Hl Hc Hf) as Hr. by rewrite Es in Hr.
  - pose proof (server_restarted_lives cfgs K cfg s h Hl Hc Hf) as Hr. by rewrite Es in Hr.
Qed.

(** When the failure of a server panics, the server was started again. *)
Lemma failure_panics cfgs K n s s' h :
  lives cfgs K s h -> is_Some (servers s !! n) -> stopServer n s = (Panic, s') ->
  server_stoppable s n = false /\ n ∈ restarted h.
Proof.
  intros [(L & HL & Hab & Hrun) _ Hstop] Hn E.
  assert (server_stoppable s n = false) as Hst; [|by split; [|apply Hstop]].
  destruct (server_stoppable s n) eqn:Hst; [|done].
  pose proof (proj1 (service_runs_table _ _) Hrun) as (_ & _ & Ht).
  destruct (stop_named_spec sc_Name servers set_servers run_server halt_server sv_held server_owns server_ready
    server_stoppable server_idle server_laws n _ s Ht (fun _ => Hst)) as (s1 & E1 & _).
  unfold stopServer in E. by rewrite E in E1.
Qed.

(** The parts of [servers] that run, as a decidable test. *)
Lemma stoppable_dec (s : Service P) :
  all_stoppable servers server_stoppable s
  \/ exists n, is_Some (servers s !! n) /\ server_stoppable s n = false.
Proof.
  destruct (decide (map_Forall (fun n _ => server_stoppable s n = true) (servers s))) as [Hall|Hnot].
  - left. intros n [ls Hls]. by apply (Hall n ls).
  - right. apply map_not_Forall in Hnot as (n & ls & Hls & Hn); [|apply _]. exists n. split; [by eexists|].
    by destruct (server_stoppable s n).
Qed.

(** The service as its start leaves it. *)
Lemma started_lives cfg ps w s0 s1 :
  (forall c, c ∈ sv_Servers cfg -> exists p, ps !! sc_Name c = Some p /\ protocol_new p) ->
  NewService cfg ps w = (Ret tt, s0) -> Service_Start cfg s0 = (Ret tt, s1) ->
  exists L, pprof_holds (sv_PProfAddress cfg) L
    /\ lives (sv_Servers cfg) (L ⊎ (control_log s0 ⊎ held w)) s1 no_history.
Proof.
  intros Hnew Hcreate Hstart. destruct (NewService_spec _ _ _ _ Hcreate) as (Hh0 & Hc0 & Hp0 & Hst0 & Hapi0).
  rewrite <- Hh0. apply on_sv_world_calls in Hstart as (w1 & Hw1 & Hstart); [|apply startACMEClient_calls].
  cbn [sv_world set_world] in *.
  destruct (startPProf_holds (sv_PProfAddress cfg) w1) as (w2 & Ep & L & HL & Hw2).
  erewrite st_bind_ret in Hstart by (unfold on_sv_world, zoom; cbn [sv_world set_world]; rewrite Ep; reflexivity).
  exists L. split; [done|]. apply start_stages_run in Hstart as [Hrun Hall]; try done.
  - constructor; [|done|].
    + exists ∅. split; [apply no_socket_empty|]. split; [done|]. rewrite (left_id_L ∅ (⊎)).
      unfold sv_held at 1 in Hrun. cbn [sv_world set_world] in Hrun. rewrite Hw2, Hw1 in Hrun. exact Hrun.
    + intros n Hn Hf. by rewrite (Hall n Hn) in Hf.
  - intros c Hc. destruct (Hnew c Hc) as (p & Hp & Hn). exists p. cbn [protos set_world]. by rewrite Hp0.
Qed.

(** A service that was created and started is stopped, after any signals, failures of
    servers and restarts, and for any orders of its ranges over the tables.  When every
    server that runs can be stopped, it leaves no server and no load balancer, and everything
    its listeners, protocols, probes and its control API took is given back, except the
    access log of the control API, which is never closed, the goroutine of pprof, and what
    restarts that failed left.  A running server that cannot be stopped was started again
    after a failure, and makes the stop panic. *)
Theorem service_gives_back cfg ps w s0 s1 s h order1 order2 :
  (forall c, c ∈ sv_Servers cfg -> exists p, ps !! sc_Name c = Some p /\ protocol_new p) ->
  NewService cfg ps w = (Ret tt, s0) -> Service_Start cfg s0 = (Ret tt, s1) ->
  rtc (service_event (sv_Servers cfg)) (s1, no_history) (s, h) ->
  (forall n, is_Some (servers s !! n) -> n ∈ order1) ->
  (forall n, is_Some (loadBalancers s !! n) -> n ∈ order2) ->
  (all_stoppable servers server_stoppable s ->
   exists s2 L R, Service_Stop order1 order2 s = (Ret tt, s2) /\ pprof_holds (sv_PProfAddress cfg) L
     /\ no_socket R /\ (abandoned h = [] -> R = ∅)
     /\ servers s2 = ∅ /\ loadBalancers s2 = ∅ /\ sv_held s2 = R ⊎ (L ⊎ (control_log s0 ⊎ held w)))
  /\ (forall n, is_Some (servers s !! n) -> server_stoppable s n = false ->
      n ∈ restarted h /\ fst (Service_Stop order1 order2 s) = Panic).
Proof using Type H.
  intros Hnew Hcreate Hstart Hev Ho1 Ho2. destruct (started_lives _ _ _ _ _ Hnew Hcreate Hstart) as (L & HL & Hlives).
  pose proof (service_events_live _ _ _ _ _ _ Hlives Hev) as [(R & HR & Hab & Hrun) _ Hst]. split.
  - intros Hall. destruct (Service_Stop_spec _ s order1 order2 Hrun Hall Ho1 Ho2) as (s2 & E & Hs & Hl & Hh).
    exists s2, L, R. by split_and!.
  - intros n Hn Hf. split; [by apply Hst|]. by apply (Service_Stop_stuck _ s n order1 order2 Hrun); [apply Ho1|..].
Qed.
End servers.

(** ** Servers that fail

    The goroutine that watches the errors of a server, and what it becomes: it handles an
    error, waits for the time of a restart, restarts. *)
Inductive ErrPhase := Watching | Handling | Waiting | Restarting.

Section failures.
Context {P : Type} `{!ServerProtocol P} (cfg_of : gostring -> ServerCfg).
Hypothesis cfg_of_name : forall n, sc_Name (cfg_of n) = n.

(** The part of [handleServerError] under the lock: the server is not looked up with a
    test, and a nil one is dereferenced. *)
Definition handle_locked (n : gostring) : ST (Service P) unit :=
  m ← gets servers;
  match m !! n with
  | None => lift Panic
  | Some _ => stopServer n
  end.

Abbreviation Goroutines := (gmap nat (gostring * ErrPhase)) (only parsing).

Inductive error_step : Service P * Goroutines -> Service P * Goroutines -> Prop :=
  | err_fatal t n s ths :
      ths !! t = Some (n, Watching) -> is_Some (servers s !! n) -> sv_stopClosed s = false ->
      error_step (s, ths) (s, <[t := (n, Handling)]> ths)
  | err_ignored t n s ths :
      ths !! t = Some (n, Watching) -> sv_stopClosed s = true -> error_step (s, ths) (s, delete t ths)
  | err_closed t n s ths :
      ths !! t = Some (n, Watching) -> servers s !! n = None -> error_step (s, ths) (s, delete t ths)
  | err_handle t n s s' ths :
      ths !! t = Some (n, Handling) -> handle_locked n s = (Ret tt, s') ->
      error_step (s, ths) (s', <[t := (n, Waiting)]> ths)
  | err_timer t n s ths :
      ths !! t = Some (n, Waiting) -> error_step (s, ths) (s, <[t := (n, Restarting)]> ths)
  | err_stopped t n s ths :
      ths !! t = Some (n, Waiting) -> sv_stopClosed s = true -> error_step (s, ths) (s, delete t ths)
  | err_restarted t t' n s s' ths :
      ths !! t = Some (n, Restarting) -> delete t ths !! t' = None -> startServer (cfg_of n) s = (Ret tt, s') ->
      error_step (s, ths) (s', <[t' := (n, Watching)]> (delete t ths))
  | err_abandoned t n e s s' ths :
      ths !! t = Some (n, Restarting) -> startServer (cfg_of n) s = (Throw e, s') ->
      error_step (s, ths) (s', delete t ths)
  | err_stop s ths :
      sv_stopClosed s = false -> error_step (s, ths) (set_stop true s, ths)
  | err_stopServers order s s' ths :
      sv_stopClosed s = true -> stopServers order s = (Ret tt, s') -> error_step (s, ths) (s', ths).

Definition serves (ph : ErrPhase) : Prop := ph = Watching \/ ph = Handling.

(** Each name has at most one goroutine, and those that watch or handle are those of the
    running servers. *)
Record watched (m : gmap gostring (list RunningListener)) (ths : Goroutines) : Prop := {
  wa_unique : forall t1 t2 n p1 p2, ths !! t1 = Some (n, p1) -> ths !! t2 = Some (n, p2) -> t1 = t2;
  wa_running : forall t n ph, ths !! t = Some (n, ph) -> serves ph <-> is_Some (m !! n);
  wa_watched : forall n, is_Some (m !! n) -> exists t ph, ths !! t = Some (n, ph)
}.

Lemma with_proto_servers {B} n (m : ST (World * P) B) s :
  servers (with_proto n m s).2 = servers s /\ sv_stopClosed (with_proto n m s).2 = sv_stopClosed s.
Proof using Type. unfold with_proto. destruct (protos s !! n) as [p|]; [|done]. by destruct (m (sv_world s, p)) as [r [w p']]. Qed.

Lemma stopServer_servers n s s' :
  stopServer n s = (Ret tt, s') -> servers s' = delete n (servers s) /\ sv_stopClosed s' = sv_stopClosed s.
Proof using Type.
  unfold stopServer, stop_named. unfold mbind, st_bind, gets. destruct (servers s !! n) as [ls|] eqn:Hn.
  - unfold halt_server. pose proof (with_proto_servers n (Server_Stop ls) s) as [Hs Hc].
    destruct (with_proto n (Server_Stop ls) s) as [[[]|e| |] s1]; try done. intros [= <-]. cbn in *. by rewrite Hs, Hc.
  - intros [= <-]. by rewrite delete_id.
Qed.

Lemma startServer_servers cfg s r s' :
  startServer cfg s = (r, s') ->
  sv_stopClosed s' = sv_stopClosed s /\
  match r with
  | Ret _ => servers s !! sc_Name cfg = None /\ exists ls, servers s' = <[sc_Name cfg := ls]> (servers s)
  | _ => servers s' = servers s
  end.
Proof using Type.
  unfold startServer, start_named. unfold mbind, st_bind, gets.
  destruct (servers s !! sc_Name cfg) as [ls|] eqn:Hn.
  { rewrite bool_decide_true by by eexists. by intros [= <- <-]. }
  rewrite bool_decide_false by (intros [? ?]; done). unfold wrapST, run_server.
  pose proof (with_proto_servers (sc_Name cfg) (StartServer cfg) s) as [Hs Hc].
  destruct (with_proto _ (StartServer cfg) s) as [[ls|e| |] s1]; cbn [wrap_error]; intros [= <- <-]; try done.
  cbn in *. split; [done|]. split; [done|]. exists ls. by rewrite Hs.
Qed.

Lemma error_step_stop s s' : error_step s s' -> sv_stopClosed (fst s) = true -> sv_stopClosed (fst s') = true.
Proof using Type.
  destruct 1 as [| | |t n s s' ths Ht Hh| | |t t' n s s' ths Ht Ht' Hs|t n e s s' ths Ht Hs|s ths Hs|order s s' ths Hc Hs]; cbn [fst]; try done.
  - unfold handle_locked, mbind, st_bind, gets in Hh. destruct (servers s !! n); [|done].
    apply stopServer_servers in Hh as [_ ->]. done.
  - apply startServer_servers in Hs as [-> _]. done.
  - apply startServer_servers in Hs as [-> _]. done.
  - intros _. revert s Hc Hs. induction order as [|n order IH]; intros s Hc Hs.
    { unfold stopServers in Hs. cbn in Hs. by injection Hs as <-. }
    unfold stopServers in *. cbn [stop_each] in Hs. unfold mbind, st_bind in Hs.
    destruct (stopServer n s) as [[[]|e| |] s1] eqn:E; try done.
    apply (IH s1); [|done]. apply stopServer_servers in E as [_ ->]. done.
Qed.

Lemma watched_update m m' ths t n ph0 ph :
  watched m ths -> ths !! t = Some (n, ph0) -> (forall n', n' <> n -> m' !! n' = m !! n') ->
  (serves ph <-> is_Some (m' !! n)) -> watched m' (<[t := (n, ph)]> ths).
Proof using Type.
  intros [Hu Hr Hw] Ht Hm Hs. constructor.
  - intros t1 t2 n' p1 p2. rewrite !lookup_insert_Some.
    intros [[<- E1]|[Hn1 H1]] [[<- E2]|[Hn2 H2]]; simplify_eq; try done;
      by (eapply Hu || (symmetry; eapply Hu)).
  - intros t' n' ph'. rewrite lookup_insert_Some. intros [[<- [= <- <-]]|[Hne Ht']]; [done|].
    rewrite Hm; [by eapply Hr|]. intros ->. destruct Hne. by eapply Hu.
  - intros n' Hn'. destruct (decide (n' = n)) as [-> | Hne].
    { exists t, ph. by rewrite lookup_insert_eq. }
    rewrite Hm in Hn' by done. destruct (Hw n' Hn') as (t' & ph' & Ht'). exists t', ph'.
    rewrite lookup_insert_ne; [done|]. intros ->. congruence.
Qed.

Lemma watched_remove m ths t n ph :
  watched m ths -> ths !! t = Some (n, ph) -> m !! n = None ->
  watched m (delete t ths) /\ forall t' ph', delete t ths !! t' <> Some (n, ph').
Proof using Type.
  intros [Hu Hr Hw] Ht Hm. split.
  - constructor.
    + intros t1 t2 n' p1 p2. rewrite !lookup_delete_Some. intros [_ H1] [_ H2]. by eapply Hu.
    + intros t' n' ph'. rewrite lookup_delete_Some. intros [_ H1]. by eapply Hr.
    + intros n' Hn'. destruct (Hw n' Hn') as (t' & ph' & Ht'). exists t', ph'. apply lookup_delete_Some.
      split; [|done]. intros ->. rewrite Ht in Ht'. injection Ht' as -> ->. rewrite Hm in Hn'. by destruct Hn'.
  - intros t' ph'. rewrite lookup_delete_Some. intros [Hne Ht']. destruct Hne. by eapply Hu.
Qed.

Lemma watched_add m ths t n ls :
  watched m ths -> (forall t' ph', ths !! t' <> Some (n, ph')) -> ths !! t = None ->
  watched (<[n := ls]> m) (<[t := (n, Watching)]> ths).
Proof using Type.
  intros [Hu Hr Hw] Hn Ht. constructor.
  - intros t1 t2 n' p1 p2. rewrite !lookup_insert_Some.
    intros [[<- E1]|[Hn1 H1]] [[<- E2]|[Hn2 H2]]; simplify_eq; try done; try (by destruct (Hn _ _ H1));
      try (by destruct (Hn _ _ H2)). by eapply Hu.
  - intros t' n' ph'. rewrite lookup_insert_Some. intros [[<- [= <- <-]]|[Hne Ht']].
    { rewrite lookup_insert_eq. split; [by eexists|by left]. }
    rewrite lookup_insert_ne; [by eapply Hr|]. intros <-. by destruct (Hn _ _ Ht').
  - intros n' Hn'. destruct (decide (n' = n)) as [-> | Hne].
    { exists t, Watching. by rewrite lookup_insert_eq. }
    rewrite lookup_insert_ne in Hn' by done. destruct (Hw n' Hn') as (t' & ph' & Ht'). exists t', ph'.
    rewrite lookup_insert_ne; [done|]. intros ->. congruence.
Qed.

Lemma watched_step s s' ths ths' :
  error_step (s, ths) (s', ths') -> sv_stopClosed s' = false -> watched (servers s) ths -> watched (servers s') ths'.
Proof using Type cfg_of_name.
  intros Hstep Hopen Hw.
  inversion Hstep as [t n ? ? Ht Hs|t n ? ? Ht Hc|t n ? ? Ht Hn|t n ? ? ? Ht Hh|t n ? ? Ht|t n ? ? Ht Hc
    |t t' n ? ? ? Ht Ht' Hs|t n e ? ? ? Ht Hs|? ? Hc|order ? ? ? Hc Hs]; subst; try congruence.
  - eapply watched_update; [done..|]. split; [done|by right].
  - pose proof (proj1 (wa_running _ _ Hw _ _ _ Ht) (or_introl eq_refl)) as [ls Hls]. congruence.
  - unfold handle_locked, mbind, st_bind, gets in Hh. destruct (servers s !! n) as [ls|] eqn:Hn; [|done].
    apply stopServer_servers in Hh as [-> _]. eapply watched_update; [done..| |].
    + intros n' Hne. by rewrite lookup_delete_ne.
    + rewrite lookup_delete_eq. split; [by intros [?|?]|by intros [? ?]].
  - eapply watched_update; [done..|]. rewrite <- (wa_running _ _ Hw _ _ _ Ht). split; by intros [?|?].
  - apply startServer_servers in Hs as (_ & Hn & ls & ->). rewrite cfg_of_name in *.
    destruct (watched_remove _ _ _ _ _ Hw Ht Hn) as [Hw' Hno]. by apply watched_add.
  - apply startServer_servers in Hs as (_ & ->).
    assert (servers s !! n = None) as Hn.
    { destruct (servers s !! n) eqn:Hn; [|done].
      destruct (proj2 (wa_running _ _ Hw _ _ _ Ht) ltac:(by rewrite Hn)); done. }
    by destruct (watched_remove _ _ _ _ _ Hw Ht Hn).
  - cbn in Hopen. done.
  - pose proof (error_step_stop _ _ Hstep Hc) as Hc'. cbn in Hc'. congruence.
Qed.

Lemma stop_run st st' : rtc error_step st st' -> sv_stopClosed (fst st) = true -> sv_stopClosed (fst st') = true.
Proof using Type.
  intros Hrun. induction Hrun as [st|st1 st2 st3 Hstep _ IH]; [done|]. intros Hc. apply IH. by eapply error_step_stop.
Qed.

Lemma watched_run st st' :
  rtc error_step st st' -> sv_stopClosed (fst st') = false ->
  watched (servers (fst st)) (snd st) -> watched (servers (fst st')) (snd st').
Proof using Type cfg_of_name.
  intros Hrun Hopen. induction Hrun as [st|[s1 ths1] [s2 ths2] st3 Hstep Hrun IH]; [done|]. intros Hw.
  apply IH; [done|]. apply (watched_step _ _ _ _ Hstep); [|done]. cbn [fst].
  destruct (sv_stopClosed s2) eqn:Hc; [|done]. by rewrite (stop_run _ _ Hrun Hc) in Hopen.
Qed.

(** [C13] Until the service stops, however the goroutines of failing servers interleave, a
    server has one goroutine, which watches or handles its errors exactly when the server
    is in the table: a server whose error is handled is there, so that the handler never
    dereferences a nil server, and a server to be restarted is not, so that it is never
    refused as a duplicate. *)
Theorem failing_servers_handled s0 ths0 s ths :
  watched (servers s0) ths0 -> rtc error_step (s0, ths0) (s, ths) -> sv_stopClosed s = false ->
  watched (servers s) ths
  /\ (forall t n, ths !! t = Some (n, Handling) -> exists ls, servers s !! n = Some ls)
  /\ (forall t n, ths !! t = Some (n, Restarting) -> servers s !! n = None).
Proof using Type cfg_of_name.
  intros Hw0 Hrun Hopen.
  assert (watched (servers s) ths) as Hw by exact (watched_run (s0, ths0) (s, ths) Hrun Hopen Hw0).
  split; [done|]. split; intros t n Ht.
  - apply (wa_running _ _ Hw _ _ _ Ht). by right.
  - destruct (servers s !! n) eqn:Hn; [|done].
    by destruct (proj2 (wa_running _ _ Hw _ _ _ Ht) ltac:(by rewrite Hn)).
Qed.
End failures.

(** ** The two protocols *)

Section http.
Context {C X : Type} `{ActionLaws C X}.

(** The HTTP protocol with its configuration. *)
#[export] Instance http_protocol : ServerProtocol (HttpProtocolCfg C * HttpProtocol X) := {
  Protocol_Start name ls := fun '(w, (cfg, p)) =>
    let '(r, (w, p)) := Lifecycle.Protocol_Start cfg name (map fst ls) (w, p) in (r, (w, (cfg, p)));
  Protocol_Stop := fun '(w, (cfg, p)) =>
    let '(r, (w, p)) := Lifecycle.Protocol_Stop (w, p) in (r, (w, (cfg, p)));
  Protocol_RotateLogFiles := fun '(w, (cfg, p)) =>
    let '(r, (w, p)) := RotateLogFiles (w, p) in (r, (w, (cfg, p)))
}.

Definition http_idle (cp : HttpProtocolCfg C * HttpProtocol X) : Prop :=
  (hpc_AccessLogger (fst cp) = None -> hp_accessLogger (snd cp) = None)
  /\ Forall cfg_completes (hpc_Handlers (fst cp)).

Definition http_runs (cp : HttpProtocolCfg C * HttpProtocol X) : Prop :=
  http_idle cp /\ Forall handler_ready (hp_handlers (snd cp)) /\ log_ready (hp_accessLogger (snd cp)).

(** It is stopped once: [stopChan] is made by [NewProtocol]. *)
Definition http_stoppable (cp : HttpProtocolCfg C * HttpProtocol X) : bool := negb (hp_stopClosed (snd cp)).

#[export] Instance http_protocol_laws : ProtocolLaws (HttpProtocolCfg C * HttpProtocol X).
Proof using Type H.
  refine {| protocol_idle := http_idle; protocol_runs := http_runs; protocol_stoppable := http_stoppable;
            protocol_owns := fun cp => Lifecycle.protocol_owns (snd cp); protocol_sockets := fun _ => [] |}.
  - intros name ls w [cfg p] (Hlog & Hcfg). cbn [Protocol_Start http_protocol fst snd] in *.
    pose proof (Protocol_Start_spec cfg name (map fst ls) w p Hcfg Hlog) as Hs.
    destruct (Lifecycle.Protocol_Start cfg name (map fst ls) (w, p)) as [[[]|e| |] [w' p']]; try done.
    + destruct Hs as ([Hh Hr Hl] & Hc & _ & Hnone). cbn [fst snd] in *. split; [done|]. split; [done|].
      split; [by intros r ?%not_elem_of_nil|]. unfold http_stoppable. cbn [snd]. by rewrite Hc.
    + destruct Hs as (Hs & Hc & Hnone). cbn [fst snd] in *. split; [done|]. split; [done|].
      unfold http_stoppable. cbn [snd]. by rewrite Hc.
  - intros w [cfg p] K ((Hlog & Hcfg) & Hr & Hl) Hst _ Hw. cbn [Protocol_Stop http_protocol].
    apply negb_true_iff in Hst.
    destruct (Lifecycle.Protocol_Stop_spec K (w, p)) as ([w' p'] & -> & Hheld & _ & _ & Hsame); [by constructor|done|].
    exists w', (cfg, p'). split; [done|]. split; [done|]. split; [|done]. cbn [fst snd] in *. by rewrite Hsame.
  - intros w [cfg p] _ Hst%negb_false_iff. cbn [Protocol_Stop http_protocol snd] in *.
    unfold Lifecycle.Protocol_Stop. by rewrite Hst.
  - intros w [cfg p] K ((Hlog & Hcfg) & Hr & Hl) Hw. cbn [Protocol_RotateLogFiles http_protocol].
    destruct (RotateLogFiles_keeps K (w, p)) as ([w' p'] & -> & [Hw' Hr' Hl'] & Hc & Hnames); [by constructor|].
    exists w', (cfg, p'). cbn [snd fst] in *. split; [done|]. split; [|split; [done|split; [done|]]].
    + split; [|done]. split; [|done]. cbn [fst snd]. intros Hn. specialize (Hlog Hn). injection Hnames as Hn' _.
      rewrite Hlog in Hn'. by destruct (hp_accessLogger p').
    + unfold http_stoppable. cbn [snd]. by rewrite Hc.
Defined.
End http.

(** The TCP protocol, for which [TcpRelay] has the connections: a goroutine for each
    listener, which returns when the socket it accepts on is closed. *)
Definition TcpObject : Type := list (Resource * Resource).

Fixpoint tcp_listen (sockets : list Resource) : ST World TcpObject :=
  match sockets with
  | [] => mret []
  | socket :: sockets' =>
      g ← acquire ServeGoroutine [];
      gs ← tcp_listen sockets';
      mret ((socket, g) :: gs)
  end.

Definition tcp_wait (x : Resource * Resource) : ST World unit :=
  closed ← gets (fun w => bool_decide (fst (fst x) ∈ closed_sockets w));
  await closed (snd x).

#[export] Instance tcp_protocol : ServerProtocol TcpObject := {
  Protocol_Start name ls := fun '(w, p) =>
    let '(r, w) := tcp_listen (map snd ls) w in
    match r with
    | Ret gs => (Ret tt, (w, gs))
    | Throw e => (Throw e, (w, p))
    | Panic => (Panic, (w, p))
    | OutOfFuel => (OutOfFuel, (w, p))
    end;
  Protocol_Stop := fun '(w, gs) => let '(r, w) := stop_each tcp_wait gs w in (r, (w, gs));
  Protocol_RotateLogFiles := mret tt
}.

Definition tcp_owns (gs : TcpObject) : gmultiset Resource := owns_all (fun x => {[+ snd x +]}) gs.

Lemma tcp_listen_holds sockets w :
  exists gs w', tcp_listen sockets w = (Ret gs, w') /\ held w' = tcp_owns gs ⊎ held w /\ map fst gs = sockets.
Proof.
  revert w. induction sockets as [|socket sockets IH]; intros w.
  { exists [], w. split; [done|]. split; [|done]. exact (eq_sym (left_id_L ∅ (⊎) (held w))). }
  set (g := (next_id w, (ServeGoroutine, [] : gostring))).
  set (w1 := (acquire ServeGoroutine [] w).2). assert (held w1 = {[+ g +]} ⊎ held w) as Hw1 by done.
  destruct (IH w1) as (gs & w2 & E2 & Hw2 & Hs). exists ((socket, g) :: gs), w2. cbn [tcp_listen].
  rewrite (st_bind_ret (acquire ServeGoroutine []) _ w g w1) by reflexivity.
  rewrite (st_bind_ret _ _ _ _ _ E2). split; [done|]. cbn [map fst]. rewrite Hs. split; [|done].
  unfold tcp_owns in *. cbn [owns_all snd]. rewrite Hw2, Hw1. by rewrite !(assoc_L (⊎)), (comm_L (⊎) (owns_all _ _)).
Qed.

(** Once the listeners are closed, the goroutines end. *)
Lemma tcp_waits_return (gs : TcpObject) w K :
  (forall r, r ∈ map fst gs -> fst r ∈ closed_sockets w) -> held w = tcp_owns gs ⊎ K ->
  exists w', stop_each tcp_wait gs w = (Ret tt, w') /\ held w' = K.
Proof.
  revert w. induction gs as [|[socket g] gs IH]; intros w Hc Hw.
  { exists w. split; [done|]. rewrite Hw. exact (left_id_L ∅ (⊎) K). }
  cbn [stop_each]. destruct (await_closes g w (tcp_owns gs ⊎ K)) as (w1 & E1 & Hw1).
  { rewrite Hw. unfold tcp_owns. cbn [owns_all snd]. by rewrite (assoc_L (⊎)). }
  assert (tcp_wait (socket, g) w = (Ret tt, w1)) as E.
  { unfold tcp_wait. erewrite st_bind_ret by reflexivity. cbn [fst snd].
    rewrite bool_decide_true by (apply Hc; by left). exact E1. }
  rewrite (st_bind_ret _ _ _ _ _ E). apply IH; [|done]. injection E1 as <-. intros r Hr. apply Hc. by right.
Qed.

#[export] Instance tcp_protocol_laws : ProtocolLaws TcpObject.
Proof.
  refine {| protocol_idle := fun _ => True; protocol_runs := fun _ => True; protocol_stoppable := fun _ => true;
            protocol_owns := tcp_owns; protocol_sockets := map fst |}.
  - intros name ls w p _. cbn [Protocol_Start tcp_protocol].
    destruct (tcp_listen_holds (map snd ls) w) as (gs & w' & -> & Hw & Hs). by rewrite Hs.
  - intros w gs K _ _ Hc Hw. cbn [Protocol_Stop tcp_protocol].
    destruct (tcp_waits_return gs w K Hc Hw) as (w' & -> & Hw'). by exists w', gs.
  - done.
  - intros w gs K _ Hw. by exists w, gs.
Defined.

(** ** The build identifier (version.go)

    The expression buildIdRE is a v, a first part, and an optional suffix made of a dash,
    digits, a dash and the rest; the first part is the shortest one, of at least a byte,
    that is followed by the end or by a suffix; a dot matches no line feed. *)

Fixpoint take_digits (s : gostring) : gostring * gostring :=
  match s with
  | c :: s' => if is_digit c then let '(ds, rest) := take_digits s' in (c :: ds, rest) else ([], s)
  | [] => ([], [])
  end.

(** The suffix, a dash, digits, a dash and the rest: its two groups. *)
Definition build_suffix (s : gostring) : option (gostring * gostring) :=
  match s with
  | c :: s' =>
      if bool_decide (c = "-"%char) then
        match take_digits s' with
        | (d :: ds, c' :: rest) =>
            if bool_decide (c' = "-"%char) && forallb (fun x => negb (bool_decide (x = "010"%char))) rest
            then Some (d :: ds, rest) else None
        | _ => None
        end
      else None
  | [] => None
  end.

(** The groups of the match of what follows [v], [pre] being the first part so far. *)
Fixpoint match_build (pre rest : gostring) : option (list gostring) :=
  match rest with
  | [] => if bool_decide (pre = []) then None else Some [pre; []; []; []]
  | c :: rest' =>
      match (if bool_decide (pre = []) then None else build_suffix rest) with
      | Some (n, hash) => Some [pre; rest; n; hash]
      | None => if bool_decide (c = "010"%char) then None else match_build (pre ++ [c]) rest'
      end
  end.

(** [buildIdRE.FindStringSubmatch]: the whole match and the four groups. *)
Definition FindStringSubmatch (s : gostring) : option (list gostring) :=
  match s with
  | c :: s' => if bool_decide (c = "v"%char) then cons s <$> match_build [] s' else None
  | [] => None
  end.

(** [Version] *)
Definition Version (buildId : gostring) : outcome gostring :=
  match FindStringSubmatch buildId with
  | None => Throw (Errorf "invalid build id format"%go)
  | Some matches =>
      if len matches =? 2 then Ret (nth 1 matches [])
      else Ret (nth 1 matches [] ++ "-"%go ++ nth 3 matches [])
  end.

Lemma match_build_length pre rest gs : match_build pre rest = Some gs -> length gs = 4%nat.
Proof.
  revert pre. induction rest as [|c rest IH]; intros pre; cbn [match_build].
  { destruct (bool_decide _); [done|]. by intros [= <-]. }
  destruct (if bool_decide _ then _ else _) as [[n hash]|]; [by intros [= <-]|].
  destruct (bool_decide _); [done|]. apply IH.
Qed.

(** A match always has its four groups: a version has a dash even without suffix. *)
Lemma Version_completed buildId : completed (Version buildId).
Proof. unfold Version. destruct (FindStringSubmatch buildId); [by case_match|done]. Qed.

Lemma Version_dash buildId s : Version buildId = Ret s -> "-"%char ∈ s.
Proof.
  unfold Version. destruct (FindStringSubmatch buildId) as [gs|] eqn:E; [|done].
  unfold FindStringSubmatch in E. destruct buildId as [|c s']; [done|]. destruct (bool_decide _); [|done].
  destruct (match_build [] s') as [gs'|] eqn:Em; [|done]. injection E as <-. apply match_build_length in Em.
  unfold len. cbn [length]. rewrite Em. cbn [Z.of_nat Z.eqb]. change (Z.of_nat 5 =? 2) with false. cbv iota.
  intros [= <-]. apply elem_of_app. right. by left.
Qed.

Example Version_release : Version "v1.0.0"%go = Ret "1.0.0-"%go /\ Version "v1.0.0-12-gab"%go = Ret "1.0.0-12"%go.
Proof. vm_compute. split; reflexivity. Qed.

(** ** Witnesses and examples *)

Abbreviation TcpService := (Service TcpObject) (only parsing).

Definition plain_listener (address : gostring) : ListenerCfg := mkListenerCfg address None false.

Definition example_backends : list HostAddress :=
  [mkHostAddress "a"%go [] 80; mkHostAddress "b"%go [] 80].

Definition example_probe : HealthProbeCfg := mkProbeCfg 5 1 1 true None.

Definition example_servers : list ServerCfg :=
  [mkServerCfg "a"%go [plain_listener "127.0.0.1:80"%go]; mkServerCfg "b"%go [plain_listener ":443"%go]].

Definition example_cfg_of (n : gostring) : ServerCfg := mkServerCfg n [plain_listener ":80"%go].

Definition example_protos : gmap gostring TcpObject := <["a"%go := []]> (<["b"%go := []]> ∅).

Definition example_service (fs : list (option error)) : TcpService :=
  mkService (no_world fs) example_protos ∅ ∅ None false.

Lemma example_servers_new fs cfg :
  cfg ∈ example_servers -> exists p, protos (example_service fs) !! sc_Name cfg = Some p /\ protocol_new p.
Proof.
  intros Hc. exists []. split; [|done].
  apply elem_of_cons in Hc as [-> | Hc]; [vm_compute; reflexivity|].
  apply list_elem_of_singleton in Hc as ->. vm_compute. reflexivity.
Qed.

(** The port of the second server is in use: the first one is stopped. *)
Lemma startServers_all_or_none_witness :
  let in_use := [None; Some (Errorf "address already in use"%go)] in
  let s := example_service in_use in
  fst (startServers example_servers s)
  = Throw (Wrapf "cannot start server"%go (Wrapf "cannot start listener"%go
      (Wrapf "cannot create TCP listener"%go (Errorf "address already in use"%go))))
  /\ servers (snd (startServers example_servers s)) = ∅
  /\ exists L, no_socket L /\ sv_held (snd (startServers example_servers s)) = L ⊎ sv_held s.
Proof.
  intros in_use s. pose proof (startServers_all_or_none example_servers s (example_servers_new in_use)) as Hs.
  destruct (startServers example_servers s) as [r s'] eqn:E.
  assert (r = Throw (Wrapf "cannot start server"%go (Wrapf "cannot start listener"%go
      (Wrapf "cannot create TCP listener"%go (Errorf "address already in use"%go))))) as ->.
  { change r with (fst (r, s')). rewrite <- E. vm_compute. reflexivity. }
  split; [reflexivity|]. exact Hs.
Defined.

Definition example_cfg : ServiceCfg :=
  mkServiceCfg false None (Some (mkControlCfg "/run/boulevard.sock"%go (example_log "/log/api"%go))) ":6060"%go
    [mkBalancerCfg "lb"%go example_backends (Some example_probe)] example_servers.

(** A TCP server fails and is started again before the stop; the access log of the control
    API is left open. *)
Lemma service_gives_back_witness :
  exists s0 s1 s2 s3 s4 L, NewService example_cfg example_protos (no_world []) = (Ret tt, s0)
    /\ Service_Start example_cfg s0 = (Ret tt, s1)
    /\ stopServer "a"%go s1 = (Ret tt, s2)
    /\ startServer (mkServerCfg "a"%go [plain_listener "127.0.0.1:80"%go]) s2 = (Ret tt, s3)
    /\ Service_Stop ["b"%go; "a"%go] ["lb"%go] s3 = (Ret tt, s4)
    /\ servers s4 = ∅ /\ loadBalancers s4 = ∅ /\ map snd (elements (control_log s0)) = [(LogFile, "/log/api"%go)]
    /\ pprof_holds ":6060"%go L /\ sv_held s4 = ∅ ⊎ (L ⊎ (control_log s0 ⊎ ∅)).
Proof.
  destruct (NewService example_cfg example_protos (no_world [])) as [r s0] eqn:E0.
  assert (r = Ret tt) as -> by (change r with (fst (r, s0)); rewrite <- E0; vm_compute; reflexivity).
  assert (s0 = snd (NewService example_cfg example_protos (no_world []))) as H0 by (by rewrite E0).
  destruct (Service_Start example_cfg s0) as [r s1] eqn:E1.
  assert (r = Ret tt) as -> by (change r with (fst (r, s1)); rewrite <- E1, H0; vm_compute; reflexivity).
  assert (s1 = snd (Service_Start example_cfg s0)) as H1 by (by rewrite E1). rewrite H0 in H1.
  destruct (stopServer "a"%go s1) as [r s2] eqn:E2.
  assert (r = Ret tt) as -> by (change r with (fst (r, s2)); rewrite <- E2, H1; vm_compute; reflexivity).
  assert (s2 = snd (stopServer "a"%go s1)) as H2 by (by rewrite E2). rewrite H1 in H2.
  destruct (startServer (mkServerCfg "a"%go [plain_listener "127.0.0.1:80"%go]) s2) as [r s3] eqn:E3.
  assert (r = Ret tt) as -> by (change r with (fst (r, s3)); rewrite <- E3, H2; vm_compute; reflexivity).
  assert (s3 = snd (startServer (mkServerCfg "a"%go [plain_listener "127.0.0.1:80"%go]) s2)) as H3 by (by rewrite E3).
  rewrite H2 in H3.
  assert ((map fst (map_to_list (servers s3)), map fst (map_to_list (loadBalancers s3)))
          = (["b"%go; "a"%go], ["lb"%go])) as Hd by (rewrite H3; vm_compute; reflexivity).
  injection Hd as Hd1 Hd2.
  assert (is_Some (servers s1 !! "a"%go)) as Ha by (rewrite H1; vm_compute; by eexists).
  assert (rtc (service_event (sv_Servers example_cfg)) (s1, no_history)
            (s3, mkHistory (({["a"%go]} ∪ ∅) ∖ {["a"%go]}) ["a"%go] [])) as Hev.
  { apply rtc_l with (s2, mkHistory ({["a"%go]} ∪ ∅) [] []); [exact (server_failed _ _ _ _ _ Ha E2)|].
    apply rtc_once. refine (server_restarted _ (mkServerCfg "a"%go _) _ _ _ _ _ E3).
    - left.
    - cbn. set_solver. }
  destruct (service_gives_back example_cfg example_protos (no_world []) s0 s1 s3 _ ["b"%go; "a"%go] ["lb"%go]
    (example_servers_new []) E0 E1 Hev) as [Hgives _].
  { intros n [x Hn]. rewrite <- Hd1. apply elem_of_map_to_list in Hn. apply list_elem_of_fmap. exists (n, x). split; [reflexivity|exact Hn]. }
  { intros n [x Hn]. rewrite <- Hd2. apply elem_of_map_to_list in Hn. apply list_elem_of_fmap. exists (n, x). split; [reflexivity|exact Hn]. }
  destruct Hgives as (s4 & L & R & E4 & HL & _ & HR & Hs & Hl & Hheld).
  { intros n _. unfold server_stoppable. by destruct (protos s3 !! n). }
  exists s0, s1, s2, s3, s4, L. split; [reflexivity|]. split; [exact E1|]. split; [exact E2|]. split; [exact E3|].
  split; [exact E4|]. split; [exact Hs|]. split; [exact Hl|]. split; [rewrite H0; vm_compute; reflexivity|].
  split; [exact HL|]. rewrite (HR eq_refl) in Hheld. exact Hheld.
Defined.

(** A server with the goroutine that watches it. *)
Lemma watched_one (s s' : TcpService) cfg :
  startServer cfg s = (Ret tt, s') -> servers s = ∅ -> watched (servers s') {[0%nat := (sc_Name cfg, Watching)]}.
Proof.
  intros (_ & Hn & ls & ->)%startServer_servers Hs. rewrite Hs. constructor.
  - intros t1 t2 n p1 p2. rewrite !lookup_singleton_Some. by intros [<- _] [<- _].
  - intros t n ph. rewrite lookup_singleton_Some. intros [<- [= <- <-]]. rewrite lookup_insert_eq.
    split; [by eexists|by left].
  - intros n [x Hx]. apply lookup_insert_Some in Hx as [[<- _]|[_ Hx]]; [|by rewrite lookup_empty in Hx].
    exists 0%nat, Watching. apply lookup_singleton_eq.
Qed.

(** The server fails and is stopped; it will be started again. *)
Lemma failing_servers_handled_witness :
  exists s0 s, startServer (example_cfg_of "a"%go) (example_service []) = (Ret tt, s0)
    /\ stopServer "a"%go s0 = (Ret tt, s)
    /\ rtc (error_step example_cfg_of) (s0, {[0%nat := ("a"%go, Watching)]}) (s, {[0%nat := ("a"%go, Restarting)]})
    /\ servers s !! "a"%go = None.
Proof.
  destruct (startServer (example_cfg_of "a"%go) (example_service [])) as [r s0] eqn:E0.
  assert (r = Ret tt) as -> by (change r with (fst (r, s0)); rewrite <- E0; vm_compute; reflexivity).
  destruct (stopServer "a"%go s0) as [r s] eqn:E1.
  assert (r = Ret tt) as ->.
  { change r with (fst (r, s)). rewrite <- E1. change s0 with (snd (Ret tt : outcome unit, s0)). rewrite <- E0.
    vm_compute. reflexivity. }
  pose proof (watched_one _ _ _ E0 eq_refl) as Hw. pose proof (startServer_servers _ _ _ _ E0) as (Hopen & _ & ls & Hls).
  pose proof (stopServer_servers _ _ _ E1) as (_ & Hopen1).
  set (th ph := {[0%nat := ("a"%go : gostring, ph)]} : gmap nat (gostring * ErrPhase)).
  assert (forall ph, th ph !! 0%nat = Some ("a"%go, ph)) as Hth by (intros ph; apply lookup_singleton_eq).
  assert (forall ph ph', <[0%nat := ("a"%go, ph')]> (th ph) = th ph') as Hins
    by (intros ph ph'; apply insert_singleton_eq).
  assert (rtc (error_step example_cfg_of) (s0, th Watching) (s, th Restarting)) as Hrun.
  { apply rtc_l with (s0, th Handling). { rewrite <- (Hins Watching Handling). apply err_fatal; [apply Hth| |exact Hopen].
      rewrite Hls. rewrite lookup_insert_eq. by eexists. }
    apply rtc_l with (s, th Waiting). { rewrite <- (Hins Handling Waiting). apply err_handle with (n := "a"%go); [apply Hth|].
      unfold handle_locked, mbind, st_bind, gets. rewrite Hls, lookup_insert_eq. exact E1. }
    apply rtc_l with (s, th Restarting). { rewrite <- (Hins Waiting Restarting). apply err_timer, Hth. }
    apply rtc_refl. }
  destruct (failing_servers_handled example_cfg_of (fun n => eq_refl) s0 (th Watching) s (th Restarting) Hw Hrun
              (eq_trans Hopen1 Hopen)) as (_ & _ & Hrestart).
  exists s0, s. split; [reflexivity|]. split; [exact E1|]. split; [exact Hrun|]. exact (Hrestart 0%nat "a"%go (Hth _)).
Defined.

(** A failing server and a stop of the service, interleaved: when the service stops after
    the error was received, the handler of the error finds no server and panics; when it
    stops after the timer of a restart, the server is started after the stop, and stays. *)
Section interleaved.
Context {P : Type} `{!ServerProtocol P} (n : gostring).
Let cfg_of (m : gostring) : ServerCfg := example_cfg_of m.
Let step := error_step (P := P) cfg_of.

Lemma handler_after_stop s s' :
  sv_stopClosed s = false -> is_Some (servers s !! n) -> stopServers [n] (set_stop true s) = (Ret tt, s') ->
  rtc step (s, {[0%nat := (n, Watching)]}) (s', {[0%nat := (n, Handling)]})
  /\ (sv_stopClosed s' = true /\ handle_locked n s' = (Panic, s')).
Proof using Type.
  intros Hopen Hn Hstop.
  assert (step (set_stop true s, {[0%nat := (n, Handling)]}) (s', {[0%nat := (n, Handling)]})) as Hlast
    by exact (err_stopServers cfg_of [n] (set_stop true s) _ _ eq_refl Hstop).
  split.
  - apply rtc_l with (s, {[0%nat := (n, Handling)]}).
    { rewrite <- (insert_singleton_eq (M := gmap nat) 0%nat (n, Handling) (n, Watching)).
      apply err_fatal; [apply lookup_singleton_eq|done|done]. }
    apply rtc_l with (set_stop true s, {[0%nat := (n, Handling)]}); [by apply err_stop|]. by apply rtc_once.
  - split; [by apply (error_step_stop cfg_of _ _ Hlast)|].
    unfold stopServers in Hstop. cbn [stop_each] in Hstop. unfold mbind, st_bind in Hstop.
    destruct (stopServer n (set_stop true s)) as [[[]|e| |] s1] eqn:E; try done. injection Hstop as <-.
    apply stopServer_servers in E as [E _]. unfold handle_locked, mbind, st_bind, gets. by rewrite E, lookup_delete_eq.
Qed.

Lemma restart_after_stop s s' :
  sv_stopClosed s = false -> startServer (cfg_of n) (set_stop true s) = (Ret tt, s') ->
  rtc step (s, {[0%nat := (n, Restarting)]}) (s', {[0%nat := (n, Watching)]})
  /\ (sv_stopClosed s' = true /\ is_Some (servers s' !! n)).
Proof using Type.
  intros Hopen Hstart. split.
  - apply rtc_l with (set_stop true s, {[0%nat := (n, Restarting)]}); [by apply err_stop|]. apply rtc_once.
    pose proof (err_restarted cfg_of 0%nat 0%nat n _ _ _ (lookup_singleton_eq (M := gmap nat) 0%nat (n, Restarting))
                  (lookup_delete_eq _ _) Hstart) as Hr.
    by rewrite delete_singleton_eq in Hr.
  - apply startServer_servers in Hstart as (-> & _ & ls & ->). split; [done|]. rewrite lookup_insert_eq. by eexists.
Qed.

(** A restart that fails is not tried again: the server stays out of the table. *)
Lemma failed_restart_abandoned s s' e :
  startServer (cfg_of n) s = (Throw e, s') ->
  step (s, {[0%nat := (n, Restarting)]}) (s', ∅) /\ servers s' = servers s.
Proof using Type.
  intros Hstart. split.
  - pose proof (err_abandoned cfg_of 0%nat n e _ _ _ (lookup_singleton_eq (M := gmap nat) 0%nat (n, Restarting)) Hstart) as Hr.
    by rewrite delete_singleton_eq in Hr.
  - by apply startServer_servers in Hstart as [_ ->].
Qed.
End interleaved.

#[local] Existing Instance ascii_only.
#[local] Existing Instance Lifecycle.map_order.

Abbreviation HttpService := (Service (HttpProtocolCfg BuiltinCfg * HttpProtocol UnitAction)) (only parsing).

Definition example_http_service : HttpService :=
  mkService (no_world [])
    {["www"%go := (mkHttpCfg None [plain_handler None (Ret tt) []], NewProtocol TLSHandlingAccept false)]}
    ∅ ∅ None false.

(** An HTTP server is started, fails, is started again, and its second failure, as the
    stop of the service, closes a closed channel. *)
Example restarted_server_panics :
  let run := startServer (example_cfg_of "www"%go) in
  fst ((_ ← run; stopServer "www"%go) example_http_service) = Ret tt
  /\ fst ((_ ← run; _ ← stopServer "www"%go; run) example_http_service) = Ret tt
  /\ fst ((_ ← run; _ ← stopServer "www"%go; _ ← run; stopServer "www"%go) example_http_service) = Panic
  /\ fst ((_ ← run; _ ← stopServer "www"%go; _ ← run; Service_Stop ["www"%go] []) example_http_service) = Panic.
Proof. vm_compute. repeat split. Qed.

(** A service that starts no server leaves its load balancers running, and its control API
    cannot be stopped. *)
Example failed_service_start :
  let cfg := mkServiceCfg false None (Some (mkControlCfg "/run/boulevard.sock"%go None)) []
               [mkBalancerCfg "lb"%go (take 1 example_backends) (Some example_probe)]
               [mkServerCfg "a"%go [plain_listener "127.0.0.1:0"%go]] in
  let s := snd (Service_Start cfg (snd (NewService cfg example_protos (no_world [])))) in
  let names (s : TcpService) := map snd (elements (sv_held s)) in
  fst (Service_Start cfg (snd (NewService cfg example_protos (no_world []))))
  = Throw (Wrapf "cannot start server"%go (Wrapf "cannot start listener"%go (Errorf "invalid port"%go)))
  /\ names s = [(ProbeGoroutine, [])] /\ fst (Service_Stop [] ["lb"%go] s) = Panic.
Proof. vm_compute. repeat split. Qed.
