(* ===== verification/HttpViews.v ===== *)
(** * Views and the status action (pkg/boulevard/templates.go; pkg/protocols/http: view.go,
      action_status.go, request_context.go)

    The templates of a file system, the view that renders data as JSON, text or HTML,
    and the action that shows the status of the servers.  The template packages and
    [encoding/json] are parameters. *)

From S2P Require Import Prelude GoStrings HttpHeader FormatString HttpPath HttpMedia HttpContext HttpAuth HttpHandler.
From S2P Require Import HttpServer HttpActions.

(** ** The functions of the templates *)

(** A rune is the text that encodes it; the size of a slice that is made is not negative. *)
Definition charString (c : gostring) (n : Z) : outcome gostring :=
  if n <? 0 then Panic else Ret (concat (repeat c (Z.to_nat n))).

Definition sum (ns : list Z) : Z := foldl (fun total i => i64 (total + i)) 0 ns.

Lemma sum_exact ns : Forall (fun i => 0 <= i) ns -> foldr Z.add 0 ns < 2 ^ 63 -> sum ns = foldr Z.add 0 ns.
Proof.
  intros Hi Hb. unfold sum.
  assert (forall acc, 0 <= acc -> acc + foldr Z.add 0 ns < 2 ^ 63 ->
            foldl (fun total i => i64 (total + i)) acc ns = acc + foldr Z.add 0 ns) as Hacc.
  2: { by rewrite Hacc. }
  clear Hb. induction Hi as [|i ns Hi His IH]; intros acc Ha Hb; cbn [foldl foldr] in *; [lia|].
  assert (0 <= foldr Z.add 0 ns) by (clear -His; induction His; cbn; lia).
  rewrite i64_small by lia. rewrite IH by lia. lia.
Qed.

(** ** Sorted names *)

(** [slices.Sorted(maps.Keys(table))] and the lookup of each key. *)
Definition sorted_values {V} (table : gmap gostring V) : list V :=
  omap (fun name : gostring => table !! name) (merge_sort string_le (map fst (map_to_list table))).

Lemma sorted_values_spec {V} (table : gmap gostring V) :
  exists names, StronglySorted string_le names /\ NoDup names
    /\ (forall n, n ∈ names <-> is_Some (table !! n))
    /\ Forall2 (fun n v => table !! n = Some v) names (sorted_values table).
Proof.
  set (names := merge_sort string_le (map fst (map_to_list table))).
  assert (names ≡ₚ map fst (map_to_list table)) as Hp by apply merge_sort_Permutation.
  assert (forall n, n ∈ names <-> is_Some (table !! n)) as Hin.
  { intros n. rewrite Hp. unfold is_Some. split.
    - intros ([n' v] & -> & Hv)%list_elem_of_fmap. exists v. by apply elem_of_map_to_list.
    - intros [v Hv]. apply list_elem_of_fmap. exists (n, v). split; [done|]. by apply elem_of_map_to_list. }
  exists names. split; [apply Sorted_StronglySorted; [apply _|apply (Sorted_merge_sort _)]|].
  split; [rewrite Hp; apply NoDup_fst_map_to_list|]. split; [exact Hin|].
  unfold sorted_values. fold names. assert (forall n, n ∈ names -> is_Some (table !! n)) as Hall by (intros n; apply Hin).
  clearbody names. clear -Hall. induction names as [|n names IH]; [constructor|]. cbn [omap list_omap].
  destruct (Hall n ltac:(by left)) as [v Hv]. rewrite Hv. constructor; [done|]. apply IH. intros n' Hn. apply Hall. by right.
Qed.

(** ** Logging the variables of a request *)

Class GoRunes := { RuneCountInString : gostring -> nat }.

(** The verb [%-*s]. *)
Definition pad_right `{GoRunes} (width : nat) (s : gostring) : gostring :=
  s ++ repeat " "%char (width - RuneCountInString s).

(** [RequestContext.LogVariables]: what it logs. *)
Definition variable_lines `{GoRunes} (vs : vars) : list gostring :=
  let keys := merge_sort string_le (map fst (map_to_list vs)) in
  let width := foldr (fun key w => Nat.max (length key) w) 0%nat keys in
  map (fun key : gostring => "  "%go ++ pad_right width key ++ "  "%go ++ default [] (vs !! key)) keys.

Definition LogVariables `{GoRunes} (vs : vars) : gostring := "variables:"%go ++ newline :: Join (variable_lines vs) [newline].

(** ** JSON replies *)

(** [json.MarshalIndent] for the values of a type. *)
Class GoJSON (D : Type) := { MarshalIndent : D -> outcome gostring }.

Definition line_feed : gostring := ["010"%char].
Definition json_type : gostring := MediaType_String MediaTypeJSON.

Section reply_json.
Context {W A : Type} `{HttpWriter W, GoUnicode, GoText}.

(** [RequestContext.ReplyJSON] of a value that is not nil. *)
Definition ReplyJSON {D} `{!GoJSON D} (status : Z) (value : D) : ST (RequestContext W A) unit :=
  match MarshalIndent value with
  | Ret data =>
      _ ← change_header (fun h => Header_Set h "Content-Type"%go json_type);
      _ ← on_writer (rw_WriteHeader status);
      copy_body [data ++ line_feed]
  | Throw _ => ReplyError 500
  | Panic => lift Panic
  | OutOfFuel => lift OutOfFuel
  end.
End reply_json.

(** ** Templates *)

(** What [fs.WalkDir] says of a file or directory, in its order: its path, an error, and
    what opening and reading it give. *)
Record WalkEntry := mkWalk {
  we_Path : gostring;
  we_Error : option error;
  we_IsDir : bool;
  we_Open : option error;
  we_ReadAll : outcome gostring
}.

Definition HasSuffix (s suffix : gostring) : bool :=
  (len suffix <=? len s) && bool_decide (drop (length s - length suffix) s = suffix).

Section walk.
Context {S : Type} (suffix : gostring) (fn : gostring -> gostring -> ST S unit).

(** The function [walkFS] gives to [fs.WalkDir]. *)
Definition walk_entry (e : WalkEntry) : ST S unit :=
  match we_Error e with
  | Some err => throw err
  | None =>
      if we_IsDir e then mret tt
      else if negb (HasSuffix (we_Path e) suffix) then mret tt
      else
        let filename := take (length (we_Path e) - length suffix) (we_Path e) in
        match we_Open e with
        | Some err => throw (Wrapf "cannot open"%go err)
        | None =>
            data ← wrapST "cannot read"%go (lift (we_ReadAll e));
            fn filename data
        end
  end.

(** [walkFS] *)
Fixpoint walkFS (entries : list WalkEntry) : ST S unit :=
  match entries with
  | [] => mret tt
  | e :: entries' => _ ← walk_entry e; walkFS entries'
  end.
End walk.

Inductive TemplateKind := TextTemplates | HTMLTemplates.

(** Sets of templates of [text/template] and [html/template]. *)
Class GoTemplates := {
  Templates : Type;
  tpl_New : TemplateKind -> Templates;
  tpl_Parse : gostring -> gostring -> Templates -> outcome Templates
}.

(** [ExecuteTemplate] for the values of a type. *)
Class GoExecute `{GoTemplates} (D : Type) := {
  ExecuteTemplate : Templates -> gostring -> D -> outcome gostring
}.

Section templates.
Context `{GoTemplates}.

Definition template_suffix (kind : TemplateKind) : gostring :=
  match kind with TextTemplates => ".txt.gotpl"%go | HTMLTemplates => ".html.gotpl"%go end.

(** [tpl.Parse] of a new template of the set. *)
Definition parse_template (filename data : gostring) : ST Templates unit := fun tpl =>
  match tpl_Parse filename data tpl with
  | Ret tpl => (Ret tt, tpl)
  | Throw err => (Throw (Wrapf "cannot parse template"%go err), tpl)
  | Panic => (Panic, tpl)
  | OutOfFuel => (OutOfFuel, tpl)
  end.

(** [LoadTextTemplates], [LoadHTMLTemplates]: the patterns are not used. *)
Definition LoadTemplates (kind : TemplateKind) (filesystem : list WalkEntry) : outcome Templates :=
  let '(r, tpl) := walkFS (template_suffix kind) parse_template filesystem (tpl_New kind) in
  _ ← r; Ret tpl.

Record View := mkView {
  TemplateDirectory : gostring;
  textTemplates : Templates;
  htmlTemplates : Templates
}.

(** [NewView], with [View.Load]. *)
Definition NewView (templateFS : list WalkEntry) (tplDir : gostring) : outcome View :=
  text ← wrap_error "cannot load text templates"%go (LoadTemplates TextTemplates templateFS);
  html ← wrap_error "cannot load HTML templates"%go (LoadTemplates HTMLTemplates templateFS);
  Ret (mkView tplDir text html).

(** [path.Join(v.TemplateDirectory, kind, tplName)] *)
Definition template_path (v : View) (kind tplName : gostring) : gostring :=
  path_Join (TemplateDirectory v) (kind ++ [slash] ++ tplName).

Context {D : Type} `{!GoJSON D, !GoExecute D}.

Definition renderJSON (data : D) : outcome gostring := content ← MarshalIndent data; Ret (content ++ line_feed).
Definition renderText (v : View) (tplName : gostring) (data : D) : outcome gostring :=
  ExecuteTemplate (textTemplates v) (template_path v "text"%go tplName) data.
Definition renderHTML (v : View) (tplName : gostring) (data : D) : outcome gostring :=
  ExecuteTemplate (htmlTemplates v) (template_path v "html"%go tplName) data.

Definition statusMediaTypes : list MediaType := [MediaTypeText; MediaTypeHTML; MediaTypeJSON].

(** [View.Render]: a function that was not chosen is nil. *)
Definition Render {W A} `{GoUnicode, GoFloats, GoSort} (v : View) (tplName : gostring) (data : D)
  (ctx : RequestContext W A) : outcome gostring :=
  t ← context_NegotiateMediaType (Header_Get (Req_Header (Ctx_Request ctx)) "Accept"%go) statusMediaTypes;
  if bool_decide (t = MediaTypeJSON) then renderJSON data
  else if bool_decide (t = MediaTypeText) then renderText v tplName data
  else if bool_decide (t = MediaTypeHTML) then renderHTML v tplName data
  else Panic.
End templates.

(** ** The status action *)

Section status.
Context {W A St : Type} `{HttpWriter W, GoUnicode, GoText, GoFloats, GoSort, GoTemplates}.
Context `{!GoJSON (list St), !GoExecute (list St)}.

(** [StatusAction.HandleRequest], for the table [ServerStatuses] gives. *)
Definition StatusAction_HandleRequest (view : View) (statusTable : gmap gostring St)
  : ST (RequestContext W A) unit :=
  let statuses := sorted_values statusTable in
  content ← gets (Render view "status"%go statuses);
  match content with
  | Ret content => Reply 200 (Some (reader_pieces content))
  | Throw _ => ReplyError 500
  | Panic => lift Panic
  | OutOfFuel => lift OutOfFuel
  end.
End status.

(** The environment of the other actions, with a view for redirections and one for the
    index of directories. *)
Definition view_env {W A} `{GoUnicode, GoFloats, GoSort, GoTemplates, !GoJSON ViewData, !GoExecute ViewData}
  (redirectView serveView : View) (env : ActionEnv W A) : ActionEnv W A := {|
  url_Parse := @url_Parse W A env;
  view_Render name data ctx :=
    Render (if bool_decide (name = "redirect"%go) then redirectView else serveView) name data ctx;
  os_Stat := @os_Stat W A env;
  os_Open := @os_Open W A env;
  os_ReadDir := @os_ReadDir W A env;
  format_2f := @format_2f W A env;
  ServeContent := @ServeContent W A env
|}.

(** ** What is loaded *)

(** A file system that can be read. *)
Definition readable (entries : list WalkEntry) : Prop :=
  Forall (fun e => we_Error e = None
    /\ (we_IsDir e = false -> we_Open e = None /\ exists data, we_ReadAll e = Ret data)) entries.

(** The files with a suffix, without it, and what they hold. *)
Definition files_with (suffix : gostring) (entries : list WalkEntry) : list (gostring * gostring) :=
  omap (fun e =>
    if we_IsDir e || negb (HasSuffix (we_Path e) suffix) then None
    else match we_ReadAll e with
         | Ret data => Some (take (length (we_Path e) - length suffix) (we_Path e), data)
         | _ => None
         end) entries.

Fixpoint each_file {S} (fn : gostring -> gostring -> ST S unit) (l : list (gostring * gostring)) : ST S unit :=
  match l with
  | [] => mret tt
  | (name, data) :: l' => _ ← fn name data; each_file fn l'
  end.

(** The walk calls its function for the files with the suffix, in order, and for no other. *)
Lemma walkFS_spec {S} suffix (fn : gostring -> gostring -> ST S unit) entries s :
  readable entries -> walkFS suffix fn entries s = each_file fn (files_with suffix entries) s.
Proof.
  intros Hr. revert s. induction Hr as [|e entries [He Hf] _ IH]; intros s; [done|]. cbn [walkFS files_with omap list_omap].
  unfold mbind at 1, st_bind at 1, walk_entry. rewrite He.
  destruct (we_IsDir e); cbn [orb]; [apply IH|]. destruct (HasSuffix (we_Path e) suffix); cbn [negb]; [|apply IH].
  destruct (Hf eq_refl) as [Hopen [data Hdata]]. rewrite Hopen, Hdata. cbn [each_file].
  unfold mbind, st_bind, wrapST, lift. cbn. by destruct (fn _ _ s) as [[[]|err| |] s1].
Qed.

(** ** What is rendered *)

Lemma NegotiateMediaType_supported `{GoSort} ranges ts :
  ts <> [] -> exists t, NegotiateMediaType ranges ts = Ret t /\ t ∈ ts.
Proof.
  intros Hts. unfold NegotiateMediaType. destruct (first_match _ ts) as [t|] eqn:E.
  - exists t. split; [done|]. destruct (first_match_Some _ _ _ E) as (i & r & _ & Hf & _).
    apply List.find_some in Hf as [Ht _]. by apply list_elem_of_In.
  - destruct ts as [|t ts]; [done|]. exists t. split; [done|by left].
Qed.

Section rendering.
Context `{GoTemplates} {D : Type} `{!GoJSON D, !GoExecute D}.

(** The rendering of data in a media type. *)
Definition render_as (v : View) (tplName : gostring) (data : D) (t : MediaType) : outcome gostring :=
  if bool_decide (t = MediaTypeJSON) then renderJSON data
  else if bool_decide (t = MediaTypeHTML) then renderHTML v tplName data
  else renderText v tplName data.

(** The media type a request gets. *)
Definition negotiated {W A} `{GoUnicode, GoFloats, GoSort} (ctx : RequestContext W A) (t : MediaType) : Prop :=
  context_NegotiateMediaType (Header_Get (Req_Header (Ctx_Request ctx)) "Accept"%go) statusMediaTypes = Ret t
  /\ t ∈ statusMediaTypes.

Lemma Render_as {W A} `{GoUnicode, GoFloats, GoSort} (v : View) tplName (data : D) (ctx : RequestContext W A) :
  exists t, negotiated ctx t /\ Render v tplName data ctx = render_as v tplName data t.
Proof.
  unfold negotiated, Render, context_NegotiateMediaType. cbv zeta.
  match goal with |- context [NegotiateMediaType ?ranges ?ts] =>
    destruct (NegotiateMediaType_supported ranges ts) as (t & Ht & Hin); [done|] end.
  exists t. rewrite Ht. split; [done|]. unfold render_as.
  unfold statusMediaTypes in Hin. rewrite !elem_of_cons, elem_of_nil in Hin.
  destruct Hin as [-> | [-> | [-> | []]]]; reflexivity.
Qed.
End rendering.

Section pages.
Context {A : Type} `{GoUnicode, GoText, GoFloats, GoSort, GoTemplates}.
Implicit Type ctx : RequestContext Wire A.

(** A page sent with a status and a header, or what is sent when it cannot be rendered. *)
Definition page_sent (status : Z) (header : Header) (content : outcome gostring) (m : ST (RequestContext Wire A) unit)
  ctx : Prop :=
  match content with
  | Ret data => exists ctx', m ctx = (Ret tt, ctx') /\ wire_sent (wire ctx') = Some (status, header)
      /\ wire_body (wire ctx') = wire_body (wire ctx) ++ (if body_allowed status then data else [])
  | Throw _ => exists ctx' h, m ctx = (Ret tt, ctx')
      /\ wire_sent (wire ctx') = Some (500, Header_Set h "Content-Type"%go text_type)
  | Panic => fst (m ctx) = Panic
  | OutOfFuel => fst (m ctx) = OutOfFuel
  end.

Lemma concat_pieces s : concat (reader_pieces s) = s.
Proof. unfold reader_pieces. case_bool_decide as Hs; [by rewrite Hs|]. cbn. by rewrite app_nil_r. Qed.

Lemma reply_page status content ctx :
  unsent ctx -> final_status status ->
  page_sent status (wire_header (wire ctx)) content
    (match content with
     | Ret data => Reply status (Some (reader_pieces data))
     | Throw _ => ReplyError 500
     | Panic => lift Panic
     | OutOfFuel => lift OutOfFuel
     end) ctx.
Proof.
  intros Hu Hf. unfold page_sent. destruct content as [data|e| |]; [| |done..].
  - destruct (Reply_wire status (reader_pieces data) ctx Hu Hf) as (ctx' & E & Hs & Hb).
    exists ctx'. rewrite concat_pieces in Hb. done.
  - unfold ReplyError.
    destruct (ReplyError2_sends 500 (Itoa 500 ++ " "%go ++ StatusText 500) ctx Hu ltac:(right; lia)) as (ctx' & E & Hs).
    by exists ctx', (wire_header (wire ctx)).
Qed.

(** The status page: a request gets, with the status 200, the rendering in the media
    type negotiated for it of the servers of the table, each of them once, in the order of
    their names, whatever the order of the map; when the page cannot be rendered, it gets
    a 500.  A rendering function is always chosen.  The header is sent as it was: the
    negotiated type is not announced. *)
Theorem status_page {St} `{!GoJSON (list St), !GoExecute (list St)} (view : View) (statusTable : gmap gostring St) ctx :
  unsent ctx ->
  exists names statuses t,
    StronglySorted string_le names /\ NoDup names /\ (forall n, n ∈ names <-> is_Some (statusTable !! n))
    /\ Forall2 (fun n v => statusTable !! n = Some v) names statuses /\ negotiated ctx t
    /\ page_sent 200 (wire_header (wire ctx)) (render_as view "status"%go statuses t)
         (StatusAction_HandleRequest view statusTable) ctx.
Proof.
  intros Hu. destruct (sorted_values_spec statusTable) as (names & Hs & Hn & Hin & Hv).
  destruct (Render_as view "status"%go (sorted_values statusTable) ctx) as (t & Ht & E).
  exists names, (sorted_values statusTable), t. do 5 (split; [done|]).
  pose proof (reply_page 200 (render_as view "status"%go (sorted_values statusTable) t) ctx Hu ltac:(right; lia)) as Hp.
  unfold StatusAction_HandleRequest. unfold page_sent in *.
  erewrite (st_bind_ret (gets _)) by reflexivity. rewrite E.
  destruct (render_as view "status"%go (sorted_values statusTable) t); done.
Qed.

(** What a redirection sends with its page: the fields of the configuration, with the
    location and the type of a page in HTML. *)
Definition redirect_header (uri : gostring) (ops : list HeaderOp) ctx : Header :=
  let vs := Vars (set_var "http.redirect.uri"%go uri ctx) in
  Header_Set (HeaderOps_Apply ops (Header_Set (wire_header (wire ctx)) "Location"%go uri) vs) "Content-Type"%go html_type.

(** The page of a redirection is rendered in the media type negotiated for the request,
    text when it has no preference, and is announced as HTML whatever this type is. *)
Theorem redirect_page `{!GoJSON ViewData, !GoExecute ViewData} (redirectView serveView : View) (env : ActionEnv Wire A)
  status uriString ops uri ctx :
  unsent ctx -> Method (Ctx_Request ctx) = "GET"%go -> @url_Parse Wire A env uriString = Some uri ->
  status = 0 \/ final_status status ->
  let status' := if status =? 0 then 302 else status in
  exists t, negotiated ctx t
    /\ page_sent status' (redirect_header (URL_String uri) ops ctx)
         (render_as redirectView "redirect"%go (RedirectData status' (StatusText status') (URL_String uri)) t)
         (redirect (ActionEnv0 := view_env redirectView serveView env) status uriString ops None) ctx.
Proof.
  intros Hu Hm Huri Hst status'. assert (final_status status') as Hf.
  { subst status'. destruct (Z.eqb_spec status 0); [right; lia|]. by destruct Hst. }
  unfold redirect. fold status'. change (@url_Parse Wire A (view_env redirectView serveView env) uriString)
    with (@url_Parse Wire A env uriString). rewrite Huri. clearbody status'.
  set (c1 := set_var "http.redirect.uri"%go (URL_String uri) ctx).
  set (c2 := (change_header (fun h => Header_Set h "Location"%go (URL_String uri)) c1).2).
  set (c3 := (apply_header ops c2).2).
  set (c4 := (change_header (fun h => Header_Set h "Content-Type"%go html_type) c3).2).
  destruct (Render_as redirectView "redirect"%go (RedirectData status' (StatusText status') (URL_String uri)) c4)
    as (t & Ht & E).
  exists t. split; [exact Ht|].
  pose proof (reply_page status' (render_as redirectView "redirect"%go
    (RedirectData status' (StatusText status') (URL_String uri)) t) c4 Hu Hf) as Hp.
  unfold page_sent in *.
  rewrite (st_bind_ret _ _ ctx tt c1) by reflexivity.
  rewrite (st_bind_ret _ _ c1 tt c2) by reflexivity.
  rewrite (st_bind_ret _ _ c2 tt c3) by reflexivity.
  rewrite (st_bind_ret _ _ c3 "GET"%go c3) by (unfold gets; by rewrite <- Hm).
  rewrite bool_decide_true by done.
  rewrite (st_bind_ret _ _ c3 tt c4) by reflexivity.
  erewrite (st_bind_ret (gets _)) by reflexivity.
  change (view_Render "redirect"%go ?d c4) with (Render redirectView "redirect"%go d c4). rewrite E.
  destruct (render_as redirectView "redirect"%go _ t); exact Hp.
Qed.
End pages.

(** ** Witnesses and examples *)

(** Templates without actions, whose text is what they render. *)
#[local] Instance plain_templates : GoTemplates := {
  Templates := gmap gostring gostring;
  tpl_New _ := ∅;
  tpl_Parse name data tpl := Ret (<[name := data]> tpl)
}.

#[local] Instance plain_execute D : GoExecute D := {
  ExecuteTemplate tpl name _ :=
    match (tpl : gmap gostring gostring) !! name with
    | Some text => Ret text
    | None => Throw (Errorf "no template"%go)
    end
}.

#[local] Instance no_floats : GoFloats := { ParseFloat _ := None }.
#[local] Existing Instance ascii_only.

#[local] Instance names_json : GoJSON (list gostring) := { MarshalIndent names := Ret (Join names ","%go) }.
#[local] Instance view_json : GoJSON ViewData := {
  MarshalIndent d := match d with RedirectData _ _ uri => Ret ("uri="%go ++ uri) | IndexData _ _ _ _ _ => Ret [] end
}.

Definition file (path data : gostring) : WalkEntry := mkWalk path None false None (Ret data).

Definition template_files : list WalkEntry :=
  [mkWalk "templates"%go None true None (Ret []);
   file "templates/redirect/html/redirect.html.gotpl"%go "moved (HTML)"%go;
   file "templates/redirect/text/redirect.txt.gotpl"%go "moved (text)"%go;
   file "templates/status/text/status.txt.gotpl"%go "status (text)"%go].

Definition example_view (dir : gostring) : View := default (mkView dir ∅ ∅) match NewView template_files dir with Ret v => Some v | _ => None end.

Definition accepting (accept : gostring) : RequestContext Wire unit :=
  NewRequestContext 0 (example_request (Header_Set ∅ "Accept"%go accept)) new_wire.

Lemma status_page_witness :
  let table : gmap gostring gostring := {["b"%go := "second"%go; "a"%go := "first"%go]} in
  wire_sent (wire (accepting "application/json"%go)) = None
  /\ exists names statuses t, StronglySorted string_le names
    /\ Forall2 (fun n v => table !! n = Some v) names statuses /\ negotiated (accepting "application/json"%go) t.
Proof.
  intros table. split; [vm_compute; reflexivity|].
  destruct (status_page (example_view "templates/status"%go) table (accepting "application/json"%go)
    ltac:(vm_compute; reflexivity)) as (names & statuses & t & Hs & _ & _ & Hv & Ht & _).
  by exists names, statuses, t.
Defined.

#[local] Instance no_env : ActionEnv Wire unit := {
  url_Parse s := Some (mkURL [] [] s []);
  view_Render _ _ _ := Ret [];
  os_Stat _ := Throw fs_ErrNotExist;
  os_Open _ := Throw fs_ErrNotExist;
  os_ReadDir _ := Throw fs_ErrNotExist;
  format_2f _ _ := [];
  ServeContent _ _ _ := mret tt
}.

(** A client that asks for JSON, redirected: JSON announced as HTML. *)
Lemma redirect_page_witness :
  let v := example_view "templates/redirect"%go in
  exists t, negotiated (accepting "application/json"%go) t
    /\ page_sent 302 (redirect_header "/new"%go [] (accepting "application/json"%go))
         (render_as v "redirect"%go (RedirectData 302 [] "/new"%go) t)
         (redirect (ActionEnv0 := view_env v v no_env) 0 "/new"%go [] None) (accepting "application/json"%go).
Proof.
  intros v. exact (redirect_page v v no_env 0 "/new"%go [] (mkURL [] [] "/new"%go []) (accepting "application/json"%go)
    ltac:(vm_compute; reflexivity) ltac:(vm_compute; reflexivity) eq_refl (or_introl eq_refl)).
Defined.

Example redirect_mislabelled :
  let page accept :=
    let ctx := (redirect (ActionEnv0 := view_env (example_view "templates/redirect"%go) (example_view []) no_env)
                  0 "/new"%go [] None (accepting accept)).2 in
    ((fun '(status, h) => (status, Header_Get h "Content-Type"%go)) <$> wire_sent (wire ctx), wire_body (wire ctx)) in
  page "application/json"%go = (Some (302, html_type), "uri=/new"%go ++ line_feed)
  /\ page [] = (Some (302, html_type), "moved (text)"%go)
  /\ page "text/html"%go = (Some (302, html_type), "moved (HTML)"%go).
Proof. vm_compute. repeat split. Qed.

(** The status page in JSON has no content type. *)
Example status_without_type :
  let table : gmap gostring gostring := {["b"%go := "second"%go; "a"%go := "first"%go]} in
  let ctx := (StatusAction_HandleRequest (example_view "templates/status"%go) table (accepting "application/json"%go)).2 in
  wire_sent (wire ctx) = Some (200, ∅) /\ wire_body (wire ctx) = "first,second"%go ++ line_feed.
Proof. vm_compute. split; reflexivity. Qed.
