(* ===== verification/ControlAPI.v ===== *)
(** * The control API and its client (pkg/service: control_api.go, control_api_handler.go,
      control_api_error.go, control_api_status.go, client.go)

    The requests of the control API, which [Service] starts and stops, and the client the
    command line uses.  The connection between them is a parameter, instantiated with the
    server itself for the theorem that composes the two. *)

From S2P Require Import Prelude GoStrings HttpHeader FormatString HttpMedia HttpContext HttpAuth HttpHandler.
From S2P Require Import HttpServer HttpActions HttpViews.

Record ControlAPIError := mkApiError { ae_Code : gostring; ae_Message : gostring }.
Record ServiceStatus := mkServiceStatus { ss_BuildId : gostring }.

(** ** The server *)

Section server.
Context {W : Type} `{HttpWriter W, GoUnicode, GoText, !GoJSON ControlAPIError, !GoJSON ServiceStatus}.
Let M := ST (RequestContext W Auth).

(** [ControlAPIHandler.ReplyError], for the formatted message. *)
Definition ControlAPI_ReplyError (status : Z) (code msg : gostring) : M unit :=
  ReplyJSON status (mkApiError code msg).

(** [ControlAPIHandler.ReplyInternalError] *)
Definition ControlAPI_ReplyInternalError (status : Z) (msg : gostring) : M unit :=
  ControlAPI_ReplyError status "internal_error"%go msg.

(** [ControlAPI.hStatus] *)
Definition hStatus (buildId : gostring) : M unit := ReplyJSON 200 (mkServiceStatus buildId).

(** [ControlAPI.ServeHTTP] between the creation of the context and the deferred calls. *)
Definition control_request (buildId : gostring) : M unit :=
  method ← gets (fun ctx => Method (Ctx_Request ctx));
  if bool_decide (method = "GET"%go) || bool_decide (method = "POST"%go) then
    op ← gets (fun ctx => Trim (u_Path (Req_URL (Ctx_Request ctx))) "/"%go);
    if bool_decide (op = "status"%go) then hStatus buildId
    else ControlAPI_ReplyError 404 "unknown_operation"%go "unknown operation"%go
  else
    _ ← change_header (fun h => Header_Set h "Allow"%go "GET, POST"%go);
    ReplyError2 405 "HTTP method not supported"%go.

(** [ControlAPI.ServeHTTP]: the deferred calls are those of [Server.ServeHTTP]. *)
Definition ControlAPI_ServeHTTP (buildId : gostring) (log : option AccessLogger) (t : Moment) (req : Request)
  (w : W) (fs : gmap nat gostring) : outcome unit * State W :=
  let ctx := NewRequestContext (now t) req w in
  let ctx := set_settings log (Ctx_Auth ctx) (Ctx_RequestRateLimiter ctx) ctx in
  let '(r1, s) := on_ctx (control_request buildId) (mkState ctx ∅ fs) in
  let '(r2, s) := OnRequestHandled t s in
  match r1, r2 with
  | Panic, _ | _, Panic => Recover s
  | _, _ => (r1, s)
  end.
End server.

(** ** The client *)

(** [json.Marshal], [json.Unmarshal] and [ejson.Unmarshal] for the values of a type. *)
Class JSONEncoder (T : Type) := { Marshal : T -> outcome gostring }.
Class JSONDecoder (T : Type) := { Unmarshal : gostring -> outcome T }.
Class EJSONDecoder (T : Type) := { ejson_Unmarshal : gostring -> outcome T }.

(** The connection: [http.NewRequest] for a path, and [http.Client.Do] for a method, a path
    and a body, with the status of the response and what reading its body gives. *)
Record Transport := mkTransport {
  tr_NewRequest : gostring -> option error;
  tr_Do : gostring -> gostring -> gostring -> outcome (Z * outcome gostring)
}.

(** The errors of [Call]; that of a refused request wraps the error of the API, or one made
    of the body. *)
Inductive CallError :=
  | CannotEncode (err : error)
  | CannotCreate (err : error)
  | CannotSend (err : error)
  | CannotRead (err : error)
  | RequestFailed (status : Z) (base : ControlAPIError + gostring)
  | CannotDecode (err : error).

(** The result of a call: the status of the response, if there is one, and the value. *)
Definition CallResult (Res : Type) : Type := option Z * (CallError + option Res).

Definition caught {B} (r : outcome B) : option (error + B) :=
  match r with Ret b => Some (inr b) | Throw e => Some (inl e) | _ => None end.

(** [Client.Call]; [wanted] is whether [resBody] is not nil.  The libraries return. *)
Definition Call {Req Res} `{!JSONEncoder Req, !JSONDecoder ControlAPIError, !EJSONDecoder Res}
  (c : Transport) (op : gostring) (reqBody : option Req) (wanted : bool) : option (CallResult Res) :=
  let path := "/"%go ++ op in
  body ← match reqBody with Some v => caught (Marshal v) | None => Some (inr []) end;
  match body with
  | inl e => Some (None, inl (CannotEncode e))
  | inr body =>
      match tr_NewRequest c path with
      | Some e => Some (None, inl (CannotCreate e))
      | None =>
          res ← caught (tr_Do c "POST"%go path body);
          match res with
          | inl e => Some (None, inl (CannotSend e))
          | inr (status, data) =>
              data ← caught data;
              match data with
              | inl e => Some (Some status, inl (CannotRead e))
              | inr data =>
                  if (status <? 200) || (399 <? status) then
                    base ← caught (Unmarshal data);
                    Some (Some status, inl (RequestFailed status
                      (match base with inr apiError => inl apiError | inl _ => inr data end)))
                  else if wanted then
                    value ← caught (ejson_Unmarshal data);
                    Some (Some status, match value with inr v => inr (Some v) | inl e => inl (CannotDecode e) end)
                  else Some (Some status, inr None)
              end
          end
      end
  end.

(** ** The server at the other end *)

Section both.
Context `{GoUnicode, GoText, !GoJSON ControlAPIError, !GoJSON ServiceStatus}.

(** The request the server gets, and the response the client gets from it: a response whose
    status was never written has the status 200. *)
Definition control_http_request (method path : gostring) : Request :=
  mkRequest method (mkURL [] [] path []) "HTTP/1.1"%go 1 1 ∅ "localhost"%go "@"%go false.

Definition control_connection (buildId : gostring) (log : option AccessLogger) (t : Moment) (fs : gmap nat gostring)
  : Transport := {|
  tr_NewRequest _ := None;
  tr_Do method path _ :=
    let '(_, s) := ControlAPI_ServeHTTP buildId log t (control_http_request method path) new_wire fs in
    let w := wire (ctx_of s) in
    Ret (match wire_sent w with Some (status, _) => status | None => 200 end, Ret (wire_body w))
|}.

(** What [encoding/json] promises of text in ASCII: it encodes it, and reads it back. *)
Definition ascii_text (s : gostring) : Prop := Forall (fun c => bval c < 128) s.

Class JSONLaws `{!JSONDecoder ControlAPIError, !EJSONDecoder ServiceStatus} := {
  error_encoded : forall e, ascii_text (ae_Code e) -> ascii_text (ae_Message e) ->
    exists s, MarshalIndent e = Ret s /\ Unmarshal (s ++ line_feed) = Ret e;
  status_encoded : forall st, ascii_text (ss_BuildId st) ->
    exists s, MarshalIndent st = Ret s /\ ejson_Unmarshal (s ++ line_feed) = Ret st
}.
End both.

(** ** What the server answers *)

Lemma ReplyJSON_wire {A D} `{GoUnicode, GoText, !GoJSON D} status (value : D) data (ctx : RequestContext Wire A) :
  MarshalIndent value = Ret data -> unsent ctx -> final_status status ->
  exists ctx', ReplyJSON status value ctx = (Ret tt, ctx')
    /\ wire_sent (wire ctx') = Some (status, Header_Set (wire_header (wire ctx)) "Content-Type"%go json_type)
    /\ wire_body (wire ctx') = wire_body (wire ctx) ++ (if body_allowed status then data ++ line_feed else []).
Proof.
  intros Hdata Hu Hf. unfold ReplyJSON. rewrite Hdata.
  set (c1 := (change_header (fun h => Header_Set h "Content-Type"%go json_type) ctx).2).
  rewrite (st_bind_ret _ _ ctx tt c1) by reflexivity.
  unfold mbind, st_bind, on_writer at 1, zoom at 1, rw_WriteHeader. cbn [w_WriteHeader Wire_HttpWriter].
  rewrite (Wire_WriteHeader_final status (rw_w (Ctx_ResponseWriter c1)) Hu Hf).
  match goal with |- context [copy_body ?p ?c] =>
    destruct (copy_body_wire p c status (wire_header (wire c1)) eq_refl) as (ctx' & -> & Hw & _) end.
  exists ctx'. rewrite Hw. cbn. by rewrite app_nil_r.
Qed.

Section answers.
Context `{GoUnicode, GoText, !GoJSON ControlAPIError, !GoJSON ServiceStatus}.

(** What a request is answered: the status, the header and the body. *)
Definition control_answer (buildId : gostring) (req : Request) : outcome (Z * Header * gostring) :=
  let json h := Header_Set h "Content-Type"%go json_type in
  if bool_decide (Method req = "GET"%go) || bool_decide (Method req = "POST"%go) then
    if bool_decide (Trim (u_Path (Req_URL req)) "/"%go = "status"%go) then
      data ← MarshalIndent (mkServiceStatus buildId); Ret (200, json ∅, data ++ line_feed)
    else
      data ← MarshalIndent (mkApiError "unknown_operation"%go "unknown operation"%go);
      Ret (404, json ∅, data ++ line_feed)
  else
    Ret (405, Header_Set (Header_Set ∅ "Allow"%go "GET, POST"%go) "Content-Type"%go text_type,
         "HTTP method not supported"%go ++ line_feed).

Lemma ReplyError2_wire {A} status msg (ctx : RequestContext Wire A) :
  unsent ctx -> final_status status -> msg <> [] ->
  exists ctx', ReplyError2 status msg ctx = (Ret tt, ctx')
    /\ wire_sent (wire ctx') = Some (status, Header_Set (wire_header (wire ctx)) "Content-Type"%go text_type)
    /\ wire_body (wire ctx') = wire_body (wire ctx) ++ (if body_allowed status then msg ++ line_feed else []).
Proof.
  intros Hu Hf Hm. unfold ReplyError2. rewrite bool_decide_false by done.
  set (c1 := (change_header (fun h => Header_Set h "Content-Type"%go text_type) ctx).2).
  rewrite (st_bind_ret _ _ ctx tt c1) by reflexivity.
  destruct (Reply_wire status [msg; line_feed] c1 Hu Hf) as (ctx' & E & Hs & Hb). by exists ctx'.
Qed.

Lemma control_request_wire buildId req status h body (c0 : RequestContext Wire Auth) :
  control_answer buildId req = Ret (status, h, body) -> Ctx_Request c0 = req -> wire c0 = new_wire ->
  exists c, control_request buildId c0 = (Ret tt, c)
    /\ wire_sent (wire c) = Some (status, h) /\ wire_body (wire c) = body.
Proof using Type H.
  intros Ha Hreq Hw. assert (unsent c0) as Hu by (unfold unsent; by rewrite Hw).
  unfold control_request. rewrite (st_bind_ret (gets _) _ c0 (Method req) c0) by (unfold gets; by rewrite Hreq).
  unfold control_answer in Ha. destruct (_ || _).
  - rewrite (st_bind_ret (gets _) _ c0 (Trim (u_Path (Req_URL req)) "/"%go) c0) by (unfold gets; by rewrite Hreq).
    destruct (bool_decide (Trim _ _ = _)).
    + destruct (MarshalIndent (mkServiceStatus buildId)) as [data|e| |] eqn:Hd; try discriminate. injection Ha as <- <- <-.
      destruct (ReplyJSON_wire 200 _ data c0 Hd Hu ltac:(right; lia)) as (c & E & Hs & Hb).
      rewrite Hw in Hs, Hb. exact (ex_intro _ c (conj E (conj Hs Hb))).
    + destruct (MarshalIndent (mkApiError _ _)) as [data|e| |] eqn:Hd; try discriminate. injection Ha as <- <- <-.
      destruct (ReplyJSON_wire 404 _ data c0 Hd Hu ltac:(right; lia)) as (c & E & Hs & Hb).
      rewrite Hw in Hs, Hb. exact (ex_intro _ c (conj E (conj Hs Hb))).
  - injection Ha as <- <- <-.
    set (c1 := (change_header (fun h => Header_Set h "Allow"%go "GET, POST"%go) c0).2).
    rewrite (st_bind_ret _ _ c0 tt c1) by reflexivity.
    destruct (ReplyError2_wire 405 "HTTP method not supported"%go c1 Hu ltac:(right; lia) ltac:(discriminate))
      as (c & E & Hs & Hb).
    assert (wire c1 = mkWire (Header_Set ∅ "Allow"%go "GET, POST"%go) [] None []) as Hw1.
    { change (wire c1) with (w_SetHeader (Header_Set (w_Header (wire c0)) "Allow"%go "GET, POST"%go) (wire c0)).
      rewrite Hw. reflexivity. }
    rewrite Hw1 in Hs, Hb. exact (ex_intro _ c (conj E (conj Hs Hb))).
Qed.

Lemma new_context_wire t req w log :
  let c0 : RequestContext Wire Auth := NewRequestContext (now t) req w in
  let c0 := set_settings log (Ctx_Auth c0) (Ctx_RequestRateLimiter c0) c0 in
  Ctx_Request c0 = req /\ wire c0 = w.
Proof.
  unfold NewRequestContext, initVars, initUpgradeProtocols, wire. cbn [set_settings set_var Ctx_ResponseWriter Ctx_Request].
  repeat case_match; split; reflexivity.
Qed.

(** Every request whose answer can be encoded is answered so. *)
Lemma control_api_serves buildId log t req fs status h body :
  control_answer buildId req = Ret (status, h, body) ->
  exists s, ControlAPI_ServeHTTP buildId log t req new_wire fs = (Ret tt, s)
    /\ wire_sent (wire (ctx_of s)) = Some (status, h) /\ wire_body (wire (ctx_of s)) = body.
Proof using Type H.
  intros Ha. unfold ControlAPI_ServeHTTP. destruct (new_context_wire t req new_wire log) as [Hreq Hw].
  set (c0 := set_settings _ _ _ _) in *. clearbody c0.
  destruct (control_request_wire _ _ _ _ _ c0 Ha Hreq Hw) as (c & E & Hs & Hb).
  unfold on_ctx, zoom. cbn [ctx_of]. rewrite E.
  destruct (OnRequestHandled_writer t (mkState c ∅ fs)) as (s & Eh & Hrw).
  cbn [limiters files]. rewrite Eh. exists s. unfold wire in *. rewrite Hrw. cbn [ctx_of]. done.
Qed.

Lemma Trim_slash op : Trim ("/"%go ++ op) "/"%go = Trim op "/"%go.
Proof. unfold Trim. rewrite TrimLeft_app; [done|]. apply Forall_singleton. by left. Qed.

Lemma unknown_operation_ascii : ascii_text "unknown_operation"%go /\ ascii_text "unknown operation"%go.
Proof. unfold ascii_text. split; by_decision. Qed.

(** The answer to a call, and what it decodes to. *)
Lemma control_answer_call `{!JSONDecoder ControlAPIError, !EJSONDecoder ServiceStatus, !JSONLaws} buildId op :
  ascii_text buildId ->
  exists status h body,
    control_answer buildId (control_http_request "POST"%go ("/"%go ++ op)) = Ret (status, h, body)
    /\ if bool_decide (Trim op "/"%go = "status"%go)
       then status = 200 /\ ejson_Unmarshal body = Ret (mkServiceStatus buildId)
       else status = 404 /\ Unmarshal body = Ret (mkApiError "unknown_operation"%go "unknown operation"%go).
Proof.
  intros Hid. unfold control_answer. cbn [control_http_request Method Req_URL u_Path].
  rewrite (bool_decide_true ("POST"%go = "POST"%go)) by reflexivity. rewrite orb_true_r, Trim_slash.
  destruct (bool_decide (Trim op _ = _)).
  - destruct (status_encoded (mkServiceStatus buildId) Hid) as (s & E & Hs). rewrite E.
    exists 200, (Header_Set ∅ "Content-Type"%go json_type), (s ++ line_feed). auto.
  - destruct unknown_operation_ascii as [Hcode Hmsg].
    destruct (error_encoded (mkApiError "unknown_operation"%go "unknown operation"%go) Hcode Hmsg) as (s & E & Hs). rewrite E.
    exists 404, (Header_Set ∅ "Content-Type"%go json_type), (s ++ line_feed). auto.
Qed.

(** A response that is received. *)
Lemma Call_response {Req Res} `{!JSONEncoder Req, !JSONDecoder ControlAPIError, !EJSONDecoder Res}
  (c : Transport) op (reqBody : option Req) status body :
  (forall v, reqBody = Some v -> exists s, Marshal v = Ret s) ->
  tr_NewRequest c ("/"%go ++ op) = None ->
  (forall data, tr_Do c "POST"%go ("/"%go ++ op) data = Ret (status, Ret body)) ->
  Call (Res := Res) c op reqBody true
  = if (status <? 200) || (399 <? status) then
      base ← caught (Unmarshal body);
      Some (Some status, inl (RequestFailed status (match base with inr e => inl e | inl _ => inr body end)))
    else
      value ← caught (ejson_Unmarshal body);
      Some (Some status, match value with inr v => inr (Some v) | inl e => inl (CannotDecode e) end).
Proof.
  intros Henc Hnew Hdo. unfold Call. rewrite Hnew.
  destruct reqBody as [v|].
  - destruct (Henc v eq_refl) as [s ->]. cbn [caught mbind option_bind]. by rewrite Hdo.
  - cbn [mbind option_bind]. by rewrite Hdo.
Qed.

Lemma control_connection_Do buildId log t fs op data status h body :
  control_answer buildId (control_http_request "POST"%go ("/"%go ++ op)) = Ret (status, h, body) ->
  tr_Do (control_connection buildId log t fs) "POST"%go ("/"%go ++ op) data = Ret (status, Ret body).
Proof.
  intros Ha. destruct (control_api_serves buildId log t _ fs status h body Ha) as (s & E & Hs & Hb).
  unfold control_connection, tr_Do. rewrite E, Hs, Hb. reflexivity.
Qed.

(** [C32] What the client of the control API gets from the server, for any operation and
    request body that can be encoded: the operation [status], with or without slashes
    around it, gives the build identifier of the service; any other one is an error that
    wraps the one of the API, of a response of status 404. *)
Theorem control_api_roundtrip {Req} `{!JSONEncoder Req, !JSONDecoder ControlAPIError, !EJSONDecoder ServiceStatus,
    !JSONLaws} buildId log t fs op (reqBody : option Req) :
  ascii_text buildId -> (forall v, reqBody = Some v -> exists s, Marshal v = Ret s) ->
  Call (Res := ServiceStatus) (control_connection buildId log t fs) op reqBody true
  = Some (if bool_decide (Trim op "/"%go = "status"%go) then (Some 200, inr (Some (mkServiceStatus buildId)))
          else (Some 404, inl (RequestFailed 404 (inl (mkApiError "unknown_operation"%go "unknown operation"%go))))).
Proof.
  intros Hid Henc. destruct (control_answer_call buildId op Hid) as (status & h & body & Ha & Hbody).
  rewrite (Call_response (control_connection buildId log t fs) op reqBody status body Henc eq_refl
    (fun data => control_connection_Do buildId log t fs op data status h body Ha)).
  destruct (bool_decide (Trim op _ = _)); destruct Hbody as [-> Hbody]; rewrite Hbody; reflexivity.
Qed.
End answers.

(** ** Witness

    An encoding of ASCII text: the parts, separated by a byte that is not ASCII. *)

#[local] Existing Instance ascii_only.

Definition separator : byte := "255"%char.

#[local] Instance error_json : GoJSON ControlAPIError :=
  { MarshalIndent e := Ret (ae_Code e ++ separator :: ae_Message e) }.
#[local] Instance status_json : GoJSON ServiceStatus := { MarshalIndent st := Ret (ss_BuildId st) }.
#[local] Instance error_decoder : JSONDecoder ControlAPIError := {
  Unmarshal s :=
    match Cut (removelast s) separator with
    | (code, msg, true) => Ret (mkApiError code msg)
    | _ => Throw (Errorf "invalid JSON"%go)
    end
}.
#[local] Instance status_decoder : EJSONDecoder ServiceStatus :=
  { ejson_Unmarshal s := Ret (mkServiceStatus (removelast s)) }.
#[local] Instance unit_encoder : JSONEncoder unit := { Marshal _ := Ret "{}"%go }.

Lemma separator_not_ascii s : ascii_text s -> separator ∉ s.
Proof.
  intros Hs Hin. unfold ascii_text in Hs. rewrite Forall_forall in Hs. specialize (Hs _ Hin).
  unfold separator, bval in Hs. cbn in Hs. lia.
Qed.

#[local] Instance example_laws : JSONLaws.
Proof.
  split.
  - intros [code msg] Hcode _. cbn [ae_Code] in Hcode. eexists. split; [reflexivity|].
    cbn [Unmarshal error_decoder ae_Code ae_Message]. unfold line_feed. rewrite removelast_last, Cut_found; [done|].
    by apply separator_not_ascii.
  - intros [id] _. eexists. split; [reflexivity|].
    cbn [ejson_Unmarshal status_decoder ss_BuildId]. unfold line_feed. by rewrite removelast_last.
Qed.

Lemma control_api_roundtrip_witness :
  let c := control_connection "v1.0.0"%go None example_moment ∅ in
  Call (Req := unit) (Res := ServiceStatus) c "status"%go None true = Some (Some 200, inr (Some (mkServiceStatus "v1.0.0"%go)))
  /\ Call (Req := unit) (Res := ServiceStatus) c "foo"%go (Some tt) true
     = Some (Some 404, inl (RequestFailed 404 (inl (mkApiError "unknown_operation"%go "unknown operation"%go)))).
Proof.
  intros c. assert (ascii_text "v1.0.0"%go) as Hid by (unfold ascii_text; by_decision).
  split.
  - exact (control_api_roundtrip (Req := unit) "v1.0.0"%go None example_moment ∅ "status"%go None Hid
             ltac:(discriminate)).
  - exact (control_api_roundtrip (Req := unit) "v1.0.0"%go None example_moment ∅ "foo"%go (Some tt) Hid
             ltac:(intros v _; by eexists)).
Defined.
