(* ===== verification/Validation.v ===== *)
(** * Validation of configuration values, and small helpers (pkg/httputils: bcl.go, uris.go,
      header.go; pkg/netutils/email_addresses.go; pkg/boulevard: health_probe.go, random.go)

    The functions the reading of the configuration calls on values, and what they ensure
    to the parts that use the values. *)

From S2P Require Import Prelude GoStrings HttpHeader FormatString HttpContext HttpAuth HttpHandler HttpServer.
From S2P Require Import HttpActions LoadBalancer HttpClient HttpProxy.

(** ** The functions *)

Definition methods : list gostring :=
  ["GET"%go; "HEAD"%go; "POST"%go; "PUT"%go; "DELETE"%go; "CONNECT"%go; "OPTIONS"%go; "TRACE"%go; "PATCH"%go].

Definition ValidateBCLStatus (status : Z) : outcome unit :=
  if (status <? 200) || (599 <? status) then Throw (Errorf "invalid HTTP status"%go) else Ret tt.

Definition ValidateBCLMethod (method : gostring) : outcome unit :=
  if negb (bool_decide (method ∈ methods)) then Throw (Errorf "invalid HTTP method"%go) else Ret tt.

Definition ValidateBCLPortNumber (port : Z) : outcome unit :=
  if (port <? 1) || (65535 <? port) then Throw (Errorf "invalid port number"%go) else Ret tt.

(** [parse] is [url.Parse]. *)
Definition ValidateBCLHTTPURI `{GoUnicode} (parse : gostring -> outcome URL) (s : gostring) : outcome unit :=
  uri ← wrap_error "invalid URI"%go (parse s);
  let scheme := ToLower (u_Scheme uri) in
  if bool_decide (scheme <> "http"%go) && bool_decide (scheme <> "https"%go)
  then Throw (Errorf "invalid non-HTTP URI"%go) else Ret tt.

(** [ParseAddress] is [mail.ParseAddress]. *)
Definition ValidateBCLEmailAddress {T} (ParseAddress : gostring -> outcome T) (s : gostring) : outcome unit :=
  _ ← wrap_error "invalid email address"%go (ParseAddress s); Ret tt.

(** [httputils.Header]: a name without value is an index out of range. *)
Fixpoint add_fields (fields : list gostring) (header : Header) : outcome Header :=
  match fields with
  | [] => Ret header
  | [_] => Panic
  | name :: value :: fields' => add_fields fields' (Header_Add header name value)
  end.

Definition httputils_Header (fields : list gostring) : outcome Header := add_fields fields ∅.

(** [RandomBytes]; [read] is [rand.Read] into a slice of a length. *)
Definition RandomBytes (read : nat -> outcome gostring) (n : nat) : outcome gostring :=
  match read n with Ret data => Ret data | Throw _ => Panic | r => r end.

(** ** What they ensure *)

Lemma ValidateBCLStatus_spec status : ValidateBCLStatus status = Ret tt <-> 200 <= status <= 599.
Proof.
  unfold ValidateBCLStatus.
  destruct (Z.ltb_spec status 200), (Z.ltb_spec 599 status); cbn; split; intros; try done; try lia.
Qed.

(** A status of a configuration, or 0 when there is none, is one the actions can send: the
    hypothesis of [HttpActions]. *)
Lemma validated_status status : status = 0 \/ ValidateBCLStatus status = Ret tt -> status_ok status.
Proof. unfold status_ok. rewrite ValidateBCLStatus_spec. lia. Qed.

(** A URI that was validated names an upstream server: the action is created, for a scheme
    that was in it, so that the default scheme is never used. *)
Lemma validated_proxy_starts {C} `{GoUnicode} parse lbs now cfg :
  rp_URI cfg <> [] -> ValidateBCLHTTPURI parse (rp_URI cfg) = Ret tt -> ToLower [] = [] ->
  exists uri (a : ReverseProxyAction C), parse (rp_URI cfg) = Ret uri /\ u_Scheme (proxy_uri uri) = u_Scheme uri
    /\ NewReverseProxyAction parse lbs now cfg = Ret a /\ rp_client a <> None.
Proof.
  intros Hne Hv Hnil. unfold ValidateBCLHTTPURI in Hv.
  destruct (parse (rp_URI cfg)) as [uri|e| |] eqn:E; try done. cbn [wrap_error mbind outcome_bind] in Hv.
  assert (ToLower (u_Scheme uri) = "http"%go \/ ToLower (u_Scheme uri) = "https"%go) as Hs.
  { destruct (decide (ToLower (u_Scheme uri) = "http"%go)); [by left|].
    destruct (decide (ToLower (u_Scheme uri) = "https"%go)); [by right|]. by rewrite !bool_decide_true in Hv. }
  assert (u_Scheme (proxy_uri uri) = u_Scheme uri) as Hp.
  { unfold proxy_uri. cbn [u_Scheme]. destruct (decide (u_Scheme uri = [])) as [Hu|Hu].
    - rewrite Hu, Hnil in Hs. destruct Hs; discriminate.
    - by rewrite bool_decide_false. }
  unfold NewReverseProxyAction. rewrite bool_decide_true, E by done. cbn [wrap_error mbind outcome_bind].
  rewrite Hp. unfold NewClient. cbn [default_cfg Scheme proxy_client_cfg].
  exists uri. destruct (bool_decide (ToLower _ = "http"%go)) eqn:E1; bool_facts.
  - eexists. done.
  - destruct Hs as [Hs|Hs]; [done|]. rewrite bool_decide_true by done. by eexists.
Qed.
