(* ===== verification/ConfigNet.v ===== *)
(** * Configuration of networks, listeners and load balancers

    The values and elements of the configuration that pkg/netutils and pkg/boulevard read:
    network types and addresses, domain name patterns, rate limits, TLS settings,
    listeners, health probes, load balancers, format strings.  Each method [ReadBCLValue]
    is a reader of values, each [ReadBCLElement] a [reading] of an element; the variable a
    reader fills is its result, and starts as Go's zero value. *)

From S2P Require Import Prelude GoStrings Bcl NetIP HttpHeader NetAddresses RateLimiter FormatString.
From S2P Require Import HttpContext HttpAuth HttpHandler HttpServer HttpActions LoadBalancer HttpClient HttpProxy.
From S2P Require Import FcgiAction Lifecycle Service Validation.

(** A nil format string: what an entry that could not be read leaves. *)
Definition no_format : FormatString := mkFormat [] [] 0.

(** The cipher suites of crypto/tls, with their identifiers. *)
Class GoTLS := {
  tls_CipherSuites : list (gostring * Z);
  tls_InsecureCipherSuites : list (gostring * Z)
}.

(** [init] of tls.go: the table of cipher suites. *)
Definition tlsCipherSuites `{GoTLS} : gmap gostring Z :=
  foldl (fun m suite => <[fst suite := snd suite]> m) ∅ (tls_CipherSuites ++ tls_InsecureCipherSuites).

Definition ValidateBCLTLSVersion (name : gostring) : outcome unit :=
  _ ← ParseTLSVersion name; Ret tt.

Definition ValidateBCLTLSCipherSuite `{GoTLS} (name : gostring) : outcome unit :=
  match tlsCipherSuites !! name with
  | Some _ => Ret tt
  | None => Throw (Errorf "unknown TLS cipher suite"%go)
  end.

Section readers.
Context `{Bcl}.

(** ** Values *)

(** [bcl.NewValueTypeError] *)
Definition value_type_error {A} : outcome A := Throw (Errorf "unexpected value type"%go).

(** The switch of the readers of strings. *)
Definition string_content (v : BclValue) : outcome gostring :=
  match Content v with BclString s _ => Ret s | _ => value_type_error end.

Definition RateLimiterIPv4NetType_ReadBCLValue (v : BclValue) : outcome Z :=
  s ← string_content v; wrap_error "invalid IPv4 network type"%go (RateLimiterIPv4NetType_Parse s).

Definition RateLimiterIPv6NetType_ReadBCLValue (v : BclValue) : outcome Z :=
  s ← string_content v; wrap_error "invalid IPv6 network type"%go (RateLimiterIPv6NetType_Parse s).

Definition IPNetAddr_ReadBCLValue (v : BclValue) : outcome IPNet :=
  s ← string_content v; wrap_error "invalid IP network address"%go (IPNetAddr_Parse s).

Definition IPAddr_ReadBCLValue (v : BclValue) : outcome IPNet :=
  s ← string_content v; wrap_error "invalid IP address"%go (IPAddr_Parse s).

Definition DomainNamePattern_ReadBCLValue (v : BclValue) : outcome DomainNamePattern :=
  s ← string_content v; wrap_error "invalid domain name pattern"%go (DomainNamePattern_Parse s).

(** The rest of the method is [HostAddress_Parse]. *)
Definition HostAddress_ReadBCLValue (v : BclValue) : outcome HostAddress :=
  s ← string_content v; HostAddress_Parse s.

Definition FormatString_ReadBCLValue `{Environment} (v : BclValue) : outcome FormatString :=
  vs ← match Content v with
       | BclString s _ => Ret s
       | BclSymbol s => Ret s
       | BclOther => value_type_error
       end;
  wrap_error "invalid format string"%go (FormatString_Parse vs).

(** A pointer variable: what it points to is allocated. *)
Definition pointer {A} (r : BclValue -> outcome A) (v : BclValue) : outcome (option A) := Some <$> r v.

Definition pointer_to {A} (rd : Element -> reading A) (e : Element) : reading (option A) :=
  a ← rd e; mret (Some a).

(** ** Rate limits *)

(** [readRateLimit]; [None] is a nil counter. *)
Definition readRateLimit (entry : Element) (firstValue : Z) : reading (option RateCounterCfg) :=
  if NbValues entry =? firstValue + 1 then
    _ ← CheckValueOneOf entry firstValue ["none"%go]; mret (Some (RateLimiter.mkCfg 0 0))
  else
    ok ← CheckNbValues entry (firstValue + 2);
    if negb ok then mret None
    else
      '(ok, limit) ← Value_at entry firstValue read_int 0;
      if negb ok then mret None
      else
        '(ok, period) ← Value_at entry (firstValue + 1) read_int 0;
        if negb ok then mret None
        else mret (Some (RateLimiter.mkCfg limit (i64 (period * 1000)))).

(** An entry that a counter is read of, if there is one. *)
Definition maybe_rate_limit (entry : option Element) : reading (option RateCounterCfg) :=
  match entry with Some entry => readRateLimit entry 0 | None => mret None end.

(** The entries of networks: a value and a counter. *)
Definition keyed_rate_limit {K} (key : BclValue -> outcome K) (zero : K) (entry : Element)
  : reading (K * option RateCounterCfg) :=
  '(_, k) ← Value_at entry 0 key zero;
  rcCfg ← readRateLimit entry 1;
  mret (k, rcCfg).

Definition add_limit (m : gmap Z RateCounterCfg) (l : Z * option RateCounterCfg) : gmap Z RateCounterCfg :=
  match l with (k, Some rcCfg) => <[k := rcCfg]> m | (_, None) => m end.

Definition added_addresses (l : list (IPNet * option RateCounterCfg)) : list (IPNet * RateCounterCfg) :=
  omap (fun x => (fun rcCfg => (fst x, rcCfg)) <$> snd x) l.

(** [RateLimiterCfg.ReadBCLElement] *)
Definition RateLimiterCfg_ReadBCLElement (elt : Element) : reading RateLimiterCfg :=
  if IsBlock elt then
    global ← maybe_rate_limit (FindEntry elt "global"%go);
    address ← maybe_rate_limit (FindEntry elt "per_address"%go);
    let per4 := add_limit ∅ (32, address) in
    let per6 := add_limit ∅ (48, address) in
    address4 ← maybe_rate_limit (FindEntry elt "per_ipv4_address"%go);
    let per4 := add_limit per4 (32, address4) in
    networks4 ← read_each (keyed_rate_limit RateLimiterIPv4NetType_ReadBCLValue 0)
                  (FindEntries elt "per_ipv4_network"%go);
    let per4 := foldl add_limit per4 networks4 in
    networks6 ← read_each (keyed_rate_limit RateLimiterIPv6NetType_ReadBCLValue 0)
                  (FindEntries elt "per_ipv6_network"%go);
    let per6 := foldl add_limit per6 networks6 in
    addresses ← read_each (keyed_rate_limit IPAddr_ReadBCLValue (mkIPNet [] [])) (FindEntries elt "address"%go);
    networks ← read_each (keyed_rate_limit IPNetAddr_ReadBCLValue (mkIPNet [] [])) (FindEntries elt "network"%go);
    mret (mkLimiterCfg global per4 per6 (added_addresses addresses ++ added_addresses networks))
  else
    _ ← CheckValueOneOf elt 0 ["none"%go];
    mret (mkLimiterCfg None ∅ ∅ []).

(** ** Listeners *)

Definition read_domain (entry : Element) : reading gostring :=
  '(_, domain) ← Values entry (WithValueValidation read_string ValidateBCLDomainName) [];
  mret domain.

(** The version a setting has: 0 when it is not set or not valid. *)
Definition read_tls_version (block : Element) (name : gostring) : reading Z :=
  version ← MaybeEntryValues block name (WithValueValidation read_string ValidateBCLTLSVersion) [];
  mret match ParseTLSVersion version with Ret v => v | _ => 0 end.

Definition read_cipher_suite `{GoTLS} (entry : Element) : reading Z :=
  '(_, name) ← Values entry (WithValueValidation read_string ValidateBCLTLSCipherSuite) [];
  mret (default 0 (tlsCipherSuites !! name)).

(** [TLSCfg.ReadBCLElement] *)
Definition TLSCfg_ReadBCLElement `{GoTLS} (block : Element) : reading ListenerTLS :=
  '(domains, certificate, key) ←
    match FindBlock block "acme"%go with
    | Some acmeBlock =>
        domains ← read_each read_domain (FindEntries acmeBlock "domain"%go);
        _ ← (if len domains =? 0
             then AddSimpleValidationError acmeBlock "ACME configuration does no contain any domain"%go
             else mret tt);
        mret (domains, [], [])
    | None =>
        certificate ← EntryValues block "certificate_file"%go read_string [];
        key ← EntryValues block "private_key_file"%go read_string [];
        mret ([], certificate, key)
    end;
  minVersion ← read_tls_version block "min_version"%go;
  maxVersion ← read_tls_version block "max_version"%go;
  suites ← read_each read_cipher_suite (FindEntries block "cipher_suite"%go);
  mret (mkListenerTLS domains certificate key (mkTLSCfg minVersion maxVersion) suites).

(** [ListenerCfg.ReadBCLElement]; the ACME client is set by [StartServer]. *)
Definition ListenerCfg_ReadBCLElement `{GoTLS} (block : Element) : reading ListenerCfg :=
  address ← EntryValues block "address"%go (WithValueValidation read_string ValidateBCLAddress) [];
  tls ← MaybeBlock block "tls"%go (pointer_to TLSCfg_ReadBCLElement) None;
  mret (mkListenerCfg address tls false).

(** [ServerCfg.ReadBCLElement]: what it adds to the configuration of a server. *)
Definition ServerCfg_ReadBCLElement `{GoTLS} (block : Element) : reading (list ListenerCfg) :=
  Blocks block "listener"%go ListenerCfg_ReadBCLElement.

(** ** Load balancers *)

(** [TCPHealthTestCfg.ReadBCLElement] reads nothing. *)
Definition TCPHealthTestCfg_ReadBCLElement (elt : Element) : reading unit := mret tt.

(** [HTTPHealthTestCfg.ReadBCLElement] *)
Definition HTTPHealthTestCfg_ReadBCLElement (elt : Element) : reading HTTPHealthTestCfg :=
  method ← MaybeEntryValues elt "method"%go (WithValueValidation read_string ValidateBCLMethod) "GET"%go;
  path ← EntryValues elt "path"%go read_string [];
  status ←
    match FindBlock elt "success"%go with
    | Some successBlock =>
        MaybeEntryValues successBlock "status"%go (WithValueValidation read_int ValidateBCLStatus) 0
    | None => mret 200
    end;
  mret (mkHTTPTest method path status).

(** [HealthProbeCfg.ReadBCLElement] *)
Definition HealthProbeCfg_ReadBCLElement (elt : Element) : reading HealthProbeCfg :=
  period ← MaybeEntryValues elt "period"%go read_int 5;
  success ← MaybeEntryValues elt "success_threshold"%go read_int 1;
  failure ← MaybeEntryValues elt "failure_threshold"%go read_int 1;
  tcp ← MaybeElement elt "tcp"%go (pointer_to TCPHealthTestCfg_ReadBCLElement) None;
  http ← MaybeBlock elt "http"%go (pointer_to HTTPHealthTestCfg_ReadBCLElement) None;
  mret (mkProbeCfg period success failure (bool_decide (is_Some tcp)) http).

Definition read_server (elt : Element) : reading HostAddress :=
  '(_, host) ← Values elt HostAddress_ReadBCLValue (mkHostAddress [] [] 0);
  mret host.

(** [LoadBalancerCfg.ReadBCLElement], for a configuration that has its name. *)
Definition LoadBalancerCfg_ReadBCLElement (name : gostring) (block : Element) : reading LoadBalancerCfg :=
  servers ← read_each read_server (FindEntries block "server"%go);
  if len servers =? 0 then
    fail (Errorf "load balancer configuration does no contain any server"%go)
  else
    probe ← MaybeBlock block "health_probe"%go (pointer_to HealthProbeCfg_ReadBCLElement) None;
    mret (mkBalancerCfg name servers probe).
End readers.

(** ** What is read *)

Lemma parseRateLimiterNetType_range s max n : parseRateLimiterNetType s max = Ret n -> 1 <= n <= max.
Proof.
  unfold parseRateLimiterNetType. intros Hp. repeat case_hyp Hp; try done.
  injection Hp as <-. bool_facts. lia.
Qed.

(** A network whose address and mask have the same length: [Contains] compares them. *)
Definition net_ok (n : IPNet) : Prop :=
  length (net_IP n) = length (net_Mask n) /\ (length (net_IP n) = 4 \/ length (net_IP n) = 16)%nat.

Lemma CIDRMask_bytes_length count n : length (CIDRMask_bytes count n) = count.
Proof. revert n. induction count as [|count IH]; intros n; cbn; [done|]. repeat case_goal; cbn; by rewrite IH. Qed.

Lemma digits_value_nonneg s acc n : 0 <= acc -> digits_value acc s = Some n -> 0 <= n.
Proof.
  revert acc. induction s as [|c s IH]; intros acc Ha; cbn [digits_value]; [congruence|].
  destruct (is_digit c) eqn:E; [|done]. unfold is_digit in E. bool_facts. apply IH. lia.
Qed.

Lemma dtoi_nonneg s n : dtoi s = Some n -> 0 <= n.
Proof.
  unfold dtoi. destruct s as [|c s]; [done|]. destruct (digits_value 0 (c :: s)) as [m|] eqn:E; [|done].
  cbn. destruct (m <? _); [|done]. intros [= <-]. by eapply digits_value_nonneg, E.
Qed.

Lemma Mask_v4 (v4 m : list ascii) :
  length v4 = 4%nat -> length m = 4%nat -> Mask (v4InV6Prefix ++ v4) m = Some (zip_with byte_and v4 m).
Proof.
  intros Hv Hm. unfold Mask. rewrite Hm, length_app, Hv. change (length v4InV6Prefix + 4)%nat with 16%nat.
  change (bool_decide (4%nat = IPv6len)) with false. change (bool_decide (16%nat = IPv6len)) with true.
  cbn [andb]. rewrite Hm. change (bool_decide (4%nat = IPv4len)) with true. cbn [andb].
  rewrite take_app_length', drop_app_length' by done.
  rewrite (bool_decide_true (v4InV6Prefix = v4InV6Prefix)) by done.
  by rewrite bool_decide_true by lia.
Qed.

Lemma Mask_v6 (ip m : list ascii) :
  length ip = 16%nat -> length m = 16%nat -> Mask ip m = Some (zip_with byte_and ip m).
Proof.
  intros Hi Hm. unfold Mask. rewrite Hi. change (bool_decide (16%nat = IPv4len)) with false.
  rewrite andb_false_r. cbn [andb]. rewrite Hm. change (bool_decide (16%nat = IPv4len)) with false. cbn [andb].
  by rewrite Hi, bool_decide_true by lia.
Qed.

Lemma CIDRMask_length k bits :
  bits = 32 \/ bits = 128 -> 0 <= k <= bits ->
  exists m, CIDRMask k bits = Some m /\ length m = Z.to_nat (bits / 8).
Proof.
  intros Hb Hk. unfold CIDRMask. destruct ((bits =? 32) || (bits =? 128)) eqn:E.
  2:{ bool_facts. lia. }
  cbn [negb]. destruct (Z.ltb_spec k 0), (Z.ltb_spec bits k); try lia.
  eexists. split; [done|]. apply CIDRMask_bytes_length.
Qed.

(** What [CIDRMask] makes of an address of a family, as [ParseIP] gives it. *)
Lemma ParseIP_Mask addr ip k :
  ParseIP addr = Some ip -> 0 <= k <= addr_BitLen addr ->
  net_ok (mkIPNet (default [] (Mask ip (default [] (CIDRMask k (addr_BitLen addr)))))
            (default [] (CIDRMask k (addr_BitLen addr)))).
Proof.
  intros Hip. pose proof (ParseIP_length _ _ Hip) as Hl. unfold ParseIP in Hip. unfold addr_BitLen, net_ok.
  destruct (IndexAny addr ".:%"%go) as [i|]; [|done]. cbn [mbind option_bind].
  destruct (addr !! i) as [c|]; [|done].
  destruct (bool_decide (c = "."%char)); intros Hk.
  - destruct (parseIPv4Fields addr) as [v4|] eqn:E4; [|done].
    assert (ip = v4InV6Prefix ++ v4) as -> by (cbn -[v4InV6Prefix] in Hip; congruence).
    apply parseIPv4Fields_length in E4.
    destruct (CIDRMask_length k 32) as (m & -> & Hm); [by left|done|]. change (Z.to_nat (32 / 8)) with 4%nat in Hm.
    cbn [from_option id]. rewrite (Mask_v4 v4 m) by done. cbn [from_option id net_IP net_Mask].
    rewrite length_zip_with, E4, Hm. lia.
  - destruct (CIDRMask_length k 128) as (m & -> & Hm); [by right|done|].
    change (Z.to_nat (128 / 8)) with 16%nat in Hm.
    cbn [from_option id]. rewrite (Mask_v6 ip m) by done. cbn [from_option id net_IP net_Mask].
    rewrite length_zip_with, Hl, Hm. unfold IPv6len. lia.
Qed.

Lemma IPNetAddr_Parse_ok s n : IPNetAddr_Parse s = Ret n -> net_ok n.
Proof.
  unfold IPNetAddr_Parse, ParseCIDR. destruct (Cut s _) as [[addr mask] found]. destruct (negb found); [done|].
  destruct (ParseIP addr) as [ip|] eqn:Ei; [|done]. cbn [mbind option_bind].
  destruct (dtoi mask) as [k|] eqn:Ed; [|done]. cbn [mbind option_bind].
  destruct (Z.ltb_spec (addr_BitLen addr) k); [done|]. intros <-%Ret_inj.
  apply ParseIP_Mask; [done|]. apply dtoi_nonneg in Ed. lia.
Qed.

Lemma IPAddr_Parse_ok s n : IPAddr_Parse s = Ret n -> net_ok n.
Proof.
  unfold IPAddr_Parse, net_ok. destruct (ParseIP s) as [ip|] eqn:Ei; [|done]. intros <-%Ret_inj.
  apply ParseIP_length in Ei. unfold len. cbn [net_IP net_Mask]. rewrite Ei. change (Z.of_nat IPv6len * 8) with 128.
  destruct (CIDRMask_length 128 128) as (m & -> & Hm); [by right|lia|]. cbn [from_option id]. rewrite Hm.
  change (Z.to_nat (128 / 8)) with 16%nat. unfold IPv6len. lia.
Qed.

(** ** What a configuration that was read satisfies *)

Record rate_limits_ok (cfg : RateLimiterCfg) : Prop := {
  rlo_ipv4 : map_Forall (fun prefixLength _ => 1 <= prefixLength <= 32) (PerIPv4Address cfg);
  rlo_ipv6 : map_Forall (fun prefixLength _ => 1 <= prefixLength <= 128) (PerIPv6Address cfg);
  rlo_addresses : Forall (fun x => net_ok (fst x)) (Addresses cfg)
}.

(** The address of a listener has a port [StartListener] accepts. *)
Definition address_ok (address : gostring) : Prop :=
  exists host port n, SplitHostPort address = Ret (host, port) /\ valid_port 1 65535 port = Some n.

Definition version_ok (v : Z) : Prop := v = 0 \/ v ∈ all_versions.

(** Either certificates come from ACME, for some domains, or from files. *)
Record tls_ok `{GoTLS} (tls : ListenerTLS) : Prop := {
  to_domains : Forall (fun domain => ValidateBCLDomainName domain = Ret tt) (lt_Domains tls);
  to_versions : version_ok (MinVersion (lt_Versions tls)) /\ version_ok (MaxVersion (lt_Versions tls));
  to_suites : Forall (fun id => exists name, tlsCipherSuites !! name = Some id) (lt_CipherSuites tls)
}.

Record listener_ok `{GoTLS} (cfg : ListenerCfg) : Prop := {
  lo_address : address_ok (lc_Address cfg);
  lo_tls : forall tls, lc_TLS cfg = Some tls -> tls_ok tls
}.

Record http_test_ok (cfg : HTTPHealthTestCfg) : Prop := {
  hto_method : Method cfg ∈ methods;
  hto_status : status_ok (SuccessStatus cfg)
}.

Definition host_ok (host : HostAddress) : Prop :=
  1 <= ha_Port host <= 65535 /\ (ha_Hostname host <> [] \/ length (ha_Address host) = IPv6len).

Record balancer_ok (cfg : LoadBalancerCfg) : Prop := {
  bo_servers : lbc_Servers cfg <> [];
  bo_hosts : Forall host_ok (lbc_Servers cfg);
  bo_http : forall probe test, lbc_HealthProbe cfg = Some probe -> cfg_HTTP probe = Some test -> http_test_ok test
}.

Lemma ParseTLSVersion_ok name v : ParseTLSVersion name = Ret v -> version_ok v.
Proof. unfold ParseTLSVersion, version_ok, all_versions. intros Hp. repeat case_hyp Hp; simplify_eq; set_solver. Qed.

Lemma valid_port_range lo hi port n : valid_port lo hi port = Some n -> lo <= n <= hi.
Proof.
  unfold valid_port. destruct (ParseInt port); [|done]. destruct ((_ <? _) || _) eqn:E; [done|].
  intros [= <-]. bool_facts. lia.
Qed.

Lemma valid_port_wider lo hi lo' hi' port n :
  valid_port lo hi port = Some n -> lo' <= lo -> hi <= hi' -> valid_port lo' hi' port = Some n.
Proof.
  intros Hp Hlo Hhi. pose proof (valid_port_range _ _ _ _ Hp). unfold valid_port in *.
  destruct (ParseInt port) as [m|]; [|done]. destruct ((m <? lo) || _); [done|]. injection Hp as ->.
  destruct (Z.ltb_spec n lo'), (Z.ltb_spec hi' n); try done; lia.
Qed.

Lemma ValidateBCLAddress_ok address : ValidateBCLAddress address = Ret tt -> address_ok address.
Proof.
  unfold ValidateBCLAddress. intros Hv. inv_ret. destruct x as [host port].
  destruct (bool_decide _); [done|]. destruct (valid_port _ _ _) as [n|] eqn:E; [|done].
  exists host, port, n. split; [done|]. by eapply valid_port_wider; [exact E|lia|lia].
Qed.

Lemma HostAddress_Parse_ok s host : HostAddress_Parse s = Ret host -> host_ok host.
Proof.
  unfold HostAddress_Parse. intros Hp. inv_ret. destruct x as [h port]. inv_ret.
  destruct (valid_port 1 65535 port) as [n|] eqn:E; [|done]. apply Ret_inj in Hp. subst host.
  split; [by eapply valid_port_range|]. cbn [ha_Hostname ha_Address]. destruct h as [|c h]; [done|].
  destruct (_ || _).
  - destruct (ParseIP (c :: h)) as [addr|] eqn:Ei; [|done]. inv_ret. right. by eapply ParseIP_length.
  - inv_ret. by left.
Qed.

Section laws.
Context `{BclLaws}.
Set Default Proof Using "All".


Lemma keyed_rate_limit_ok {K} (key : BclValue -> outcome K) zero entry k r :
  reads_to (keyed_rate_limit key zero entry) (k, r) -> exists v, key v = Ret k.
Proof. unfold keyed_rate_limit. intros Hr. inv_reads. simplify_eq. by eexists. Qed.

(** The keys of the entries that were read. *)
Lemma keyed_rate_limits_ok {K} (P : K -> Prop) (key : BclValue -> outcome K) zero entries l :
  reads_to (read_each (keyed_rate_limit key zero) entries) l -> (forall v k, key v = Ret k -> P k) ->
  Forall (fun x => P (fst x)) l.
Proof.
  intros Hl HP. inv_reads. eapply Forall2_Forall_r_reads; [exact Hl|].
  intros e [k r] Hr. apply keyed_rate_limit_ok in Hr as [v Hv]. by eapply HP.
Qed.

Lemma add_limit_ok (P : Z -> Prop) m x :
  map_Forall (fun k _ => P k) m -> P (fst x) -> map_Forall (fun k (_ : RateCounterCfg) => P k) (add_limit m x).
Proof. destruct x as [k [r|]]; cbn; [|done]. intros Hm Hk. by apply map_Forall_insert_2. Qed.

Lemma add_limits_ok (P : Z -> Prop) l m :
  map_Forall (fun k _ => P k) m -> Forall (fun x => P (fst x)) l ->
  map_Forall (fun k (_ : RateCounterCfg) => P k) (foldl add_limit m l).
Proof.
  intros Hm Hl. revert m Hm. induction Hl as [|x l Hx _ IH]; intros m Hm; [done|].
  cbn. apply IH. by apply add_limit_ok.
Qed.

Lemma added_addresses_ok (P : IPNet -> Prop) l :
  Forall (fun x => P (fst x)) l -> Forall (fun x => P (fst x)) (added_addresses l).
Proof. induction 1 as [|[n [r|]] l Hx _ IH]; cbn; [done| |exact IH]. by constructor. Qed.

Lemma string_content_bind {A} (f : gostring -> outcome A) v a :
  string_content v ≫= f = Ret a -> exists s, f s = Ret a.
Proof. intros (s & _ & Hs)%bind_Ret. by exists s. Qed.

Lemma RateLimiterCfg_ok elt cfg : reads_to (RateLimiterCfg_ReadBCLElement elt) cfg -> rate_limits_ok cfg.
Proof.
  unfold RateLimiterCfg_ReadBCLElement. destruct (IsBlock elt); intros Hc.
  2:{ inv_reads. split; cbn; done || apply map_Forall_empty. }
  read_steps Hc. read_end Hc.
  match goal with
  | H4 : reads_to (read_each (keyed_rate_limit RateLimiterIPv4NetType_ReadBCLValue _) _) _,
    H6 : reads_to (read_each (keyed_rate_limit RateLimiterIPv6NetType_ReadBCLValue _) _) _,
    Ha : reads_to (read_each (keyed_rate_limit IPAddr_ReadBCLValue _) _) _,
    Hn : reads_to (read_each (keyed_rate_limit IPNetAddr_ReadBCLValue _) _) _ |- _ =>
      apply (keyed_rate_limits_ok (fun k => 1 <= k <= 32)) in H4;
      [|intros v k (s & Hs)%string_content_bind; rewrite wrap_Ret in Hs; by eapply parseRateLimiterNetType_range];
      apply (keyed_rate_limits_ok (fun k => 1 <= k <= 128)) in H6;
      [|intros v k (s & Hs)%string_content_bind; rewrite wrap_Ret in Hs; by eapply parseRateLimiterNetType_range];
      apply (keyed_rate_limits_ok net_ok) in Ha;
      [|intros v k (s & Hs)%string_content_bind; rewrite wrap_Ret in Hs; by eapply IPAddr_Parse_ok];
      apply (keyed_rate_limits_ok net_ok) in Hn;
      [|intros v k (s & Hs)%string_content_bind; rewrite wrap_Ret in Hs; by eapply IPNetAddr_Parse_ok]
  end.
  split; cbn [PerIPv4Address PerIPv6Address Addresses].
  - apply add_limits_ok; [|done]. repeat (apply add_limit_ok; [|cbn; lia]). apply map_Forall_empty.
  - apply add_limits_ok; [|done]. repeat (apply add_limit_ok; [|cbn; lia]). apply map_Forall_empty.
  - apply Forall_app. by split; apply added_addresses_ok.
Qed.

Lemma read_domain_ok entry domain :
  reads_to (read_domain entry) domain -> ValidateBCLDomainName domain = Ret tt.
Proof. unfold read_domain. intros Hr. by inv_reads. Qed.

Lemma read_tls_version_ok block name v : reads_to (read_tls_version block name) v -> version_ok v.
Proof.
  unfold read_tls_version. intros Hr. inv_reads; case_goal; try (by left); by eapply ParseTLSVersion_ok.
Qed.

Lemma read_cipher_suite_ok `{GoTLS} entry id :
  reads_to (read_cipher_suite entry) id -> exists name, tlsCipherSuites !! name = Some id.
Proof.
  unfold read_cipher_suite. intros Hr. inv_reads. unfold ValidateBCLTLSCipherSuite in *.
  match goal with E : context [tlsCipherSuites !! ?n] |- _ => exists n; by destruct (tlsCipherSuites !! n) end.
Qed.

Lemma TLSCfg_ok `{GoTLS} block tls :
  reads_to (TLSCfg_ReadBCLElement block) tls ->
  tls_ok tls /\ (has_block block "acme"%go <-> lt_Domains tls <> []).
Proof.
  unfold TLSCfg_ReadBCLElement. intros Hr. read_step Hr as x Hd.
  assert (Forall (fun d => ValidateBCLDomainName d = Ret tt) x.1.1
    /\ (has_block block "acme"%go <-> x.1.1 <> [])) as [Hdomains Hacme].
  { unfold has_block. destruct (FindBlock block "acme"%go) as [acmeBlock|]; inv_reads; cbn [fst].
    - split; [by eapply Forall2_Forall_r_reads, read_domain_ok|].
      split; [|by eexists]. intros _ ->. cbn [len length Z.of_nat Z.eqb] in *.
      by match goal with Ha : reads_to (if _ then _ else _) _ |- _ => apply AddSimpleValidationError_ok in Ha end.
    - split; [done|]. split; [by intros [? ?]|done]. }
  destruct x as [[domains certificate] key]. inv_reads. split; [|done].
  split; cbn [lt_Domains lt_Versions lt_CipherSuites MinVersion MaxVersion]; [done| |].
  - by split; eapply read_tls_version_ok.
  - by eapply Forall2_Forall_r_reads, read_cipher_suite_ok.
Qed.

Lemma pointer_to_ok {A} (rd : Element -> reading A) e r :
  reads_to (pointer_to rd e) r -> exists a, r = Some a /\ reads_to (rd e) a.
Proof. unfold pointer_to. intros Hr. inv_reads. by eexists. Qed.

(** An optional block, and an optional element, behind a pointer. *)
Lemma maybe_block_ok {A} e n (rd : Element -> reading A) a :
  reads_to (MaybeBlock e n (pointer_to rd) None) (Some a) -> exists b, FindBlock e n = Some b /\ reads_to (rd b) a.
Proof.
  intros [[_ [=]]|(b & Hb & (a' & [= ->] & Hr)%pointer_to_ok)]%MaybeBlock_ok. by exists b.
Qed.

Lemma maybe_element_ok {A} e n (rd : Element -> reading A) a :
  reads_to (MaybeElement e n (pointer_to rd) None) (Some a) ->
  exists b, (FindBlock e n = Some b \/ FindEntry e n = Some b) /\ reads_to (rd b) a.
Proof.
  intros [[_ [=]]|(b & Hb & (a' & [= ->] & Hr)%pointer_to_ok)]%MaybeElement_ok. by exists b.
Qed.

Lemma ListenerCfg_ok `{GoTLS} block cfg : reads_to (ListenerCfg_ReadBCLElement block) cfg -> listener_ok cfg.
Proof.
  unfold ListenerCfg_ReadBCLElement. intros Hr.
  read_step Hr as address Ha. read_step Hr as tls Ht.
  read_end Hr. split; cbn [lc_Address lc_TLS].
  - clear Ht. inv_reads. by apply ValidateBCLAddress_ok.
  - intros t ->. apply maybe_block_ok in Ht as (b & _ & Ht). by apply TLSCfg_ok in Ht as [Ht _].
Qed.

Lemma ServerCfg_ok `{GoTLS} block listeners :
  reads_to (ServerCfg_ReadBCLElement block) listeners -> Forall listener_ok listeners.
Proof.
  unfold ServerCfg_ReadBCLElement. intros Hr. inv_reads. by eapply Forall2_Forall_r_reads, ListenerCfg_ok.
Qed.

Lemma ValidateBCLMethod_ok method : ValidateBCLMethod method = Ret tt -> method ∈ methods.
Proof. unfold ValidateBCLMethod. destruct (bool_decide _) eqn:E; [by bool_facts|done]. Qed.

Lemma ValidateBCLStatus_ok status : ValidateBCLStatus status = Ret tt -> status_ok status.
Proof. intros Hv. apply validated_status. by right. Qed.

Lemma HTTPHealthTestCfg_ok elt cfg : reads_to (HTTPHealthTestCfg_ReadBCLElement elt) cfg -> http_test_ok cfg.
Proof.
  unfold HTTPHealthTestCfg_ReadBCLElement. intros Hr. read_step Hr as m Hm.
  read_step Hr as p Hp. read_step Hr as st Hs.
  read_end Hr. split; cbn [Method SuccessStatus].
  - clear Hs Hp. inv_reads; [by left|by apply ValidateBCLMethod_ok].
  - clear Hm Hp. destruct (FindBlock elt "success"%go); inv_reads; (by apply ValidateBCLStatus_ok) || by left.
Qed.

Lemma HealthProbeCfg_ok elt cfg test :
  reads_to (HealthProbeCfg_ReadBCLElement elt) cfg -> cfg_HTTP cfg = Some test -> http_test_ok test.
Proof.
  unfold HealthProbeCfg_ReadBCLElement. intros Hr. read_steps Hr.
  read_end Hr. cbn [cfg_HTTP]. intros ->.
  match goal with Hb : reads_to (MaybeBlock _ _ _ _) _ |- _ => apply maybe_block_ok in Hb as (b & _ & ?) end.
  by eapply HTTPHealthTestCfg_ok.
Qed.

Lemma LoadBalancerCfg_ok name block cfg :
  reads_to (LoadBalancerCfg_ReadBCLElement name block) cfg -> balancer_ok cfg /\ lbc_Name cfg = name.
Proof.
  unfold LoadBalancerCfg_ReadBCLElement. intros Hr. read_step Hr as hosts Hh.
  destruct (len hosts =? 0) eqn:El; [discriminate Hr|]. bool_facts.
  read_step Hr as probe Hp. read_end Hr.
  split; [|done]. split; cbn [lbc_Servers lbc_HealthProbe].
  - by intros ->.
  - inv_reads; (eapply Forall2_Forall_r_reads; [eassumption|]); intros e host Hs; unfold read_server in Hs; inv_reads;
      match goal with Hv : HostAddress_ReadBCLValue _ = Ret _ |- _ => apply string_content_bind in Hv as [s Hv] end;
      by eapply HostAddress_Parse_ok.
  - intros pr test -> Ht. apply maybe_block_ok in Hp as (b & _ & Hb). by eapply HealthProbeCfg_ok.
Qed.
End laws.
