(* ===== verification/ConfigHttp.v ===== *)
(** * Configuration of the HTTP protocol

    What pkg/protocols/http reads of the configuration: access logs, authentication, the
    actions, the constraints of handlers, the tree of handlers, the protocol.  A variable
    that could not be read keeps its zero value; the error it comes with makes the loading
    of the configuration fail. *)

From S2P Require Import Prelude GoStrings Bcl NetIP HttpHeader NetAddresses RateLimiter FormatString HttpPath.
From S2P Require Import HttpContext HttpAuth HttpHandler HttpServer HttpActions LoadBalancer HttpClient HttpProxy.
From S2P Require Import FcgiAction Lifecycle Service Validation ConfigNet.

(** ** Configurations

    [ServeActionCfg], [FastCGIActionCfg], [HandlerCfg] and [ProtocolCfg] with all their
    fields; the parts the rest of the development uses are below. *)

Record ServeActionIndexViewCfg := mkIndexViewCfg { iv_Enabled : bool; iv_MaxFiles : Z }.

Record ServeCfg := mkServe {
  svc_Path : FormatString;
  svc_IndexFiles : list gostring;
  svc_IndexRedirectStatus : Z;
  svc_IndexRedirectURI : option FormatString;
  svc_IndexView : ServeActionIndexViewCfg;
  svc_FileNotFound : option (option ReplyActionCfg)   (** [ServeActionFileNotFoundCfg.Reply] *)
}.

Record FastCGICfg := mkFastCGIConf {
  fcc_Address : gostring;
  fcc_Cfg : FastCGIActionCfg;
  fcc_Settings : FastCGISettings
}.

#[warnings="-register-all"]
Inductive HandlerConf := mkHandlerConf {
  hf_Match : MatchCfg;
  hf_AccessLogger : option AccessLoggerCfg;
  hf_Auth : option AuthCfg;
  hf_RequestRateLimiter : option RateLimiterCfg;
  hf_Reply : option ReplyActionCfg;
  hf_Redirect : option RedirectActionCfg;
  hf_Serve : option ServeCfg;
  hf_ReverseProxy : option ReverseProxyActionCfg;
  hf_Status : option unit;
  hf_FastCGI : option FastCGICfg;
  hf_Handlers : list HandlerConf;
  hf_NextHandler : bool
}.

(** [TLSHandling] is a string. *)
Record ProtocolConf := mkProtocolConf {
  pf_Handlers : list HandlerConf;
  pf_AccessLogger : option AccessLoggerCfg;
  pf_TLSHandling : gostring;
  pf_HSTS : bool;
  pf_DebugLogVariables : bool;
  pf_LogGoServerErrors : bool;
  pf_UnencryptedHTTP2 : bool
}.

Definition DefaultServeActionIndexViewMaxFiles : Z := 1000.

Definition TLSHandling_of (s : gostring) : option TLSHandling :=
  if bool_decide (s = "accept"%go) then Some TLSHandlingAccept
  else if bool_decide (s = "reject"%go) then Some TLSHandlingReject
  else if bool_decide (s = "require"%go) then Some TLSHandlingRequire
  else if bool_decide (s = "redirect"%go) then Some TLSHandlingRedirect
  else None.

(** The values of type [HashAlgorithm] of the code, and [HashAlgorithmValues]. *)
Definition hash_name (a : HashAlgorithm) : gostring :=
  match a with
  | HashAlgorithmSHA256 => "SHA-256"%go
  | HashAlgorithmSHA512 => "SHA-512"%go
  | HashAlgorithmSHA3256 => "SHA3-256"%go
  | HashAlgorithmSHA3512 => "SHA3-512"%go
  end.

Definition HashAlgorithmValues : list HashAlgorithm :=
  [HashAlgorithmSHA256; HashAlgorithmSHA512; HashAlgorithmSHA3256; HashAlgorithmSHA3512].

Definition HTTPVersionStringsAny : list gostring := ["HTTP/1.0"%go; "HTTP/1.1"%go; "HTTP/2"%go; "HTTP/3"%go].

(** ** Fields of [MatchCfg] *)

Definition no_match : MatchCfg := mkMatch None [] [] [] [] ∅ ∅ [] [].

Definition set_tls (x : option bool) (m : MatchCfg) : MatchCfg :=
  mkMatch x (HTTPVersions m) (Methods m) (Hosts m) (HostRegexps m) (HeaderValues m) (HeaderRegexps m) (Paths m) (PathRegexps m).
Definition add_version (x : HTTPVersion) (m : MatchCfg) : MatchCfg :=
  mkMatch (m_TLS m) (HTTPVersions m ++ [x]) (Methods m) (Hosts m) (HostRegexps m) (HeaderValues m) (HeaderRegexps m)
    (Paths m) (PathRegexps m).
Definition set_methods (x : list gostring) (m : MatchCfg) : MatchCfg :=
  mkMatch (m_TLS m) (HTTPVersions m) x (Hosts m) (HostRegexps m) (HeaderValues m) (HeaderRegexps m) (Paths m) (PathRegexps m).
Definition add_host (x : DomainNamePattern) (m : MatchCfg) : MatchCfg :=
  mkMatch (m_TLS m) (HTTPVersions m) (Methods m) (Hosts m ++ [x]) (HostRegexps m) (HeaderValues m) (HeaderRegexps m)
    (Paths m) (PathRegexps m).
Definition add_host_regexp (x : Regexp) (m : MatchCfg) : MatchCfg :=
  mkMatch (m_TLS m) (HTTPVersions m) (Methods m) (Hosts m) (HostRegexps m ++ [x]) (HeaderValues m) (HeaderRegexps m)
    (Paths m) (PathRegexps m).
Definition set_header_values (x : gmap gostring (list gostring)) (m : MatchCfg) : MatchCfg :=
  mkMatch (m_TLS m) (HTTPVersions m) (Methods m) (Hosts m) (HostRegexps m) x (HeaderRegexps m) (Paths m) (PathRegexps m).
Definition set_header_regexps (x : gmap gostring (list Regexp)) (m : MatchCfg) : MatchCfg :=
  mkMatch (m_TLS m) (HTTPVersions m) (Methods m) (Hosts m) (HostRegexps m) (HeaderValues m) x (Paths m) (PathRegexps m).
Definition add_path (x : PathPattern) (m : MatchCfg) : MatchCfg :=
  mkMatch (m_TLS m) (HTTPVersions m) (Methods m) (Hosts m) (HostRegexps m) (HeaderValues m) (HeaderRegexps m)
    (Paths m ++ [x]) (PathRegexps m).
Definition add_path_regexp (x : Regexp) (m : MatchCfg) : MatchCfg :=
  mkMatch (m_TLS m) (HTTPVersions m) (Methods m) (Hosts m) (HostRegexps m) (HeaderValues m) (HeaderRegexps m)
    (Paths m) (PathRegexps m ++ [x]).

(** [m[name] = append(m[name], x)] *)
Definition append_at {V} (name : gostring) (x : V) (m : gmap gostring (list V)) : gmap gostring (list V) :=
  <[name := default [] (m !! name) ++ [x]]> m.

Section readers.
Context `{Bcl, Environment, GoUnicode}.

(** ** Values *)

Definition PathPattern_ReadBCLValue (v : BclValue) : outcome PathPattern :=
  s ← string_content v; wrap_error "invalid path pattern"%go (PathPattern_Parse s).

Definition HTTPVersion_ReadBCLValue (v : BclValue) : outcome HTTPVersion :=
  s ← string_content v; HTTPVersion_Parse s.

Definition HashAlgorithm_ReadBCLValue (v : BclValue) : outcome HashAlgorithm :=
  s ← string_content v;
  match List.find (fun a => bool_decide (hash_name a = s)) HashAlgorithmValues with
  | None => Throw (Errorf "invalid hash algorithm"%go)
  | Some a => Ret a
  end.

(** ** Access logs and authentication *)

(** [AccessLoggerCfg.ReadBCLElement] *)
Definition AccessLoggerCfg_ReadBCLElement (block : Element) : reading AccessLoggerCfg :=
  path ← EntryValues block "path"%go FormatString_ReadBCLValue no_format;
  format ← EntryValues block "format"%go FormatString_ReadBCLValue no_format;
  mret (mkLoggerCfg path format).

(** [SecretsCfg.ReadBCLElement]: the first variable the entry [hmac] is read into is the
    string "hmac", which is not a pointer. *)
Definition SecretsCfg_ReadBCLElement (block : Element) : reading SecretsCfg :=
  _ ← CheckElementsOneOf block ["hash"%go; "hmac"%go];
  hash ← MaybeEntryValues block "hash"%go (fun v => Some <$> HashAlgorithm_ReadBCLValue v) None;
  hmac ←
    match FindEntry block "hmac"%go with
    | Some entry =>
        '(_, (_, alg, key)) ← Values3 entry (read_not_pointer "hmac"%go) tt
                                HashAlgorithm_ReadBCLValue HashAlgorithmSHA256 read_bytes [];
        mret (Some (mkHMAC alg key))
    | None => mret None
    end;
  mret (mkSecrets hash hmac).

Definition read_user (entry : Element) : reading gostring :=
  '(_, (username, password)) ← Values2 entry read_string [] read_string [];
  mret (username ++ ":"%go ++ password).

(** [BasicAuthCfg.ReadBCLElement] *)
Definition BasicAuthCfg_ReadBCLElement (block : Element) : reading BasicAuthCfg :=
  _ ← CheckEntriesOneOf block ["user"%go; "user_file_path"%go];
  users ← read_each read_user (FindEntries block "user"%go);
  path ← MaybeEntryValues block "user_file_path"%go read_string [];
  mret (mkBasicCfg users path).

Definition read_one_string (entry : Element) : reading gostring :=
  '(_, s) ← Values entry read_string []; mret s.

(** [BearerAuthCfg.ReadBCLElement] *)
Definition BearerAuthCfg_ReadBCLElement (block : Element) : reading BearerAuthCfg :=
  _ ← CheckEntriesOneOf block ["token"%go; "token_file"%go];
  tokens ← read_each read_one_string (FindEntries block "token"%go);
  path ← MaybeEntryValues block "token_file"%go read_string [];
  mret (mkBearerCfg tokens path).

(** [AuthCfg.ReadBCLElement] *)
Definition AuthCfg_ReadBCLElement (block : Element) : reading AuthCfg :=
  secrets ← MaybeBlock block "secrets"%go (pointer_to SecretsCfg_ReadBCLElement) None;
  realm ← MaybeEntryValues block "realm"%go read_string [];
  _ ← CheckBlocksOneOf block ["basic"%go; "bearer"%go];
  basic ← MaybeBlock block "basic"%go (pointer_to BasicAuthCfg_ReadBCLElement) None;
  bearer ← MaybeBlock block "bearer"%go (pointer_to BearerAuthCfg_ReadBCLElement) None;
  mret (mkAuthCfg secrets realm basic bearer).

(** ** Actions *)

(** The function [readEntries] of [HeaderOps.ReadBCLElement]. *)
Definition read_header_ops (block : Element) (name : gostring) (t : HeaderOpType) : reading (list HeaderOp) :=
  read_each (fun entry =>
    '(_, (name, value)) ← Values2 entry read_string [] FormatString_ReadBCLValue no_format;
    mret (mkOp t name value)) (FindEntries block name).

(** [HeaderOps.ReadBCLElement] *)
Definition HeaderOps_ReadBCLElement (block : Element) : reading (list HeaderOp) :=
  ops1 ← read_header_ops block "set"%go HeaderOpTypeSet;
  ops2 ← read_header_ops block "add"%go HeaderOpTypeAdd;
  ops3 ← read_header_ops block "remove"%go HeaderOpTypeRemove;
  mret (ops1 ++ ops2 ++ ops3).

Definition read_status : BclValue -> outcome Z := WithValueValidation read_int ValidateBCLStatus.

(** [ReplyActionCfg.ReadBCLElement]: the form with two values reads them twice. *)
Definition ReplyActionCfg_ReadBCLElement (elt : Element) : reading ReplyActionCfg :=
  if IsBlock elt then
    status ← MaybeEntryValues elt "status"%go read_status 200;
    header ← MaybeBlock elt "header"%go HeaderOps_ReadBCLElement [];
    body ← MaybeEntryValues elt "body"%go (pointer FormatString_ReadBCLValue) None;
    mret (mkReplyCfg status header body)
  else
    ok ← CheckMinMaxNbValues elt 1 2;
    if negb ok then mret (mkReplyCfg 200 [] None)
    else if NbValues elt =? 1 then
      '(_, status) ← Values elt read_status 200;
      mret (mkReplyCfg status [] None)
    else if NbValues elt =? 2 then
      '(_, (status, body)) ← Values2 elt read_status 200 (pointer FormatString_ReadBCLValue) None;
      '(_, (status, body)) ← Values2 elt read_int status (pointer FormatString_ReadBCLValue) body;
      mret (mkReplyCfg status [] body)
    else mret (mkReplyCfg 200 [] None).

(** [RedirectActionCfg.ReadBCLElement] *)
Definition RedirectActionCfg_ReadBCLElement (elt : Element) : reading RedirectActionCfg :=
  if IsBlock elt then
    status ← MaybeEntryValues elt "status"%go read_status 302;
    uri ← EntryValues elt "uri"%go FormatString_ReadBCLValue no_format;
    header ← MaybeBlock elt "header"%go HeaderOps_ReadBCLElement [];
    body ← MaybeEntryValues elt "body"%go (pointer FormatString_ReadBCLValue) None;
    mret (mkRedirectCfg status uri header body)
  else
    '(_, (status, uri)) ← Values2 elt read_status 302 FormatString_ReadBCLValue no_format;
    mret (mkRedirectCfg status uri [] None).

(** [ServeActionIndexViewCfg.ReadBCLElement] *)
Definition ServeActionIndexViewCfg_ReadBCLElement (elt : Element) : reading ServeActionIndexViewCfg :=
  if IsBlock elt then
    maxFiles ← MaybeEntryValues elt "max_files"%go read_int DefaultServeActionIndexViewMaxFiles;
    mret (mkIndexViewCfg true maxFiles)
  else
    '(_, enabled) ← Values elt read_bool false;
    mret (mkIndexViewCfg enabled 0).

(** [ServeActionFileNotFoundCfg.ReadBCLElement] *)
Definition ServeActionFileNotFoundCfg_ReadBCLElement (block : Element) : reading (option ReplyActionCfg) :=
  MaybeElement block "reply"%go (pointer_to ReplyActionCfg_ReadBCLElement) None.

(** [ServeActionCfg.ReadBCLElement] *)
Definition ServeActionCfg_ReadBCLElement (elt : Element) : reading ServeCfg :=
  let no_view := mkIndexViewCfg false 0 in
  if IsBlock elt then
    _ ← CheckEntriesMaybeOneOf elt ["index_file"%go; "index_redirect"%go];
    path ← EntryValues elt "path"%go FormatString_ReadBCLValue no_format;
    files ← read_each read_one_string (FindEntries elt "index_file"%go);
    '(status, uri) ←
      match FindEntry elt "index_redirect"%go with
      | Some entry =>
          '(_, target) ← Values2 entry read_status 0 (pointer FormatString_ReadBCLValue) None; mret target
      | None => mret (0, None : option FormatString)
      end;
    view ← MaybeElement elt "index_view"%go ServeActionIndexViewCfg_ReadBCLElement no_view;
    missing ← MaybeBlock elt "file_not_found"%go (pointer_to ServeActionFileNotFoundCfg_ReadBCLElement) None;
    mret (mkServe path files status uri view missing)
  else
    '(_, path) ← Values elt FormatString_ReadBCLValue no_format;
    mret (mkServe path [] 0 None no_view None).

(** [ReverseProxyActionCfg.ReadBCLElement]; [url_Parse] is [url.Parse]. *)
Definition ReverseProxyActionCfg_ReadBCLElement (url_Parse : gostring -> outcome URL) (elt : Element)
  : reading ReverseProxyActionCfg :=
  let read_uri := WithValueValidation read_string (ValidateBCLHTTPURI url_Parse) in
  if IsBlock elt then
    _ ← CheckElementsOneOf elt ["uri"%go; "load_balancer"%go];
    uri ← MaybeEntryValues elt "uri"%go read_uri [];
    name ← MaybeEntryValues elt "load_balancer"%go read_string [];
    request ← MaybeBlock elt "request_header"%go HeaderOps_ReadBCLElement [];
    response ← MaybeBlock elt "response_header"%go HeaderOps_ReadBCLElement [];
    mret (mkProxyCfg uri name request response)
  else
    '(_, uri) ← Values elt read_uri [];
    mret (mkProxyCfg uri [] [] []).

(** [StatusActionCfg.ReadBCLElement] *)
Definition StatusActionCfg_ReadBCLElement (elt : Element) : reading unit := mret tt.

Definition read_parameter (entry : Element) (parameters : gmap gostring gostring) : reading (gmap gostring gostring) :=
  '(ok, (name, value)) ← Values2 entry read_string [] read_string [];
  mret (if (ok : bool) then <[name := value]> parameters else parameters).

Definition read_size (block : Element) (name : gostring) : reading (option Z) :=
  MaybeEntryValues block name (pointer (WithValueValidation read_int ValidatePositiveInteger)) None.

(** [FastCGIActionCfg.ReadBCLElement] *)
Definition FastCGIActionCfg_ReadBCLElement (block : Element) : reading FastCGICfg :=
  address ← EntryValues block "address"%go (WithValueValidation read_string ValidateBCLAddress) [];
  parameters ← read_loop read_parameter (FindEntries block "parameter"%go) ∅;
  path ← MaybeEntryValues block "path"%go read_string [];
  script ← MaybeEntryValues block "default_script"%go read_string [];
  regexp ← MaybeEntryValues block "script_regexp"%go read_string [];
  dir ← MaybeEntryValues block "temporary_directory"%go read_string [];
  reqMem ← read_size block "request_body_memory_buffer_size"%go;
  reqMax ← read_size block "max_request_body_size"%go;
  resMem ← read_size block "response_body_memory_buffer_size"%go;
  resMax ← read_size block "max_response_body_size"%go;
  timeout ← MaybeEntryValues block "request_timeout"%go (pointer read_duration) None;
  mret (mkFastCGIConf address (mkFastCGICfg parameters path script)
          (mkSettings regexp dir reqMem reqMax resMem resMax timeout)).

(** ** Constraints of handlers *)

(** [for i := lo; i < entry.NbValues(); i++] *)
Definition indices (lo : Z) (entry : Element) : list Z := seqZ lo (NbValues entry - lo).

Definition read_version (entry : Element) (i : Z) (cfg : MatchCfg) : reading MatchCfg :=
  ok ← CheckValueOneOf entry i HTTPVersionStringsAny;
  if (ok : bool) then
    '(_, version) ← Value_at entry i HTTPVersion_ReadBCLValue HTTPVersionHTTP10;
    mret (add_version version cfg)
  else mret cfg.

Definition read_method (entry : Element) (i : Z) : reading gostring :=
  '(_, method) ← Value_at entry i (WithValueValidation read_string ValidateBCLMethod) [];
  mret method.

(** The loops over strings and regular expressions: [add_re] for a string with the sigil
    of regular expressions, [add] for another one. *)
Definition read_string_or_re {V} (entry : Element) (rd : BclValue -> outcome V) (zero : V)
  (add : V -> MatchCfg -> MatchCfg) (add_re : Regexp -> MatchCfg -> MatchCfg) (i : Z) (cfg : MatchCfg)
  : reading MatchCfg :=
  '(ok, s) ← Value_at entry i read_bcl_string ([], []);
  if negb ok then mret cfg
  else if bool_decide (snd s = "re"%go) then
    '(_, re) ← Value_at entry i read_regexp (fun _ => false);
    mret (add_re re cfg)
  else
    '(_, v) ← Value_at entry i rd zero;
    mret (add v cfg).

Definition add_header_value (name value : gostring) (cfg : MatchCfg) : MatchCfg :=
  set_header_values (append_at name value (HeaderValues cfg)) cfg.
Definition add_header_regexp (name : gostring) (re : Regexp) (cfg : MatchCfg) : MatchCfg :=
  set_header_regexps (append_at name re (HeaderRegexps cfg)) cfg.

(** The case of header fields. *)
Definition read_header_match (entry : Element) (cfg : MatchCfg) : reading MatchCfg :=
  '(ok, name) ← Value_at entry 1 read_string [];
  if negb ok then mret cfg
  else
    let cfg := if NbValues entry =? 1 then set_header_values (<[name := []]> (HeaderValues cfg)) cfg else cfg in
    read_loop (read_string_or_re entry read_string [] (add_header_value name) (add_header_regexp name))
      (indices 2 entry) cfg.

(** [MatchCfg.ReadBCLEntry] *)
Definition MatchCfg_ReadBCLEntry (entry : Element) (cfg : MatchCfg) : reading MatchCfg :=
  _ ← CheckValueOneOf entry 0 ["tls"%go; "http_version"%go; "method"%go; "host"%go; "header"%go; "path"%go];
  '(ok, matchType) ← Value_at entry 0 read_string [];
  if negb ok then mret cfg
  else if bool_decide (matchType = "tls"%go) then
    '(_, (_, tls)) ← Values2 entry read_string matchType (pointer read_bool) (m_TLS cfg);
    mret (set_tls tls cfg)
  else if bool_decide (matchType = "http_version"%go) then
    read_loop (read_version entry) (indices 1 entry) cfg
  else if bool_decide (matchType = "method"%go) then
    ms ← read_each (read_method entry) (indices 1 entry);
    mret (set_methods ms cfg)
  else if bool_decide (matchType = "host"%go) then
    read_loop (read_string_or_re entry DomainNamePattern_ReadBCLValue [] add_host add_host_regexp) (indices 1 entry) cfg
  else if bool_decide (matchType = "header"%go) then read_header_match entry cfg
  else if bool_decide (matchType = "path"%go) then
    read_loop (read_string_or_re entry PathPattern_ReadBCLValue (mkPath [] false false) add_path add_path_regexp)
      (indices 1 entry) cfg
  else mret cfg.

(** ** Handlers and the protocol *)

Definition actions : list gostring :=
  ["reply"%go; "redirect"%go; "serve"%go; "reverse_proxy"%go; "status"%go; "fastcgi"%go].

(** [HandlerCfg.ReadBCLElement]: handlers are blocks in blocks, read with a unit of fuel for
    each level. *)
Fixpoint HandlerCfg_ReadBCLElement (url_Parse : gostring -> outcome URL) (fuel : nat) (block : Element)
  : reading HandlerConf :=
  match fuel with
  | O => (OutOfFuel, [])
  | S fuel' =>
      spec ← read_loop MatchCfg_ReadBCLEntry (FindEntries block "match"%go) no_match;
      logs ← MaybeBlock block "access_logs"%go (pointer_to AccessLoggerCfg_ReadBCLElement) None;
      auth ← MaybeBlock block "authentication"%go (pointer_to AuthCfg_ReadBCLElement) None;
      limits ← MaybeElement block "request_rate_limits"%go (pointer_to RateLimiterCfg_ReadBCLElement) None;
      _ ← CheckElementsMaybeOneOf block actions;
      reply ← MaybeElement block "reply"%go (pointer_to ReplyActionCfg_ReadBCLElement) None;
      redirect ← MaybeElement block "redirect"%go (pointer_to RedirectActionCfg_ReadBCLElement) None;
      serve ← MaybeElement block "serve"%go (pointer_to ServeActionCfg_ReadBCLElement) None;
      proxy ← MaybeElement block "reverse_proxy"%go (pointer_to (ReverseProxyActionCfg_ReadBCLElement url_Parse)) None;
      status ← MaybeElement block "status"%go (pointer_to StatusActionCfg_ReadBCLElement) None;
      fastcgi ← MaybeElement block "fastcgi"%go (pointer_to FastCGIActionCfg_ReadBCLElement) None;
      handlers ← Blocks block "handler"%go (HandlerCfg_ReadBCLElement url_Parse fuel');
      let next := bool_decide (is_Some (FindEntry block "next_handler"%go)) in
      mret (mkHandlerConf spec logs auth limits reply redirect serve proxy status fastcgi handlers next)
  end.

(** [ProtocolCfg.ReadBCLElement] *)
Definition ProtocolCfg_ReadBCLElement (url_Parse : gostring -> outcome URL) (block : Element)
  : reading ProtocolConf :=
  handlers ← Blocks block "handler"%go (fun b => HandlerCfg_ReadBCLElement url_Parse (S (depth b)) b);
  logs ← MaybeBlock block "access_logs"%go (pointer_to AccessLoggerCfg_ReadBCLElement) None;
  tls ←
    match FindEntry block "tls"%go with
    | Some entry =>
        _ ← CheckValueOneOf entry 0 ["accept"%go; "reject"%go; "require"%go; "redirect"%go];
        '(_, s) ← Values entry read_string []; mret s
    | None => mret "accept"%go
    end;
  hsts ← MaybeEntryValues block "hsts"%go read_bool false;
  debug ← MaybeEntryValues block "debug_log_variables"%go read_bool false;
  errors ← MaybeEntryValues block "log_go_server_errors"%go read_bool false;
  http2 ← MaybeEntryValues block "unencrypted_http2"%go read_bool false;
  mret (mkProtocolConf handlers logs tls hsts debug errors http2).
End readers.

(** ** What is read: constraints *)

(** The constraints of a configuration: known methods, and no header field that is only
    asked to be present. *)
Record spec_ok (spec : MatchCfg) : Prop := {
  spo_methods : Forall (fun m => m ∈ methods) (Methods spec);
  spo_presence : no_presence_test spec
}.

Section constraints.
Context `{BclLaws, Environment, GoUnicode}.
Set Default Proof Using "All".

Lemma read_method_ok entry i m : reads_to (read_method entry i) m -> m ∈ methods.
Proof. unfold read_method. intros Hr. inv_reads. by apply ValidateBCLMethod_ok. Qed.

(** A loop over strings and expressions keeps what its two additions keep. *)
Lemma read_string_or_re_ok {V} (P : MatchCfg -> Prop) entry (rd : BclValue -> outcome V) zero add add_re i cfg cfg' :
  (forall v c, P c -> P (add v c)) -> (forall re c, P c -> P (add_re re c)) ->
  reads_to (read_string_or_re entry rd zero add add_re i cfg) cfg' -> P cfg -> P cfg'.
Proof.
  intros Hadd Hre Hr Hc. unfold read_string_or_re in Hr. inv_reads.
  destruct (bool_decide _); inv_reads; [by apply Hre|by apply Hadd].
Qed.

Lemma read_version_ok (P : MatchCfg -> Prop) entry i cfg cfg' :
  (forall v c, P c -> P (add_version v c)) -> reads_to (read_version entry i cfg) cfg' -> P cfg -> P cfg'.
Proof.
  intros Hadd Hr Hc. unfold read_version in Hr. read_step Hr as ok Hok. destruct ok; inv_reads; [by apply Hadd|done].
Qed.

Lemma append_at_nonempty {V} name (x : V) m :
  map_Forall (fun _ values => values <> []) m -> map_Forall (fun _ values => values <> []) (append_at name x m).
Proof. intros Hm. apply map_Forall_insert_2; [|done]. by destruct (default [] (m !! name)). Qed.

Lemma value_at_bound entry i v : value_at entry i v -> i < NbValues entry.
Proof.
  intros [Hi Hl%lookup_lt_Some]. rewrite NbValues_ok. unfold len. lia.
Qed.

(** The case of a field without values is never taken: its name is the second value of
    the entry. *)
Lemma read_header_match_spec entry cfg cfg' :
  reads_to (read_header_match entry cfg) cfg' ->
  exists v name, value_at entry 1 v /\ read_string v = Ret name
    /\ reads_to (read_loop (read_string_or_re entry read_string [] (add_header_value name) (add_header_regexp name))
                (indices 2 entry) cfg) cfg'.
Proof.
  unfold read_header_match. intros Hr. read_step Hr as x Hx. destruct x as [ok name].
  apply Value_at_ok in Hx as (-> & v & Hv & Hn). cbn [negb] in Hr. exists v, name. split; [done|]. split; [done|].
  apply value_at_bound in Hv. destruct (Z.eqb_spec (NbValues entry) 1); [lia|done].
Qed.

Lemma MatchCfg_ReadBCLEntry_ok entry cfg cfg' :
  reads_to (MatchCfg_ReadBCLEntry entry cfg) cfg' -> spec_ok cfg -> spec_ok cfg'.
Proof.
  unfold MatchCfg_ReadBCLEntry. intros Hr Hc. read_step Hr as checked Hcheck. clear Hcheck.
  read_step Hr as x Hx. destruct x as [ok t]. apply Value_at_ok in Hx as (-> & _). cbn [negb] in Hr.
  repeat case_hyp Hr; try (inv_reads; done).
  - inv_reads. by destruct Hc.
  - eapply reads_loop; [|exact Hr|exact Hc]. intros i s1 s2 Hs. eapply read_version_ok, Hs.
    intros v c []; by split.
  - inv_reads. destruct Hc. split; [|done]. cbn. by eapply Forall2_Forall_r_reads, read_method_ok.
  - eapply reads_loop; [|exact Hr|exact Hc]. intros i s1 s2 Hs. eapply read_string_or_re_ok, Hs; intros ? c []; by split.
  - apply read_header_match_spec in Hr as (v & name & _ & _ & Hr).
    eapply reads_loop; [|exact Hr|exact Hc]. intros i s1 s2 Hs. eapply read_string_or_re_ok, Hs; intros ? c []; split; try done.
    by apply append_at_nonempty.
  - eapply reads_loop; [|exact Hr|exact Hc]. intros i s1 s2 Hs. eapply read_string_or_re_ok, Hs; intros ? c []; by split.
Qed.

Lemma read_matches_ok entries cfg : reads_to (read_loop MatchCfg_ReadBCLEntry entries no_match) cfg -> spec_ok cfg.
Proof.
  intros Hr. eapply reads_loop; [|exact Hr|]; [intros ???; apply MatchCfg_ReadBCLEntry_ok|].
  split; [done|]. apply map_Forall_empty.
Qed.
End constraints.

(** ** What is read: actions and handlers *)

(** One authentication method, which [NewAuth] needs. *)
Definition auth_ok (cfg : AuthCfg) : Prop :=
  (is_Some (ac_Basic cfg) /\ ac_Bearer cfg = None) \/ (ac_Basic cfg = None /\ is_Some (ac_Bearer cfg)).

Definition redirect_ok (cfg : RedirectActionCfg) : Prop := status_ok (rd_Status cfg).

Record serve_ok (cfg : ServeCfg) : Prop := {
  svo_redirect : status_ok (svc_IndexRedirectStatus cfg);
  svo_missing : forall r, svc_FileNotFound cfg = Some (Some r) -> status_ok (ra_Status r)
}.

(** A URI of the protocol HTTP, or else a load balancer. *)
Definition proxy_ok `{GoUnicode} (url_Parse : gostring -> outcome URL) (cfg : ReverseProxyActionCfg) : Prop :=
  rp_URI cfg = [] \/ ValidateBCLHTTPURI url_Parse (rp_URI cfg) = Ret tt.

Definition size_ok (size : option Z) : Prop := forall n, size = Some n -> 0 < n.

Record fastcgi_ok (cfg : FastCGICfg) : Prop := {
  fco_address : address_ok (fcc_Address cfg);
  fco_sizes : Forall size_ok [RequestBodyMemoryBufferSize (fcc_Settings cfg); MaxRequestBodySize (fcc_Settings cfg);
                              ResponseBodyMemoryBufferSize (fcc_Settings cfg); MaxResponseBodySize (fcc_Settings cfg)]
}.

(** The actions a handler has. *)
Definition conf_actions (h : HandlerConf) : list gostring :=
  (if hf_Reply h is Some _ then ["reply"%go] else [])
  ++ (if hf_Redirect h is Some _ then ["redirect"%go] else [])
  ++ (if hf_Serve h is Some _ then ["serve"%go] else [])
  ++ (if hf_ReverseProxy h is Some _ then ["reverse_proxy"%go] else [])
  ++ (if hf_Status h is Some _ then ["status"%go] else [])
  ++ (if hf_FastCGI h is Some _ then ["fastcgi"%go] else []).

(** What holds at a handler. *)
Record node_ok `{GoUnicode} (url_Parse : gostring -> outcome URL) (h : HandlerConf) : Prop := {
  no_match_ok : spec_ok (hf_Match h);
  no_auth : forall a, hf_Auth h = Some a -> auth_ok a;
  no_limits : forall rl, hf_RequestRateLimiter h = Some rl -> rate_limits_ok rl;
  no_actions : (length (conf_actions h) <= 1)%nat;
  no_reply : forall r, hf_Reply h = Some r -> status_ok (ra_Status r);
  no_redirect : forall r, hf_Redirect h = Some r -> redirect_ok r;
  no_serve : forall s, hf_Serve h = Some s -> serve_ok s;
  no_proxy : forall p, hf_ReverseProxy h = Some p -> proxy_ok url_Parse p;
  no_fastcgi : forall f, hf_FastCGI h = Some f -> fastcgi_ok f
}.

#[warnings="-register-all"]
Inductive handler_ok `{GoUnicode} (url_Parse : gostring -> outcome URL) : HandlerConf -> Prop :=
  | handler_ok_intro h : node_ok url_Parse h -> Forall (handler_ok url_Parse) (hf_Handlers h) -> handler_ok url_Parse h.

Record protocol_ok `{GoUnicode} (url_Parse : gostring -> outcome URL) (cfg : ProtocolConf) : Prop := {
  po_handlers : Forall (handler_ok url_Parse) (pf_Handlers cfg);
  po_tls : is_Some (TLSHandling_of (pf_TLSHandling cfg))
}.

Section actions.
Context `{BclLaws, Environment, GoUnicode}.
Set Default Proof Using "All".

Lemma AuthCfg_ok block cfg : reads_to (AuthCfg_ReadBCLElement block) cfg -> auth_ok cfg.
Proof.
  unfold AuthCfg_ReadBCLElement. intros Hr. read_step Hr as secrets Hs. read_step Hr as realm Hre.
  read_step Hr as checked Hc. read_step Hr as basic Hba. read_step Hr as bearer Hbe. read_end Hr.
  clear Hs Hre. apply CheckBlocksOneOf_ok in Hc as [(n & Hn & Hhas) Hone]. unfold auth_ok. cbn [ac_Basic ac_Bearer].
  assert (forall n, n = "basic"%go \/ n = "bearer"%go -> has_block block n -> forall n', n' = "basic"%go \/ n' = "bearer"%go ->
    n <> n' -> ~ has_block block n') as Hex.
  { intros n1 Hi1 Hb n2 Hi2 Hne Hb2. apply Hne. clear -Hone Hi1 Hi2 Hb Hb2. apply Hone; set_solver. }
  unfold has_block in *.
  apply MaybeBlock_ok in Hba as [[Hn1 ->]|(b1 & Hb1 & (a1 & -> & _)%pointer_to_ok)];
    apply MaybeBlock_ok in Hbe as [[Hn2 ->]|(b2 & Hb2 & (a2 & -> & _)%pointer_to_ok)].
  - exfalso. rewrite !elem_of_cons in Hn. destruct Hn as [->|[->|Hn%not_elem_of_nil]]; try done;
      destruct Hhas as [? ?]; congruence.
  - right. split; [done|by eexists].
  - left. split; [by eexists|done].
  - exfalso. eapply (Hex "basic"%go (or_introl eq_refl)) with (n' := "bearer"%go); eauto; done.
Qed.

Lemma read_status_ok v status : read_status v = Ret status -> status_ok status.
Proof. unfold read_status. intros [_ Hs]%WithValueValidation_ok. by apply ValidateBCLStatus_ok. Qed.

Lemma status_302 : status_ok 302.
Proof. right; lia. Qed.
Lemma status_200 : status_ok 200.
Proof. right; lia. Qed.
Lemma status_0 : status_ok 0.
Proof. by left. Qed.

Lemma maybe_status_ok elt n d status :
  status_ok d -> reads_to (MaybeEntryValues elt n read_status d) status -> status_ok status.
Proof. intros Hd Hr. inv_reads; [done|by eapply read_status_ok]. Qed.

(** The second reading of the two values of a reply gives the status that was validated. *)
Lemma ReplyActionCfg_ok elt cfg : reads_to (ReplyActionCfg_ReadBCLElement elt) cfg -> status_ok (ra_Status cfg).
Proof.
  unfold ReplyActionCfg_ReadBCLElement. intros Hr. destruct (IsBlock elt).
  - read_step Hr as status Hs. read_steps Hr. read_end Hr. by eapply maybe_status_ok, Hs; apply status_200.
  - read_step Hr as ok Hok. destruct (negb ok); [read_end Hr; apply status_200|].
    destruct (NbValues elt =? 1); [|destruct (NbValues elt =? 2)].
    + read_step Hr as x Hx. destruct x as [b status]. apply Values_ok in Hx as (_ & v & _ & Hv). read_end Hr.
      by eapply read_status_ok.
    + read_step Hr as x Hx. destruct x as [b [status body]]. apply Values2_ok in Hx as (_ & v1 & v2 & Hv & Hr1 & _).
      read_step Hr as y Hy. destruct y as [b' [status' body']]. apply Values2_ok in Hy as (_ & w1 & w2 & Hw & Hr2 & _).
      read_end Hr. cbn [ra_Status]. rewrite Hv in Hw. injection Hw as <- <-.
      unfold read_status in Hr1. apply WithValueValidation_ok in Hr1 as [Hr1 Hs].
      assert (status' = status) as -> by congruence. by apply ValidateBCLStatus_ok.
    + read_end Hr. apply status_200.
Qed.

Lemma RedirectActionCfg_ok elt cfg : reads_to (RedirectActionCfg_ReadBCLElement elt) cfg -> redirect_ok cfg.
Proof.
  unfold RedirectActionCfg_ReadBCLElement, redirect_ok. intros Hr. destruct (IsBlock elt).
  - read_step Hr as status Hs. read_steps Hr. read_end Hr. by eapply maybe_status_ok, Hs; apply status_302.
  - inv_reads. by eapply read_status_ok.
Qed.

Lemma ServeActionCfg_ok elt cfg : reads_to (ServeActionCfg_ReadBCLElement elt) cfg -> serve_ok cfg.
Proof.
  unfold ServeActionCfg_ReadBCLElement. intros Hr. destruct (IsBlock elt).
  2:{ inv_reads. split; [apply status_0|done]. }
  read_step Hr as checked Hc. read_step Hr as path Hp. read_step Hr as files Hf. read_step Hr as x Hx.
  destruct x as [status uri]. read_step Hr as view Hv. read_step Hr as missing Hm. read_end Hr.
  split; cbn [svc_IndexRedirectStatus svc_FileNotFound].
  - clear Hm Hv Hf Hp Hc. destruct (FindEntry elt "index_redirect"%go); inv_reads; simplify_eq.
    + by eapply read_status_ok.
    + apply status_0.
  - intros r ->. apply maybe_block_ok in Hm as (b & _ & Hb). unfold ServeActionFileNotFoundCfg_ReadBCLElement in Hb.
    apply maybe_element_ok in Hb as (b' & _ & Hb). by eapply ReplyActionCfg_ok.
Qed.

Lemma ReverseProxyActionCfg_ok url_Parse elt cfg :
  reads_to (ReverseProxyActionCfg_ReadBCLElement url_Parse elt) cfg -> proxy_ok url_Parse cfg.
Proof.
  unfold ReverseProxyActionCfg_ReadBCLElement, proxy_ok. intros Hr. destruct (IsBlock elt).
  - read_step Hr as checked Hc. read_step Hr as uri Hu. read_steps Hr. read_end Hr. cbn [rp_URI].
    clear -Hu H0. inv_reads; [by left|by right].
  - inv_reads. by right.
Qed.

Lemma read_size_ok block name size : reads_to (read_size block name) size -> size_ok size.
Proof.
  unfold read_size, size_ok. intros Hr n ->. apply MaybeEntryValues_ok in Hr as [[_ [=]]|(entry & v & _ & _ & Hv)].
  unfold pointer in Hv. destruct (WithValueValidation _ _ v) as [m|e| |] eqn:E; try done.
  injection Hv as ->. apply WithValueValidation_ok in E as [_ E]. by apply ValidatePositiveInteger_ok.
Qed.

Lemma FastCGIActionCfg_ok block cfg : reads_to (FastCGIActionCfg_ReadBCLElement block) cfg -> fastcgi_ok cfg.
Proof.
  unfold FastCGIActionCfg_ReadBCLElement. intros Hr. read_step Hr as address Ha. read_steps Hr. read_end Hr.
  split; cbn [fcc_Address fcc_Settings RequestBodyMemoryBufferSize MaxRequestBodySize ResponseBodyMemoryBufferSize MaxResponseBodySize].
  - inv_reads; by apply ValidateBCLAddress_ok.
  - repeat constructor; by eapply read_size_ok.
Qed.
End actions.

Section handlers.
Context `{BclLaws, Environment, GoUnicode}.
Context (url_Parse : gostring -> outcome URL).
Set Default Proof Using "All".

(** An optional element that was read is there. *)
Lemma maybe_element_has {A} e n (rd : Element -> reading A) a :
  reads_to (MaybeElement e n (pointer_to rd) None) (Some a) -> has_element e n.
Proof. intros (b & [Hb|Hb] & _)%maybe_element_ok; [left|right]; by eexists. Qed.

(** Elements of which at most one is present. *)
Lemma at_most_one_length (has : gostring -> Prop) names l :
  at_most_one has names -> NoDup l -> Forall (fun n => n ∈ names /\ has n) l -> (length l <= 1)%nat.
Proof.
  intros Hone Hnd Hl. destruct l as [|n [|n' l]]; cbn; try lia. exfalso.
  apply Forall_cons in Hl as [[Hn Hhn] [[Hn' Hhn'] _]%Forall_cons].
  apply NoDup_cons in Hnd as [Hnotin _]. apply Hnotin. rewrite (Hone n n') by done. by left.
Qed.

Lemma conf_actions_actions h : conf_actions h `sublist_of` actions.
Proof.
  unfold conf_actions. change actions with
    (["reply"%go] ++ ["redirect"%go] ++ ["serve"%go] ++ ["reverse_proxy"%go] ++ ["status"%go] ++ ["fastcgi"%go]).
  repeat apply sublist_app; case_match; done || apply sublist_nil_l.
Qed.

Lemma HandlerCfg_node_ok fuel block h :
  reads_to (HandlerCfg_ReadBCLElement url_Parse (S fuel) block) h ->
  node_ok url_Parse h
  /\ Forall2 (fun b h' => reads_to (HandlerCfg_ReadBCLElement url_Parse fuel b) h') (FindBlocks block "handler"%go)
       (hf_Handlers h).
Proof.
  cbn [HandlerCfg_ReadBCLElement]. intros Hr.
  read_step Hr as spec Hspec. read_step Hr as logs Hlogs. read_step Hr as auth Hauth. read_step Hr as limits Hlimits.
  read_step Hr as checked Hone. read_step Hr as reply Hreply. read_step Hr as redirect Hredirect.
  read_step Hr as serve Hserve. read_step Hr as proxy Hproxy. read_step Hr as status Hstatus.
  read_step Hr as fastcgi Hfastcgi. read_step Hr as handlers Hhandlers. read_end Hr.
  apply Blocks_ok in Hhandlers. split; [|exact Hhandlers]. clear Hhandlers Hlogs.
  split; cbn [hf_Match hf_Auth hf_RequestRateLimiter hf_Reply hf_Redirect hf_Serve hf_ReverseProxy hf_FastCGI].
  - by eapply read_matches_ok.
  - intros a ->. apply maybe_block_ok in Hauth as (b & _ & Hb). by eapply AuthCfg_ok.
  - intros rl ->. apply maybe_element_ok in Hlimits as (b & _ & Hb). by eapply RateLimiterCfg_ok.
  - apply CheckElementsMaybeOneOf_ok in Hone. eapply at_most_one_length; [exact Hone| |].
    + apply (sublist_NoDup _ actions); [by_decision|apply conf_actions_actions].
    + unfold conf_actions. repeat (apply Forall_app; split); cbn [hf_Reply hf_Redirect hf_Serve hf_ReverseProxy hf_Status hf_FastCGI];
        (case_match; [apply Forall_singleton; split; [by_decision|subst; by eapply maybe_element_has]|constructor]).
  - intros r ->. apply maybe_element_ok in Hreply as (b & _ & Hb). by eapply ReplyActionCfg_ok.
  - intros r ->. apply maybe_element_ok in Hredirect as (b & _ & Hb). by eapply RedirectActionCfg_ok.
  - intros s ->. apply maybe_element_ok in Hserve as (b & _ & Hb). by eapply ServeActionCfg_ok.
  - intros p ->. apply maybe_element_ok in Hproxy as (b & _ & Hb). by eapply ReverseProxyActionCfg_ok.
  - intros f ->. apply maybe_element_ok in Hfastcgi as (b & _ & Hb). by eapply FastCGIActionCfg_ok.
Qed.

Lemma HandlerCfg_ok fuel block h :
  reads_to (HandlerCfg_ReadBCLElement url_Parse fuel block) h -> handler_ok url_Parse h.
Proof.
  revert block h. induction fuel as [|fuel IH]; intros block h Hr; [done|].
  apply HandlerCfg_node_ok in Hr as [Hnode Hsubs]. constructor; [done|].
  by eapply Forall2_Forall_r_reads.
Qed.

(** The fuel of a handler is enough as soon as it is above the depth of its block. *)
Lemma HandlerCfg_fuel fuel fuel' block :
  (depth block < fuel)%nat -> (depth block < fuel')%nat ->
  HandlerCfg_ReadBCLElement url_Parse fuel block = HandlerCfg_ReadBCLElement url_Parse fuel' block.
Proof.
  revert fuel' block. induction fuel as [|fuel IH]; intros fuel' block Hd Hd'; [lia|].
  destruct fuel' as [|fuel']; [lia|]. cbn [HandlerCfg_ReadBCLElement].
  rewrite (Blocks_ext block "handler"%go _ (HandlerCfg_ReadBCLElement url_Parse fuel')); [done|].
  intros b Hb. apply FindBlocks_depth in Hb. apply IH; lia.
Qed.

Lemma ProtocolCfg_ok block cfg : reads_to (ProtocolCfg_ReadBCLElement url_Parse block) cfg -> protocol_ok url_Parse cfg.
Proof.
  unfold ProtocolCfg_ReadBCLElement. intros Hr.
  read_step Hr as handlers Hh. read_step Hr as logs Hl. read_step Hr as tls Ht. read_steps Hr. read_end Hr.
  split; cbn [pf_Handlers pf_TLSHandling].
  - apply Blocks_ok in Hh. eapply Forall2_Forall_r_reads; [exact Hh|]. intros b h Hb. eapply HandlerCfg_ok. exact Hb.
  - clear Hh Hl. destruct (FindEntry block "tls"%go) as [entry|]; [|read_end Ht; eexists; vm_compute; reflexivity].
    read_step Ht as b Hc. apply CheckValueOneOf_ok in Hc as (-> & v & s & Hv & Hs & Hin).
    read_step Ht as p Hp. destruct p as [b' s']. apply Values_ok in Hp as (_ & v' & Hvs & Hr'). read_end Ht.
    destruct Hv as [_ Hv]. rewrite Hvs in Hv. injection Hv as <-. apply read_string_ok in Hr'.
    assert (s' = s) as -> by congruence. clear -Hin.
    rewrite !elem_of_cons in Hin. destruct Hin as [->|[->|[->|[->|Hin%not_elem_of_nil]]]]; try done; eexists; vm_compute; reflexivity.
Qed.
End handlers.
