(* ===== verification/ConfigService.v ===== *)
(** * Loading the configuration (pkg/service/cfg.go)

    The rest of the configuration (the TCP protocol, the ACME client, the control API, the
    logger), its loading from a file, and what a configuration that was loaded gives to the
    service: what [config_ok] says is what the other components need. *)

From S2P Require Import Prelude GoStrings Bcl NetIP HttpHeader NetAddresses RateLimiter FormatString HttpPath.
From S2P Require Import HttpMedia HttpContext HttpAuth HttpHandler HttpServer HttpActions LoadBalancer HttpClient.
From S2P Require Import HttpProxy FcgiAction Lifecycle Service Validation ConfigNet ConfigHttp.

(** ** Configurations *)

(** [tcp.ProtocolCfg] *)
Record TCPConf := mkTCPConf {
  tf_ReadBufferSize : Z;
  tf_WriteBufferSize : Z;
  tf_Address : gostring;            (** of [ReverseProxyAction] *)
  tf_LogTLSErrors : bool
}.

Definition DefaultReadBufferSize : Z := 16 * 1024.
Definition DefaultWriteBufferSize : Z := 16 * 1024.

(** The interface [boulevard.ProtocolCfg]. *)
Inductive ProtocolCfg := HTTPProtocolCfg (cfg : ProtocolConf) | TCPProtocolCfg (cfg : TCPConf).

(** [log.LoggerCfg] *)
Inductive BackendType := BackendTypeTerminal | BackendTypeJSON.

Record JSONBackendCfg := mkJSONBackend {
  jb_TimestampKey : gostring; jb_TimestampLayout : gostring; jb_DomainKey : gostring;
  jb_LevelKey : gostring; jb_MessageKey : gostring; jb_DataKey : gostring
}.

Record LoggerCfg := mkLoggerConf {
  lg_BackendType : BackendType;
  lg_TerminalColor : bool;
  lg_JSONBackend : option JSONBackendCfg;
  lg_DebugLevel : Z
}.

(** [boulevard.ServerCfg], with the configuration of its protocol: nil if there is none. *)
Record ServerConf := mkServerConf {
  sf_Name : gostring;
  sf_ProtocolCfg : option ProtocolCfg;
  sf_Listeners : list ListenerCfg
}.

(** [ServiceCfg], as [Load] sets it. *)
Record ServiceConf := mkServiceConf {
  cf_Logger : LoggerCfg;
  cf_ACME : option ACMECfg;
  cf_ControlAPI : option ControlAPICfg;
  cf_PProfAddress : gostring;
  cf_LoadBalancers : list LoadBalancerCfg;
  cf_Servers : list ServerConf
}.

(** [path.Base]: the last element of a path, on its bytes from the last one. *)
Fixpoint skip_slashes (s : gostring) : gostring :=
  match s with c :: s' => if bool_decide (c = "/"%char) then skip_slashes s' else s | [] => [] end.
Fixpoint until_slash (s : gostring) : gostring :=
  match s with c :: s' => if bool_decide (c = "/"%char) then [] else c :: until_slash s' | [] => [] end.

Definition path_Base (s : gostring) : gostring :=
  match s with
  | [] => "."%go
  | _ =>
      let base := rev (until_slash (skip_slashes (rev s))) in
      if bool_decide (base = []) then "/"%go else base
  end.

Example path_Base_values :
  map path_Base ["/etc/boulevard.bcl"%go; "a/b/"%go; "//"%go; []; "x"%go]
  = ["boulevard.bcl"%go; "b"%go; "/"%go; "."%go; "x"%go].
Proof. vm_compute. reflexivity. Qed.

Section readers.
Context `{Bcl, Environment, GoUnicode, GoTLS}.

(** [url.Parse] and [mail.ParseAddress] *)
Context (url_Parse : gostring -> outcome URL) (ParseAddress : gostring -> outcome unit).

(** ** The TCP protocol *)

(** [ReverseProxyAction.ReadBCLElement] of the TCP protocol: the address. *)
Definition TCPReverseProxy_ReadBCLElement (elt : Element) : reading gostring :=
  let read_address := WithValueValidation read_string ValidateBCLAddress in
  if IsBlock elt then EntryValues elt "address"%go read_address []
  else '(_, address) ← Values elt read_address []; mret address.

(** [tcp.ProtocolCfg.ReadBCLElement] *)
Definition TCPProtocolCfg_ReadBCLElement (block : Element) : reading TCPConf :=
  let read_positive := WithValueValidation read_int ValidatePositiveInteger in
  readSize ← MaybeEntryValues block "read_buffer_size"%go read_positive DefaultReadBufferSize;
  writeSize ← MaybeEntryValues block "write_buffer_size"%go read_positive DefaultWriteBufferSize;
  address ← Element_of block "reverse_proxy"%go TCPReverseProxy_ReadBCLElement [];
  logErrors ← MaybeEntryValues block "log_tls_errors"%go read_bool false;
  mret (mkTCPConf readSize writeSize address logErrors).

(** ** The service *)

Definition read_contact (entry : Element) : reading gostring :=
  '(_, contact) ← Values entry (WithValueValidation read_string (ValidateBCLEmailAddress ParseAddress)) [];
  mret contact.

(** [ACMECfg.ReadBCLElement]: nothing sets the directory. *)
Definition ACMECfg_ReadBCLElement (block : Element) : reading ACMECfg :=
  path ← EntryValues block "datastore_path"%go read_string [];
  contacts ← read_each read_contact (FindEntries block "contact"%go);
  pebble ← MaybeEntryValues block "pebble"%go read_bool false;
  '(address, uri) ←
    match FindBlock block "http_challenge_solver"%go with
    | Some block =>
        address ← MaybeEntryValues block "address"%go (WithValueValidation read_string ValidateBCLAddress) [];
        uri ← EntryValues block "upstream_uri"%go (WithValueValidation read_string (ValidateBCLHTTPURI url_Parse)) [];
        mret (address, uri)
    | None => mret ([], [])
    end;
  mret (mkACMECfg path contacts [] address uri pebble).

(** [ControlAPICfg.ReadBCLElement], with [LogGoServerErrors]. *)
Definition ControlAPICfg_ReadBCLElement (block : Element) : reading ControlAPICfg :=
  path ← EntryValues block "path"%go read_string [];
  logs ← MaybeBlock block "access_logs"%go (pointer_to AccessLoggerCfg_ReadBCLElement) None;
  _ ← MaybeEntryValues block "log_go_server_errors"%go read_bool false;
  mret (mkControlCfg path logs).

(** [ServiceCfg.initLogger] *)
Definition initLogger (doc : Element) : reading LoggerCfg :=
  match FindBlock doc "logs"%go with
  | None => mret (mkLoggerConf BackendTypeTerminal false None 0)
  | Some block =>
      _ ← CheckBlocksMaybeOneOf block ["terminal"%go; "json"%go];
      color ← match FindBlock block "terminal"%go with
              | Some block => MaybeEntryValues block "color"%go read_bool false
              | None => mret false
              end;
      json ← match FindBlock block "json"%go with
             | Some block =>
                 timestamp ← MaybeEntryValues block "timestamp_key"%go read_string [];
                 layout ← MaybeEntryValues block "timestamp_layout"%go read_string [];
                 domain ← MaybeEntryValues block "domain_key"%go read_string [];
                 level ← MaybeEntryValues block "level_key"%go read_string [];
                 message ← MaybeEntryValues block "message_key"%go read_string [];
                 data ← MaybeEntryValues block "data_key"%go read_string [];
                 mret (Some (mkJSONBackend timestamp layout domain level message data))
             | None => mret None
             end;
      debugLevel ← MaybeEntryValues block "debug_level"%go read_int 0;
      mret (mkLoggerConf (if json is Some _ then BackendTypeJSON else BackendTypeTerminal) color json debugLevel)
  end.

(** [ServiceCfg.initPProf] *)
Definition initPProf (doc : Element) : reading gostring :=
  match FindBlock doc "pprof"%go with
  | None => mret []
  | Some block => EntryValues block "address"%go read_string []
  end.

(** [ServiceCfg.initLoadBalancers] *)
Definition initLoadBalancers (doc : Element) : reading (list LoadBalancerCfg) :=
  read_each (fun block =>
    let name := BlockName block in
    Extract block (LoadBalancerCfg_ReadBCLElement name) (mkBalancerCfg name [] None))
    (FindBlocks doc "load_balancer"%go).

(** [ProtocolInfo]: the configuration its [InstantiateCfg] makes, and the reading of it. *)
Record ProtocolInfo := mkProtocolInfo {
  pi_Name : gostring;
  pi_Cfg : ProtocolCfg;
  pi_ReadBCLElement : Element -> reading ProtocolCfg
}.

(** The functions [ProtocolInfo] of the two protocols. *)
Definition http_ProtocolInfo : ProtocolInfo :=
  mkProtocolInfo "http"%go (HTTPProtocolCfg (mkProtocolConf [] None [] false false false false))
    (fun block => cfg ← ProtocolCfg_ReadBCLElement url_Parse block; mret (HTTPProtocolCfg cfg)).
Definition tcp_ProtocolInfo : ProtocolInfo :=
  mkProtocolInfo "tcp"%go (TCPProtocolCfg (mkTCPConf 0 0 [] false))
    (fun block => cfg ← TCPProtocolCfg_ReadBCLElement block; mret (TCPProtocolCfg cfg)).

(** [DefaultProtocols] of protocols.go *)
Definition DefaultProtocols : list ProtocolInfo := [tcp_ProtocolInfo; http_ProtocolInfo].

(** The loop of [initServers] over the protocols, which stops at the first one. *)
Fixpoint read_protocol (infos : list ProtocolInfo) (block : Element) : reading (option ProtocolCfg) :=
  match infos with
  | [] => mret None
  | info :: infos' =>
      match FindBlock block (pi_Name info) with
      | Some block => cfg ← Extract block (pi_ReadBCLElement info) (pi_Cfg info); mret (Some cfg)
      | None => read_protocol infos' block
      end
  end.

(** [ServiceCfg.initServers] *)
Definition initServers (infos : list ProtocolInfo) (doc : Element) : reading (list ServerConf) :=
  read_each (fun block =>
    _ ← CheckBlocksOneOf block (map pi_Name infos);
    cfg ← read_protocol infos block;
    listeners ← Extract block ServerCfg_ReadBCLElement [];
    mret (mkServerConf (BlockName block) cfg listeners)) (FindBlocks doc "server"%go).

(** What [Load] reads in a document. *)
Definition read_document (infos : list ProtocolInfo) (doc : Element) : reading ServiceConf :=
  acme ← MaybeBlock doc "acme"%go (pointer_to ACMECfg_ReadBCLElement) None;
  control ← MaybeBlock doc "control_api"%go (pointer_to ControlAPICfg_ReadBCLElement) None;
  logger ← initLogger doc;
  pprof ← initPProf doc;
  balancers ← initLoadBalancers doc;
  servers ← initServers infos doc;
  mret (mkServiceConf logger acme control pprof balancers servers).

(** [ServiceCfg.Load]; the validation errors of the document are its [ValidationErrors]. *)
Definition Load `{GoFiles} (infos : list ProtocolInfo) (filePath : gostring) : outcome ServiceConf :=
  data ← wrap_error "cannot read"%go (os_ReadFile filePath);
  doc ← wrap_error "cannot parse"%go (bcl_Parse data (path_Base filePath));
  match read_document infos doc with
  | (Ret cfg, []) => Ret cfg
  | (Ret _, err :: _) => Throw (Wrapf "invalid configuration"%go err)
  | (Throw err, _) => Throw err
  | (Panic, _) => Panic
  | (OutOfFuel, _) => OutOfFuel
  end.
End readers.

(** ** What a configuration that was loaded satisfies *)

Record tcp_ok (cfg : TCPConf) : Prop := {
  tco_sizes : 0 < tf_ReadBufferSize cfg /\ 0 < tf_WriteBufferSize cfg;
  tco_address : address_ok (tf_Address cfg)
}.

Definition protocol_cfg_ok `{GoUnicode} (url_Parse : gostring -> outcome URL) (cfg : ProtocolCfg) : Prop :=
  match cfg with
  | HTTPProtocolCfg cfg => protocol_ok url_Parse cfg
  | TCPProtocolCfg cfg => tcp_ok cfg
  end.

Record server_ok `{GoUnicode, GoTLS} (url_Parse : gostring -> outcome URL) (cfg : ServerConf) : Prop := {
  sro_listeners : Forall listener_ok (sf_Listeners cfg);
  sro_protocol : exists p, sf_ProtocolCfg cfg = Some p /\ protocol_cfg_ok url_Parse p
}.

Record acme_ok `{GoUnicode} (url_Parse : gostring -> outcome URL) (ParseAddress : gostring -> outcome unit)
  (cfg : ACMECfg) : Prop := {
  aco_contacts : Forall (fun c => ValidateBCLEmailAddress ParseAddress c = Ret tt) (acc_Contacts cfg);
  aco_solver : acc_HTTPListenerAddress cfg = [] \/ address_ok (acc_HTTPListenerAddress cfg);
  aco_upstream : acc_HTTPUpstreamURI cfg = [] \/ ValidateBCLHTTPURI url_Parse (acc_HTTPUpstreamURI cfg) = Ret tt
}.

Record config_ok `{GoUnicode, GoTLS} (url_Parse : gostring -> outcome URL) (ParseAddress : gostring -> outcome unit)
  (cfg : ServiceConf) : Prop := {
  cfo_acme : forall acme, cf_ACME cfg = Some acme -> acme_ok url_Parse ParseAddress acme;
  cfo_balancers : Forall balancer_ok (cf_LoadBalancers cfg);
  cfo_servers : Forall (server_ok url_Parse) (cf_Servers cfg);
  cfo_logger : lg_BackendType (cf_Logger cfg) = BackendTypeJSON -> is_Some (lg_JSONBackend (cf_Logger cfg))
}.

Section laws.
Context `{BclLaws, Environment, GoUnicode, GoTLS}.
Context (url_Parse : gostring -> outcome URL) (ParseAddress : gostring -> outcome unit).
Set Default Proof Using "All".

Lemma TCPReverseProxy_ok elt address : reads_to (TCPReverseProxy_ReadBCLElement elt) address -> address_ok address.
Proof.
  unfold TCPReverseProxy_ReadBCLElement. intros Hr. destruct (IsBlock elt); inv_reads; by apply ValidateBCLAddress_ok.
Qed.

Lemma positive_ok block name d n :
  0 < d -> reads_to (MaybeEntryValues block name (WithValueValidation read_int ValidatePositiveInteger) d) n -> 0 < n.
Proof. intros Hd Hr. inv_reads; [done|]. by apply ValidatePositiveInteger_ok. Qed.

Lemma TCPProtocolCfg_ok block cfg : reads_to (TCPProtocolCfg_ReadBCLElement block) cfg -> tcp_ok cfg.
Proof.
  unfold TCPProtocolCfg_ReadBCLElement. intros Hr. read_step Hr as rs Hrs. read_step Hr as ws Hws.
  read_step Hr as address Ha. read_step Hr as le Hle. read_end Hr.
  split; cbn [tf_ReadBufferSize tf_WriteBufferSize tf_Address].
  - split; (eapply positive_ok; [|eassumption]); by compute.
  - apply Element_of_ok in Ha as (b & _ & Hb). by eapply TCPReverseProxy_ok.
Qed.

Lemma ACMECfg_ok block cfg :
  reads_to (ACMECfg_ReadBCLElement url_Parse ParseAddress block) cfg -> acme_ok url_Parse ParseAddress cfg.
Proof.
  unfold ACMECfg_ReadBCLElement. intros Hr. read_step Hr as path Hp. read_step Hr as contacts Hc.
  read_step Hr as pebble Hpe. read_step Hr as x Hx. destruct x as [address uri]. read_end Hr. clear Hp Hpe.
  split; cbn [acc_Contacts acc_HTTPListenerAddress acc_HTTPUpstreamURI].
  - clear Hx. inv_reads. eapply Forall2_Forall_r_reads; [eassumption|]. intros entry contact Hr.
    unfold read_contact in Hr. by inv_reads.
  - clear Hc. destruct (FindBlock block "http_challenge_solver"%go); inv_reads; simplify_eq; try (by left).
    right. by apply ValidateBCLAddress_ok.
  - clear Hc. destruct (FindBlock block "http_challenge_solver"%go); inv_reads; simplify_eq; (by left) || by right.
Qed.

Lemma initLoadBalancers_ok doc balancers :
  reads_to (initLoadBalancers doc) balancers -> Forall balancer_ok balancers.
Proof.
  unfold initLoadBalancers. intros Hr. inv_reads. eapply Forall2_Forall_r_reads; [exact Hr|].
  intros block cfg Hb. cbn beta in Hb. apply Extract_ok in Hb. by eapply LoadBalancerCfg_ok.
Qed.

Lemma read_protocol_ok block cfg :
  exactly_one (has_block block) (map pi_Name (DefaultProtocols url_Parse)) ->
  reads_to (read_protocol (DefaultProtocols url_Parse) block) cfg ->
  exists p, cfg = Some p /\ protocol_cfg_ok url_Parse p.
Proof.
  intros [(n & Hn & [b Hb]) _] Hr. cbn [read_protocol DefaultProtocols pi_Name tcp_ProtocolInfo http_ProtocolInfo] in Hr.
  destruct (FindBlock block "tcp"%go) as [b1|] eqn:E1.
  - read_step Hr as p Hp. read_end Hr. apply Extract_ok in Hp. cbn in Hp. inv_reads. eexists. split; [done|].
    by eapply TCPProtocolCfg_ok.
  - destruct (FindBlock block "http"%go) as [b2|] eqn:E2.
    + read_step Hr as p Hp. read_end Hr. apply Extract_ok in Hp. cbn in Hp. inv_reads. eexists. split; [done|].
      by eapply ProtocolCfg_ok.
    + exfalso. cbn in Hn. rewrite !elem_of_cons in Hn. destruct Hn as [->|[->|Hn%not_elem_of_nil]]; congruence.
Qed.

Lemma initServers_ok doc servers :
  reads_to (initServers (DefaultProtocols url_Parse) doc) servers -> Forall (server_ok url_Parse) servers.
Proof.
  unfold initServers. intros Hr. inv_reads. eapply Forall2_Forall_r_reads; [exact Hr|].
  intros block cfg Hb. cbn beta in Hb. read_step Hb as checked Hc. apply CheckBlocksOneOf_ok in Hc.
  read_step Hb as p Hp. apply read_protocol_ok in Hp; [|done]. read_step Hb as ls Hl. apply Extract_ok in Hl.
  read_end Hb. split; cbn [sf_Listeners sf_ProtocolCfg]; [|done]. by eapply ServerCfg_ok.
Qed.

Lemma initLogger_ok doc cfg :
  reads_to (initLogger doc) cfg -> lg_BackendType cfg = BackendTypeJSON -> is_Some (lg_JSONBackend cfg).
Proof.
  unfold initLogger. intros Hr. destruct (FindBlock doc "logs"%go); [|by read_end Hr].
  read_step Hr as checked Hc. read_step Hr as color Hco. read_step Hr as json Hj. read_step Hr as level Hle. read_end Hr.
  cbn [lg_BackendType lg_JSONBackend]. destruct json; intros [=]. by eexists.
Qed.

Lemma read_document_ok doc cfg :
  reads_to (read_document url_Parse ParseAddress (DefaultProtocols url_Parse) doc) cfg ->
  config_ok url_Parse ParseAddress cfg.
Proof.
  unfold read_document. intros Hr. read_step Hr as acme Ha. read_step Hr as control Hc. read_step Hr as logger Hl.
  read_step Hr as pprof Hp. read_step Hr as balancers Hb. read_step Hr as servers Hs. read_end Hr.
  split; cbn [cf_ACME cf_LoadBalancers cf_Servers cf_Logger].
  - intros a ->. apply maybe_block_ok in Ha as (b & _ & Ha). by eapply ACMECfg_ok.
  - by eapply initLoadBalancers_ok.
  - by eapply initServers_ok.
  - by eapply initLogger_ok.
Qed.

Lemma Load_reads `{GoFiles} infos filePath cfg :
  Load url_Parse ParseAddress infos filePath = Ret cfg ->
  exists doc, reads_to (read_document url_Parse ParseAddress infos doc) cfg.
Proof.
  unfold Load. intros Hl. inv_ret. destruct (read_document _ _ _ _) as [[c|e| |] [|err es]] eqn:E; try done.
  injection Hl as ->. eexists. exact E.
Qed.
End laws.

(** ** From a configuration to a service *)

(** Two kinds of protocols: each object starts and stops with its own. *)
Definition inject {P O A} (f : P -> O) (x : outcome A * (World * P)) : outcome A * (World * O) :=
  let '(r, (w, p)) := x in (r, (w, f p)).

#[export] Instance sum_protocol {P Q} `{!ServerProtocol P, !ServerProtocol Q} : ServerProtocol (P + Q) := {
  Protocol_Start name ls := fun '(w, o) =>
    match o with
    | inl p => inject inl (Protocol_Start name ls (w, p))
    | inr q => inject inr (Protocol_Start name ls (w, q))
    end;
  Protocol_Stop := fun '(w, o) =>
    match o with
    | inl p => inject inl (Protocol_Stop (w, p))
    | inr q => inject inr (Protocol_Stop (w, q))
    end;
  Protocol_RotateLogFiles := fun '(w, o) =>
    match o with
    | inl p => inject inl (Protocol_RotateLogFiles (w, p))
    | inr q => inject inr (Protocol_RotateLogFiles (w, q))
    end
}.

#[export] Instance sum_protocol_laws {P Q} `{ProtocolLaws P, ProtocolLaws Q} : ProtocolLaws (P + Q).
Proof.
  refine {| protocol_idle := fun o => match o with inl p => protocol_idle p | inr q => protocol_idle q end;
            protocol_runs := fun o => match o with inl p => protocol_runs p | inr q => protocol_runs q end;
            protocol_stoppable := fun o => match o with inl p => protocol_stoppable p | inr q => protocol_stoppable q end;
            protocol_owns := fun o => match o with inl p => protocol_owns p | inr q => protocol_owns q end;
            protocol_sockets := fun o => match o with inl p => protocol_sockets p | inr q => protocol_sockets q end |}.
  - intros name ls w [p|q] Hidle; cbn [Protocol_Start sum_protocol].
    + pose proof (protocol_starts name ls w p Hidle) as Hs. by destruct (Protocol_Start name ls (w, p)) as [[] [w' p']].
    + pose proof (protocol_starts name ls w q Hidle) as Hs. by destruct (Protocol_Start name ls (w, q)) as [[] [w' q']].
  - intros w [p|q] K Hr Hst Hc Hw; cbn [Protocol_Stop sum_protocol].
    + destruct (protocol_stops w p K Hr Hst Hc Hw) as (w' & p' & -> & Hw'). by exists w', (inl p').
    + destruct (protocol_stops w q K Hr Hst Hc Hw) as (w' & q' & -> & Hw'). by exists w', (inr q').
  - intros w [p|q] Hr Hst; cbn [Protocol_Stop sum_protocol].
    + pose proof (protocol_stuck w p Hr Hst) as Hp. by destruct (Protocol_Stop (w, p)) as [[] [w' p']].
    + pose proof (protocol_stuck w q Hr Hst) as Hp. by destruct (Protocol_Stop (w, q)) as [[] [w' q']].
  - intros w [p|q] K Hr Hw; cbn [Protocol_RotateLogFiles sum_protocol].
    + destruct (protocol_rotates w p K Hr Hw) as (w' & p' & -> & Hr' & Hw'). by exists w', (inl p').
    + destruct (protocol_rotates w q K Hr Hw) as (w' & q' & -> & Hr' & Hw'). by exists w', (inr q').
Defined.

(** What the creation of the actions uses besides their configurations: the parser of URIs,
    the templates of the views, the compiler of regular expressions, the running load
    balancers, a clock reading and the name of a temporary directory. *)
Class ActionContext := {
  parse_URL : gostring -> outcome URL;
  NewView : gostring -> outcome unit;
  Compile : gostring -> outcome (gostring -> gostring);
  running_balancers : gmap gostring LoadBalancer;
  start_time : Z;
  temporary_name : gostring
}.

Section conversion.
Context {P : Type} `{GoUnicode, GoText, GoCrypto, GoFiles, !HttpHandler.MapRange, !ActionContext}.

(** The constructors of the actions of a handler, in the switch of [StartHandler]: a handler
    without action replies. *)
Definition NewReplyAction : BuiltinCfg := CfgPlain (Ret tt).
Definition action_view (name : gostring) : outcome unit := wrap_error "cannot create view"%go (NewView name).
Definition NewRedirectAction : BuiltinCfg := CfgPlain (action_view "templates/redirect"%go).
Definition NewServeAction : BuiltinCfg :=
  CfgPlain (_ ← action_view "templates/serve"%go; action_view "templates/redirect"%go).
Definition NewStatusAction : BuiltinCfg := CfgPlain (action_view "templates/status"%go).

Definition action_cfg (h : HandlerConf) : BuiltinCfg :=
  match hf_Reply h, hf_Redirect h, hf_Serve h, hf_ReverseProxy h, hf_Status h, hf_FastCGI h with
  | Some _, _, _, _, _, _ => NewReplyAction
  | _, Some _, _, _, _, _ => NewRedirectAction
  | _, _, Some _, _, _, _ => NewServeAction
  | _, _, _, Some proxy, _, _ => CfgReverseProxy parse_URL running_balancers start_time proxy
  | _, _, _, _, Some _, _ => NewStatusAction
  | _, _, _, _, _, Some fastcgi => CfgFastCGI Compile temporary_name (fcc_Cfg fastcgi) (fcc_Settings fastcgi)
  | None, None, None, None, None, None => NewReplyAction
  end.

(** The action of a handler, with the configuration of the handler. *)
Record HandlerAction := mkHandlerAction { ha_Handler : HandlerConf; ha_Action : BuiltinAction (P := P) }.

#[export] Instance handler_lifecycle : ActionLifecycle HandlerConf HandlerAction := {
  NewAction h := a ← builtin_New (action_cfg h); mret (mkHandlerAction h a);
  Action_Start x := a ← builtin_Start (ha_Action x); mret (mkHandlerAction (ha_Handler x) a);
  Action_Stop x := builtin_Stop (ha_Action x)
}.

Lemma handler_action_opens h :
  builtin_cfg_ok (action_cfg h) ->
  opens held no_socket (x ← wrapST "cannot create action"%go (NewAction h);
                        wrapST "cannot start action"%go (Action_Start x))
    (fun x => builtin_owns (ha_Action x)) (fun x => builtin_ready (ha_Action x)).
Proof.
  intros Hok w. pose proof (builtin_opens (P := P) (action_cfg h) Hok w) as Hb. revert Hb.
  cbn [NewAction Action_Start builtin_lifecycle handler_lifecycle]. unfold mbind, st_bind, wrapST.
  destruct (builtin_New (action_cfg h) w) as [[a|e| |] w1]; cbn [mret st_ret wrap_error ha_Action]; try done.
  destruct (builtin_Start a w1) as [[a'|e| |] w2]; cbn [mret st_ret wrap_error ha_Action]; done.
Qed.

#[export] Instance handler_laws : ActionLaws HandlerConf HandlerAction := {
  action_owns x := builtin_owns (ha_Action x);
  action_ready x := builtin_ready (ha_Action x);
  action_cfg_ok h := builtin_cfg_ok (action_cfg h);
  action_opens := handler_action_opens;
  action_no_socket x := builtin_no_socket (ha_Action x);
  action_closes x := builtin_closes (ha_Action x)
}.

(** The configuration [StartHandler] uses. *)
Fixpoint handler_cfg (h : HandlerConf) : HandlerCfg HandlerConf :=
  mkHandlerCfg (hf_Match h) (hf_NextHandler h) (hf_AccessLogger h) (NewAuth <$> hf_Auth h)
    (hf_RequestRateLimiter h) h (map handler_cfg (hf_Handlers h)).

Definition protocol_cfg (cfg : ProtocolConf) : HttpProtocolCfg HandlerConf :=
  mkHttpCfg (pf_AccessLogger cfg) (map handler_cfg (pf_Handlers cfg)).

Definition http_object (cfg : ProtocolConf) : HttpProtocolCfg HandlerConf * HttpProtocol HandlerAction :=
  (protocol_cfg cfg,
   NewProtocol (default TLSHandlingAccept (TLSHandling_of (pf_TLSHandling cfg))) (pf_HSTS cfg)).

(** The protocol object of a server, made with its configuration by [initServers]. *)
Definition ProtocolObject : Type := (HttpProtocolCfg HandlerConf * HttpProtocol HandlerAction) + TcpObject.

Definition protocol_object (cfg : ProtocolCfg) : ProtocolObject :=
  match cfg with HTTPProtocolCfg cfg => inl (http_object cfg) | TCPProtocolCfg _ => inr [] end.

(** The objects of the servers; the first server of a name has it. *)
Definition protocol_objects (cfg : ServiceConf) : gmap gostring ProtocolObject :=
  list_to_map (omap (fun s => (fun p => (sf_Name s, protocol_object p)) <$> sf_ProtocolCfg s) (cf_Servers cfg)).

(** The configuration the service starts with: [startServer] gives the ACME client to the
    listeners. *)
Definition listener_cfg (cfg : ServiceConf) (l : ListenerCfg) : ListenerCfg :=
  mkListenerCfg (lc_Address l) (lc_TLS l) (bool_decide (is_Some (cf_ACME cfg))).

Definition service_cfg (cfg : ServiceConf) : ServiceCfg :=
  mkServiceCfg true (cf_ACME cfg) (cf_ControlAPI cfg) (cf_PProfAddress cfg) (cf_LoadBalancers cfg)
    (map (fun s => mkServerCfg (sf_Name s) (map (listener_cfg cfg) (sf_Listeners s))) (cf_Servers cfg)).

(** The calls to libraries return or fail. *)
Record calls_complete : Prop := {
  cc_view : forall name, completed (NewView name);
  cc_Compile : forall s, completed (Compile s);
  cc_Parse : forall s, completed (parse_URL s);
  cc_ReadFile : forall path, completed (os_ReadFile path)
}.

Lemma NewAuth_completed auth : auth_ok auth -> (forall path, completed (os_ReadFile path)) -> completed (NewAuth auth).
Proof.
  intros Hok Hf. assert (forall path, completed (loadAuthSecretFile path)) as Hload.
  { intros path. unfold loadAuthSecretFile. apply completed_bind; [apply completed_wrap, Hf|done]. }
  unfold NewAuth. destruct (ac_Secrets auth), Hok as [[[b Hb] Hn]|[Hn [b Hb]]];
    cbn [ac_Basic ac_Bearer]; rewrite ?Hb, ?Hn;
    unfold BasicAuth_Init, BearerAuth_Init; destruct (bool_decide _); try done;
    (apply completed_bind; [apply completed_wrap, Hload|done]).
Qed.

(** The load balancers that run have each server once: two servers with the same address
    would share a client, and the goroutine of the other would stay. *)
Definition distinct_servers : Prop := map_Forall (fun _ lb => NoDup (server_addresses lb)) running_balancers.

Lemma action_cfg_ok_of h : calls_complete -> distinct_servers -> builtin_cfg_ok (action_cfg h).
Proof.
  intros [Hv Hc Hp _] Hd. assert (forall name, completed (action_view name)) as Hw by (intros; by apply completed_wrap).
  unfold action_cfg, NewServeAction.
  destruct (hf_Reply h), (hf_Redirect h), (hf_Serve h), (hf_ReverseProxy h), (hf_Status h), (hf_FastCGI h);
    cbn [builtin_cfg_ok NewReplyAction NewRedirectAction NewStatusAction];
    first [exact I | apply Hw | exact Hc | by split; [exact Hp|intros _ lb Hlb; eapply Hd] | apply completed_bind; [apply Hw|intros _ _; apply Hw]].
Qed.

Fixpoint HandlerConf_nested_ind (Q : HandlerConf -> Prop)
  (Hnode : forall h, Forall Q (hf_Handlers h) -> Q h) (h : HandlerConf) : Q h :=
  Hnode h match h with
          | mkHandlerConf _ _ _ _ _ _ _ _ _ _ subs _ =>
              (fix go (l : list HandlerConf) : Forall Q l :=
                 match l with
                 | [] => Forall_nil_2 Q
                 | x :: l' => Forall_cons_2 Q x l' (HandlerConf_nested_ind Q Hnode x) (go l')
                 end) subs
          end.

Lemma handler_cfg_completes url_Parse h :
  calls_complete -> distinct_servers -> handler_ok url_Parse h -> cfg_completes (X := HandlerAction) (handler_cfg h).
Proof.
  intros Hcalls Hd. induction h as [h IH] using HandlerConf_nested_ind. intros Hok. inversion Hok as [? Hnode Hsubs]; subst.
  destruct h as [spec logs auth limits reply redirect serve proxy status fastcgi subs next]. cbn [handler_cfg].
  constructor.
  - intros r Hr. destruct auth as [a|]; [|done]. injection Hr as <-.
    apply NewAuth_completed; [by eapply no_auth|apply Hcalls].
  - by apply action_cfg_ok_of.
  - cbn [hf_Handlers] in *. apply Forall_map. rewrite Forall_forall in IH, Hsubs |- *. intros h Hh. by apply IH, Hsubs.
Qed.

Lemma protocol_object_new url_Parse cfg :
  calls_complete -> distinct_servers -> protocol_cfg_ok url_Parse cfg -> protocol_new (protocol_object cfg).
Proof.
  intros Hcalls Hd Hok. destruct cfg as [cfg|cfg]; [|done]. cbn. split; [|done]. split; [done|]. cbn.
  apply Forall_map. destruct Hok as [Hok _]. eapply Forall_impl; [exact Hok|]. intros h. by apply handler_cfg_completes.
Qed.

(** Every server of a configuration that was loaded has a new protocol object. *)
Lemma protocol_objects_new `{GoTLS} url_Parse (cfg : ServiceConf) c :
  calls_complete -> distinct_servers -> Forall (server_ok url_Parse) (cf_Servers cfg) ->
  c ∈ sv_Servers (service_cfg cfg) ->
  exists p, protocol_objects cfg !! sc_Name c = Some p /\ protocol_new p.
Proof.
  intros Hcalls Hd Hok Hc. unfold service_cfg in Hc. cbn [sv_Servers] in Hc.
  apply list_elem_of_fmap in Hc as (s & -> & Hs). cbn [sc_Name]. unfold protocol_objects.
  induction (cf_Servers cfg) as [|x l IH]; [by apply not_elem_of_nil in Hs|].
  apply Forall_cons in Hok as [[_ (p & Hp & Hpok)] Hok]. cbn. rewrite Hp. cbn.
  destruct (decide (sf_Name x = sf_Name s)) as [He|He].
  - rewrite He, lookup_insert_eq. eexists. split; [done|]. by eapply protocol_object_new.
  - rewrite lookup_insert_ne by done. apply IH; [done|]. apply elem_of_cons in Hs as [->|Hs]; done.
Qed.
End conversion.

(** ** The theorems *)

Section theorems.
Context {P : Type} `{BclLaws, Environment, GoUnicode, GoText, GoCrypto, GoFiles, GoTLS, !HttpHandler.MapRange}.
Context `{!ActionContext} (ParseAddress : gostring -> outcome unit).

(** [C18] What a configuration file that loads guarantees to the rest of the program: every
    listener has an address with a port it can listen on and its ACME domains, versions and
    cipher suites are valid; every server has one protocol; every handler, at any depth, has
    at most one action, one authentication method, statuses that can be sent, networks and
    prefix lengths in range, methods that exist, upstream URIs of the protocol HTTP and
    buffers of a positive size; load balancers have servers; and no constraint on a header
    field only asks for its presence, although a request is matched as if there were some. *)
Theorem Load_sound filePath cfg :
  Load parse_URL ParseAddress (DefaultProtocols parse_URL) filePath = Ret cfg ->
  config_ok parse_URL ParseAddress cfg.
Proof using Type*.
  intros [doc Hdoc]%Load_reads. by apply read_document_ok in Hdoc.
Qed.

(** From the configuration file to the stop of the service: a service created with a
    configuration that loads returns or fails, and so does its start, with the protocols,
    the handlers, the authentications and the actions of the configuration; once it is
    started, whatever signals that rotate its logs, failures and restarts of servers come
    before, its stop leaves no server and no load balancer and gives back everything that was
    taken, except the access log of the control API, which is never closed, the goroutine of
    pprof, which is never stopped, and what failed restarts left; unless an HTTP server
    runs that was started again after a failure: then it panics. *)
Theorem loaded_service_gives_back filePath cfg w :
  Load parse_URL ParseAddress (DefaultProtocols parse_URL) filePath = Ret cfg ->
  calls_complete -> distinct_servers ->
  let ps := protocol_objects (P := P) cfg in
  completed (fst (NewService (service_cfg cfg) ps w))
  /\ forall s0, NewService (service_cfg cfg) ps w = (Ret tt, s0) ->
     completed (fst (Service_Start (service_cfg cfg) s0))
     /\ forall s1 s h order1 order2, Service_Start (service_cfg cfg) s0 = (Ret tt, s1) ->
        rtc (service_event (sv_Servers (service_cfg cfg))) (s1, no_history) (s, h) ->
        (forall n, is_Some (servers s !! n) -> n ∈ order1) ->
        (forall n, is_Some (loadBalancers s !! n) -> n ∈ order2) ->
        (all_stoppable servers server_stoppable s ->
         exists s2 L R, Service_Stop order1 order2 s = (Ret tt, s2) /\ pprof_holds (cf_PProfAddress cfg) L
          /\ no_socket R /\ (abandoned h = [] -> R = ∅)
          /\ servers s2 = ∅ /\ loadBalancers s2 = ∅ /\ sv_held s2 = R ⊎ (L ⊎ (control_log s0 ⊎ held w)))
        /\ (forall n, is_Some (servers s !! n) -> server_stoppable s n = false ->
            n ∈ restarted h /\ fst (Service_Stop order1 order2 s) = Panic).
Proof using All.
  intros [doc Hdoc]%Load_reads Hcalls Hd ps. apply read_document_ok in Hdoc as [_ _ Hservers _].
  pose proof (fun c => protocol_objects_new (P := P) parse_URL cfg c Hcalls Hd Hservers) as Hnew.
  split; [apply NewService_completes|]. intros s0 E0.
  split.
  - apply Service_Start_completes. intros c Hc. destruct (Hnew c Hc) as (p & Hp & Hpn). exists p. split; [|done].
    by apply NewService_spec in E0 as (_ & _ & -> & _).
  - intros s1 s h order1 order2 E1 Hev H1' H2'.
    exact (service_gives_back (service_cfg cfg) ps w s0 s1 s h order1 order2 Hnew E0 E1 Hev H1' H2').
Qed.
End theorems.

(** ** Requests *)

Section requests.
Context {P : Type} `{GoUnicode, GoText, GoCrypto, GoFiles, !HttpHandler.MapRange, !ActionContext}.
Context `{GoSort, !ActionEnv Wire Auth}.

(** The configuration [ServeAction] has for [HttpActions]. *)
Definition serve_cfg (cfg : ServeCfg) : ServeActionCfg :=
  mkServeCfg (svc_Path cfg) (svc_IndexFiles cfg) (svc_IndexRedirectStatus cfg) (svc_IndexRedirectURI cfg)
    (iv_Enabled (svc_IndexView cfg)) (match svc_FileNotFound cfg with Some r => r | None => None end).

(** The call [h.Action.HandleRequest(ctx)] of [ServeHTTP], for the action [StartHandler] made
    from the configuration of the handler; [other] is that of the actions that run with a
    state of their own, which [HttpProxy], [FcgiAction] and [HttpViews] have: the reverse
    proxy, the FastCGI and the status actions. *)
Definition HandleRequest (other : HandlerAction (P := P) -> ST (State Wire) unit) (x : HandlerAction)
  : ST (State Wire) unit :=
  let h := ha_Handler x in
  match hf_Reply h, hf_Redirect h, hf_Serve h, hf_ReverseProxy h, hf_Status h, hf_FastCGI h with
  | Some cfg, _, _, _, _, _ => on_ctx (ReplyAction_HandleRequest cfg)
  | _, Some cfg, _, _, _, _ => on_ctx (RedirectAction_HandleRequest cfg)
  | _, _, Some cfg, _, _, _ => on_ctx (ServeAction_HandleRequest (serve_cfg cfg) (hf_Match h))
  | None, None, None, None, None, None => on_ctx (ReplyAction_HandleRequest (mkReplyCfg 200 [] None))
  | _, _, _, _, _, _ => other x
  end.

(** A started handler is that of its configuration. *)
#[warnings="-register-all"]
Inductive started_as : HandlerConf -> Started (HandlerAction (P := P)) -> Prop :=
  | started_as_intro h log auth rl x hs :
      ha_Handler x = h -> (is_Some auth <-> is_Some (hf_Auth h)) -> Forall2 started_as (hf_Handlers h) hs ->
      started_as h (mkStarted (hf_Match h) (hf_NextHandler h) log auth rl x hs).

Lemma start_each_forall {S A B} (start : A -> ST S B) (stop : B -> ST S unit) (R : A -> B -> Prop) l started s bs s' :
  (forall a s b s', a ∈ l -> start a s = (Ret b, s') -> R a b) ->
  start_each start stop started l s = (Ret bs, s') -> exists bs', bs = started ++ bs' /\ Forall2 R l bs'.
Proof.
  revert started s. induction l as [|a l IH]; intros started s HR.
  { intros [= <- _]. exists []. by rewrite app_nil_r. }
  cbn [start_each]. unfold mbind, st_bind, attempt. destruct (start a s) as [[b|e| |] s1] eqn:E; try done.
  - intros Hs. apply IH in Hs as (bs' & -> & Hbs).
    + exists (b :: bs'). rewrite <- app_assoc. split; [done|]. constructor; [|done]. eapply HR, E. by left.
    + intros a' s2 b' s3 Ha'. apply HR. by right.
  - by destruct (stop_each stop started s1) as [[[]|e'| |] s2].
Qed.

Lemma StartHandler_started_as vs h w st w' :
  StartHandler vs (handler_cfg h) w = (Ret st, w') -> started_as h st.
Proof.
  revert w st w'. induction h as [h IH] using HandlerConf_nested_ind. intros w st w'.
  destruct h as [spec logs auth limits reply redirect serve proxy status fastcgi subs next]. cbn [handler_cfg].
  set (h := mkHandlerConf _ _ _ _ _ _ _ _ _ _ _ _) in *. cbn [StartHandler]. unfold mbind at 1, st_bind at 1.
  destruct (open_logger _ vs w) as [[log|e| |] w1]; try done.
  unfold mbind at 1, st_bind at 1. destruct (start_auth log _ w1) as [[a|e| |] w2] eqn:Ea; try done.
  unfold mbind at 1, st_bind at 1. destruct (new_limiter _ w2) as [[rl|e| |] w3]; try done.
  unfold mbind at 1, st_bind at 1.
  destruct (wrapST _ (NewAction h) w3) as [[x|e| |] w4] eqn:Ex; try done.
  unfold mbind at 1, st_bind at 1. destruct (wrapST _ (Action_Start x) w4) as [[y|e| |] w5] eqn:Ey; try done.
  unfold mbind at 1, st_bind at 1.
  match goal with |- context [start_each ?f ?g ?l ?k w5] =>
    destruct (start_each f g l k w5) as [[hs|e| |] w6] eqn:Es end; try done.
  intros [= <- _]. change spec with (hf_Match h). change next with (hf_NextHandler h). constructor.
  - cbn [NewAction Action_Start handler_lifecycle] in Ex, Ey. unfold wrapST, mbind, st_bind in Ex, Ey.
    destruct (builtin_New _ w3) as [[b|e| |] w7]; try done. injection Ex as <- _. cbn [ha_Action ha_Handler] in Ey.
    destruct (builtin_Start b w4) as [[b'|e| |] w8]; try done. by injection Ey as <- _.
  - cbn [hf_Auth h]. destruct auth as [r|]; cbn in Ea; [|by injection Ea as <- _].
    unfold mbind, st_bind, attempt, lift in Ea. destruct (NewAuth r) as [r'|e| |]; try done.
    + injection Ea as <- _. by split; eexists.
    + by destruct (close_logger log w1) as [[[]|e'| |] w7].
  - eapply (start_each_forall _ _ (fun c st => started_as (hc_Action _ c) st)) in Es as (hs' & -> & Hhs).
    2:{ intros c s b s' Hc Hb. apply list_elem_of_fmap in Hc as (h' & -> & Hh'). rewrite Forall_forall in IH.
        assert (hc_Action _ (handler_cfg h') = h') as -> by (by destruct h'). by eapply IH, Hb. }
    cbn [app hf_Handlers h]. apply (proj1 (Forall2_fmap_l handler_cfg _ _ _)) in Hhs. eapply Forall2_impl; [exact Hhs|].
    intros h' st. by destruct h'.
Qed.

(** The statuses of the actions of a handler can be sent. *)
#[export] Instance status_ok_dec status : Decision (status_ok status).
Proof. unfold status_ok. apply _. Defined.

Definition sendable (h : HandlerConf) : bool :=
  (if hf_Reply h is Some r then bool_decide (status_ok (ra_Status r)) else true)
  && (if hf_Redirect h is Some r then bool_decide (status_ok (rd_Status r)) else true)
  && (if hf_Serve h is Some s then
        bool_decide (status_ok (svc_IndexRedirectStatus s))
        && (if svc_FileNotFound s is Some (Some r) then bool_decide (status_ok (ra_Status r)) else true)
      else true).

Lemma node_ok_sendable url_Parse h : node_ok url_Parse h -> sendable h = true.
Proof.
  intros Hok. unfold sendable. rewrite !andb_true_iff. split; [split|].
  - destruct (hf_Reply h) as [r|] eqn:E; [|done]. apply bool_decide_true. by eapply no_reply.
  - destruct (hf_Redirect h) as [r|] eqn:E; [|done]. apply bool_decide_true. by eapply no_redirect in E.
  - destruct (hf_Serve h) as [r|] eqn:E; [|done]. eapply no_serve in E as [Hs Hm]; [|done].
    rewrite andb_true_iff. split; [by apply bool_decide_true|].
    destruct (svc_FileNotFound r) as [[r'|]|] eqn:E'; [|done|done]. apply bool_decide_true. by apply Hm.
Qed.

(** A handler whose action replies, redirects or serves files. *)
Definition plain_action (h : HandlerConf) : bool :=
  match hf_ReverseProxy h, hf_Status h, hf_FastCGI h with None, None, None => true | _, _, _ => false end.

(** A handler that is plain, with all of its handlers, at any depth. *)
#[warnings="-register-all"]
Inductive plain_handlers : HandlerConf -> Prop :=
  | plain_handlers_intro h : plain_action h = true -> Forall plain_handlers (hf_Handlers h) -> plain_handlers h.

Lemma HandleRequest_answers `{!ActionEnvEnds} other x :
  plain_action (ha_Handler x) = true -> sendable (ha_Handler x) = true -> answersS (HandleRequest other x).
Proof.
  intros Hplain Hs. unfold plain_action in Hplain. unfold sendable in Hs. rewrite !andb_true_iff in Hs. destruct Hs as [[Hr Hd] Hv]. unfold HandleRequest.
  assert (answersS (on_ctx (ReplyAction_HandleRequest (mkReplyCfg 200 [] None)))) as Hdefault.
  { apply on_ctx_answers, answers_ReplyAction. right; cbn; lia. }
  destruct (hf_Reply (ha_Handler x)) as [r|].
  { apply on_ctx_answers, answers_ReplyAction. by bool_facts. }
  destruct (hf_Redirect (ha_Handler x)) as [r|].
  { apply on_ctx_answers, answers_RedirectAction. by bool_facts. }
  destruct (hf_Serve (ha_Handler x)) as [s|].
  { apply on_ctx_answers, answers_ServeAction; apply andb_true_iff in Hv as [Hv Hm]; bool_facts; [done|].
    intros r. cbn. destruct (svc_FileNotFound s) as [[r'|]|]; try done. intros [= ->]. by bool_facts. }
  by destruct (hf_ReverseProxy (ha_Handler x)), (hf_Status (ha_Handler x)), (hf_FastCGI (ha_Handler x)).
Qed.

(** The actions a search can find are those of handlers of the configuration. *)
Lemma reaches_started url_Parse confs sts h x :
  Forall2 started_as confs sts -> Forall (handler_ok url_Parse) confs -> Forall plain_handlers confs ->
  reaches (map searched sts) h -> h_Action h = Some x ->
  node_ok url_Parse (ha_Handler x) /\ plain_action (ha_Handler x) = true.
Proof.
  intros Hst Hok Hplain (chain & Hc & Hl) Hx. revert confs sts Hst Hok Hplain Hc. induction chain as [|h1 chain IH]; [done|].
  intros confs sts Hst Hok Hplain [Hin Hc]. apply list_elem_of_fmap in Hin as (st & -> & Hin).
  apply list_elem_of_lookup in Hin as [i Hi]. destruct (Forall2_lookup_r _ _ _ _ _ Hst Hi) as (conf & Hconf & Hs).
  rewrite Forall_lookup in Hok, Hplain. specialize (Hok _ _ Hconf). inversion Hok as [? Hnode Hsubs]; subst.
  specialize (Hplain _ _ Hconf). inversion Hplain as [? Hp Hps]; subst.
  inversion Hs as [? log auth rl y hs Hy Hauth Hhs]; subst.
  destruct Hc as [->|Hc].
  - injection Hl as <-. cbn in Hx. by injection Hx as <-.
  - destruct chain as [|h2 chain]; [done|]. by eapply IH.
Qed.

(** The handlers of a protocol that was started. *)
Lemma Protocol_Start_handlers cfg name ls w p w' p' :
  Lifecycle.Protocol_Start (protocol_cfg cfg) name ls (w, p) = (Ret tt, (w', p')) ->
  Forall2 started_as (pf_Handlers cfg) (hp_handlers p').
Proof.
  unfold Lifecycle.Protocol_Start, protocol_cfg. cbn [hpc_AccessLogger hpc_Handlers].
  erewrite st_bind_ret by reflexivity. unfold mbind at 1, st_bind at 1, on_world at 1, zoom at 1. cbn [fst snd].
  destruct (open_logger (pf_AccessLogger cfg) (protocol_vars name) w) as [[log|e| |] w1]; try done.
  erewrite st_bind_ret by reflexivity. unfold mbind at 1, st_bind at 1, wrapST, on_world at 1, zoom at 1. cbn [fst snd].
  match goal with |- context [start_each ?f ?g ?l ?k w1] =>
    destruct (start_each f g l k w1) as [[hs|e| |] w2] eqn:Es end; cbn [wrap_error]; try done.
  erewrite st_bind_ret by reflexivity.
  destruct (start_servers_hold ls w2) as (ss & w3 & Ess & _).
  erewrite st_bind_ret by (unfold on_world, zoom; cbn [fst]; rewrite Ess; reflexivity).
  erewrite st_bind_ret by reflexivity. erewrite st_bind_ret by reflexivity.
  unfold mbind, st_bind, on_world, zoom. cbn [fst snd]. destruct (start_gc _ w3) as [[gc|e| |] w4]; try done.
  intros [= _ <-]. cbn [hp_handlers set_parts Lifecycle.set_servers Lifecycle.set_stop set_connections].
  eapply (start_each_forall _ _ (fun c st => started_as (hc_Action _ c) st)) in Es as (hs' & -> & Hhs).
  2:{ intros c s b s' Hc Hb. apply list_elem_of_fmap in Hc as (h' & -> & _).
      assert (hc_Action _ (handler_cfg h') = h') as -> by (by destruct h'). by eapply StartHandler_started_as. }
  cbn [app]. apply (proj1 (Forall2_fmap_l handler_cfg _ _ _)) in Hhs. eapply Forall2_impl; [exact Hhs|].
  intros h' st. by destruct h'.
Qed.

(** [C17] From the configuration file to the answers, for a server whose handlers, at any
    depth, all reply, redirect or serve files: once its protocol is started with a
    configuration that loads, every request it serves is answered by a final status, or by a
    panic that is itself answered, whichever handler is found, whatever the request, the
    files of the system, the rate limiters, the authentications and the errors on the way
    are, and whatever the actions of other kinds would do.  (For those there is more to say:
    the reverse proxy and the FastCGI actions may send an informational status only.) *)
Theorem loaded_requests_answered `{BclLaws, Environment, GoTLS, !ActionEnvEnds} ParseAddress
  filePath cfg server pcfg name ls w p w' p' other t req wire rls fs :
  Load parse_URL ParseAddress (DefaultProtocols parse_URL) filePath = Ret cfg ->
  server ∈ cf_Servers cfg -> sf_ProtocolCfg server = Some (HTTPProtocolCfg pcfg) ->
  Forall plain_handlers (pf_Handlers pcfg) ->
  Lifecycle.Protocol_Start (protocol_cfg pcfg) name ls (w, p) = (Ret tt, (w', p')) ->
  wire_sent wire = None ->
  exists s, ServeHTTP (HandleRequest other) (serving p') t req wire rls fs = (Ret tt, s) /\ answered (ctx_of s).
Proof.
  intros Hload Hs Hp Hplain Hstart Hw. apply Load_reads in Hload as [doc Hdoc].
  apply read_document_ok in Hdoc as [_ _ Hok _]. rewrite Forall_forall in Hok.
  apply Hok in Hs as [_ (q & Hq & Hpok)]. assert (q = HTTPProtocolCfg pcfg) as -> by congruence. destruct Hpok as [Hok' _].
  apply Protocol_Start_handlers in Hstart.
  set (act2 := fun x => if sendable (ha_Handler x) && plain_action (ha_Handler x) then HandleRequest other x
                        else on_ctx (ReplyError 501)).
  rewrite (ServeHTTP_agree (serving p') (HandleRequest other) act2).
  - apply ServeHTTP_answers; [|done]. intros x. unfold act2.
    destruct (sendable _) eqn:E; [destruct (plain_action _) eqn:E'; [by apply HandleRequest_answers|]|].
    all: apply on_ctx_answers, answers_ReplyError2; right; lia.
  - intros h x Hr Hx. unfold act2. eapply (reaches_started _ _ _ _ _ Hstart) in Hx as [Hx ->]; [|done..].
    by rewrite (node_ok_sendable _ _ Hx).
Qed.
End requests.

(** ** Witnesses and examples *)

#[local] Existing Instance ascii_only.
#[local] Existing Instance Lifecycle.map_order.
#[local] Existing Instance HttpActions.one_file.
#[local] Existing Instance HttpActions.one_file_ends.

#[local] Instance no_environment : Environment := { os_LookupEnv _ := None }.
#[local] Instance one_suite : GoTLS := {
  tls_CipherSuites := [("TLS_AES_128_GCM_SHA256"%go, 0x1301)];
  tls_InsecureCipherSuites := []
}.

(** Any URI has the scheme before its first colon. *)
Definition example_parse (s : gostring) : outcome URL :=
  let '(scheme, rest, found) := Cut s ":"%char in
  if found then Ret (mkURL scheme rest [] []) else Throw (Errorf "missing protocol scheme"%go).

#[local] Instance example_context : ActionContext := {
  parse_URL := example_parse;
  NewView _ := Ret tt;
  Compile _ := Ret id;
  running_balancers := ∅;
  start_time := 0;
  temporary_name := "/tmp/boulevard-fastcgi-1"%go
}.

Definition str (s : gostring) : TreeValue := VString s [].
Definition entry1 (name value : gostring) : Tree := TEntry name [str value].

(** A document with one handler, of the elements [elements]. *)
Definition http_document (elements : list Tree) : Tree :=
  TBlock [] [] [TBlock "server"%go "web"%go
    [TBlock "listener"%go [] [entry1 "address"%go ":8080"%go];
     TBlock "http"%go [] [TBlock "handler"%go [] elements]]].

Definition example_handler : list Tree :=
  [TEntry "match"%go [VSymbol "path"%go; str "/a/"%go];
   TEntry "match"%go [VSymbol "method"%go; str "GET"%go; str "HEAD"%go];
   TBlock "authentication"%go [] [TBlock "basic"%go [] [TEntry "user"%go [str "bob"%go; str "70"%go]]];
   TEntry "reply"%go [VInt 200; str "hello"%go];
   TBlock "handler"%go [] [TEntry "match"%go [VSymbol "header"%go; str "X-Foo"%go];
                           TBlock "redirect"%go [] [TEntry "status"%go [VInt 301]; entry1 "uri"%go "/b"%go]]].

Definition example_document : Tree :=
  TBlock [] []
    (tree_children (http_document example_handler)
     ++ [TBlock "load_balancer"%go "lb"%go
           [entry1 "server"%go "a:80"%go; TBlock "health_probe"%go [] [TBlock "tcp"%go [] []]];
         TBlock "control_api"%go [] [entry1 "path"%go "/run/boulevard.sock"%go];
         TBlock "pprof"%go [] [entry1 "address"%go ":6060"%go];
         TBlock "server"%go "relay"%go
           [TBlock "listener"%go [] [entry1 "address"%go ":5432"%go];
            TBlock "tcp"%go [] [entry1 "reverse_proxy"%go "b:5432"%go]]]).

(** [ServiceCfg.Load] of a document, and what is made of its first server. *)
Definition load (doc : Tree) : outcome ServiceConf :=
  @Load (tree_bcl doc) _ _ _ (parse_URL (ActionContext := example_context)) (fun _ => Ret tt) example_files
    (DefaultProtocols (H := tree_bcl doc) (parse_URL (ActionContext := example_context))) "tokens"%go.

Definition loaded_handlers (doc : Tree) : outcome (list HandlerConf) :=
  cfg ← load doc;
  Ret (match cf_Servers cfg with
       | {| sf_ProtocolCfg := Some (HTTPProtocolCfg p) |} :: _ => pf_Handlers p
       | _ => []
       end).

Example load_example :
  (fun cfg => (map sf_Name (cf_Servers cfg), map lbc_Name (cf_LoadBalancers cfg))) <$> load example_document
  = Ret (["web"%go; "relay"%go], ["lb"%go]).
Proof. vm_compute. reflexivity. Qed.

(** Statuses, methods and the number of actions are checked, at any depth. *)
Example load_invalid :
  map (fun elements => is_ret (load (http_document elements)))
    [[TEntry "reply"%go [VInt 600]]; [TEntry "match"%go [VSymbol "method"%go; str "get"%go]];
     [TEntry "reply"%go [VInt 200]; TEntry "serve"%go [str "/www"%go]];
     [TBlock "handler"%go [] [TEntry "redirect"%go [VInt 100; str "/"%go]]];
     [TEntry "reverse_proxy"%go [str "ftp://a"%go]]]
  = [false; false; false; false; false].
Proof. vm_compute. reflexivity. Qed.

(** The configuration of [example_document]. *)
Definition example_config : ServiceConf :=
  match load example_document with
  | Ret cfg => cfg
  | _ => mkServiceConf (mkLoggerConf BackendTypeTerminal false None 0) None None [] [] []
  end.

Lemma load_example_document : load example_document = Ret example_config.
Proof. vm_compute. reflexivity. Qed.

Lemma example_calls_complete : calls_complete.
Proof. split; intros; cbn; try done; try (unfold example_parse; by destruct (Cut s _) as [[? ?] []]). by case_decide. Qed.

Lemma Load_sound_witness :
  config_ok (H0 := one_suite) (parse_URL (ActionContext := example_context)) (fun _ => Ret tt) example_config.
Proof.
  apply (Load_sound (H := tree_bcl example_document) (H0 := tree_laws _) (fun _ => Ret tt) "tokens"%go example_config).
  exact load_example_document.
Defined.

(** The service is created and started, gets a signal, and is stopped. *)
Lemma loaded_service_gives_back_witness :
  exists s0 s1 s s2 L, NewService (service_cfg example_config) (protocol_objects (P := unit) example_config) (no_world [])
      = (Ret tt, s0)
    /\ Service_Start (service_cfg example_config) s0 = (Ret tt, s1)
    /\ rotateLogFiles ["web"%go; "relay"%go] s1 = (Ret tt, s)
    /\ Service_Stop ["relay"%go; "web"%go] ["lb"%go] s = (Ret tt, s2)
    /\ pprof_holds ":6060"%go L
    /\ servers s2 = ∅ /\ loadBalancers s2 = ∅ /\ sv_held s2 = ∅ ⊎ (L ⊎ (control_log s0 ⊎ ∅)).
Proof.
  destruct (NewService (service_cfg example_config) (protocol_objects (P := unit) example_config) (no_world []))
    as [r s0] eqn:E0.
  assert (r = Ret tt) as -> by (change r with (fst (r, s0)); rewrite <- E0; vm_compute; reflexivity).
  destruct (Service_Start (service_cfg example_config) s0) as [r s1] eqn:E1.
  assert (r = Ret tt) as ->.
  { change r with (fst (r, s1)). rewrite <- E1. change s0 with (snd (Ret tt : outcome unit, s0)). rewrite <- E0.
    vm_compute. reflexivity. }
  destruct (rotateLogFiles ["web"%go; "relay"%go] s1) as [r s] eqn:E.
  assert (r = Ret tt /\ ((map fst (map_to_list (servers s)), map fst (map_to_list (loadBalancers s)))
                         = (["relay"%go; "web"%go], ["lb"%go])
                         /\ map (server_stoppable s) ["relay"%go; "web"%go] = [true; true])) as [-> [Hd Hst]].
  { change r with (fst (r, s)). change s with (snd (r, s)) at 2 3 4. rewrite <- E.
    change s1 with (snd (Ret tt : outcome unit, s1)). rewrite <- E1.
    change s0 with (snd (Ret tt : outcome unit, s0)). rewrite <- E0. vm_compute. repeat split. }
  injection Hd as Hd1 Hd2. injection Hst as Hrelay Hweb.
  pose proof (loaded_service_gives_back (P := unit) (H := tree_bcl example_document) (H0 := tree_laws _)
    (fun _ => Ret tt) "tokens"%go example_config (no_world [])) as Hgives.
  specialize (Hgives load_example_document example_calls_complete (map_Forall_empty _)) as [_ Hgives].
  destruct (Hgives s0 E0) as [_ Hstop].
  destruct (Hstop s1 s no_history ["relay"%go; "web"%go] ["lb"%go] E1 (rtc_once _ _ (signal_received _ _ _ _ _ E)))
    as [Hreturns _].
  { intros n [x Hn]. rewrite <- Hd1. apply elem_of_map_to_list in Hn. apply list_elem_of_fmap.
    exists (n, x). split; [reflexivity|exact Hn]. }
  { intros n [x Hn]. rewrite <- Hd2. apply elem_of_map_to_list in Hn. apply list_elem_of_fmap.
    exists (n, x). split; [reflexivity|exact Hn]. }
  destruct Hreturns as (s2 & L & R & E2 & HL & _ & HR & Hs & Hl & Hheld).
  { intros n [x Hn]. assert (n ∈ map fst (map_to_list (servers s))) as Hin.
    { apply elem_of_map_to_list in Hn. apply list_elem_of_fmap. exists (n, x). split; [reflexivity|exact Hn]. }
    rewrite Hd1 in Hin. apply elem_of_cons in Hin as [->|Hin]; [exact Hrelay|].
    apply list_elem_of_singleton in Hin as ->. exact Hweb. }
  exists s0, s1, s, s2, L. split; [reflexivity|]. split; [exact E1|]. split; [exact E|]. split; [exact E2|].
  split; [exact HL|]. split; [exact Hs|]. split; [exact Hl|]. rewrite (HR eq_refl) in Hheld. exact Hheld.
Defined.

(** The server [web] of the example, its protocol, and a request to it. *)
Definition example_web : ServerConf :=
  match cf_Servers example_config with s :: _ => s | [] => mkServerConf [] None [] end.
Definition example_protocol : ProtocolConf :=
  match sf_ProtocolCfg example_web with Some (HTTPProtocolCfg p) => p | _ => mkProtocolConf [] None [] false false false false end.

Lemma loaded_requests_answered_witness :
  exists w' p' s,
    Lifecycle.Protocol_Start (protocol_cfg example_protocol) "web"%go [] (no_world [], NewProtocol TLSHandlingAccept false)
      = (Ret tt, (w', p'))
    /\ ServeHTTP (HandleRequest (P := unit) (fun _ => on_ctx (ReplyError 502))) (serving p') example_moment
         (example_request ∅) new_wire ∅ ∅ = (Ret tt, s)
    /\ answered (ctx_of s).
Proof.
  destruct (Lifecycle.Protocol_Start (protocol_cfg example_protocol) "web"%go []
              (no_world [], NewProtocol TLSHandlingAccept false)) as [r [w' p']] eqn:E.
  assert (r = Ret tt) as -> by (change r with (fst (r, (w', p'))); rewrite <- E; vm_compute; reflexivity).
  destruct (loaded_requests_answered (P := unit) (H6 := tree_bcl example_document) (H7 := tree_laws _) (fun _ => Ret tt)
    "tokens"%go example_config example_web example_protocol "web"%go [] (no_world []) (NewProtocol TLSHandlingAccept false) w' p'
    (fun _ => on_ctx (ReplyError 502)) example_moment (example_request ∅) new_wire ∅ ∅ load_example_document)
    as (s & Hs & Ha).
  - assert (cf_Servers example_config = example_web :: tail (cf_Servers example_config)) as -> by (vm_compute; reflexivity).
    left.
  - vm_compute. reflexivity.
  - vm_compute. repeat constructor.
  - exact E.
  - reflexivity.
  - exists w', p', s. split; [reflexivity|]. split; [exact Hs|exact Ha].
Defined.

(** *** What a configuration can say without being refused *)

(** An entry that only names a header field, as [match header] with [User-Agent] in
    cfg/example.bcl, is no constraint: every request matches. *)
Example header_presence_ignored :
  map hf_Match <$> loaded_handlers (http_document [TEntry "match"%go [VSymbol "header"%go; str "User-Agent"%go]])
  = Ret [no_match].
Proof. vm_compute. reflexivity. Qed.

(** The methods of an entry replace those of the entries before it; hosts are added. *)
Example methods_replaced :
  map (fun h => Methods (hf_Match h)) <$> loaded_handlers (http_document
    [TEntry "match"%go [VSymbol "method"%go; str "GET"%go]; TEntry "match"%go [VSymbol "method"%go; str "PUT"%go]])
  = Ret [["PUT"%go]]
  /\ map (fun h => length (Hosts (hf_Match h))) <$> loaded_handlers (http_document
    [TEntry "match"%go [VSymbol "host"%go; str "a"%go]; TEntry "match"%go [VSymbol "host"%go; str "b"%go]])
  = Ret [2%nat].
Proof. vm_compute. split; reflexivity. Qed.

(** [remove] in a block of header operations needs a value, which is not used. *)
Example remove_needs_value :
  map (fun op => is_ret (load (http_document [TBlock "reverse_proxy"%go []
    [entry1 "uri"%go "http://a"%go; TBlock "request_header"%go [] [op]]])))
    [entry1 "remove"%go "X-A"%go; TEntry "remove"%go [str "X-A"%go; str "unused"%go]]
  = [false; true].
Proof. vm_compute. reflexivity. Qed.

Definition basic_user : Tree := TBlock "basic"%go [] [TEntry "user"%go [str "bob"%go; str "70"%go]].

(** Secrets whose [hash] is a block load without algorithm; the first request panics. *)
Example secrets_without_algorithm :
  map (fun h => ac_Secrets <$> hf_Auth h) <$> loaded_handlers (http_document
    [TBlock "authentication"%go [] [TBlock "secrets"%go [] [TBlock "hash"%go [] []]; basic_user]])
  = Ret [Some (Some (mkSecrets None None))]
  /\ transformAuthSecret "bob:70"%go (mkAuthCfg (Some (mkSecrets None None)) [] None None) = Panic.
Proof. vm_compute. split; reflexivity. Qed.

(** An HMAC is never configured by its algorithm and its key alone. *)
Example hmac_needs_three_values :
  is_ret (load (http_document [TBlock "authentication"%go []
    [TBlock "secrets"%go [] [TEntry "hmac"%go [str "SHA-256"%go; str "key"%go]]; basic_user]])) = false.
Proof. vm_compute. reflexivity. Qed.

(** The document of a listener with the elements [tls] in its block [tls]. *)
Definition listener_document (tls : list Tree) : Tree :=
  TBlock [] [] [TBlock "server"%go "web"%go
    [TBlock "listener"%go [] [entry1 "address"%go ":443"%go; TBlock "tls"%go [] tls];
     TBlock "http"%go [] []]].

(** An empty domain name, or a server without host, makes the loading panic. *)
Example empty_names_panic :
  map load [listener_document [TBlock "acme"%go [] [entry1 "domain"%go []]];
            TBlock [] [] [TBlock "load_balancer"%go "lb"%go [entry1 "server"%go ":80"%go]]]
  = [Panic; Panic].
Proof. vm_compute. reflexivity. Qed.

(** A probe every zero second is accepted, and its goroutine panics. *)
Example zero_period_accepted :
  (fun cfg => map (fun lb => probe_ticker <$> lbc_HealthProbe lb) (cf_LoadBalancers cfg))
    <$> load (TBlock [] [] [TBlock "load_balancer"%go "lb"%go
      [entry1 "server"%go "a:80"%go;
       TBlock "health_probe"%go [] [TEntry "period"%go [VInt 0]; TBlock "tcp"%go [] []]]])
  = Ret [Some Panic].
Proof. vm_compute. reflexivity. Qed.

(** Names are not compared: servers and load balancers with the same name load. *)
Example duplicate_names_load :
  (fun cfg => map lbc_Name (cf_LoadBalancers cfg)) <$> load (TBlock [] []
    [TBlock "load_balancer"%go "lb"%go [entry1 "server"%go "a:80"%go];
     TBlock "load_balancer"%go "lb"%go [entry1 "server"%go "b:80"%go]])
  = Ret ["lb"%go; "lb"%go].
Proof. vm_compute. reflexivity. Qed.
