(* ===== verification/Commands.v ===== *)
(** * The programs (src/cmd: boulevard, boulevard-cli and fastcgi)

    What the programs do with their command line: the server, which loads its configuration
    and runs its service until a signal; the client of the control API; and the FastCGI
    client.  The command line library is a record of what it found; a fatal error, which
    ends the program at once, is an error of the outcome.  The output is the bytes printed. *)

From stdpp Require Import gmultiset.
From S2P Require Import Prelude GoStrings Bcl FormatString HttpMedia HttpContext HttpAuth HttpHandler HttpServer.
From S2P Require Import FcgiProtocol FcgiHeader FcgiConnection SpillBuffer FcgiClient FcgiAction HttpViews ControlAPI.
From S2P Require Import Lifecycle Service ConfigNet ConfigHttp ConfigService.

(** ** The command line (go.n16f.net/program) *)

Record CommandLine := mkCommandLine {
  CommandName : gostring;
  IsOptionSet : gostring -> bool;
  OptionValue : gostring -> gostring;
  ArgumentValue : gostring -> gostring;
  TrailingArgumentValues : gostring -> list gostring
}.

(** What is printed on the standard output, and the errors that are logged. *)
Record Output := mkOutput { printed : gostring; logged : list gostring }.

Definition no_output : Output := mkOutput [] [].

Definition print_bytes (s : gostring) : ST Output unit := modify (fun o => mkOutput (printed o ++ s) (logged o)).

(** [fmt.Println] of a string. *)
Definition Println (s : gostring) : ST Output unit := print_bytes (s ++ [newline]).

(** [Program.Error] *)
Definition log_error (msg : gostring) : ST Output unit := modify (fun o => mkOutput (printed o) (logged o ++ [msg])).

(** ** boulevard *)

Section boulevard.
Context {P : Type} `{Bcl, Environment, GoUnicode, GoText, GoCrypto, GoFiles, GoTLS, !HttpHandler.MapRange}.
Context `{!ActionContext} (ParseAddress : gostring -> outcome unit).

(** The configuration [run] fills: without a file it stays empty. *)
Definition load_cfg (cfgPath : gostring) : outcome (option ServiceConf) :=
  if bool_decide (cfgPath = []) then Ret None
  else Some <$> wrap_error "cannot load configuration"%go
                  (Load parse_URL ParseAddress (DefaultProtocols parse_URL) cfgPath).

Definition run_cfg (cfg : option ServiceConf) : ServiceCfg :=
  match cfg with Some cfg => service_cfg cfg | None => mkServiceCfg false None None [] [] [] end.

Definition run_objects (cfg : option ServiceConf) : gmap gostring (ProtocolObject (P := P)) :=
  match cfg with Some cfg => protocol_objects cfg | None => ∅ end.

(** The names of a table, in the order of a range. *)
Definition names {V} (m : gmap gostring V) : list gostring := map fst (range_map m).

Definition stop_service : ST (Service (ProtocolObject (P := P))) unit := fun s =>
  Service_Stop (names (servers s)) (names (loadBalancers s)) s.

(** The service from its start to its stop; [running] is what happens to it until the
    program gets a signal, possibly its end. *)
Definition start_and_stop (cfg : ServiceCfg)
  (running : ST (Service (ProtocolObject (P := P))) unit)
  : ST (Service (ProtocolObject (P := P))) unit :=
  _ ← wrapST "cannot start service"%go (Service_Start cfg);
  _ ← running;
  stop_service.

Definition run_service (cfg : ServiceCfg) (ps : gmap gostring (ProtocolObject (P := P)))
  (running : ST (Service (ProtocolObject (P := P))) unit) (w : World) : outcome unit * World :=
  match NewService cfg ps w with
  | (Ret _, s) =>
      let '(r, s) := start_and_stop cfg running s in (r, sv_world s)
  | (r, s) => (wrap_error "cannot create service"%go r, sv_world s)
  end.

(** The function [run] of the program. *)
Definition run (p : CommandLine) (buildId : gostring)
  (running : ST (Service (ProtocolObject (P := P))) unit) (w : World)
  : outcome unit * (gostring * World) :=
  if IsOptionSet p "version"%go then
    match Version buildId with
    | Ret version => (Ret tt, (version ++ [newline], w))
    | r => ((_ ← r; Ret tt), ([], w))
    end
  else
    match load_cfg (OptionValue p "cfg-file"%go) with
    | Ret cfg =>
        if IsOptionSet p "validate-cfg"%go then (Ret tt, ([], w))
        else
          let '(r, w) := run_service (run_cfg cfg) (run_objects cfg) running w in
          (r, ([], w))
    | r => ((_ ← r; Ret tt), ([], w))
    end.
End boulevard.

(** ** boulevard-cli *)

Section cli.
Context `{!JSONEncoder unit, !JSONDecoder ControlAPIError, !EJSONDecoder ServiceStatus}.

(** [cmdStatus]: the status is empty if the call gave no value. *)
Definition cmdStatus (client : Transport) : ST Output unit :=
  match Call (Req := unit) client "status"%go None true with
  | Some (_, inr status) => Println (ss_BuildId (default (mkServiceStatus []) status))
  | Some (_, inl _) => throw (Errorf "cannot fetch server status"%go)
  | None => lift Panic
  end.

(** [cmdVersion] *)
Definition cmdVersion (buildId : gostring) : ST Output unit :=
  version ← lift (Version buildId); Println version.

(** [main]: the version is computed first, from a build identifier that may be empty. *)
Definition cli_main (buildId : gostring) (p : CommandLine) (connect : gostring -> Transport) : ST Output unit :=
  match buildId with
  | [] => lift Panic
  | _ :: _ =>
      if bool_decide (CommandName p = "version"%go) then cmdVersion buildId
      else cmdStatus (connect (OptionValue p "path"%go))
  end.
End cli.

(** ** fastcgi *)

(** The strings of the type [Role]. *)
Definition role_name (r : Role) : gostring :=
  match r with
  | RoleResponder => "responder"%go
  | RoleAuthorizer => "authorizer"%go
  | RoleFilter => "filter"%go
  end.

Definition parseRole (s : gostring) : outcome Role :=
  if bool_decide (s = role_name RoleAuthorizer) then Ret RoleAuthorizer
  else if bool_decide (s = role_name RoleFilter) then Ret RoleFilter
  else if bool_decide (s = role_name RoleResponder) then Ret RoleResponder
  else Throw (Errorf "unknown role"%go).

Definition parseNameValuePairs (ss : list gostring) : list NameValuePair :=
  map (fun s => let '(name, value, _) := Cut s "="%char in mkPair name value) ss.

Definition print_field (f : Field) : gostring := f_Name f ++ ": "%go ++ f_Value f ++ [newline].

Section fastcgi.
Context `{!FcgiClient.MapRange}.

(** The request [cmdSendRequest] sends: [dials] are the outcomes of the connections to the
    address, [input] the standard input, which gives what a read asks for as long as there
    is as much left (a terminal or a pipe may give less: the input is then cut in other
    records); the context is never done. *)
Definition command_request (p : CommandLine) (role : Role) (dials : list (outcome FcgiConn)) (input : gostring)
  (fuel : nat) : outcome FHeader * SendState (R := bytes_Reader) (W := bytes_Buffer) :=
  let params := parseNameValuePairs (TrailingArgumentValues p "parameter"%go) in
  let stdin := if IsOptionSet p "stdin"%go then Some (NewReader input) else None in
  SendRequest None Finished Finished fuel role params (mkSend (NewClient dials) stdin None (mkBuffer []) []).

Definition cmdSendRequest (p : CommandLine) (dials : list (outcome FcgiConn)) (input : gostring) (fuel : nat)
  : ST Output unit :=
  role ← lift (wrap_error "cannot parse role"%go (parseRole (OptionValue p "role"%go)));
  let '(r, s) := command_request p role dials input fuel in
  header ← lift (wrap_error "cannot send request"%go r);
  _ ← (if 0 <? len (s_stderr s) then log_error ("FastCGI error: "%go ++ s_stderr s) else mret tt);
  _ ← (if IsOptionSet p "header"%go
       then _ ← print_bytes (Fields header ≫= print_field); Println []
       else mret tt);
  print_bytes (buf_Bytes (s_stdout s)).

(** [cmdValues]: the rows of its table. *)
Definition cmdValues (dials : list (outcome FcgiConn)) : outcome (list NameValuePair) :=
  wrap_error "cannot fetch values"%go (fst (FetchValues None (NewClient dials))).
End fastcgi.

(** ** The server program *)

Section boulevard_laws.
Set Default Proof Using "All".
Context {P : Type} `{BclLaws, Environment, GoUnicode, GoText, GoCrypto, GoFiles, GoTLS, !HttpHandler.MapRange}.
Context `{!ActionContext} (ParseAddress : gostring -> outcome unit).

Lemma names_range {V} (m : gmap gostring V) n : is_Some (m !! n) -> n ∈ names m.
Proof using Type.
  intros [v Hv]. unfold names. apply list_elem_of_fmap. exists (n, v). split; [done|].
  rewrite (range_map_entries V m). by apply elem_of_map_to_list.
Qed.

(** The servers of the configuration of [run] have new protocol objects. *)
Lemma run_objects_new cfgPath cfg :
  calls_complete -> distinct_servers -> load_cfg ParseAddress cfgPath = Ret cfg ->
  forall c, c ∈ sv_Servers (run_cfg cfg) ->
  exists o, run_objects (P := P) cfg !! sc_Name c = Some o /\ protocol_new o.
Proof.
  intros Hcalls Hd Hload c. unfold load_cfg in Hload. case_bool_decide.
  { injection Hload as <-. intros Hc. by apply not_elem_of_nil in Hc. }
  destruct (Load parse_URL ParseAddress _ cfgPath) as [conf|e| |] eqn:E; try discriminate.
  injection Hload as <-. apply Load_reads in E as [doc Hdoc]. apply read_document_ok in Hdoc as [_ _ Hservers _].
  cbn [run_cfg run_objects]. by apply (protocol_objects_new (P := P) parse_URL).
Qed.

(** An HTTP server whose protocol was already stopped once. *)
Definition spent (s : Service (ProtocolObject (P := P))) (n : gostring) : Prop :=
  exists cp, protos s !! n = Some (inl cp) /\ hp_stopClosed (snd cp) = true.

Lemma not_stoppable_spent (s : Service (ProtocolObject (P := P))) n : server_stoppable s n = false -> spent s n.
Proof using Type.
  unfold server_stoppable, spent. destruct (protos s !! n) as [[cp|q]|]; try done.
  intros Hst%negb_false_iff. by exists cp.
Qed.

(** A running server was started again after it failed, with a protocol that was stopped. *)
Definition restarted_runs (s : Service (ProtocolObject (P := P))) (h : History) : Prop :=
  exists n, is_Some (servers s !! n) /\ n ∈ restarted h /\ spent s n.

(** From a service that was created to its end. *)
Lemma start_and_stop_gives_back cfg running history w s0 :
  (forall c, c ∈ sv_Servers (run_cfg cfg) -> exists o, run_objects (P := P) cfg !! sc_Name c = Some o /\ protocol_new o) ->
  NewService (run_cfg cfg) (run_objects (P := P) cfg) w = (Ret tt, s0) ->
  (forall s, service_life (sv_Servers (run_cfg cfg)) s (fst (running s)) (snd (running s)) (history s)) ->
  let '(r, s) := start_and_stop (run_cfg cfg) running s0 in
  (r = Ret tt -> exists s1 L R, Service_Start (run_cfg cfg) s0 = (Ret tt, s1)
     /\ pprof_holds (sv_PProfAddress (run_cfg cfg)) L
     /\ no_socket R /\ (abandoned (history s1) = [] -> R = ∅)
     /\ held (sv_world s) = R ⊎ (L ⊎ (control_log s0 ⊎ held w)))
  /\ (completed r \/ (r = Panic /\ exists s1 s2, Service_Start (run_cfg cfg) s0 = (Ret tt, s1)
       /\ rtc (service_event (sv_Servers (run_cfg cfg))) (s1, no_history) (s2, history s1)
       /\ restarted_runs s2 (history s1))).
Proof.
  intros Hnew E0 Hrunning.
  assert (forall c, c ∈ sv_Servers (run_cfg cfg) -> server_new s0 c) as Hnew0.
  { intros c Hc. destruct (Hnew c Hc) as (o & Ho & Hon). exists o. split; [|done].
    by apply NewService_spec in E0 as (_ & _ & -> & _). }
  pose proof (Service_Start_completes (run_cfg cfg) s0 Hnew0) as Hc1.
  unfold start_and_stop, mbind, st_bind, wrapST.
  destruct (Service_Start (run_cfg cfg) s0) as [[[]|e| |] s1] eqn:E1; try done; cbn [wrap_error].
  2: by split; [|left].
  destruct (started_lives _ _ _ _ _ Hnew E0 E1) as (L0 & _ & Hlives).
  destruct (Hrunning s1) as (s2 & Hev & [[Er Es]|(Er & n & Hn & Estop)]).
  - destruct (running s1) as [r s']. cbn [fst snd] in Er, Es. subst r s'. unfold stop_service.
    destruct (service_gives_back (run_cfg cfg) (run_objects cfg) w s0 s1 s2 (history s1)
                (names (servers s2)) (names (loadBalancers s2)) Hnew E0 E1 Hev) as [Hgives Hstuck];
      [intros n; by apply names_range..|].
    destruct (stoppable_dec s2) as [Hall|(n & Hn & Hst)].
    + destruct (Hgives Hall) as (s3 & L & R & -> & HL & HR & Hab & _ & _ & Hh). split; [|by left].
      intros _. by exists s1, L, R.
    + destruct (Hstuck n Hn Hst) as [Hin Hp].
      destruct (Service_Stop _ _ s2) as [r s3]. cbn [fst] in Hp. subst r. split; [done|]. right. split; [done|].
      exists s1, s2. split; [done|]. split; [done|]. exists n. split; [done|]. split; [done|by apply not_stoppable_spent].
  - destruct (running s1) as [r s']. cbn [fst snd] in Er, Estop. subst r. split; [done|]. right. split; [done|].
    exists s1, s2. split; [done|]. split; [done|].
    pose proof (service_events_live _ _ _ _ _ _ Hlives Hev) as Hlives2.
    destruct (failure_panics _ _ _ _ _ _ Hlives2 Hn Estop) as [Hst Hin].
    exists n. split; [done|]. split; [done|by apply not_stoppable_spent].
Qed.

End boulevard_laws.

(** ** The client of the control API *)

Section cli_laws.
Context `{GoUnicode, GoText, !GoJSON ControlAPIError, !GoJSON ServiceStatus}.
Context `{!JSONEncoder unit, !JSONDecoder ControlAPIError, !EJSONDecoder ServiceStatus, !JSONLaws}.

(** [boulevard-cli status], with the server at the other end, prints the build identifier
    of the server. *)
Lemma cli_status_prints buildId p serverId log t fs o :
  buildId <> [] -> CommandName p <> "version"%go -> ascii_text serverId ->
  cli_main buildId p (fun _ => control_connection serverId log t fs) o
  = (Ret tt, mkOutput (printed o ++ serverId ++ [newline]) (logged o)).
Proof using Type*.
  intros Hid Hcmd Hascii. unfold cli_main. destruct buildId; [done|]. rewrite bool_decide_false by done.
  destruct (control_answer_call serverId "status"%go Hascii) as (status & h & body & Ha & Hbody).
  rewrite bool_decide_true in Hbody by (vm_compute; reflexivity). destruct Hbody as [-> Hbody].
  unfold cmdStatus.
  rewrite (Call_response (Req := unit) (control_connection serverId log t fs) "status"%go None 200 body
             ltac:(discriminate) eq_refl
             (fun data => control_connection_Do serverId log t fs "status"%go data 200 h body Ha)).
  by rewrite Hbody.
Qed.
End cli_laws.

(** A client built without build identifier crashes, whatever it is asked. *)
Example cli_without_build_id `{!JSONEncoder unit, !JSONDecoder ControlAPIError, !EJSONDecoder ServiceStatus} p connect o :
  fst (cli_main [] p connect o) = Panic.
Proof. done. Qed.

(** ** The FastCGI client *)

Lemma parseRole_name s r : parseRole s = Ret r <-> s = role_name r.
Proof.
  unfold parseRole. repeat case_bool_decide; subst; split; try done; try (by intros [= <-]).
  all: destruct r; intros E; try done; subst; done.
Qed.

(** A parameter is cut at its first equals sign; without one its value is empty. *)
Lemma parseNameValuePairs_lookup ss i s :
  ss !! i = Some s -> exists name value, parseNameValuePairs ss !! i = Some (mkPair name value)
    /\ ("="%char ∉ name) /\ (s = name ++ "="%char :: value \/ (s = name /\ value = [])).
Proof.
  intros Hs. unfold parseNameValuePairs. rewrite list_lookup_fmap, Hs. cbn.
  destruct (decide ("="%char ∈ s)) as [Hin|Hn].
  - apply list_elem_of_split_l in Hin as (name & value & -> & Hn). rewrite Cut_found by done.
    exists name, value. auto.
  - rewrite Cut_not_found by done. exists s, []. auto.
Qed.

Section fastcgi_laws.
Context `{!FcgiClient.MapRange}.

(** The first connection of a new client. *)
Lemma acquire_first d ds conn :
  NewConnection d = Ret conn ->
  exists k cl, acquireConnection None (NewClient (d :: ds)) = (Ret (Some k), cl)
    /\ store cl !! k = Some conn /\ is_Some (idleConns cl) /\ releasedClosed cl = false.
Proof.
  intros Hd. unfold acquireConnection.
  assert (range_first (default ∅ (idleConns (NewClient (d :: ds)))) = None) as ->.
  { pose proof (range_first_elem (default ∅ (idleConns (NewClient (d :: ds))))) as He. cbn in *.
    destruct (range_first ∅) as [c|]; [|done]. by apply not_elem_of_empty in He. }
  unfold acquire_locked, dial, mbind, st_bind, wrapST. cbn [releasedClosed NewClient andb dials]. rewrite Hd.
  do 2 eexists. split; [reflexivity|]. cbn. by rewrite lookup_insert_eq.
Qed.

(** A request on a connection with an application that answers, read into a buffer. *)
Lemma exchange_buffer fuel role params pdata conn stdin ins fs out err :
  writable conn -> answers_with conn fs out err -> NameValuePairs_Encode params = Ret pdata ->
  provides_opt stdin ins -> (length pdata < fuel)%nat -> (chunk_count ins < fuel)%nat ->
  exists d q p, write_records (request_records role 1 pdata ins None) = Ret d
    /\ exchange (R := bytes_Reader) fuel role params (mkReq conn stdin None) (mkBuffer []) []
       = (Ret (mkFHeader fs []), (q, p))
    /\ buf_Bytes (p_stdout p) = out /\ p_stderr p = err /\ live (q_conn q) /\ c_sent (q_conn q) = c_sent conn ++ d.
Proof using Type.
  intros Hw Ha Henc Hins Hf1 Hf2.
  destruct (writeRequest_sent (mkReq conn stdin None) fuel role params 1 pdata ins None)
    as (d & q & Hd & Hr & Hq); try done.
  { unfold chunk_count. cbn. lia. }
  unfold exchange. rewrite (wrapST_ret _ _ _ _ _ Hr), Hq.
  destruct (readResponse_buffer (sent conn d) fs out err) as (p & Hp' & Hout & Herr & Ho & Hs); [done|done|].
  rewrite (wrapST_ret _ _ _ _ _ Hp'). exists d. do 2 eexists.
  split; [exact Hd|]. split; [reflexivity|]. by split_and!.
Qed.
(** The command sends its request on a new connection. *)
Lemma command_request_answers p d ds input fuel role conn pdata ins fs out err :
  NewConnection d = Ret conn -> writable conn -> answers_with conn fs out err ->
  NameValuePairs_Encode (parseNameValuePairs (TrailingArgumentValues p "parameter"%go)) = Ret pdata ->
  ins = (if IsOptionSet p "stdin"%go then Some (stream_chunks input) else None) ->
  (length pdata < fuel)%nat -> (length input < fuel)%nat ->
  exists sent st k conn', write_records (request_records role 1 pdata ins None) = Ret sent
    /\ command_request p role (d :: ds) input fuel = (Ret (mkFHeader fs []), st)
    /\ buf_Bytes (s_stdout st) = out /\ s_stderr st = err
    /\ store (s_client st) !! k = Some conn' /\ c_sent conn' = c_sent conn ++ sent.
Proof.
  intros Hd Hw Ha Henc Hins Hf1 Hf2. destruct (acquire_first d ds conn Hd) as (k & cl & Hacq & Hst & Hi & Hr).
  set (stdin := if IsOptionSet p "stdin"%go then Some (NewReader input) else None).
  destruct (chunks_facts (length input) input (le_n _)) as (Hp & _ & Hc).
  destruct (exchange_buffer fuel role _ pdata conn stdin ins fs out err Hw Ha Henc) as
    (sent & q & rp & Hsent & Hex & Hout & Herr & Ho & Hcs); [|done|..].
  { subst ins stdin. destruct (IsOptionSet p _); [|done]. by exists (NewReader []). }
  { subst ins. destruct (IsOptionSet p _); unfold chunk_count; cbn; [|lia]. unfold stream_chunks. lia. }
  set (cl2 := set_store (<[k := q_conn q]> (store cl)) cl).
  destruct (release_reuses cl2 k (q_conn q)) as (cl3 & Hrel & Hk & Hst3);
    [by cbn; rewrite lookup_insert_eq|exact (proj1 Ho)|done|done|].
  exists sent, (mkSend cl3 (q_stdin q) (q_data q) (p_stdout rp) (p_stderr rp)), k, (q_conn q).
  split; [exact Hsent|]. split; [|by split_and!; cbn; rewrite ?Hst3; cbn; rewrite ?lookup_insert_eq].
  unfold command_request, SendRequest, Client_sendRequest, mbind, st_bind. unfold on_client at 1, zoom at 1.
  cbn [s_client s_stdin s_data s_stdout s_stderr]. rewrite Hacq. cbv beta iota.
  erewrite (use_and_release_ret _ _ _ _ _ _ (mkSend cl2 (q_stdin q) (q_data q) (p_stdout rp) (p_stderr rp)));
    [reflexivity| |].
  - unfold use_connection. cbn [s_client]. rewrite Hst. unfold Connection_SendRequest.
    cbn [s_stdin s_data s_stdout s_stderr]. fold stdin. rewrite Hex. reflexivity.
  - exact Hrel.
Qed.

(** [C11] The command send-request, with an application that answers: the application is
    sent the records of a request with the role and the parameters of the command line,
    each cut at its first equals sign, and the standard input if it was asked for; what is
    printed is the fields of the answer, if they were asked for, and exactly its body, and
    its errors are logged. *)
Theorem send_request_prints p d ds input fuel role conn pdata fs out err o :
  OptionValue p "role"%go = role_name role -> NewConnection d = Ret conn -> writable conn ->
  answers_with conn fs out err ->
  NameValuePairs_Encode (parseNameValuePairs (TrailingArgumentValues p "parameter"%go)) = Ret pdata ->
  (length pdata < fuel)%nat -> (length input < fuel)%nat ->
  (exists sent st k conn',
     write_records (request_records role 1 pdata
       (if IsOptionSet p "stdin"%go then Some (stream_chunks input) else None) None) = Ret sent
     /\ snd (command_request p role (d :: ds) input fuel) = st
     /\ store (s_client st) !! k = Some conn' /\ c_sent conn' = c_sent conn ++ sent)
  /\ cmdSendRequest p (d :: ds) input fuel o
     = (Ret tt, mkOutput
         (printed o ++ (if IsOptionSet p "header"%go then (fs ≫= print_field) ++ [newline] else []) ++ out)
         (logged o ++ (if bool_decide (err = []) then [] else ["FastCGI error: "%go ++ err]))).
Proof.
  intros Hrole Hd Hw Ha Henc Hf1 Hf2.
  destruct (command_request_answers p d ds input fuel role conn pdata _ fs out err Hd Hw Ha Henc eq_refl Hf1 Hf2)
    as (sent & st & k & conn' & Hsent & E & Hout & Herr & Hk & Hc).
  split; [exists sent, st, k, conn'; by rewrite E|].
  unfold cmdSendRequest. rewrite (proj2 (parseRole_name _ _) Hrole). erewrite st_bind_ret by reflexivity.
  rewrite E. erewrite st_bind_ret by reflexivity. rewrite Herr, Hout.
  destruct err as [|c err].
  - rewrite bool_decide_true by done. cbn [len length Z.of_nat Z.ltb Z.compare]. erewrite st_bind_ret by reflexivity.
    rewrite app_nil_r. destruct (IsOptionSet p "header"%go).
    + erewrite st_bind_ret by reflexivity. unfold print_bytes, Println, modify. cbn. by rewrite <- !app_assoc.
    + erewrite st_bind_ret by reflexivity. by destruct o.
  - rewrite bool_decide_false by done. rewrite (proj2 (Z.ltb_lt _ _)) by (rewrite len_cons; pose proof (len_nonneg _ err); lia).
    erewrite st_bind_ret by reflexivity. destruct (IsOptionSet p "header"%go).
    + erewrite st_bind_ret by reflexivity. unfold print_bytes, Println, modify. cbn. by rewrite <- !app_assoc.
    + erewrite st_bind_ret by reflexivity. by destruct o.
Qed.
End fastcgi_laws.

(** ** Witnesses *)

#[local] Existing Instance ascii_only.
#[local] Existing Instance Lifecycle.map_order.
#[local] Existing Instance ConfigService.no_environment.
#[local] Existing Instance ConfigService.one_suite.
#[local] Existing Instance ConfigService.example_context.

(** The command line of the configuration file of the example. *)
Definition example_command : CommandLine :=
  mkCommandLine [] (fun _ => false) (fun o => if bool_decide (o = "cfg-file"%go) then "tokens"%go else [])
    (fun _ => []) (fun _ => []).

(** A signal that rotates the logs of a server, then a server that fails and is started
    again. *)
Definition relay_cfg : ServerCfg :=
  mkServerCfg "relay"%go [mkListenerCfg ":5432"%go None false].

Definition example_life (s : Service (ProtocolObject (P := unit)))
  : Service (ProtocolObject (P := unit)) * History :=
  match rotateLogFiles ["web"%go] s with
  | (Ret _, s1) =>
      match servers s1 !! "relay"%go, stopServer "relay"%go s1 with
      | Some _, (Ret _, s2) =>
          let h := mkHistory ({["relay"%go]} ∪ ∅) [] [] in
          match startServer relay_cfg s2 with
          | (Ret _, s3) => (s3, mkHistory (failed h ∖ {["relay"%go]}) ["relay"%go] [])
          | _ => (s2, h)
          end
      | _, _ => (s1, no_history)
      end
  | _ => (s, no_history)
  end.

Lemma example_life_events s :
  service_life (sv_Servers (service_cfg example_config)) s (Ret tt) (fst (example_life s)) (snd (example_life s)).
Proof.
  exists (fst (example_life s)). split; [|by left]. unfold example_life.
  destruct (rotateLogFiles ["web"%go] s) as [[[]|e| |] s1] eqn:E1; try apply rtc_refl.
  apply rtc_l with (s1, no_history); [exact (signal_received _ _ _ _ _ E1)|].
  destruct (servers s1 !! "relay"%go) as [ls|] eqn:El; [|apply rtc_refl].
  destruct (stopServer "relay"%go s1) as [[[]|e| |] s2] eqn:E2; try apply rtc_refl.
  apply rtc_l with (s2, mkHistory ({["relay"%go]} ∪ ∅) [] []).
  { refine (server_failed _ _ _ _ no_history _ E2). rewrite El. by eexists. }
  destruct (startServer relay_cfg s2) as [[[]|e| |] s3] eqn:E3; try apply rtc_refl.
  apply rtc_once. refine (server_restarted _ relay_cfg _ _ _ _ _ E3).
  - vm_compute. right. left.
  - cbn. set_solver.
Qed.

Definition example_running : ST (Service (ProtocolObject (P := unit))) unit :=
  fun s => (Ret tt, fst (example_life s)).


(** An application that answers with a field, a body and an error. *)
Definition example_fields : list Field := [mkField "X-A"%go "1"%go].
Definition example_parts : list RespPart := [Err "careful"%go; Out " world"%go].
Definition example_answer : list FcgiRecord :=
  response_records 1 [] ((example_fields ≫= serialize_field) ++ [CR; FcgiHeader.LF] ++ "hello"%go) example_parts
    0 ProtocolStatusRequestComplete.

Definition example_request_command : CommandLine :=
  mkCommandLine "send-request"%go (fun o => bool_decide (o = "header"%go)) (fun _ => "responder"%go)
    (fun _ => "localhost:9000"%go) (fun _ => ["A=b=c"%go; "D"%go]).

#[local] Instance first_connection : FcgiClient.MapRange.
Proof.
  refine {| range_first := fun s => head (elements s) |}. intros s. destruct (elements s) as [|c l] eqn:E.
  - by apply elements_empty_inv, leibniz_equiv in E.
  - apply elem_of_elements. rewrite E. by left.
Defined.

Lemma send_request_prints_witness :
  cmdSendRequest example_request_command [Ret (peer None example_answer)] [] 100 no_output
  = (Ret tt, mkOutput ("X-A: 1"%go ++ [newline; newline] ++ "hello world"%go) ["FastCGI error: careful"%go]).
Proof.
  destruct (NewConnection (Ret (peer None example_answer))) as [conn|e| |] eqn:Hconn; [|by vm_compute in Hconn..].
  destruct (NameValuePairs_Encode (parseNameValuePairs (TrailingArgumentValues example_request_command "parameter"%go)))
    as [pdata|e| |] eqn:Hp; [|by vm_compute in Hp..].
  assert (length pdata < 100)%nat as Hl.
  { change pdata with (match Ret pdata with Ret d => d | _ => [] end). rewrite <- Hp. by_decision. }
  assert (writable conn) as Hw.
  { change conn with (match Ret conn with Ret c => c | _ => conn end). rewrite <- Hconn. unfold writable, live. vm_compute. by repeat split. }
  assert (answers_with conn example_fields "hello world"%go "careful"%go) as Ha.
  { destruct (write_records example_answer) as [d|e| |] eqn:Hd; [|by vm_compute in Hd..].
    exists "hello"%go, example_parts, d, io_EOF. fold example_answer. split; [by_decision|]. split; [by_decision|].
    split; [exact Hd|]. split; [|split; reflexivity].
    change conn with (match Ret conn with Ret c => c | _ => conn end). rewrite <- Hconn.
    change d with (match Ret d with Ret d => d | _ => [] end). rewrite <- Hd. vm_compute. reflexivity. }
  destruct (send_request_prints example_request_command (Ret (peer None example_answer)) [] [] 100 RoleResponder conn pdata
    example_fields "hello world"%go "careful"%go no_output eq_refl Hconn Hw Ha Hp Hl ltac:(cbn; lia)) as [_ E].
  exact E.
Defined.
